(* ===== verification/_CoqProject ===== *)
-Q . S2P
Prelude.v
Float.v
Disk.v
Dotenv.v
Config.v
Process.v
Models.v
Transport.v
PubSub.v
Channel.v
Websocket.v
Ledger.v
MempoolFeed.v
ClusterSnapshot.v
ClusterFeed.v
Delivery.v
Database.v
Retrievers.v
SystemEvents.v
NodeHealth.v
Watchers.v
ClusterRepo.v
ClusterRepoFacts.v
ClusterWrites.v
ClusterInv.v
ClusterHistory.v
ClusterVersions.v
ClusterThms.v
MempoolRepo.v
TxRepo.v
TxLookup.v
ClusterService.v
ClusterActive.v
ClusterServiceFacts.v
ClusterRounds.v
ClusterSync.v
ClusterPlacement.v
ClusterServiceThms.v
Frame.v
Gate.v
Backfill.v
Jitter.v
Consumer.v
Reconciler.v
Blocks.v
BlockTask.v
System.v
Bootstrap.v
Lifecycle.v
Shutdown.v
Metrics.v
Deps.v
Wiring.v
Startup.v
Restart.v
Sampling.v
Gauges.v
Schema.v
Streams.v
Http.v
