(* ===== verification/Prelude.v ===== *)
(** * Cluster mempool observer: verification library

    The program watches a Bitcoin node, records which transactions enter and leave its
    mempool, groups them into the clusters the node computes, and serves both over HTTP
    and websockets.  This library models the part of it that keeps state and proves that
    the parts agree with each other.  Paths below are relative to [src/].

    ** The parts and how they interact

    Watchers poll the node and hand its mempool to the mempool ledger, which keeps the
    live set and a bounded journal of transitions.  Once a second the mempool reconciler
    takes the journal, writes it to the database in one transaction, commits the prefix it
    wrote, announces the net change, queues incomplete transactions for backfill and
    resyncs the clusters of what it added or removed.  Independently the block service
    applies mined blocks in height order: it stores the block, drops its transactions from
    the ledger and confirms or trims their clusters.  The block gate keeps the two apart.
    The cluster service owns the stored clusters, which are versioned and never rewritten,
    and tells the cluster snapshot about every change; the snapshot publishes events from
    which websocket clients maintain their own copy.  At start-up the server waits for the
    node, and the bootstrap compares what the database remembers with it; at shutdown block
    application and the backfill consumer are drained.  Samplers record counters, gauges
    and process figures; the HTTP routes read what is stored.

    ** Files

    Foundations:
    - [Prelude]: results, machine integers, enumeration orders, batches, sorting, tactics.
    - [Float]: sums and products in binary64 as exact results rounded once.
    - [Models]: [shared/src/models.rs], [shared/src/events.rs], [observer/src/error.rs].
    - [Database]: the rows of [api/src/db/models.rs] as records, the tables as finite maps
      ([Db]), a connection with statements, transactions and faults, and the triples
      ([triple], [repo_triple], [runs]) the repositories are verified with.
    - [Schema]: [api/src/db/schema.rs], the tables by column with their types and defaults,
      and the structs of [models.rs] that are written to them.

    The mempool:
    - [Ledger]: [shared/src/snapshot/mempool.rs] ([Inner], its operations, and the flush
      protocol as the relation [step] between ledger, database and batch).
    - [MempoolRepo]: [mempool_ledger.rs] and [mempool_delta.rs] of the repositories.
    - [Reconciler]: [api/src/services/mempool_reconciler.rs], a tick on the whole [Node].
    - [Backfill], [Consumer]: [api/src/services/tx_backfill.rs], the queue, stages and
      retries, and the loop that consumes the queue, with its permits and its shutdown.
      [Jitter]: [shared/src/backoff.rs] and the delays it makes of the retry schedule.

    The clusters:
    - [ClusterRepo]: [api/src/db/repositories/cluster.rs] and [cluster_membership.rs], one
      definition per statement.  [ClusterRepoFacts] characterizes the reads,
      [ClusterWrites] each write, [ClusterInv] the invariant of the tables,
      [ClusterHistory] what never changes, [ClusterVersions] that no version is skipped;
      [ClusterThms] has the theorems.
    - [ClusterService]: [api/src/services/cluster.rs], every handler as a function on the
      [World] (connection, ledger, snapshot, bus, number of calls made, errors logged).
      [ClusterActive] views the active clusters as a map, [ClusterServiceFacts] does the
      change sets, [ClusterRounds] and [ClusterSync] whole rounds, [ClusterPlacement] the
      node's grouping, [Frame] what the service leaves alone; [ClusterServiceThms] has the
      theorems.
    - [ClusterSnapshot]: [shared/src/snapshot/cluster.rs],
      [api/src/services/cluster_delta.rs], and [applyDelta] of the web client.

    Blocks, the node and the life of the process:
    - [TxRepo]: [transaction.rs] and [block.rs] of the repositories.
    - [Gate]: [api/src/infra/block_gate.rs], the interleavings of a tick and a block.
    - [Blocks]: [api/src/services/block.rs].  [BlockTask]: the same code from one wait to the
      next, as a state machine.
    - [Retrievers]: [observer/src/retrievers/], [clients/rpc_client.rs] and the conversions
      of [shared/src/models.rs].  [Transport]: [observer/src/clients/], the pool of
      connections calls share, the client over it and the ZMQ handshake.  [Watchers]:
      [observer/src/watchers/], the feerate diagram and its snapshot, the ZMQ loop.
    - [NodeHealth]: [api/src/services/node_health.rs], [node_status.rs],
      [infra/readiness.rs], [infra/node_wait.rs].  [SystemEvents]: the event log's
      repository and service.
    - [Bootstrap], [Startup]: [api/src/services/bootstrap.rs] and the start-up task of
      [api/src/main.rs].  [Lifecycle]: [api/src/infra/lifecycle.rs] and the apply lock.
      [Shutdown]: the shutdown future of [main.rs] with its limits and times.
    - [Deps], [Wiring]: [api/src/infra/deps.rs], [state.rs], [observer/src/runner.rs] and
      what [run] of [main.rs] builds and spawns, over a heap of shared cells.
    - [System]: the background tasks of [api/src/main.rs] over one shared state, the block task
      in the turns of [BlockTask].
      [Restart]: lives of the process, one after another, over the tables they share.
    - [Dotenv], [Config]: [shared/src/env.rs] and every [from_env].

    What is served and sampled:
    - [PubSub]: [shared/src/pubsub.rs], [subjects.rs], [observer/src/publisher.rs],
      [api/src/services/pubsub.rs].  [Channel]: what a subscription counts and passes on, over
      [tokio]'s broadcast channel.  [Websocket]: [api/src/controllers/websocket/mod.rs].
      [Streams]: [streams.rs] beside it, and a client of the chain tip; [MempoolFeed] and
      [ClusterFeed]: clients of the two delta streams; [Delivery]: the rounds of the
      cluster service, the channel, the subscription tasks and the outbound queues of any
      number of clients as one machine.
    - [TxLookup]: [api/src/services/transaction.rs] and its controller.  [Http]: the router
      and the other controllers.
    - [Sampling], [Gauges]: [api/src/services/counter_sample.rs], [gauge_sample.rs],
      [home.rs], [resolution.rs] and their repositories.
    - [Disk], [Process]: [api/src/infra/disk.rs] and [process.rs].  [Metrics]:
      [shared/src/metrics.rs], [api/src/infra/metrics.rs], the instrumented query and call,
      and the counters the alerts watch.

    ** What is shown

    - No transition is lost: the journal is an exact log of the live set; a tick moves it
      to the database once, in order, or leaves it; the database write implements the
      ledger's flush; a restart catches up with the node; the samples count every row once.
    - The stored clusters are always consistent and disjoint, their history only grows,
      no version is skipped, the two forms of the lookup agree, and writes are all or nothing
      under any fault.
    - The snapshot and every client mirror the stored clusters, and a round that meets no
      error reaches the node's grouping.  The one exception is an insert of more clusters than
      one batch holds (10,000) that fails: the batches before the failing one are committed and
      the snapshot is told of none ([ClusterServiceThms.failed_batch_keeps_earlier_ones]).
    - The whole server keeps all of this together under any interleaving of its tasks
      ([System.server_keeps_faith]), also in the middle of a block, and over any sequence of crashes and restarts
      ([Restart.restart_heals]).  Every component of the process holds the same state
      ([Wiring.services_share_one_state]), which is what lets one [Node] stand for it.
    - A tick and a block do not overlap before the gate's ceiling, and a waiting block is
      admitted.  Rounds, ticks, catching up and the start-up return; heights are stored
      without holes.  Shutdown stops blocks, drains the consumer and returns in time.
    - Connections to the node are never shared by two calls; what a lagging subscriber
      missed is counted; retries stay within a fifth of their schedule, in floating point;
      the counters the alerts watch count every failure, and except for those of failed polls
      exist from the start; instrumentation changes nothing of what it measures.
    - Clients end where the server is: of the chain tip always, of the clusters as long as
      they never fall more than the channel's capacity behind, of the mempool except for a
      transaction that comes and goes within one batch around the moment the snapshot is
      read.  Both exceptions are shown by examples, the first by
      [Delivery.lagging_client_drifts]: nothing corrects a client that missed an event.
    - Every row the code builds fits its columns.  The event log is exactly the node's changes
      of reachability; readiness gates every data route, no route writes, and errors are
      answered without their text.
    - Configuration, [.env] files and [/proc] are read as they were written; the stack walk
      of the data directory computes the recursive sum.

    ** How it is modelled

    Functions whose loops are not structural (the work queue of the cluster service, the
    passes of catching up, the directory walk) take a fuel and return [None] without enough
    of it.  The theorems that they return give a bound from which every fuel has the same
    result; no bound is fixed in advance.  What the program cannot control is a parameter:
    - [EnumOrder]: the order in which a [HashMap] or an unordered query enumerates;
    - [Env]: the clock, and a fault of the pool or of a statement at any step, the final
      COMMIT included, which then rolls back (sequence values stay consumed);
    - [BitcoinUnits]: the weight-to-vsize conversion of the [bitcoin] crate; the parsers and
      amounts of the RPC library in [Retrievers];
    - [Codec] and [Broadcast] in [PubSub]: serialization, and what a broadcast channel hands a
      subscriber that may lag; [BroadcastRing] in [Channel]: what a receiver of [tokio]'s
      channel finds, with the documented laws (a lag is reported only beyond the capacity, and
      moves the receiver to a message that is still held), from which [Channel.ring] derives
      the other; [parse] in [Websocket]: client frames;
    - [parse_url], [send] and [send_batch] in [Transport]: the HTTP connection of the RPC
      library; [instant] in [Metrics] and [Blocks]: the monotonic clock;
    - the node's answers, as functions of the number of calls made, so that they may
      change between any two calls; the theorems that need more say so (an answer about a
      transaction contains it, amounts fit their columns, one hash has one height;
      [recovers]: an outage ends);
    - [meanwhile] and [preempted]: what the watchers log and what the gate reports while a
      batch is being written; [jittered]: the delay of a retry, computed in [Jitter] from
      the hash of its key, which stays a parameter there.
    Integers are [Z] with the wrapping casts written out where a value may leave its
    width; the [i32] version of a cluster and identity values are unbounded outside [Schema].  Times are
    exact numbers; PostgreSQL's rounding to microseconds is left out.  Floating point is
    computed in [Process] and [Jitter].  Calls on one connection run in sequence: concurrency is
    modelled where the program relies on it (the gate, the ledger during a flush, the apply
    lock, the consumer, the connections and the feeds) and, in [System], between the turns of
    the tasks: the block task from wait to wait, a poll, a backfill and a tick as one turn each,
    a cluster round inside its turn.  An aborted task of a websocket connection runs on until
    its next wait.  Metrics are modelled in
    [Metrics], [Disk] and [Process] and left out of the other components, whose calls
    [Metrics] shows to be unchanged by them; of logging only the error lines of the cluster
    service are kept.

    ** Not modelled

    Sockets and third-party clients, the construction of the connection pool, the runner of
    the migrations, the set-up of logging, the rendering of metrics, [Debug] and [Display]
    texts that only reach the log, the JSON of events, frames and HTTP answers, which [serde]
    derives, reading whole rows back, which [diesel] derives, the rest of the web interface, and
    the test kit: calls into libraries, or code that decides nothing.  A tick falls between two
    turns of a block, which is more than the gate allows up to its ceiling; statements of two
    tasks that land inside each other's cluster round or batch write would need the isolation
    levels of the database. *)

From Corelib Require Export ssreflect.
From stdpp Require Export sorting.
From stdpp Require Export base numbers option list strings gmap fin_maps fin_sets
  fin_map_dom.

#[global] Open Scope general_if_scope.
#[global] Set SsrOldRewriteGoalsOrder.

Create HintDb observer discriminated.
Create Rewrite HintDb observer.

Declare Scope observer_scope.
Delimit Scope observer_scope with obs.
Global Open Scope observer_scope.

(** ** Results *)

(** Rust's [Result<A, E>]. *)
Inductive result (E A : Type) : Type :=
| Ok (a : A)
| Err (e : E).
Arguments Ok {E A} a.
Arguments Err {E A} e.

#[global] Instance result_eq_dec {E A} `{EqDecision E, EqDecision A} :
  EqDecision (result E A).
Proof. solve_decision. Defined.

#[global] Instance result_mret {E} : MRet (result E) := @Ok E.
#[global] Instance result_mbind {E} : MBind (result E) :=
  λ A B f r, match r with Ok a => f a | Err e => Err e end.

(** [Result::ok]. *)
Definition result_ok {E A} (r : result E A) : option A :=
  match r with Ok a => Some a | Err _ => None end.

(** [Result::map_err]. *)
Definition map_err {E E' A} (f : E → E') (r : result E A) : result E' A :=
  match r with Ok a => Ok a | Err e => Err (f e) end.

(** ** Machine integers

    A [w]-bit integer is a [Z]; [as] casts and the wrapping arithmetic of
    release builds are written out. *)

Definition to_u64 (z : Z) : Z := (z `mod` 2 ^ 64)%Z.
Definition to_i64 (z : Z) : Z := ((z + 2 ^ 63) `mod` 2 ^ 64 - 2 ^ 63)%Z.
Definition to_i32 (z : Z) : Z := ((z + 2 ^ 31) `mod` 2 ^ 32 - 2 ^ 31)%Z.
Definition to_i16 (z : Z) : Z := ((z + 2 ^ 15) `mod` 2 ^ 16 - 2 ^ 15)%Z.

Definition is_u64 (z : Z) : Prop := (0 ≤ z < 2 ^ 64)%Z.
Definition is_i64 (z : Z) : Prop := (- 2 ^ 63 ≤ z < 2 ^ 63)%Z.

(** [iter().sum::<i64>()] as a release build computes it. *)
Definition sum_i64 (l : list Z) : Z := foldl (λ acc x, to_i64 (acc + x)) 0%Z l.

(** The sum without wrap-around, against which the two above are specified. *)
Definition sum_Z (l : list Z) : Z := foldr Z.add 0%Z l.

Ltac Zpow_lia := change (2 ^ 64)%Z with 18446744073709551616%Z in *;
  change (2 ^ 63)%Z with 9223372036854775808%Z in *;
  change (2 ^ 32)%Z with 4294967296%Z in *;
  change (2 ^ 31)%Z with 2147483648%Z in *;
  change (2 ^ 16)%Z with 65536%Z in *;
  change (2 ^ 15)%Z with 32768%Z in *; lia.

Lemma to_i64_range z : is_i64 (to_i64 z).
Proof.
  unfold is_i64, to_i64. pose proof (Z.mod_pos_bound (z + 2 ^ 63) (2 ^ 64)).
  Zpow_lia.
Qed.

Lemma to_u64_range z : is_u64 (to_u64 z).
Proof. unfold is_u64, to_u64. apply Z.mod_pos_bound. lia. Qed.

Lemma to_i64_id z : is_i64 z → to_i64 z = z.
Proof. unfold is_i64, to_i64. intros. rw Z.mod_small; Zpow_lia. Qed.

Lemma to_u64_id z : is_u64 z → to_u64 z = z.
Proof. unfold is_u64, to_u64. intros. rw Z.mod_small; Zpow_lia. Qed.

Lemma to_i16_id z : (- 2 ^ 15 ≤ z < 2 ^ 15)%Z → to_i16 z = z.
Proof. unfold to_i16. intros. rw Z.mod_small; Zpow_lia. Qed.

Lemma to_i32_id z : (- 2 ^ 31 ≤ z < 2 ^ 31)%Z → to_i32 z = z.
Proof. unfold to_i32. intros. rw Z.mod_small; Zpow_lia. Qed.

(** [x as i64 as u64] is the identity on [u64]. *)
Lemma u64_i64_roundtrip z : is_u64 z → to_u64 (to_i64 z) = z.
Proof.
  unfold is_u64, to_u64, to_i64. intros Hz.
  rw Zminus_mod_idemp_l.
  replace (z + 2 ^ 63 - 2 ^ 63)%Z with z by lia.
  rw Z.mod_small; Zpow_lia.
Qed.

Lemma to_u64_add_l a b : to_u64 (to_u64 a + b) = to_u64 (a + b).
Proof. apply Zplus_mod_idemp_l. Qed.

Lemma to_i64_add_l a b : to_i64 (to_i64 a + b) = to_i64 (a + b).
Proof.
  unfold to_i64.
  replace ((a + 2 ^ 63) `mod` 2 ^ 64 - 2 ^ 63 + b + 2 ^ 63)%Z
    with ((a + 2 ^ 63) `mod` 2 ^ 64 + b)%Z by lia.
  rw Zplus_mod_idemp_l. do 2 f_equal; lia.
Qed.

Lemma sum_Z_app l1 l2 : sum_Z (l1 ++ l2) = (sum_Z l1 + sum_Z l2)%Z.
Proof. induction l1 as [|x l1 IH]; simpl; [done|]. rw IH. lia. Qed.

#[global] Instance sum_Z_perm : Proper ((≡ₚ) ==> (=)) sum_Z.
Proof. intros l1 l2 Hp. induction Hp; simpl; lia. Qed.

(** Wrapping after every addition is wrapping once at the end. *)
Lemma sum_i64_wraps l : sum_i64 l = to_i64 (sum_Z l).
Proof.
  assert (∀ l acc, foldl (λ a x, to_i64 (a + x)) (to_i64 acc) l
                   = to_i64 (acc + sum_Z l)) as Hgen.
  { clear l. intros l; induction l as [|x l IH]; intros acc; simpl.
    - by rw Z.add_0_r.
    - rw to_i64_add_l IH. f_equal; lia. }
  unfold sum_i64. change 0%Z with (to_i64 0) at 1. by rw Hgen.
Qed.

#[global] Instance sum_i64_perm : Proper ((≡ₚ) ==> (=)) sum_i64.
Proof. intros l1 l2 Hp. rw !sum_i64_wraps. by rw Hp. Qed.

(** ** Enumeration order

    The order in which a [HashMap] or [HashSet] is iterated, and in which a
    [SELECT] without [ORDER BY] returns its rows, is unspecified.  Every such
    enumeration goes through [shuffle], so the theorems hold for any order. *)
Class EnumOrder := {
  shuffle : ∀ {A : Type}, list A → list A;
  shuffle_perm : ∀ {A : Type} (l : list A), shuffle l ≡ₚ l;
}.

(** A concrete order, used by the witnesses. *)
Definition stored_order : EnumOrder :=
  {| shuffle := λ _ l, l; shuffle_perm := λ _ l, reflexivity l |}.

Section enumeration.
Context `{EnumOrder}.

(** [set.iter()] and [map.iter()]. *)
Definition iter_set `{Countable K} (s : gset K) : list K := shuffle (elements s).
Definition iter_map `{Countable K} {V} (m : gmap K V) : list (K * V) :=
  shuffle (map_to_list m).

Lemma elem_of_shuffle {A} (x : A) l : x ∈ shuffle l ↔ x ∈ l.
Proof. by rw (shuffle_perm l). Qed.

Lemma shuffle_nil {A} : shuffle ([] : list A) = [].
Proof. apply Permutation_nil_r, shuffle_perm. Qed.

Lemma shuffle_length {A} (l : list A) : length (shuffle l) = length l.
Proof. by rw (shuffle_perm l). Qed.

Lemma elem_of_iter_set `{Countable K} (x : K) s : x ∈ iter_set s ↔ x ∈ s.
Proof. unfold iter_set. by rw elem_of_shuffle elem_of_elements. Qed.

Lemma NoDup_iter_set `{Countable K} (s : gset K) : NoDup (iter_set s).
Proof. unfold iter_set. rw shuffle_perm. apply NoDup_elements. Qed.

Lemma length_iter_set `{Countable K} (s : gset K) : length (iter_set s) = size s.
Proof. unfold iter_set. by rw shuffle_length. Qed.

Lemma elem_of_iter_map `{Countable K} {V} (m : gmap K V) k v :
  (k, v) ∈ iter_map m ↔ m !! k = Some v.
Proof. unfold iter_map. by rw elem_of_shuffle elem_of_map_to_list. Qed.

Lemma iter_map_perm `{Countable K} {V} (m : gmap K V) : iter_map m ≡ₚ map_to_list m.
Proof. apply shuffle_perm. Qed.

Lemma NoDup_fst_iter_map `{Countable K} {V} (m : gmap K V) : NoDup (fst <$> iter_map m).
Proof. rw iter_map_perm. apply NoDup_fst_map_to_list. Qed.

Lemma iter_map_empty `{Countable K} {V} : iter_map (∅ : gmap K V) = [].
Proof. unfold iter_map. by rw map_to_list_empty shuffle_nil. Qed.
End enumeration.

Lemma filter_nil_iff {A} (P : A → Prop) `{∀ x, Decision (P x)} (l : list A) :
  filter P l = [] ↔ ∀ x, x ∈ l → ¬ P x.
Proof.
  split.
  - intros Hf x Hx HP. by apply (filter_nil_not_elem_of P l x).
  - intros Hall. destruct (filter P l) as [|x l'] eqn:E; [done|].
    assert (x ∈ filter P l) as Hx by (rw E; left).
    apply list_elem_of_filter in Hx as [HP Hx]. by destruct (Hall x).
Qed.

Lemma filter_all {A} (P : A → Prop) `{∀ x, Decision (P x)} (l : list A) :
  Forall P l → filter P l = l.
Proof.
  induction 1 as [|x l Hx Hl IH]; [done|]. by rw filter_cons_True // IH.
Qed.

(** Elements of a list with distinct keys are told apart by their keys. *)
Lemma NoDup_key_eq {A K} (key : A → K) (l : list A) x y :
  NoDup (key <$> l) → x ∈ l → y ∈ l → key x = key y → x = y.
Proof.
  intros Hnd [i Hi]%list_elem_of_lookup [j Hj]%list_elem_of_lookup Heq.
  assert (i = j) as ->; [|congruence].
  eapply NoDup_lookup; [exact Hnd|by rw list_lookup_fmap Hi|by rw list_lookup_fmap Hj Heq].
Qed.

Lemma omap_cons {A B} (f : A → option B) x l : omap f (x :: l) = option_list (f x) ++ omap f l.
Proof. simpl. by destruct (f x). Qed.

(** ** Slices: [slice.chunks(n)] *)

(** Splits [l] into pieces of at most [n] elements ([n > 0] in every call). *)
Fixpoint chunks_go {A} (fuel n : nat) (l : list A) : list (list A) :=
  match fuel, l with
  | _, [] => []
  | O, _ => []
  | S fuel, _ => take n l :: chunks_go fuel n (drop n l)
  end.
Definition slice_chunks {A} (n : nat) (l : list A) : list (list A) :=
  chunks_go (length l) n l.

Lemma concat_chunks_go {A} fuel n (l : list A) :
  0 < n → length l ≤ fuel → concat (chunks_go fuel n l) = l.
Proof.
  intros Hn. revert l. induction fuel as [|fuel IH]; intros l Hl.
  - by destruct l; simpl in *; [|lia].
  - destruct l as [|x l]; [done|].
    change (chunks_go (S fuel) n (x :: l))
      with (take n (x :: l) :: chunks_go fuel n (drop n (x :: l))).
    simpl concat. rw IH; [apply take_drop|].
    rw length_drop. simpl in *. lia.
Qed.

Lemma concat_slice_chunks {A} n (l : list A) :
  0 < n → concat (slice_chunks n l) = l.
Proof. intros. by apply concat_chunks_go. Qed.

Lemma chunks_go_bound {A} fuel n (l : list A) c :
  c ∈ chunks_go fuel n l → length c ≤ n.
Proof.
  revert l. induction fuel as [|fuel IH]; intros [|x l]; simpl;
    try by intros ?%not_elem_of_nil.
  intros [->|?]%elem_of_cons; [rw length_take; simpl; lia|eauto].
Qed.

Lemma slice_chunks_single {A} n (l : list A) :
  l ≠ [] → length l ≤ n → slice_chunks n l = [l].
Proof.
  destruct l as [|x l]; [done|]. intros _ Hl. unfold slice_chunks. cbn [length chunks_go].
  rw take_ge // drop_ge //. by destruct (length l).
Qed.

Lemma slice_chunks_bound {A} n (l : list A) c :
  c ∈ slice_chunks n l → length c ≤ n.
Proof. apply chunks_go_bound. Qed.

(** ** [UPDATE ... SET ... WHERE] over a table *)

Definition update_where `{Countable K} {V} (P : K → V → bool) (f : V → V)
    (m : gmap K V) : gmap K V :=
  map_imap (λ k v, Some (if P k v then f v else v)) m.

Lemma lookup_update_where `{Countable K} {V} (P : K → V → bool) f (m : gmap K V) k :
  update_where P f m !! k = (λ v, if P k v then f v else v) <$> m !! k.
Proof.
  unfold update_where. rw map_lookup_imap. by destruct (m !! k).
Qed.

Lemma dom_update_where `{Countable K} {V} (P : K → V → bool) f (m : gmap K V) :
  dom (update_where P f m) = dom m.
Proof.
  apply set_eq. intros k. rw !elem_of_dom lookup_update_where.
  by rw fmap_is_Some.
Qed.

(** ** [ORDER BY]: sorting by a key *)

Definition key_le {A} (key : A → Z) (x y : A) : Prop := (key x ≤ key y)%Z.
#[global] Instance key_le_dec {A} (key : A → Z) : RelDecision (key_le key).
Proof. intros x y. unfold key_le. apply _. Defined.
#[global] Instance key_le_total {A} (key : A → Z) : Total (key_le key).
Proof. intros x y. unfold key_le. lia. Qed.
#[global] Instance key_le_trans {A} (key : A → Z) : Transitive (key_le key).
Proof. intros x y z. unfold key_le. lia. Qed.

Definition sort_by {A} (key : A → Z) (l : list A) : list A :=
  merge_sort (key_le key) l.

Lemma sort_by_perm {A} (key : A → Z) l : sort_by key l ≡ₚ l.
Proof. apply merge_sort_Permutation. Qed.

Lemma elem_of_sort_by {A} (key : A → Z) x l : x ∈ sort_by key l ↔ x ∈ l.
Proof. by rw (sort_by_perm key l). Qed.

Lemma sort_by_sorted {A} (key : A → Z) l : StronglySorted (key_le key) (sort_by key l).
Proof. apply StronglySorted_merge_sort; apply _. Qed.

Lemma StronglySorted_by_index {A} (R : A → A → Prop) (l : list A) :
  (∀ i j x y, l !! i = Some x → l !! j = Some y → i < j → R x y) → StronglySorted R l.
Proof.
  induction l as [|x l IH]; intros Hl; constructor.
  - apply IH. intros i j y z Hi Hj Hij. apply (Hl (S i) (S j)); [done..|lia].
  - apply Forall_lookup. intros i y Hi. apply (Hl 0 (S i)); [done..|lia].
Qed.

(** Rows with distinct keys have only one sorted order. *)
Lemma sort_by_unique {A} (key : A → Z) l l' :
  (∀ x y, x ∈ l' → y ∈ l' → key x = key y → x = y) →
  l ≡ₚ l' → StronglySorted (key_le key) l' → sort_by key l = l'.
Proof.
  intros Hinj Hp Hs. apply (StronglySorted_unique_strong (key_le key)).
  - intros x y Hx Hy Hxy Hyx. apply Hinj; [|done|unfold key_le in *; lia].
    by rw -Hp -(sort_by_perm key l).
  - apply sort_by_sorted.
  - done.
  - by rw sort_by_perm.
Qed.

(** ** Automation *)

#[export] Hint Rewrite @elem_of_shuffle @elem_of_iter_set @elem_of_sort_by
  @lookup_update_where : observer.
#[export] Hint Resolve to_i64_range to_u64_range : observer.

(** Case analysis on every boolean guard and [decide] in sight. *)
Ltac case_guards :=
  repeat match goal with
  | |- context [decide ?P] => destruct (decide P)
  | H : context [decide ?P] |- _ => destruct (decide P)
  | |- context [bool_decide ?P] => destruct (bool_decide_reflect P)
  | H : context [bool_decide ?P] |- _ => destruct (bool_decide_reflect P)
  end.
