(* ===== verification/Float.v ===== *)
(** * Binary64 arithmetic on non-negative numbers

    The numbers the code computes with are the binary64 format of the library's [SpecFloat].
    Here the sums and products of non-negative normal numbers are related to one rounding
    function on integers, [rnd]: they are the exact results rounded to 53 significant bits, to
    nearest, ties to even, and rounding preserves the order.  Magnitudes are integers in units
    of [2 ^ - SCALE]. *)

From Stdlib Require Import SpecFloat.
From S2P Require Import Prelude.

Open Scope Z_scope.

Module Float.

Definition f64 : Type := spec_float.
Definition f64_add : f64 → f64 → f64 := SFadd 53 1024.
Definition f64_sub : f64 → f64 → f64 := SFsub 53 1024.
Definition f64_mul : f64 → f64 → f64 := SFmul 53 1024.
Definition f64_div : f64 → f64 → f64 := SFdiv 53 1024.

(** The nearest number to an integer. *)
Definition of_Z (n : Z) : f64 := binary_normalize 53 1024 n 0 false.

(** ** Rounding integers *)

(** [v / 2 ^ k] to the nearest integer, ties to even. *)
Definition rne (v k : Z) : Z :=
  let q := v / 2 ^ k in
  match 2 * (v mod 2 ^ k) ?= 2 ^ k with
  | Lt => q
  | Eq => if Z.even q then q else q + 1
  | Gt => q + 1
  end.

(** [v] to 53 significant bits. *)
Definition rnd (v : Z) : Z := let k := Z.max 0 (Z.log2 v - 52) in rne v k * 2 ^ k.

Lemma pow2_pos k : 0 ≤ k → 0 < 2 ^ k.
Proof. intros Hk. by apply Z.pow_pos_nonneg. Qed.

Lemma rne_bounds v k : v / 2 ^ k ≤ rne v k ≤ v / 2 ^ k + 1.
Proof. unfold rne. destruct (_ ?= _); [destruct (Z.even _)|..]; lia. Qed.

Lemma rne_mono v w k : 0 ≤ k → v ≤ w → rne v k ≤ rne w k.
Proof.
  intros Hk Hle. pose proof (pow2_pos k Hk) as Hp.
  pose proof (Z.div_le_mono v w _ Hp Hle) as Hq.
  pose proof (rne_bounds v k). pose proof (rne_bounds w k).
  destruct (decide (v / 2 ^ k = w / 2 ^ k)) as [E|]; [|lia].
  assert (v mod 2 ^ k ≤ w mod 2 ^ k) as Hr.
  { pose proof (Z.div_mod v (2 ^ k)). pose proof (Z.div_mod w (2 ^ k)).
    rw E in H1. lia. }
  unfold rne. rw E.
  destruct (Z.compare_spec (2 * (v mod 2 ^ k)) (2 ^ k)), (Z.compare_spec (2 * (w mod 2 ^ k)) (2 ^ k));
    try destruct (Z.even _); lia.
Qed.

Lemma rne_exact q k : 0 ≤ k → rne (q * 2 ^ k) k = q.
Proof.
  intros Hk. pose proof (pow2_pos k Hk) as Hp. unfold rne.
  rw Z.mod_mul; [|lia]. rw Z.div_mul; [|lia].
  destruct (Z.compare_spec (2 * 0) (2 ^ k)); lia.
Qed.

Lemma rne_scale v k j : 0 ≤ k → 0 ≤ j → rne (v * 2 ^ j) (k + j) = rne v k.
Proof.
  intros Hk Hj. pose proof (pow2_pos k Hk). pose proof (pow2_pos j Hj). unfold rne.
  rw Z.pow_add_r; [|lia..]. rw Z.div_mul_cancel_r; [|lia..].
  rw Zmult_mod_distr_r.
  assert ((2 * (v mod 2 ^ k * 2 ^ j) ?= 2 ^ k * 2 ^ j) = (2 * (v mod 2 ^ k) ?= 2 ^ k)) as ->; [|done].
  rw Z.mul_assoc. symmetry. apply Zmult_compare_compat_r. lia.
Qed.

Lemma rnd_small v : Z.log2 v ≤ 52 → rnd v = v.
Proof.
  intros Hv. unfold rnd. rw Z.max_l; [|lia].
  pose proof (rne_exact v 0 (Z.le_refl 0)) as Hr. rw Z.pow_0_r Z.mul_1_r in Hr. by rw Hr Z.mul_1_r.
Qed.

(** A number of at most 53 significant bits is not changed. *)
Lemma rnd_exact q k : 0 ≤ q < 2 ^ 53 → 0 ≤ k → rnd (q * 2 ^ k) = q * 2 ^ k.
Proof.
  intros Hq Hk. destruct (decide (q = 0)) as [->|Hne]; [done|].
  assert (Z.log2 q < 53) as Hlog by (apply Z.log2_lt_pow2; lia).
  assert (Z.log2 (q * 2 ^ k) = k + Z.log2 q) as Hl by (apply Z.log2_mul_pow2; lia).
  unfold rnd. set (j := Z.max 0 (Z.log2 (q * 2 ^ k) - 52)). assert (0 ≤ j ≤ k) as Hj by lia.
  replace (2 ^ k) with (2 ^ (k - j) * 2 ^ j) by (rw -Z.pow_add_r; [f_equal; lia|lia..]).
  rw Z.mul_assoc. by rw rne_exact; [|lia].
Qed.

Lemma rnd_scale v j : 0 < v → 0 ≤ j → rnd (v * 2 ^ j) = rnd v * 2 ^ j.
Proof.
  intros Hv Hj. destruct (decide (Z.log2 v < 53)) as [Hs|Hb].
  - assert (v < 2 ^ 53) by (apply Z.log2_lt_pow2; lia).
    rw rnd_exact; [|lia..]. by rw rnd_small; [|lia].
  - unfold rnd. rw Z.log2_mul_pow2; [|lia..].
    replace (Z.max 0 (j + Z.log2 v - 52)) with (Z.max 0 (Z.log2 v - 52) + j) by lia.
    set (k := Z.max 0 (Z.log2 v - 52)). rw rne_scale; [|lia..]. rw Z.pow_add_r; lia.
Qed.

(** Above [2 ^ 52] the rounded number has 53 bits, or is the next power of two. *)
Lemma rnd_big v :
  52 ≤ Z.log2 v → let k := Z.log2 v - 52 in
  rnd v = rne v k * 2 ^ k ∧ 2 ^ 52 ≤ rne v k ≤ 2 ^ 53.
Proof.
  intros Hl k. assert (0 < v) as Hv.
  { destruct (decide (0 < v)); [done|]. rw Z.log2_nonpos in Hl; lia. }
  pose proof (Z.log2_spec v Hv) as [V1 V2].
  split; [unfold rnd; by replace (Z.max 0 (Z.log2 v - 52)) with k by lia|].
  assert (0 ≤ k) as Hk by lia.
  rw -(rne_exact (2 ^ 52) k Hk) -(rne_exact (2 ^ 53) k Hk) -!Z.pow_add_r; [|lia..].
  replace (52 + k) with (Z.log2 v) by lia. replace (53 + k) with (Z.succ (Z.log2 v)) by lia.
  split; apply rne_mono; lia.
Qed.

Lemma rnd_nonneg v : 0 ≤ v → 0 ≤ rnd v.
Proof.
  intros Hv. unfold rnd. set (k := Z.max _ _). pose proof (rne_bounds v k).
  assert (0 < 2 ^ k) by (apply pow2_pos; lia). assert (0 ≤ v / 2 ^ k) by by apply Z.div_pos. nia.
Qed.

(** Rounding preserves the order. *)
Lemma rnd_mono v w : 0 ≤ v ≤ w → rnd v ≤ rnd w.
Proof.
  intros Hle. destruct (decide (v = 0)) as [->|Hv]; [apply rnd_nonneg; lia|].
  pose proof (Z.log2_le_mono v w ltac:(lia)) as Hlog.
  destruct (decide (Z.log2 w ≤ 52)) as [Hw|Hw]; [rw !rnd_small; lia|].
  set (k := Z.log2 w - 52). assert (0 < 2 ^ k) by (apply pow2_pos; lia).
  destruct (rnd_big w) as [-> Rw]; [lia|]. fold k in Rw |- *.
  destruct (decide (Z.log2 v = Z.log2 w)) as [E|Hlt].
  { unfold rnd. rw E. replace (Z.max 0 (Z.log2 w - 52)) with k by lia.
    apply Z.mul_le_mono_nonneg_r; [lia|apply rne_mono; lia]. }
  trans (2 ^ Z.log2 w).
  2:{ replace (Z.log2 w) with (52 + k) by lia. rw Z.pow_add_r; [|lia..]. nia. }
  trans (2 ^ Z.succ (Z.log2 v)); [|apply Z.pow_le_mono_r; lia].
  destruct (decide (Z.log2 v < 52)) as [Hs|Hb].
  { rw rnd_small; [|lia]. pose proof (Z.log2_spec v). lia. }
  set (j := Z.log2 v - 52). assert (0 < 2 ^ j) by (apply pow2_pos; lia).
  destruct (rnd_big v) as [-> Rv]; [lia|]. fold j in Rv |- *.
  replace (Z.succ (Z.log2 v)) with (53 + j) by lia. rw Z.pow_add_r; [|lia..]. nia.
Qed.

(** ** Shifting right *)

Lemma digits2_log2 p : Z.pos (digits2_pos p) = Z.log2 (Z.pos p) + 1.
Proof.
  induction p as [p IH|p IH|]; simpl digits2_pos; [..|done].
  - rw Pos2Z.inj_succ IH. change (Z.pos p~1) with (2 * Z.pos p + 1). by rw Z.log2_succ_double; [lia|lia].
  - rw Pos2Z.inj_succ IH. change (Z.pos p~0) with (2 * Z.pos p). by rw Z.log2_double; [lia|lia].
Qed.

(** The record is [m] shifted by [n]: what is left over is exactly what its two bits say. *)
Definition shifted (m n : Z) (rec : shr_record) : Prop :=
  ∃ rest, m = shr_m rec * 2 ^ n + rest ∧ 0 ≤ shr_m rec ∧ 0 ≤ rest < 2 ^ n ∧
  match shr_r rec, shr_s rec with
  | false, false => rest = 0
  | false, true => 0 < 2 * rest < 2 ^ n
  | true, false => 2 * rest = 2 ^ n
  | true, true => 2 ^ n < 2 * rest
  end.

Lemma shr_1_shifted m n rec : 0 ≤ n → shifted m n rec → shifted m (n + 1) (shr_1 rec).
Proof.
  intros Hn (rest & Hm & Hpos & Hrest & Hbits). pose proof (pow2_pos n Hn) as Hp.
  assert (2 ^ (n + 1) = 2 * 2 ^ n) as Hs by (rw Z.pow_add_r; lia).
  assert (∀ m' (b : bool), shr_m rec = 2 * m' + (if b then 1 else 0) → 0 ≤ m' →
    shifted m (n + 1) (Build_shr_record m' b (shr_r rec || shr_s rec))) as Hstep.
  { intros m' b Hsplit Hm'. exists (rest + (if b then 2 ^ n else 0)). simpl. rw Hs.
    destruct b, (shr_r rec), (shr_s rec); simpl; split_and!; lia || nia. }
  destruct rec as [[|[p|p|]|p] r s]; simpl in *; try lia.
  - by apply (Hstep 0 false).
  - apply (Hstep (Z.pos p) true); lia.
  - apply (Hstep (Z.pos p) false); lia.
  - by apply (Hstep 0 true).
Qed.

Lemma iter_shr_shifted m p n rec :
  0 ≤ n → shifted m n rec → shifted m (n + Z.pos p) (SpecFloat.iter_pos shr_1 p rec).
Proof.
  revert n rec. induction p as [p IH|p IH|]; intros n rec Hn Hr; simpl.
  - replace (n + Z.pos p~1) with (n + 1 + Z.pos p + Z.pos p) by lia.
    apply IH; [lia|]. apply IH; [lia|]. by apply shr_1_shifted.
  - replace (n + Z.pos p~0) with (n + Z.pos p + Z.pos p) by lia.
    apply IH; [lia|]. by apply IH.
  - by apply shr_1_shifted.
Qed.

Lemma shr_shifted m e n :
  0 ≤ m → 0 ≤ n → let '(rec, e') := shr (Build_shr_record m false false) e n in
  shifted m n rec ∧ e' = e + n.
Proof.
  intros Hm Hn. assert (shifted m 0 (Build_shr_record m false false)) as H0.
  { exists 0. simpl. split_and!; lia. }
  destruct n as [|p|p]; [|by split; [apply (iter_shr_shifted m p 0)|]|lia].
  simpl. split; [done|lia].
Qed.

Lemma shifted_rne m n rec :
  0 ≤ n → shifted m n rec →
  round_nearest_even (shr_m rec) (loc_of_shr_record rec) = rne m n.
Proof.
  intros Hn (rest & Hm & _ & Hrest & Hbits).
  assert (m / 2 ^ n = shr_m rec) as Hq.
  { symmetry. apply (Z.div_unique _ _ _ rest); [by left|lia]. }
  assert (m mod 2 ^ n = rest) as Hr.
  { symmetry. apply (Z.mod_unique _ _ (shr_m rec)); [by left|lia]. }
  unfold rne. rw Hq Hr. destruct rec as [q r s]; simpl in *.
  destruct (Z.compare_spec (2 * rest) (2 ^ n)), r, s; simpl in *; try lia.
Qed.

(** ** Rounding numbers *)

Lemma fexp_normal d e : -1074 ≤ d + e - 53 → fexp 53 1024 (d + e) = d + e - 53.
Proof. intros Hd. unfold fexp, emin. lia. Qed.

Lemma shr_fexp_log2 m e n :
  0 < m → n = Z.log2 m - 52 → -1074 ≤ e + n →
  shr_fexp 53 1024 m e loc_Exact = shr (Build_shr_record m false false) e n.
Proof.
  intros Hm -> Hlo. unfold shr_fexp. destruct m as [|p|p]; [lia| |lia].
  simpl Zdigits2. rw digits2_log2 fexp_normal; [|lia]. simpl shr_record_of_loc. f_equal. lia.
Qed.

(** A mantissa of at least 53 bits is rounded as the integer it is. *)
Lemma round_aux_rnd m e :
  52 ≤ Z.log2 m → -1074 ≤ e + (Z.log2 m - 52) → e + (Z.log2 m - 52) < 971 →
  ∃ m' e', binary_round_aux 53 1024 false m e loc_Exact = S754_finite false m' e' ∧
    2 ^ 52 ≤ Z.pos m' < 2 ^ 53 ∧ rnd m = Z.pos m' * 2 ^ (e' - e) ∧
    e + (Z.log2 m - 52) ≤ e' ≤ e + (Z.log2 m - 52) + 1.
Proof.
  intros Hl Hlo Hhi. destruct (rnd_big m Hl) as [Hr Hb]. cbv zeta in Hr, Hb.
  remember (Z.log2 m - 52) as n eqn:En. remember (rne m n) as q eqn:Eq.
  assert (0 < m) as Hm by (destruct m; simpl in Hl; lia).
  unfold binary_round_aux. rw (shr_fexp_log2 m e n); [|lia..].
  pose proof (shr_shifted m e n ltac:(lia) ltac:(lia)) as Hs.
  destruct (shr _ e n) as [rec e1]. destruct Hs as [Hs ->].
  assert (0 ≤ n) as Hn by lia. rw (shifted_rne m n rec Hn Hs) -Eq.
  destruct (decide (q = 2 ^ 53)) as [Htop|Hlt].
  - subst q. rw Htop. rw (shr_fexp_log2 _ (e + n) 1); [|rw ?Z.log2_pow2; lia..].
    simpl. rw (proj2 (Z.leb_le (e + n + 1) 971)); [|lia].
    exists (2 ^ 52)%positive, (e + n + 1). split; [done|]. split; [lia|]. split; [|lia].
    rw Hr Htop. replace (e + n + 1 - e) with (n + 1) by lia. rw Z.pow_add_r; lia.
  - assert (Z.log2 q = 52) as Hq by (apply Z.log2_unique; lia).
    rw (shr_fexp_log2 _ (e + n) 0); [|lia..]. simpl.
    destruct q as [|q|q]; [lia| |lia]. rw (proj2 (Z.leb_le (e + n) 971)); [|lia].
    exists q, (e + n). split; [done|]. split; [lia|]. split; [|lia].
    rw Hr. by replace (e + n - e) with n by lia.
Qed.

(** ** The operations *)

Definition SCALE : Z := 1200.
Lemma SCALE_eq : SCALE = 1200.
Proof. done. Qed.
#[local] Opaque SCALE.
Ltac scale := pose proof SCALE_eq.

(** The magnitude of a non-negative number. *)
Definition val (x : f64) : Z :=
  match x with S754_finite false m e => Z.pos m * 2 ^ (e + SCALE) | _ => 0 end.

(** Zero, or normal with an exponent in a range. *)
Definition normal (lo hi : Z) (x : f64) : Prop :=
  x = S754_zero false ∨
  ∃ m e, x = S754_finite false m e ∧ 2 ^ 52 ≤ Z.pos m < 2 ^ 53 ∧ lo ≤ e ≤ hi.

Lemma normal_weaken lo hi lo' hi' x : normal lo hi x → lo' ≤ lo → hi ≤ hi' → normal lo' hi' x.
Proof. intros [->|(m & e & -> & Hm & He)]; [by left|]. right. exists m, e. split_and!; lia || done. Qed.

Lemma mantissa_log2 m : 2 ^ 52 ≤ m < 2 ^ 53 → Z.log2 m = 52.
Proof. intros Hm. by apply Z.log2_unique. Qed.

Lemma val_exact lo hi x : normal lo hi x → - SCALE ≤ lo → rnd (val x) = val x.
Proof.
  intros [->|(m & e & -> & Hm & He)] Hlo; [done|]. simpl. apply rnd_exact; lia.
Qed.

(** The value a rounded mantissa has. *)
Lemma rounded_val m e m' e' s :
  0 < m → rnd m = Z.pos m' * 2 ^ (e' - e) → e ≤ e' → 0 ≤ e + s →
  Z.pos m' * 2 ^ (e' + s) = rnd (m * 2 ^ (e + s)).
Proof.
  intros Hm Hr He Hs. rw rnd_scale; [|lia..]. rw Hr -Z.mul_assoc -Z.pow_add_r; [|lia..].
  do 2 f_equal. lia.
Qed.

(** A product is the exact one, rounded once. *)
Lemma mul_rounds lo1 hi1 lo2 hi2 x y :
  normal lo1 hi1 x → normal lo2 hi2 y → - SCALE ≤ lo1 → - SCALE ≤ lo2 →
  -1126 ≤ lo1 + lo2 → hi1 + hi2 < 918 →
  normal (lo1 + lo2 + 52) (hi1 + hi2 + 54) (f64_mul x y) ∧
  val (f64_mul x y) * 2 ^ SCALE = rnd (val x * val y).
Proof.
  intros [->|(mx & ex & -> & Hx & Ex)] [->|(my & ey & -> & Hy & Ey)] L1 L2 L3 L4.
  1,2: split; [by left|done].
  { split; [by left|]. simpl. by rw Z.mul_0_r. }
  scale. simpl. set (m := Z.pos (mx * my)). assert (m = Z.pos mx * Z.pos my) as Hm by lia.
  assert (2 ^ 104 ≤ m < 2 ^ 106) as Hrange by (rw Hm; split; nia).
  assert (104 ≤ Z.log2 m < 106) as Hlog.
  { split; [rw -(Z.log2_pow2 104); [|lia]; apply Z.log2_le_mono; lia|apply Z.log2_lt_pow2; lia]. }
  destruct (round_aux_rnd m (ex + ey)) as (m' & e' & Hr & Hm' & Hv & He'); [lia..|].
  unfold m in Hr. rw Hr. split; [right; exists m', e'; split_and!; lia || done|].
  simpl. rw -Z.mul_assoc -Z.pow_add_r; [|lia..].
  replace (e' + SCALE + SCALE) with (e' + (SCALE + SCALE)) by lia.
  rw (rounded_val m (ex + ey) m' e'); [|lia..]. f_equal. rw Hm.
  replace (ex + ey + (SCALE + SCALE)) with (ex + SCALE + (ey + SCALE)) by lia.
  rw Z.pow_add_r; lia.
Qed.

Lemma shl_align_val mx ex ez :
  ez ≤ ex → Z.pos (shl_align mx ex ez).1 = Z.pos mx * 2 ^ (ex - ez).
Proof.
  intros He. unfold shl_align. destruct (ez - ex) as [|d|d] eqn:Ed; simpl; [|lia|].
  - by replace (ex - ez) with 0 by lia; rw Z.mul_1_r.
  - replace (ex - ez) with (Z.pos d) by lia. clear. rw -Z.pow_pos_fold Z.mul_comm.
    rw -Zpower.shift_pos_correct. unfold Zpower.shift_pos. done.
Qed.

Lemma normalize_aux m e :
  52 ≤ Z.log2 m → -1074 ≤ e →
  binary_normalize 53 1024 m e false = binary_round_aux 53 1024 false m e loc_Exact.
Proof.
  intros Hl He. destruct m as [|p|p]; [simpl in Hl; lia| |simpl in Hl; lia].
  unfold binary_normalize, binary_round, shl_align. rw digits2_log2 fexp_normal; [|lia].
  by destruct (Z.log2 (Z.pos p) + 1 + e - 53 - e) eqn:E; [..|lia].
Qed.

(** A sum is the exact one, rounded once. *)
Lemma add_rounds lo hi x y :
  normal lo hi x → normal lo hi y → -1074 ≤ lo → hi < 900 →
  normal lo (hi + 2) (f64_add x y) ∧ val (f64_add x y) = rnd (val x + val y).
Proof.
  intros Nx Ny Hlo Hhi. scale.
  pose proof (val_exact _ _ _ Nx ltac:(lia)) as Vx. pose proof (val_exact _ _ _ Ny ltac:(lia)) as Vy.
  destruct Nx as [->|(mx & ex & -> & Hx & Ex)], Ny as [->|(my & ey & -> & Hy & Ey)].
  { split; [by left|done]. }
  { split; [right; exists my, ey; split_and!; lia || done|]. by rw Z.add_0_l Vy. }
  { split; [right; exists mx, ex; split_and!; lia || done|]. by rw Z.add_0_r Vx. }
  clear Vx Vy. unfold f64_add. cbn [SFadd cond_Zopp]. set (ez := Z.min ex ey).
  rw !shl_align_val; [|lia..].
  remember (Z.pos mx * 2 ^ (ex - ez) + Z.pos my * 2 ^ (ey - ez)) as m eqn:Em.
  assert (0 < 2 ^ (ex - ez) ∧ 0 < 2 ^ (ey - ez)) as [Px Py] by (split; apply pow2_pos; lia).
  assert (2 ^ 52 ≤ m < 2 ^ (54 + (Z.max ex ey - ez))) as Hm.
  { rw Z.pow_add_r; [|lia..].
    assert (2 ^ (ex - ez) ≤ 2 ^ (Z.max ex ey - ez)) by (apply Z.pow_le_mono_r; lia).
    assert (2 ^ (ey - ez) ≤ 2 ^ (Z.max ex ey - ez)) by (apply Z.pow_le_mono_r; lia).
    nia. }
  assert (52 ≤ Z.log2 m < 54 + (Z.max ex ey - ez)) as Hlog.
  { split; [rw -(Z.log2_pow2 52); [|lia]; apply Z.log2_le_mono; lia|apply Z.log2_lt_pow2; lia]. }
  rw normalize_aux; [|lia..].
  destruct (round_aux_rnd m ez) as (m' & e' & Hr & Hm' & Hv & He'); [lia..|].
  rw Hr. split; [right; exists m', e'; split_and!; lia || done|]. simpl.
  rw (rounded_val m ez m' e'); [|lia..]. f_equal. rw Em Z.mul_add_distr_r -!Z.mul_assoc -!Z.pow_add_r; [|lia..].
  f_equal; do 2 f_equal; lia.
Qed.

(** Integers below [2 ^ 53] are exact. *)
Lemma of_Z_exact n :
  0 ≤ n < 2 ^ 53 → normal (-52) 1 (of_Z n) ∧ val (of_Z n) = n * 2 ^ SCALE.
Proof.
  intros Hn. scale. destruct n as [|p|p]; [by split; [left|]| |lia].
  assert (0 ≤ Z.log2 (Z.pos p) < 53) as Hl by (split; [apply Z.log2_nonneg|apply Z.log2_lt_pow2; lia]).
  unfold of_Z, binary_normalize, binary_round. rw digits2_log2.
  pose proof (fexp_normal (Z.log2 (Z.pos p) + 1) 0 ltac:(lia)) as Hf.
  remember (Z.log2 (Z.pos p) - 52) as ez eqn:Ez.
  replace (Z.log2 (Z.pos p) + 1 + 0 - 53) with ez in Hf by lia. rw Hf.
  pose proof (shl_align_val p 0 ez ltac:(lia)) as Hs.
  assert ((shl_align p 0 ez).2 = ez) as He.
  { unfold shl_align. destruct (ez - 0) as [|d|d] eqn:E; simpl; lia. }
  destruct (shl_align p 0 ez) as [mz e]. simpl in Hs, He. subst e.
  assert (Z.log2 (Z.pos mz) = 52) as Hlz by (rw Hs Z.log2_mul_pow2; lia).
  destruct (round_aux_rnd (Z.pos mz) ez) as (m' & e' & Hr & Hm' & Hv & He'); [lia..|].
  rw Hr. split; [right; exists m', e'; split_and!; lia || done|]. simpl.
  rw (rounded_val (Z.pos mz) ez m' e'); [|lia..]. rw Hs -Z.mul_assoc -Z.pow_add_r; [|lia..].
  replace (0 - ez + (ez + SCALE)) with SCALE by lia. apply rnd_exact; lia.
Qed.

(** Dividing by [2 ^ 53] is exact. *)
Lemma div_pow53 lo hi x :
  normal lo hi x → -1000 ≤ lo → hi < 900 →
  normal (lo - 53) (hi - 53) (f64_div x (of_Z (2 ^ 53))) ∧
  val (f64_div x (of_Z (2 ^ 53))) * 2 ^ 53 = val x.
Proof.
  intros [->|(m & e & -> & Hm & He)] Hlo Hhi; [by split; [left|]|]. scale.
  assert (f64_div (S754_finite false m e) (of_Z (2 ^ 53)) = S754_finite false m (e - 53)) as ->.
  2:{ split; [right; exists m, (e - 53); split_and!; lia || done|]. simpl.
      rw -Z.mul_assoc -Z.pow_add_r; [|lia..]. do 2 f_equal. lia. }
  assert (of_Z (2 ^ 53) = S754_finite false 4503599627370496 1) as -> by reflexivity.
  unfold f64_div, SFdiv, SFdiv_core_binary. cbn [Zdigits2 xorb].
  rw digits2_log2 mantissa_log2; [|done]. change (Z.pos (digits2_pos 4503599627370496)) with 53.
  replace (Z.min _ (e - 1)) with (e - 54) by (unfold fexp, emin; lia).
  replace (e - 1 - (e - 54)) with 53 by lia. cbv beta iota.
  assert (Z.div_eucl (Z.shiftl (Z.pos m) 53) 4503599627370496 = (2 * Z.pos m, 0)) as ->.
  { rw Z.shiftl_mul_pow2; [|lia]. rw (surjective_pairing (Z.div_eucl _ _)).
    change (_.1) with (Z.pos m * 2 ^ 53 / 2 ^ 52). change (_.2) with (Z.pos m * 2 ^ 53 mod 2 ^ 52).
    replace (Z.pos m * 2 ^ 53) with (2 * Z.pos m * 2 ^ 52) by lia.
    by rw Z.div_mul // Z.mod_mul. }
  change (new_location 4503599627370496 0) with loc_Exact.
  assert (Z.log2 (2 * Z.pos m) = 53) as Hlog by (rw Z.log2_double; [rw mantissa_log2|]; lia).
  destruct (round_aux_rnd (2 * Z.pos m) (e - 54)) as (m' & e' & -> & Hm' & Hv & He'); [lia..|].
  assert (rnd (2 * Z.pos m) = 2 * Z.pos m) as Hex.
  { rw (Z.mul_comm 2). apply (rnd_exact _ 1); lia. }
  assert (e' = e - 53 ∨ e' = e - 52) as [->| ->] by lia.
  - replace (e - 53 - (e - 54)) with 1 in Hv by lia. f_equal. lia.
  - replace (e - 52 - (e - 54)) with 2 in Hv by lia. lia.
Qed.

(** ** Order *)

Lemma val_nonneg x : 0 ≤ val x.
Proof.
  destruct x as [| | |[] m e]; simpl; try lia.
Qed.

Lemma mul_mono lo1 hi1 lo2 hi2 c c' x y :
  normal lo1 hi1 c → normal lo1 hi1 c' → normal lo2 hi2 x → normal lo2 hi2 y →
  - SCALE ≤ lo1 → - SCALE ≤ lo2 → -1126 ≤ lo1 + lo2 → hi1 + hi2 < 918 →
  val c ≤ val c' → val x ≤ val y → val (f64_mul c x) ≤ val (f64_mul c' y).
Proof.
  intros Nc Nc' Nx Ny L1 L2 L3 L4 Hc Hx.
  destruct (mul_rounds _ _ _ _ _ _ Nc Nx L1 L2 L3 L4) as [_ Vx].
  destruct (mul_rounds _ _ _ _ _ _ Nc' Ny L1 L2 L3 L4) as [_ Vy].
  pose proof (val_nonneg c). pose proof (val_nonneg x).
  assert (0 < 2 ^ SCALE) by (apply pow2_pos; by rw SCALE_eq).
  apply (Z.mul_le_mono_pos_r _ _ (2 ^ SCALE)); [done|]. rw Vx Vy. apply rnd_mono. nia.
Qed.

Lemma add_mono lo hi c x y :
  normal lo hi c → normal lo hi x → normal lo hi y → -1074 ≤ lo → hi < 900 →
  val x ≤ val y → val (f64_add c x) ≤ val (f64_add c y).
Proof.
  intros Nc Nx Ny Hlo Hhi Hx.
  destruct (add_rounds _ _ _ _ Nc Nx Hlo Hhi) as [_ ->].
  destruct (add_rounds _ _ _ _ Nc Ny Hlo Hhi) as [_ ->].
  pose proof (val_nonneg c). pose proof (val_nonneg x). apply rnd_mono. lia.
Qed.
End Float.
