(* ===== verification/Disk.v ===== *)
(** * The data directory scan

    [api/src/infra/disk.rs]: the walk that sums the block usage of a directory with a stack
    of pending directories, and the sampler that sets one gauge per subdirectory of the data
    root.  The file system is a tree that does not change during a scan; every call that may
    fail is a fault of the tree. *)

From Stdlib Require Import Ascii.
From S2P Require Import Prelude.

Open Scope Z_scope.

Module Disk.

(** [st_blocks] counts units of this size. *)
Definition BLOCK_SIZE : Z := 512.

(** What [DirEntry::metadata] describes, and what [read_dir] yields for a directory, if it
    can be read; the inode of a directory is read again by [symlink_metadata], which may
    fail.  An entry may be refused or, having a name, fail to be described. *)
Inductive Tree :=
| File (blocks : Z)
| Symlink
| Closed (inode : option Z)
| Dir (inode : option Z) (entries : list Entry)
with Entry :=
| Refused
| Undescribed (name : option string)
| Found (name : option string) (t : Tree).

(** ** The walk *)

(** A directory on the stack: its path, that is, its inode and its entries. *)
Definition Directory : Type := option Z * option (list Entry).

Definition as_directory (t : Tree) : option Directory :=
  match t with
  | File _ | Symlink => None
  | Closed inode => Some (inode, None)
  | Dir inode entries => Some (inode, Some entries)
  end.

(** The locals of [walk], with the errors counted.  The vector is kept with its end in
    front, where it is pushed and popped. *)
Record Walk := mkWalk {
  wk_bytes : Z;
  wk_pending : list Directory;
  wk_errors : Z;
}.

Definition count_error (w : Walk) : Walk := mkWalk (wk_bytes w) (wk_pending w) (wk_errors w + 1).

(** [bytes += metadata.blocks() * BLOCK_SIZE], in 64 bits. *)
Definition charge (blocks : Z) (w : Walk) : Walk :=
  mkWalk (to_u64 (wk_bytes w + to_u64 (blocks * BLOCK_SIZE))) (wk_pending w) (wk_errors w).

Definition push_dir (dir : Directory) (w : Walk) : Walk :=
  mkWalk (wk_bytes w) (dir :: wk_pending w) (wk_errors w).

(** The loop over the entries of a directory. *)
Definition visit_entry (w : Walk) (entry : Entry) : Walk :=
  match entry with
  | Refused => count_error w
  | Undescribed _ => count_error w
  | Found _ Symlink => w
  | Found _ (Closed inode) => push_dir (inode, None) w
  | Found _ (Dir inode entries) => push_dir (inode, Some entries) w
  | Found _ (File blocks) => charge blocks w
  end.

(** One turn of the loop over the pending directories. *)
Definition visit_dir (dir : Directory) (w : Walk) : Walk :=
  let '(inode, entries) := dir in
  let w := match inode with Some blocks => charge blocks w | None => count_error w end in
  match entries with
  | None => count_error w
  | Some entries => foldl visit_entry w entries
  end.

Fixpoint walk_loop (fuel : nat) (w : Walk) : option Walk :=
  match fuel with
  | O => None
  | S fuel =>
      match wk_pending w with
      | [] => Some w
      | dir :: pending => walk_loop fuel (visit_dir dir (mkWalk (wk_bytes w) pending (wk_errors w)))
      end
  end.

(** The outer option is the fuel, the inner one the code's; with the errors counted. *)
Definition walk (fuel : nat) (root : Directory) (errors : Z) : option (option Z * Z) :=
  match root.2 with
  | None => Some (None, errors + 1)
  | Some _ =>
      match walk_loop fuel (mkWalk 0 [root] errors) with
      | None => None
      | Some w => Some (Some (wk_bytes w), wk_errors w)
      end
  end.

(** ** The sampler *)

Record Gauges := mkGauges {
  dg_bytes : gmap string Z;
  dg_errors : Z;
  dg_scans : Z;
}.

(** The loop over the entries of the root. *)
Definition sample_entry (fuel : nat) (g : Gauges) (entry : Entry) : option Gauges :=
  match entry with
  | Refused | Undescribed _ => Some (mkGauges (dg_bytes g) (dg_errors g + 1) (dg_scans g))
  | Found name t =>
      match as_directory t, name with
      | None, _ | _, None => Some g
      | Some dir, Some name =>
          match walk fuel dir (dg_errors g) with
          | None => None
          | Some (None, errors) => Some (mkGauges (dg_bytes g) errors (dg_scans g))
          | Some (Some bytes, errors) =>
              Some (mkGauges (<[name := bytes]> (dg_bytes g)) errors (dg_scans g))
          end
      end
  end.

Fixpoint sample_entries (fuel : nat) (g : Gauges) (entries : list Entry) : option Gauges :=
  match entries with
  | [] => Some g
  | entry :: entries =>
      match sample_entry fuel g entry with
      | None => None
      | Some g => sample_entries fuel g entries
      end
  end.

(** [None] for the entries: the root cannot be read, which is warned about once. *)
Definition sample (fuel : nat) (root : option (list Entry)) (g : Gauges) : option Gauges :=
  match root with
  | None => Some g
  | Some entries =>
      match sample_entries fuel g entries with
      | None => None
      | Some g => Some (mkGauges (dg_bytes g) (dg_errors g) (dg_scans g + 1))
      end
  end.

(** ** [root] *)

Definition is_absolute (path : string) : bool :=
  match path with String "/"%char _ => true | _ => false end.

Fixpoint ends_with_slash (path : string) : bool :=
  match path with
  | EmptyString => false
  | String c EmptyString => bool_decide (c = "/"%char)
  | String _ path => ends_with_slash path
  end.

(** [PathBuf::join] *)
Definition join (base path : string) : string :=
  if is_absolute path then path
  else match base with
       | EmptyString => path
       | _ => if ends_with_slash base then base +:+ path else base +:+ "/" +:+ path
       end.

Definition root (current_dir : option string) (configured : string) : string :=
  if is_absolute configured then configured
  else join (default "" current_dir) configured.

(** ** Reference: the usage of a tree, by recursion *)

Definition over_entries (f : Tree → Z) (fault : Z) (entries : list Entry) : Z :=
  sum_Z ((λ e, match e with Found _ t => f t | Refused | Undescribed _ => fault end) <$> entries).

Fixpoint blocks_of (t : Tree) : Z :=
  match t with
  | File blocks => blocks
  | Symlink => 0
  | Closed inode => default 0 inode
  | Dir inode entries => default 0 inode + over_entries blocks_of 0 entries
  end.

Definition usage (t : Tree) : Z := blocks_of t * BLOCK_SIZE.

(** The calls that fail while it is walked. *)
Definition inode_fault (inode : option Z) : Z := match inode with Some _ => 0 | None => 1 end.

Fixpoint faults (t : Tree) : Z :=
  match t with
  | File _ | Symlink => 0
  | Closed inode => inode_fault inode + 1
  | Dir inode entries => inode_fault inode + over_entries faults 1 entries
  end.

(** Its directories, each of which takes a turn. *)
Fixpoint dirs (t : Tree) : nat :=
  match t with
  | File _ | Symlink => 0
  | Closed _ => 1
  | Dir _ entries =>
      S (sum_list_with (λ e, match e with Found _ t => dirs t | Refused | Undescribed _ => 0 end)
           entries)
  end%nat.

(** ** What is left to do

    What has been summed and what the pending directories still hold; a turn moves from the
    one to the other. *)
Definition of_directory (d : Directory) : Tree :=
  match d.2 with None => Closed d.1 | Some entries => Dir d.1 entries end.

Definition due (w : Walk) : Z :=
  wk_bytes w + sum_Z ((usage ∘ of_directory) <$> wk_pending w).
Definition errors_due (w : Walk) : Z :=
  wk_errors w + sum_Z ((faults ∘ of_directory) <$> wk_pending w).
Definition turns (w : Walk) : nat := sum_list_with (dirs ∘ of_directory) (wk_pending w).

Definition entry_usage (e : Entry) : Z :=
  match e with Found _ t => usage t | Refused | Undescribed _ => 0 end.
Definition entry_faults (e : Entry) : Z :=
  match e with Found _ t => faults t | Refused | Undescribed _ => 1 end.
Definition entry_dirs (e : Entry) : nat :=
  match e with Found _ t => dirs t | Refused | Undescribed _ => 0 end.

Lemma charge_due blocks w :
  to_u64 (due (charge blocks w)) = to_u64 (due w + blocks * BLOCK_SIZE).
Proof.
  unfold due, charge. cbn [wk_bytes wk_pending]. rw to_u64_add_l.
  rw -Z.add_assoc (Z.add_comm (to_u64 _)) Z.add_assoc.
  rw Z.add_comm to_u64_add_l. f_equal. lia.
Qed.

Lemma push_dir_due d w :
  to_u64 (due (push_dir d w)) = to_u64 (due w + usage (of_directory d)) ∧
  errors_due (push_dir d w) = errors_due w + faults (of_directory d) ∧
  turns (push_dir d w) = (turns w + dirs (of_directory d))%nat.
Proof.
  unfold due, errors_due, turns, push_dir. cbn [wk_bytes wk_pending wk_errors fmap list_fmap sum_list_with].
  unfold sum_Z. cbn [foldr]. unfold compose. split_and!; [f_equal; lia|lia|lia].
Qed.

Lemma visit_entry_due w e :
  to_u64 (due (visit_entry w e)) = to_u64 (due w + entry_usage e) ∧
  errors_due (visit_entry w e) = errors_due w + entry_faults e ∧
  turns (visit_entry w e) = (turns w + entry_dirs e)%nat.
Proof.
  destruct e as [|name|name [blocks| |inode|inode entries]]; cbn [visit_entry entry_usage entry_faults entry_dirs].
  - rw Z.add_0_r. split_and!; [done|unfold errors_due; simpl; lia|by rw Nat.add_0_r].
  - rw Z.add_0_r. split_and!; [done|unfold errors_due; simpl; lia|by rw Nat.add_0_r].
  - split_and!; [apply charge_due|unfold errors_due; simpl; lia|unfold turns; simpl; lia].
  - unfold usage. simpl. rw !Z.add_0_r. split_and!; [done|done|lia].
  - apply (push_dir_due (inode, None)).
  - apply (push_dir_due (inode, Some entries)).
Qed.

Lemma visit_entries_due entries w :
  let w' := foldl visit_entry w entries in
  to_u64 (due w') = to_u64 (due w + sum_Z (entry_usage <$> entries)) ∧
  errors_due w' = errors_due w + sum_Z (entry_faults <$> entries) ∧
  turns w' = (turns w + sum_list_with entry_dirs entries)%nat.
Proof.
  revert w. induction entries as [|e entries IH]; intros w; cbn [foldl].
  - simpl. rw !Z.add_0_r Nat.add_0_r. done.
  - destruct (IH (visit_entry w e)) as (Hd & He & Ht).
    destruct (visit_entry_due w e) as (Hd1 & He1 & Ht1).
    cbn zeta in *. rw Hd He Ht He1 Ht1 !fmap_cons. cbn [sum_list_with sum_Z foldr].
    split_and!; [|unfold sum_Z; lia|lia].
    rw -to_u64_add_l Hd1 to_u64_add_l. f_equal. unfold sum_Z. lia.
Qed.

Lemma usage_dir inode entries :
  usage (Dir inode entries) = usage (Closed inode) + sum_Z (entry_usage <$> entries).
Proof.
  unfold usage. simpl. rw Z.mul_add_distr_r. f_equal. unfold over_entries.
  induction entries as [|e entries IH]; [done|]. simpl. rw Z.mul_add_distr_r IH. f_equal.
  by destruct e.
Qed.

Lemma visit_dir_u64 d w : is_u64 (wk_bytes w) → is_u64 (wk_bytes (visit_dir d w)).
Proof.
  intros Hw. destruct d as [inode entries]. unfold visit_dir.
  assert (is_u64 (wk_bytes match inode with Some blocks => charge blocks w | None => count_error w end))
    as Hw1 by (destruct inode; [apply to_u64_range|done]).
  destruct entries as [entries|]; [|done].
  revert Hw1. generalize (match inode with Some blocks => charge blocks w | None => count_error w end).
  clear Hw w. induction entries as [|e entries IH]; intros w Hw; [done|]. apply IH.
  destruct e as [|?|? []]; try done. apply to_u64_range.
Qed.

(** A turn of the loop moves a directory out of what is pending. *)
Lemma visit_dir_due d w :
  to_u64 (due (visit_dir d w)) = to_u64 (due w + usage (of_directory d)) ∧
  errors_due (visit_dir d w) = errors_due w + faults (of_directory d) ∧
  S (turns (visit_dir d w)) = (turns w + dirs (of_directory d))%nat.
Proof.
  destruct d as [inode entries]. unfold visit_dir.
  set (w1 := match inode with Some blocks => charge blocks w | None => count_error w end).
  assert (to_u64 (due w1) = to_u64 (due w + usage (Closed inode)) ∧
          errors_due w1 = errors_due w + inode_fault inode ∧ turns w1 = turns w) as (Hd & He & Ht).
  { unfold w1. destruct inode as [blocks|].
    - split_and!; [apply charge_due|unfold errors_due; simpl; lia|done].
    - unfold usage. simpl. rw Z.add_0_r. split_and!; [done|unfold errors_due; simpl; lia|done]. }
  destruct entries as [entries|]; unfold of_directory; cbn [snd fst].
  - destruct (visit_entries_due entries w1) as (Hd' & He' & Ht').
    rw Hd' He' Ht' He Ht. split_and!.
    + rw -to_u64_add_l Hd to_u64_add_l usage_dir. f_equal. lia.
    + simpl. unfold over_entries. rw -Z.add_assoc. done.
    + simpl. unfold entry_dirs. lia.
  - split_and!; [exact Hd|unfold errors_due in *; simpl in *; lia|].
    unfold turns in *. simpl in *. lia.
Qed.

(** With a turn for every directory the walk returns, with all that was due. *)
Lemma walk_loop_returns fuel w :
  (turns w < fuel)%nat → is_u64 (wk_bytes w) →
  ∃ w', walk_loop fuel w = Some w' ∧ wk_bytes w' = to_u64 (due w) ∧ wk_errors w' = errors_due w.
Proof.
  revert w. induction fuel as [|fuel IH]; intros [bytes pending errors] Hf Hb; [lia|].
  destruct pending as [|d pending]; cbn [walk_loop wk_pending wk_bytes wk_errors].
  - eexists. split; [done|]. unfold due, errors_due. simpl in *. rw !Z.add_0_r.
    by rw to_u64_id.
  - destruct (visit_dir_due d (mkWalk bytes pending errors)) as (Hd & He & Ht).
    destruct (IH (visit_dir d (mkWalk bytes pending errors))) as (w' & Hw & Hb' & He').
    + unfold turns in *. simpl in *. lia.
    + apply visit_dir_u64. done.
    + exists w'. split; [done|]. rw Hb' He' Hd He. unfold due, errors_due. cbn [wk_bytes wk_pending wk_errors].
      rw !fmap_cons. unfold sum_Z, compose. cbn [foldr]. split; [f_equal|]; lia.
Qed.

(** The stack computes what the recursion does: a directory that can be read is charged its
    usage in 64 bits, and every failing call is counted once. *)
Lemma walk_is_usage fuel d errors :
  (dirs (of_directory d) < fuel)%nat →
  walk fuel d errors =
  Some (match d.2 with
        | None => (None, errors + 1)
        | Some _ => (Some (to_u64 (usage (of_directory d))), errors + faults (of_directory d))
        end).
Proof.
  intros Hf. unfold walk. destruct d as [inode [entries|]]; [|done]. cbn [snd].
  destruct (walk_loop_returns fuel (mkWalk 0 [(inode, Some entries)] errors))
    as (w' & Hw & Hb & He).
  { unfold turns. cbn [wk_pending sum_list_with]. unfold compose. lia. }
  { by vm_compute. }
  rw Hw Hb He. unfold due, errors_due. cbn [wk_bytes wk_pending wk_errors fmap list_fmap].
  unfold sum_Z, compose. cbn [foldr]. do 3 f_equal; [f_equal; lia|lia].
Qed.

(** ** The gauges *)

(** What a scan says about an entry of the root: its gauge, and the calls that failed. *)
Definition reading (e : Entry) : option (string * Z) :=
  match e with
  | Found (Some name) (Dir inode entries) => Some (name, to_u64 (usage (Dir inode entries)))
  | _ => None
  end.

Definition scan_faults (e : Entry) : Z :=
  match e with
  | Refused | Undescribed _ | Found (Some _) (Closed _) => 1
  | Found (Some _) (Dir inode entries) => faults (Dir inode entries)
  | Found _ _ => 0
  end.

Lemma sample_entry_reads fuel g e :
  (entry_dirs e < fuel)%nat →
  sample_entry fuel g e =
  Some (mkGauges (match reading e with Some (n, b) => <[n := b]> (dg_bytes g) | None => dg_bytes g end)
                 (dg_errors g + scan_faults e) (dg_scans g)).
Proof.
  intros Hf. destruct g as [bytes errors scans].
  destruct e as [|name|[name|] [blocks| |inode|inode entries]];
    unfold sample_entry; cbn [as_directory reading scan_faults dg_bytes dg_errors dg_scans];
    rw ?Z.add_0_r; try done.
  rw (walk_is_usage fuel (inode, Some entries)); [done|exact Hf].
Qed.

Lemma sample_entries_reads fuel g entries :
  Forall (λ e, entry_dirs e < fuel)%nat entries →
  ∃ g', sample_entries fuel g entries = Some g' ∧
    dg_bytes g' = list_to_map (rev (omap reading entries)) ∪ dg_bytes g ∧
    dg_errors g' = dg_errors g + sum_Z (scan_faults <$> entries) ∧
    dg_scans g' = dg_scans g.
Proof.
  revert g. induction entries as [|e entries IH]; intros g Hf.
  - exists g. simpl. rw Z.add_0_r. rw left_id_L. done.
  - apply Forall_cons in Hf as [He Hf]. cbn [sample_entries].
    rw sample_entry_reads //.
    match goal with |- context [sample_entries _ ?g1 _] => destruct (IH g1 Hf) as (g' & -> & Hb & Her & Hs) end.
    exists g'. split; [done|].
    cbn [dg_bytes dg_errors dg_scans] in *. rw Hb Her Hs fmap_cons. unfold sum_Z. cbn [foldr].
    split_and!; [|lia|done]. simpl. destruct (reading e) as [[n b]|]; [|done].
    simpl. rw list_to_map_app /= -(assoc_L (∪)). f_equal. by rw insert_union_singleton_l insert_empty.
Qed.

(** C34.  A scan of a data root returns, and sets the gauge of exactly the subdirectories
    that can be read and named: each to the usage of its whole tree, the directories' own
    blocks included and links left out, as the recursive definition computes it, in 64
    bits.  Every call that fails is counted once, and no other gauge moves.  A root that
    cannot be read changes nothing. *)
Theorem scan_reports_usage root g fuel :
  Forall (λ e, entry_dirs e < fuel)%nat (default [] root) →
  NoDup (omap reading (default [] root)).*1 →
  ∃ g', sample fuel root g = Some g' ∧
    (∀ name b, (name, b) ∈ omap reading (default [] root) → dg_bytes g' !! name = Some b) ∧
    (∀ name, name ∉ (omap reading (default [] root)).*1 →
       dg_bytes g' !! name = dg_bytes g !! name) ∧
    dg_errors g' = dg_errors g + sum_Z (scan_faults <$> default [] root) ∧
    (root = None → g' = g).
Proof.
  intros Hf Hnd. destruct root as [entries|]; simpl in *.
  - destruct (sample_entries_reads fuel g entries Hf) as (g' & -> & Hb & He & Hs).
    eexists. split; [done|]. cbn [dg_bytes dg_errors]. rw Hb.
    assert ((rev (omap reading entries)).*1 ≡ₚ (omap reading entries).*1) as Hp.
    { apply fmap_Permutation. symmetry. apply Permutation_rev. }
    split_and!; [..|done|done].
    + intros name b Hin. apply lookup_union_Some_l. apply elem_of_list_to_map; [by rw Hp|].
      by rw -Permutation_rev.
    + intros name Hni. apply lookup_union_r. apply not_elem_of_list_to_map.
      by rw Hp.
  - exists g. split_and!; [done|set_solver|done|lia|done].
Qed.

(** The resolved root stays where it is when the working directory changes. *)
Lemma root_is_absolute cwd configured :
  is_absolute cwd = true → is_absolute (root (Some cwd) configured) = true.
Proof.
  intros Hc. unfold root, join. destruct (is_absolute configured) eqn:E; [done|]. simpl.
  destruct cwd as [|c cwd]; [done|]. by destruct (ends_with_slash _).
Qed.

(** ** A scan *)

Definition sample_root : list Entry :=
  [Found (Some "alpha") (Dir (Some 8) [Found (Some "one") (File 2048); Found (Some "link") Symlink;
                                        Found (Some "sub") (Dir None [Undescribed (Some "x")])]);
   Found (Some "loose") (File 2048);
   Found (Some "closed") (Closed (Some 8))].

Lemma scan_reports_usage_witness :
  ∃ g', sample 4 (Some sample_root) (mkGauges ∅ 0 0) = Some g' ∧
    dg_bytes g' !! "alpha" = Some 1052672 ∧ dg_bytes g' !! "loose" = None ∧ dg_errors g' = 3.
Proof.
  destruct (scan_reports_usage (Some sample_root) (mkGauges ∅ 0 0) 4) as (g' & Hg & Hin & Hout & He & _).
  - repeat constructor.
  - by apply NoDup_singleton.
  - exists g'. split; [exact Hg|]. split; [apply Hin; left|].
    split; [|exact He]. apply Hout. simpl. intros Hl. by apply list_elem_of_singleton in Hl.
Defined.

End Disk.
