(* ===== verification/Dotenv.v ===== *)
(** * Environment variables and the [.env] file

    [shared/src/env.rs].  A Rust [str] is the list of its Unicode scalar values, so that
    whitespace is what [char::is_whitespace] says it is.  The process environment is a finite
    map; the value of a variable that is not valid Unicode is [None]. *)

From S2P Require Import Prelude.

Open Scope Z_scope.

Module Dotenv.

Definition Str : Type := list Z.

(** A literal of ASCII characters. *)
Fixpoint str (s : string) : Str :=
  match s with
  | EmptyString => []
  | String c s => Z.of_N (Ascii.N_of_ascii c) :: str s
  end.
#[global] Arguments str : simpl never.

(** ** The parts of [std] the code uses *)

(** [char::is_whitespace]: the code points with the Unicode property [White_Space]. *)
Definition is_whitespace (c : Z) : bool :=
  bool_decide (9 ≤ c ≤ 13 ∨ c = 32 ∨ c = 133 ∨ c = 160 ∨ c = 5760 ∨ 8192 ≤ c ≤ 8202 ∨
               c = 8232 ∨ c = 8233 ∨ c = 8239 ∨ c = 8287 ∨ c = 12288).

Fixpoint skip_while (p : Z → bool) (s : Str) : Str :=
  match s with
  | c :: s' => if p c then skip_while p s' else s
  | [] => []
  end.

Definition skip_end (p : Z → bool) (s : Str) : Str := rev (skip_while p (rev s)).

Definition trim (s : Str) : Str := skip_end is_whitespace (skip_while is_whitespace s).
Definition trim_end (s : Str) : Str := skip_end is_whitespace s.

(** [trim_matches(c)]: every leading and every trailing [c]. *)
Definition trim_matches (c : Z) (s : Str) : Str :=
  skip_end (Z.eqb c) (skip_while (Z.eqb c) s).

Definition starts_with (c : Z) (s : Str) : bool :=
  match s with c' :: _ => c' =? c | [] => false end.

(** [split_once(c)]: around the first [c]. *)
Fixpoint split_once (c : Z) (s : Str) : option (Str * Str) :=
  match s with
  | [] => None
  | c' :: s =>
      if c' =? c then Some ([], s)
      else '(before, after) ← split_once c s; Some (c' :: before, after)
  end.

(** [find] of a two-character pattern: the text before its first occurrence and after it. *)
Fixpoint find_pair (c1 c2 : Z) (s : Str) : option (Str * Str) :=
  match s with
  | a :: ((b :: s') as rest) =>
      if (a =? c1) && (b =? c2) then Some ([], s')
      else '(before, after) ← find_pair c1 c2 rest; Some (a :: before, after)
  | _ => None
  end.

(** [lines()]: a line ends at [\n], a [\r] before it is dropped, and no line follows a final
    [\n]. *)
Fixpoint split_lines (line : Str) (s : Str) : list Str :=
  match s with
  | [] => match line with [] => [] | _ => [line] end
  | c :: s =>
      if c =? 10 then
        (match last line with Some 13 => take (length line - 1) line | _ => line end)
          :: split_lines [] s
      else split_lines (line ++ [c]) s
  end.
Definition lines (s : Str) : list Str := split_lines [] s.

(** The process environment. *)
Definition Environ : Type := gmap Str (option Str).

(** [std::env::var(key).ok()] *)
Definition var (env : Environ) (key : Str) : option Str := mjoin (env !! key).
(** [std::env::var_os(key).is_some()] *)
Definition var_os_is_some (env : Environ) (key : Str) : bool :=
  bool_decide (is_Some (env !! key)).

(** [std::env::set_var]: panics on a NUL, and on a key that is empty or contains [=]. *)
Definition set_var (key value : Str) (env : Environ) : option Environ :=
  if bool_decide (key = [] ∨ 61 ∈ key ∨ 0 ∈ key ∨ 0 ∈ value) then None
  else Some (<[key := Some value]> env).

(** ** Reading variables *)

Inductive ConfigError :=
| Missing (key : Str)
| Invalid (key value reason : Str).

Definition env_opt (env : Environ) (key : Str) : option Str :=
  v ← var env key; if bool_decide (v = []) then None else Some v.

Definition env_req (env : Environ) (key : Str) : result ConfigError Str :=
  match env_opt env key with Some v => Ok v | None => Err (Missing key) end.

Definition env_or (env : Environ) (key default : Str) : Str :=
  match env_opt env key with Some v => v | None => default end.

(** [parse] is [T::from_str], its error already displayed. *)
Definition env_parse {T} (parse : Str → result Str T) (env : Environ) (key : Str) (default : T) :
    result ConfigError T :=
  match env_opt env key with
  | Some v => map_err (λ e, Invalid key v e) (parse v)
  | None => Ok default
  end.

(** ** Loading a file *)

Definition HASH : Z := 35.
Definition DOUBLE_QUOTE : Z := 34.
Definition SINGLE_QUOTE : Z := 39.
Definition EQUALS : Z := 61.
Definition DOLLAR : Z := 36.
Definition OPEN_BRACE : Z := 123.
Definition CLOSE_BRACE : Z := 125.
Definition SPACE : Z := 32.

Definition strip_inline_comment (value : Str) : Str :=
  if starts_with DOUBLE_QUOTE value || starts_with SINGLE_QUOTE value then value
  else match find_pair SPACE HASH value with
       | Some (before, _) => trim_end before
       | None => value
       end.

(** The loop of [expand] on what is left of the value; each turn consumes at least two
    characters. *)
Fixpoint expand_go (env : Environ) (fuel : nat) (rest : Str) : Str :=
  match fuel with
  | O => rest
  | S fuel =>
      match find_pair DOLLAR OPEN_BRACE rest with
      | None => rest
      | Some (before, after) =>
          match split_once CLOSE_BRACE after with
          | Some (name, rest) => before ++ default [] (var env name) ++ expand_go env fuel rest
          | None => rest
          end
      end
  end.
Definition expand (env : Environ) (value : Str) : Str := expand_go env (length value) value.

(** One line: [None] is a panic. *)
Definition load_line (env : Environ) (line : Str) : option Environ :=
  let line := trim line in
  if bool_decide (line = []) || starts_with HASH line then Some env
  else match split_once EQUALS line with
       | None => Some env
       | Some (key, value) =>
           let key := trim key in
           let value := strip_inline_comment (trim value) in
           let value := trim_matches SINGLE_QUOTE (trim_matches DOUBLE_QUOTE value) in
           if bool_decide (key = []) || var_os_is_some env key then Some env
           else set_var key (expand env value) env
       end.

Fixpoint load_lines (env : Environ) (ls : list Str) : option Environ :=
  match ls with
  | [] => Some env
  | line :: ls => env ← load_line env line; load_lines env ls
  end.

(** [contents] is [None] when the file cannot be read. *)
Definition load_dotenv_from (contents : option Str) (env : Environ) : option Environ :=
  match contents with
  | None => Some env
  | Some contents => load_lines env (lines contents)
  end.

(** ** Facts about the string functions *)

Lemma split_once_Some c s b a : split_once c s = Some (b, a) ↔ s = b ++ c :: a ∧ c ∉ b.
Proof.
  revert b a. induction s as [|c' s IH]; intros b a; simpl.
  - split; [done|]. intros [Heq _]. by destruct b.
  - destruct (Z.eqb_spec c' c) as [->|Hne].
    + split.
      * intros [= <- <-]. split; [done|apply not_elem_of_nil].
      * intros [Heq Hni]. destruct b as [|x b]; simplify_eq/=; [done|].
        exfalso. apply Hni. left.
    + rw bind_Some. split.
      * intros ([b' a'] & Hs & [= <- <-]). apply IH in Hs as [-> Hni]. split; [done|].
        apply not_elem_of_cons. done.
      * intros [Heq Hni]. destruct b as [|x b]; simplify_eq/=.
        apply not_elem_of_cons in Hni as [_ Hni]. exists (b, a). split; [|done]. by apply IH.
Qed.

Lemma split_once_None c s : split_once c s = None ↔ c ∉ s.
Proof.
  induction s as [|c' s IH]; simpl.
  - split; [intros _; apply not_elem_of_nil|done].
  - rw not_elem_of_cons -IH. destruct (Z.eqb_spec c' c) as [->|Hne]; [naive_solver|].
    destruct (split_once c s) as [[b a]|]; naive_solver.
Qed.

Lemma find_pair_cons c1 c2 x s :
  find_pair c1 c2 (x :: s) =
  match s with
  | y :: s' => if (x =? c1) && (y =? c2) then Some ([], s')
               else '(before, after) ← find_pair c1 c2 s; Some (x :: before, after)
  | [] => None
  end.
Proof. by destruct s. Qed.

(** The first occurrence: nothing before it contains the pair. *)
Lemma find_pair_Some c1 c2 s b a :
  c1 ≠ c2 →
  find_pair c1 c2 s = Some (b, a) ↔ s = b ++ c1 :: c2 :: a ∧ find_pair c1 c2 b = None.
Proof.
  intros Hne. revert b a. induction s as [|x s IH]; intros b a.
  { split; [done|]. intros [Heq _]. by destruct b. }
  rw find_pair_cons. destruct s as [|y s].
  { split; [done|]. intros [Heq _]. by destruct b as [|? []]. }
  destruct ((x =? c1) && (y =? c2)) eqn:E.
  - apply andb_true_iff in E as [->%Z.eqb_eq ->%Z.eqb_eq]. split.
    + by intros [= <- <-].
    + intros [Heq Hn]. destruct b as [|z b]; simplify_eq/=; [done|].
      destruct b as [|w b]; simplify_eq/=. rw !Z.eqb_refl in Hn. done.
  - rw bind_Some. split.
    + intros ([b' a'] & Hs & [= <- <-]). apply IH in Hs as [Hs Hn]. split; [by rw Hs|].
      rw find_pair_cons. destruct b' as [|z b']; [done|]. simplify_eq/=. rw E. by rw Hn.
    + intros [Heq Hn]. destruct b as [|z b]; simpl in Heq.
      { apply andb_false_iff in E as [?%Z.eqb_neq|?%Z.eqb_neq]; congruence. }
      injection Heq as <- Heq.
      exists (b, a). split; [|done]. apply IH. split; [done|].
      rw find_pair_cons in Hn. destruct b as [|w b]; [done|].
      injection Heq as <- Heq. rw E in Hn.
      by destruct (find_pair c1 c2 (y :: b)) as [[]|].
Qed.

Lemma skip_while_id p s : match s with c :: _ => p c = false | [] => True end → skip_while p s = s.
Proof. destruct s as [|c s]; simpl; [done|]. by intros ->. Qed.

Lemma skip_end_id p s : match last s with Some c => p c = false | None => True end → skip_end p s = s.
Proof.
  intros Hl. unfold skip_end. rw skip_while_id; [by rw rev_involutive|].
  destruct s as [|c s _] using rev_ind; [done|]. rw last_snoc in Hl. by rw rev_app_distr.
Qed.

(** Text that starts and ends outside [p] is left alone. *)
Definition bounded_by_not (p : Z → bool) (s : Str) : bool :=
  match head s with Some c => negb (p c) | None => true end &&
  match last s with Some c => negb (p c) | None => true end.

Lemma strip_id p s : bounded_by_not p s = true → skip_end p (skip_while p s) = s.
Proof.
  unfold bounded_by_not. intros [Hh Hl]%andb_true_iff. rw (skip_while_id p s).
  - apply skip_end_id. by destruct (last s); [apply negb_true_iff|].
  - by destruct s; [|apply negb_true_iff].
Qed.

Lemma skip_while_elem p s c : c ∈ skip_while p s → c ∈ s.
Proof.
  induction s as [|x s IH]; simpl; [done|]. destruct (p x); [|done]. intros ?. right. by apply IH.
Qed.

Lemma skip_end_elem p s c : c ∈ skip_end p s → c ∈ s.
Proof.
  unfold skip_end. rw !list_elem_of_In -!in_rev -!list_elem_of_In.
  intros Hc%skip_while_elem. by rw list_elem_of_In -in_rev -list_elem_of_In in Hc.
Qed.

Lemma trim_elem s c : c ∈ trim s → c ∈ s.
Proof. intros ?%skip_end_elem%skip_while_elem. done. Qed.

(** ** Substitution *)

(** More fuel than the text is long changes nothing. *)
Lemma expand_go_enough env fuel1 fuel2 s :
  (length s ≤ fuel1)%nat → (length s ≤ fuel2)%nat →
  expand_go env fuel1 s = expand_go env fuel2 s.
Proof.
  revert fuel2 s. induction fuel1 as [|fuel1 IH]; intros fuel2 s H1 H2.
  { destruct s; simpl in *; [|lia]. by destruct fuel2. }
  destruct fuel2 as [|fuel2]; [destruct s; simpl in *; [done|lia]|].
  simpl. destruct (find_pair _ _ s) as [[before after]|] eqn:E; [|done].
  apply find_pair_Some in E as [-> _]; [|done].
  destruct (split_once _ after) as [[name rest]|] eqn:E2; [|done].
  apply split_once_Some in E2 as [-> _]. do 2 f_equal.
  rw !length_app /= !length_app /= in H1 H2. apply IH; lia.
Qed.

Lemma expand_unfold env value :
  expand env value =
  match find_pair DOLLAR OPEN_BRACE value with
  | None => value
  | Some (before, after) =>
      match split_once CLOSE_BRACE after with
      | Some (name, rest) => before ++ default [] (var env name) ++ expand env rest
      | None => value
      end
  end.
Proof.
  unfold expand. rw (expand_go_enough env (length value) (S (length value)) value); [|lia..].
  cbn [expand_go]. destruct (find_pair _ _ value) as [[before after]|] eqn:E; [|done].
  destruct (split_once _ after) as [[name rest]|] eqn:E2; [|done]. do 2 f_equal.
  apply expand_go_enough; [|done]. apply find_pair_Some in E as [-> _]; [|done].
  apply split_once_Some in E2 as [-> _]. rw length_app /= length_app /=. lia.
Qed.

(** [expand] replaces the references of a value from left to right: text before the
    first [${] is kept, the name up to the next closing brace is replaced by the value of
    the variable (nothing if it has none), and the rest is expanded in the same way, so that
    what was substituted is not expanded again; a value without a reference, and the part
    from a reference that is never closed, stay as they are. *)
Theorem expand_equations env before name rest after :
  (find_pair DOLLAR OPEN_BRACE before = None → expand env before = before) ∧
  (find_pair DOLLAR OPEN_BRACE before = None → CLOSE_BRACE ∉ name →
   expand env (before ++ str "${" ++ name ++ str "}" ++ rest)
   = before ++ default [] (var env name) ++ expand env rest) ∧
  (find_pair DOLLAR OPEN_BRACE before = None → CLOSE_BRACE ∉ after →
   expand env (before ++ str "${" ++ after) = before ++ str "${" ++ after).
Proof.
  split_and!.
  - intros Hn. by rw expand_unfold Hn.
  - intros Hn Hc. rw expand_unfold.
    rw (proj2 (find_pair_Some DOLLAR OPEN_BRACE _ before (name ++ str "}" ++ rest) ltac:(done)));
      [|done].
    by rw (proj2 (split_once_Some CLOSE_BRACE _ name rest)).
  - intros Hn Hc. rw expand_unfold.
    rw (proj2 (find_pair_Some DOLLAR OPEN_BRACE _ before after ltac:(done))); [|done].
    by rw (proj2 (split_once_None _ _)).
Qed.

(** ** Loading *)

(** No character is a NUL. *)
Definition no_nul (s : Str) : Prop := 0 ∉ s.

Definition environ_wf (env : Environ) : Prop := ∀ k v, env !! k = Some (Some v) → no_nul v.

Lemma expand_no_nul env s : environ_wf env → no_nul s → no_nul (expand env s).
Proof.
  intros Hwf. unfold expand. generalize (length s) as fuel. intros fuel. revert s.
  induction fuel as [|fuel IH]; intros s Hs; simpl; [done|].
  destruct (find_pair _ _ s) as [[before after]|] eqn:E; [|done].
  apply find_pair_Some in E as [-> _]; [|done].
  destruct (split_once _ after) as [[name rest]|] eqn:E2; [|done].
  apply split_once_Some in E2 as [-> _]. unfold no_nul in *.
  rw !not_elem_of_app !not_elem_of_cons in Hs.
  rw !not_elem_of_app. split_and!; [naive_solver| |apply IH; set_solver].
  unfold var. destruct (env !! name) as [[v|]|] eqn:El; simpl; try apply not_elem_of_nil.
  by eapply Hwf.
Qed.

Lemma strip_inline_comment_elem v c : c ∈ strip_inline_comment v → c ∈ v.
Proof.
  unfold strip_inline_comment. destruct (_ || _); [done|].
  destruct (find_pair _ _ v) as [[b a]|] eqn:E; [|done].
  apply find_pair_Some in E as [-> _]; [|done]. intros ?%skip_end_elem. set_solver.
Qed.

(** One line adds at most one variable, which was not set before. *)
Lemma load_line_spec env line :
  environ_wf env → no_nul line →
  ∃ env', load_line env line = Some env' ∧ environ_wf env' ∧
    (env' = env ∨ ∃ k v, env !! k = None ∧ k ≠ [] ∧ env' = <[k := Some v]> env).
Proof.
  intros Hwf Hn. unfold load_line. set (tl := trim line).
  assert (no_nul tl) as Ht by (intros ?%trim_elem; done).
  destruct (_ || _); [by eauto|]. destruct (split_once EQUALS tl) as [[key value]|] eqn:E; [|by eauto].
  apply split_once_Some in E as [Heq Hni]. rw Heq in Ht. clear Heq.
  unfold no_nul in Ht. rw not_elem_of_app not_elem_of_cons in Ht.
  set (k := trim key). set (v := trim_matches SINGLE_QUOTE _).
  assert (no_nul v) as Hv.
  { intros Hin%skip_end_elem%skip_while_elem%skip_end_elem%skip_while_elem%strip_inline_comment_elem%trim_elem.
    naive_solver. }
  destruct (bool_decide (k = [])) eqn:Ek; [by eauto|]. apply bool_decide_eq_false in Ek.
  unfold var_os_is_some. case_bool_decide as Hs; [by eauto|]. simpl.
  apply eq_None_not_Some in Hs. pose proof (expand_no_nul env v Hwf Hv) as He.
  unfold set_var. rw bool_decide_eq_false_2.
  2:{ intros [?|[Hin|[Hin|Hin]]]; [done| | |done]; apply trim_elem in Hin; naive_solver. }
  eexists. split; [done|]. split; [|by right; eauto 10].
  intros k' v'. rw lookup_insert_Some. intros [[_ [= <-]]|[_ Hl]]; [done|by eapply Hwf].
Qed.

Lemma load_lines_spec env ls :
  environ_wf env → Forall no_nul ls →
  ∃ env', load_lines env ls = Some env' ∧ env ⊆ env' ∧
    ∀ k, env !! k = None → is_Some (env' !! k) → k ≠ [].
Proof.
  revert env. induction ls as [|line ls IH]; intros env Hwf Hall; simpl.
  { exists env. split; [done|]. split; [done|]. intros k -> [? [=]]. }
  apply Forall_cons in Hall as [Hn Hall].
  destruct (load_line_spec env line Hwf Hn) as (env1 & -> & Hwf1 & Hstep). simpl.
  destruct (IH env1 Hwf1 Hall) as (env' & -> & Hsub & Hnew). exists env'. split; [done|].
  destruct Hstep as [->|(k & v & Hk & Hne & ->)]; [done|]. split.
  - etrans; [|exact Hsub]. by apply insert_subseteq.
  - intros k' Hk' Hs. destruct (decide (k = k')) as [->|Hd]; [done|].
    apply Hnew; [|done]. by rw lookup_insert_ne.
Qed.

Lemma split_lines_no_nul line s : no_nul line → no_nul s → Forall no_nul (split_lines line s).
Proof.
  unfold no_nul. revert line. induction s as [|c s IH]; intros line Hl Hs; simpl.
  { destruct line; [done|]. by repeat constructor. }
  apply not_elem_of_cons in Hs as [Hc Hs]. destruct (c =? 10).
  - constructor; [|apply IH; [apply not_elem_of_nil|done]].
    assert (0 ∉ take (length line - 1) line) as Ht.
    { intros Hin. apply Hl. rw -(take_drop (length line - 1) line). set_solver. }
    destruct (last line) as [l|]; [|done]. by destruct (Z.eq_dec l 13) as [->|];
      [|destruct l as [|[p|p|]|]; try done; repeat (destruct p as [p|p|]; try done)].
  - apply IH; [|done]. set_solver.
Qed.

(** Loading a file without NULs never panics and never overrides: every variable
    that was set keeps its value, valid Unicode or not, and only non-empty names are added.
    A file that cannot be read changes nothing. *)
Theorem load_dotenv_never_overrides contents env :
  environ_wf env → no_nul contents →
  load_dotenv_from None env = Some env ∧
  ∃ env', load_dotenv_from (Some contents) env = Some env' ∧ env ⊆ env' ∧
    ∀ k, env !! k = None → is_Some (env' !! k) → k ≠ [].
Proof.
  intros Hwf Hn. split; [done|]. apply load_lines_spec; [done|].
  apply split_lines_no_nul; [apply not_elem_of_nil|done].
Qed.

(** ** Writing a file and loading it *)

(** [KEY="VALUE"] and a line feed. *)
Definition assignment (k v : Str) : Str := k ++ EQUALS :: DOUBLE_QUOTE :: v ++ [DOUBLE_QUOTE].
Definition render (kvs : list (Str * Str)) : Str := kvs ≫= λ '(k, v), assignment k v ++ [10].

(** A name that survives trimming and does not read as a comment. *)
Record name_ok (k : Str) : Prop := {
  name_nonempty : k ≠ [];
  name_trimmed : bounded_by_not is_whitespace k = true;
  name_no_comment : starts_with HASH k = false;
  name_no_equals : EQUALS ∉ k;
  name_one_line : 10 ∉ k;
  name_no_nul : 0 ∉ k;
}.

(** A value on one line that neither starts nor ends with a quote and holds no reference. *)
Record value_ok (v : Str) : Prop := {
  value_no_double : bounded_by_not (Z.eqb DOUBLE_QUOTE) v = true;
  value_no_single : bounded_by_not (Z.eqb SINGLE_QUOTE) v = true;
  value_one_line : 10 ∉ v;
  value_no_nul : 0 ∉ v;
  value_no_reference : find_pair DOLLAR OPEN_BRACE v = None;
}.

Lemma trim_matches_quoted q v :
  bounded_by_not (Z.eqb q) v = true → trim_matches q (q :: v ++ [q]) = v.
Proof.
  intros Hb. unfold trim_matches. simpl. rw Z.eqb_refl.
  destruct v as [|c v]; [simpl; by rw Z.eqb_refl|].
  pose proof Hb as [Hh%negb_true_iff _]%andb_true_iff. simpl in Hh |- *. rw Hh.
  change (c :: v ++ [q]) with ((c :: v) ++ [q]). unfold skip_end.
  rw rev_app_distr. simpl rev at 2. rw /= Z.eqb_refl. apply (skip_end_id (Z.eqb q) (c :: v)).
  apply andb_true_iff in Hb as [_ Hl]. by destruct (last _); [apply negb_true_iff|].
Qed.

Lemma split_lines_line acc line rest :
  10 ∉ line → last (acc ++ line) ≠ Some 13 →
  split_lines acc (line ++ 10 :: rest) = (acc ++ line) :: split_lines [] rest.
Proof.
  revert acc. induction line as [|c line IH]; intros acc Hn Hl; simpl.
  - rw app_nil_r in Hl |- *. f_equal. destruct (last acc) as [l|]; [|done].
    destruct (Z.eq_dec l 13) as [->|]; [done|].
    destruct l as [|[p|p|]|]; try done; repeat (destruct p as [p|p|]; try done).
  - apply not_elem_of_cons in Hn as [Hc Hn]. destruct (Z.eqb_spec c 10); [done|].
    rw IH -?app_assoc //.
Qed.

Lemma last_assignment k v : last (assignment k v) = Some DOUBLE_QUOTE.
Proof. unfold assignment. by rw app_comm_cons app_comm_cons app_assoc last_snoc. Qed.

Lemma trim_quoted v : trim (DOUBLE_QUOTE :: v ++ [DOUBLE_QUOTE]) = DOUBLE_QUOTE :: v ++ [DOUBLE_QUOTE].
Proof. apply strip_id. unfold bounded_by_not. by rw app_comm_cons last_snoc. Qed.

Lemma load_assignment env k v :
  name_ok k → value_ok v →
  load_line env (assignment k v) =
  Some (match env !! k with Some _ => env | None => <[k := Some v]> env end).
Proof.
  intros Hk Hv. pose proof (name_nonempty _ Hk) as Hne. pose proof (name_trimmed _ Hk) as Htr.
  unfold load_line. replace (trim (assignment k v)) with (assignment k v).
  2:{ symmetry. apply strip_id. unfold bounded_by_not in *. rw last_assignment.
      apply andb_true_iff in Htr as [Hh _]. apply andb_true_iff. split; [|done].
      by destruct k. }
  rw bool_decide_eq_false_2; [|by destruct k]. rw orb_false_l.
  replace (starts_with HASH (assignment k v)) with false.
  2:{ rw -(name_no_comment _ Hk). by destruct k. }
  rw (proj2 (split_once_Some EQUALS _ k (DOUBLE_QUOTE :: v ++ [DOUBLE_QUOTE]))).
  2:{ split; [done|by apply name_no_equals]. }
  replace (trim k) with k by (symmetry; by apply strip_id).
  rw trim_quoted. change (strip_inline_comment (DOUBLE_QUOTE :: ?x)) with (DOUBLE_QUOTE :: x).
  rw trim_matches_quoted; [|by apply value_no_double].
  replace (trim_matches SINGLE_QUOTE v) with v
    by (symmetry; apply strip_id; by apply value_no_single).
  cbv zeta. rw bool_decide_eq_false_2 // orb_false_l. unfold var_os_is_some.
  destruct (env !! k) as [w|] eqn:Ew; [rw bool_decide_eq_true_2; [done|by eexists]|].
  rw bool_decide_eq_false_2; [|by intros [? [=]]]. rw expand_unfold (value_no_reference _ Hv).
  unfold set_var. rw bool_decide_eq_false_2 //. intros [?|[?|[?|?]]]; [done| | |].
  - by apply (name_no_equals _ Hk).
  - by apply (name_no_nul _ Hk).
  - by apply (value_no_nul _ Hv).
Qed.

Lemma lines_render_cons k v kvs :
  name_ok k → value_ok v →
  lines (render ((k, v) :: kvs)) = assignment k v :: lines (render kvs).
Proof.
  intros Hk Hv. unfold lines, render. cbn [mbind list_bind]. rw -app_assoc /=.
  rw split_lines_line //; [|by rw last_assignment].
  unfold assignment. rw !not_elem_of_app !not_elem_of_cons not_elem_of_app.
  pose proof (name_one_line _ Hk). pose proof (value_one_line _ Hv).
  split_and!; try done. by intros ?%list_elem_of_singleton.
Qed.

(** A file written as [KEY="VALUE"] lines loads back exactly: every variable that is
    not already set gets the value written for it, the first one if a name occurs twice,
    and nothing else changes. *)
Theorem dotenv_round_trip kvs env :
  Forall (λ kv, name_ok kv.1 ∧ value_ok kv.2) kvs →
  load_dotenv_from (Some (render kvs)) env
  = Some (env ∪ list_to_map ((λ kv, (kv.1, Some kv.2)) <$> kvs)).
Proof.
  simpl. intros Hok. revert env. induction Hok as [|[k v] kvs [Hk Hv] _ IH]; intros env.
  { simpl. by rw right_id_L. }
  simpl in Hk, Hv. rw lines_render_cons //. cbn [load_lines]. rw load_assignment //=.
  rw IH. f_equal. apply map_eq. intros i. rw !lookup_union.
  destruct (decide (i = k)) as [->|Hne]; [rw lookup_insert_eq|rw lookup_insert_ne //].
  - assert (∀ (w : option Str) o, Some w ∪ o = Some w) as Hu by (by intros ? []).
    destruct (env !! k) as [w|] eqn:E; [by rw E !Hu|]. by rw lookup_insert_eq E Hu.
  - destruct (env !! k); [done|]. by rw lookup_insert_ne.
Qed.

(** ** Witnesses *)

Definition sample_environ : Environ := {[str "HOME" := Some (str "/root")]}.

Lemma sample_environ_wf : environ_wf sample_environ.
Proof.
  intros k v. unfold sample_environ. rw lookup_singleton_Some. intros [_ [= <-]].
  apply (bool_decide_unpack _). vm_compute. reflexivity.
Qed.

Definition sample_file : Str :=
  str "# comment" ++ [10] ++ str "HOME=/tmp" ++ [10] ++ str "LOGS = ${HOME}/logs # where" ++ [10].

Lemma expand_equations_witness :
  expand sample_environ (str "a" ++ str "${" ++ str "HOME" ++ str "}" ++ str "/${")
  = str "a/root/${".
Proof.
  rw (proj1 (proj2 (expand_equations sample_environ (str "a") (str "HOME") (str "/${") [])));
    [vm_compute; reflexivity|vm_compute; reflexivity|].
  apply (bool_decide_unpack _). vm_compute. reflexivity.
Defined.

Lemma load_dotenv_never_overrides_witness :
  load_dotenv_from (Some sample_file) sample_environ
  = Some (<[str "LOGS" := Some (str "/root/logs")]> sample_environ) ∧
  load_dotenv_from None sample_environ = Some sample_environ ∧
  ∃ env', load_dotenv_from (Some sample_file) sample_environ = Some env' ∧
    sample_environ ⊆ env' ∧ ∀ k, sample_environ !! k = None → is_Some (env' !! k) → k ≠ [].
Proof.
  split; [vm_compute; reflexivity|].
  apply (load_dotenv_never_overrides sample_file sample_environ sample_environ_wf).
  apply (bool_decide_unpack _). vm_compute. reflexivity.
Defined.

Lemma dotenv_round_trip_witness :
  load_dotenv_from (Some (render [(str "A", str "x # y"); (str "HOME", []); (str "A", [])]))
    sample_environ
  = Some (<[str "A" := Some (str "x # y")]> sample_environ).
Proof.
  rw (dotenv_round_trip [(str "A", str "x # y"); (str "HOME", []); (str "A", [])]);
    [vm_compute; reflexivity|].
  repeat (apply Forall_cons; split);
    try (split; constructor; apply (bool_decide_unpack _); vm_compute; reflexivity).
  apply Forall_nil. exact I.
Defined.

(** The loader's own description says it strips a single pair of surrounding quotes; it
    strips every quote at either end, paired or not. *)
Theorem stacked_quotes_are_stripped :
  load_dotenv_from
    (Some (str "K=" ++ [DOUBLE_QUOTE; DOUBLE_QUOTE; SINGLE_QUOTE] ++ str "x" ++ [SINGLE_QUOTE])) ∅
  = load_dotenv_from (Some (str "K=x")) ∅.
Proof. vm_compute. reflexivity. Qed.

End Dotenv.
