(* ===== verification/Config.v ===== *)
(** * Configuration

    [api/src/infra/config.rs], [observer/src/infra/config.rs] and the [from_env] of
    [shared/src/logging.rs] and [shared/src/metrics.rs]: what the process reads from its
    environment at start-up, and the integer and boolean parsers of [std] it uses.  [usize]
    is 64 bits wide. *)

From S2P Require Import Prelude.
From S2P Require Import Dotenv.

Open Scope Z_scope.

Module Config.
Import Dotenv.

(** ** [FromStr] of [u64] and [bool] *)

(** One character of [u64::from_str]: the digit is looked at before the overflow of the
    multiplication is reported. *)
Definition push_digit (acc : Z) (c : Z) : result Str Z :=
  if bool_decide (48 ≤ c ≤ 57) then
    if 2 ^ 64 <=? acc * 10 then Err (str "number too large to fit in target type")
    else if 2 ^ 64 <=? acc * 10 + (c - 48) then Err (str "number too large to fit in target type")
    else Ok (acc * 10 + (c - 48))
  else Err (str "invalid digit found in string").

Fixpoint push_digits (acc : Z) (s : Str) : result Str Z :=
  match s with
  | [] => Ok acc
  | c :: s => acc ← push_digit acc c; push_digits acc s
  end.

(** A leading [+] is accepted, alone it is not a number; a [-] is no digit. *)
Definition parse_u64 (s : Str) : result Str Z :=
  match s with
  | [] => Err (str "cannot parse integer from empty string")
  | [43] | [45] => Err (str "invalid digit found in string")
  | 43 :: digits => push_digits 0 digits
  | _ => push_digits 0 s
  end.

Definition parse_bool (s : Str) : result Str bool :=
  if bool_decide (s = str "true") then Ok true
  else if bool_decide (s = str "false") then Ok false
  else Err (str "provided string was not `true` or `false`").

(** [u64::to_string]; twenty digits are enough for 64 bits. *)
Fixpoint decimal (fuel : nat) (n : Z) : Str :=
  match fuel with
  | O => []
  | S fuel => if n <? 10 then [48 + n] else decimal fuel (n / 10) ++ [48 + n mod 10]
  end.
Definition to_string (n : Z) : Str := decimal 20 n.

(** ** The configuration *)

Record LoggingConfig := mkLoggingConfig {
  lc_level : Str;
  lc_to_file : bool;
  lc_dir : Str;
  lc_max_files : Z;
}.

Record MetricsConfig := mkMetricsConfig {
  mc_enabled : bool;
  mc_bind : Str;
}.

Record RpcConfig := mkRpcConfig {
  rpc_host : Str;
  rpc_user : Str;
  rpc_pass : Str;
}.

(** [observer::infra::config::Config]; the one field of [ZmqConfig] is [oc_blocks_endpoint]. *)
Record ObserverConfig := mkObserverConfig {
  oc_rpc : RpcConfig;
  oc_blocks_endpoint : Str;
  oc_poll_interval_secs : Z;
}.

(** [ApiConfig]; the one field of [DatabaseConfig] is [ac_database_url]. *)
Record ApiConfig := mkApiConfig {
  ac_bind : Str;
  ac_database_url : Str;
  ac_logging : LoggingConfig;
  ac_metrics : MetricsConfig;
  ac_observer : ObserverConfig;
  ac_data_dir : Str;
  ac_gauge_interval_secs : Z;
  ac_tx_backfill_queue_capacity : Z;
}.

Definition DEFAULT_LOG_MAX_FILES : Z := 30.
Definition DEFAULT_POLL_INTERVAL_SECS : Z := 10.
Definition DEFAULT_GAUGE_INTERVAL_SECS : Z := 60.
Definition DEFAULT_TX_BACKFILL_QUEUE_CAPACITY : Z := 100000.

(** [db::NATIVE_RESOLUTION_SECS] *)
Definition MIN_GAUGE_INTERVAL_SECS : Z := 60.

Definition LoggingConfig_from_env (env : Environ) : result ConfigError LoggingConfig :=
  to_file ← env_parse parse_bool env (str "LOG_TO_FILE") true;
  max_files ← env_parse parse_u64 env (str "LOG_MAX_FILES") DEFAULT_LOG_MAX_FILES;
  Ok (mkLoggingConfig (env_or env (str "LOG_LEVEL") (str "debug")) to_file
        (env_or env (str "LOG_DIR") (str "logs")) max_files).

Definition MetricsConfig_from_env (env : Environ) : result ConfigError MetricsConfig :=
  enabled ← env_parse parse_bool env (str "METRICS_ENABLED") true;
  Ok (mkMetricsConfig enabled (env_or env (str "METRICS_BIND") (str "127.0.0.1:3334"))).

Definition ObserverConfig_from_env (env : Environ) : result ConfigError ObserverConfig :=
  host ← env_req env (str "RPC_HOST");
  user ← env_req env (str "RPC_USER");
  pass ← env_req env (str "RPC_PASS");
  blocks_endpoint ← env_req env (str "ZMQ_BLOCKS_ENDPOINT");
  poll_interval_secs ← env_parse parse_u64 env (str "POLL_INTERVAL_SECS") DEFAULT_POLL_INTERVAL_SECS;
  Ok (mkObserverConfig (mkRpcConfig host user pass) blocks_endpoint poll_interval_secs).

(** The part of [ApiConfig::from_env] after the file is loaded. *)
Definition ApiConfig_read (env : Environ) : result ConfigError ApiConfig :=
  gauge_interval_secs ←
    env_parse parse_u64 env (str "GAUGE_INTERVAL_SECS") DEFAULT_GAUGE_INTERVAL_SECS;
  if gauge_interval_secs <? MIN_GAUGE_INTERVAL_SECS then
    Err (Invalid (str "GAUGE_INTERVAL_SECS") (to_string gauge_interval_secs)
           (str "must be >= NATIVE_RESOLUTION_SECS (60s)"))
  else
    url ← env_req env (str "DATABASE_URL");
    logging ← LoggingConfig_from_env env;
    metrics ← MetricsConfig_from_env env;
    observer ← ObserverConfig_from_env env;
    capacity ← env_parse parse_u64 env (str "TX_BACKFILL_QUEUE_CAPACITY")
                 DEFAULT_TX_BACKFILL_QUEUE_CAPACITY;
    Ok (mkApiConfig (env_or env (str "BIND") (str "127.0.0.1:3333")) url logging metrics
          observer (env_or env (str "DATA_DIR") (str "data")) gauge_interval_secs capacity).

(** [None] is the panic of [set_var]. *)
Definition ApiConfig_from_env (dotenv : option Str) (env : Environ) :
    option (result ConfigError ApiConfig) :=
  env ← load_dotenv_from dotenv env; Some (ApiConfig_read env).

(** ** The parsers *)

Lemma push_digits_app acc s1 s2 :
  push_digits acc (s1 ++ s2) = acc ← push_digits acc s1; push_digits acc s2.
Proof.
  revert acc. induction s1 as [|c s1 IH]; intros acc; simpl; [done|].
  destruct (push_digit acc c); simpl; [apply IH|done].
Qed.

Lemma push_digit_ok acc d :
  0 ≤ d ≤ 9 → acc * 10 + d < 2 ^ 64 → push_digit acc (48 + d) = Ok (acc * 10 + d).
Proof.
  intros Hd Hb. unfold push_digit. rw bool_decide_eq_true_2; [|lia].
  rw (proj2 (Z.leb_gt _ _)); [|lia]. rw (proj2 (Z.leb_gt _ _)); [|lia]. f_equal. lia.
Qed.

Lemma push_digits_decimal fuel n :
  0 ≤ n < 10 ^ Z.of_nat fuel → n < 2 ^ 64 → fuel ≠ O → push_digits 0 (decimal fuel n) = Ok n.
Proof.
  revert n. induction fuel as [|fuel IH]; intros n Hn Hb Hf; [done|]. simpl.
  destruct (Z.ltb_spec n 10) as [Hlt|Hge].
  - cbn [push_digits]. rw push_digit_ok; [done|lia|lia].
  - assert (n = 10 * (n / 10) + n mod 10) as Hdm by (apply Z.div_mod; lia).
    pose proof (Z.mod_pos_bound n 10 ltac:(lia)) as Hm.
    rw Nat2Z.inj_succ Z.pow_succ_r in Hn; [|lia].
    rw push_digits_app IH; [|lia|lia|destruct fuel; [simpl in Hn; lia|done]].
    cbn [mbind result_mbind push_digits]. rw push_digit_ok; [|lia|lia].
    cbn [mbind result_mbind]. f_equal. lia.
Qed.

Lemma decimal_head fuel n :
  0 ≤ n → fuel ≠ O → ∃ c s, decimal fuel n = c :: s ∧ 48 ≤ c ≤ 57.
Proof.
  revert n. induction fuel as [|fuel IH]; intros n Hn Hf; [done|]. simpl.
  destruct (Z.ltb_spec n 10); [by exists (48 + n), []; split; [|lia]|].
  destruct fuel as [|fuel].
  - exists (48 + n mod 10), []. split; [done|]. pose proof (Z.mod_pos_bound n 10 ltac:(lia)). lia.
  - destruct (IH (n / 10)) as (c & s & -> & Hc); [apply Z.div_pos; lia|done|]. by eexists _, _.
Qed.

Lemma parse_digits_first c s : 48 ≤ c ≤ 57 → parse_u64 (c :: s) = push_digits 0 (c :: s).
Proof.
  intros Hc. unfold parse_u64.
  destruct c as [|c|c]; [lia| |lia].
  by repeat (destruct c as [c|c|]; try lia).
Qed.

Lemma push_digits_range acc s n : is_u64 acc → push_digits acc s = Ok n → is_u64 n.
Proof.
  revert acc. induction s as [|c s IH]; intros acc Ha; simpl; [by intros [= <-]|].
  destruct (push_digit acc c) as [acc'|] eqn:E; [|done]. simpl. apply IH. clear IH.
  unfold push_digit in E. case_bool_decide as Hc; [|done]. unfold is_u64 in *.
  destruct (Z.leb_spec (2 ^ 64) (acc * 10)); [done|].
  destruct (Z.leb_spec (2 ^ 64) (acc * 10 + (c - 48))); [done|]. injection E as <-. lia.
Qed.

Lemma parse_u64_range s n : parse_u64 s = Ok n → is_u64 n.
Proof.
  assert (∀ s, push_digits 0 s = Ok n → is_u64 n) as Hp.
  { intros s'. apply push_digits_range. unfold is_u64. lia. }
  assert (s = [] ∨ parse_u64 s = Err (str "invalid digit found in string") ∨
          parse_u64 s = push_digits 0 s ∨ ∃ s', parse_u64 s = push_digits 0 s') as Hc.
  { unfold parse_u64. destruct s as [|c s]; [by left|right].
    destruct c as [|c|c]; [by right; left| |by right; left].
    repeat (destruct c as [c|c|]; try (by right; left)).
    all: destruct s; [by left|right; first [by left | right; by eexists]]. }
  intros Hn. destruct Hc as [->|[Hc|[Hc|[s' Hc]]]]; [done|congruence|..];
    rw Hc in Hn; by eapply Hp.
Qed.

(** Integers survive the environment: what [to_string] writes, [parse_u64] reads back,
    for every 64-bit number, and whatever [parse_u64] accepts is such a number. *)
Theorem parse_u64_round_trip n :
  (is_u64 n → parse_u64 (to_string n) = Ok n) ∧ (∀ s, parse_u64 s = Ok n → is_u64 n).
Proof.
  split; [|intros s; apply parse_u64_range]. unfold is_u64. intros Hn. unfold to_string.
  destruct (decimal_head 20 n) as (c & s & Hd & Hc); [lia|done|].
  rw Hd parse_digits_first // -Hd. apply push_digits_decimal; [|lia|done].
  split; [lia|]. apply Z.lt_le_trans with (2 ^ 64); [lia|]. vm_compute. discriminate.
Qed.

(** ** Reading the environment *)

(** The variables without which the process does not start. *)
Definition required : list Str :=
  [str "DATABASE_URL"; str "RPC_HOST"; str "RPC_USER"; str "RPC_PASS"; str "ZMQ_BLOCKS_ENDPOINT"].

Lemma env_opt_nonempty env k v : env_opt env k = Some v → v ≠ [].
Proof.
  unfold env_opt. destruct (var env k) as [w|]; simpl; [|done]. case_bool_decide; [done|].
  by intros [= <-].
Qed.

(** The two outcomes of a required variable and of a parsed one. *)
Lemma env_req_cases env k :
  (∃ v, env_req env k = Ok v ∧ v ≠ [] ∧ env_opt env k = Some v) ∨
  (env_req env k = Err (Missing k) ∧ env_opt env k = None).
Proof.
  unfold env_req. destruct (env_opt env k) as [v|] eqn:E; [left|by right].
  exists v. split_and!; [done|by eapply env_opt_nonempty|done].
Qed.

Lemma env_parse_not_missing {T} (parse : Str → result Str T) env k d e :
  env_parse parse env k d = Err e → ∃ v r, e = Invalid k v r.
Proof.
  unfold env_parse. destruct (env_opt env k) as [v|]; [|done].
  destruct (parse v); simpl; [done|]. intros [= <-]. by eexists _, _.
Qed.

Lemma env_parse_range env k d n : is_u64 d → env_parse parse_u64 env k d = Ok n → is_u64 n.
Proof.
  intros Hd. unfold env_parse. destruct (env_opt env k) as [v|]; [|by intros [= <-]].
  destruct (parse_u64 v) eqn:E; simpl; [|done]. intros [= <-]. by eapply parse_u64_range.
Qed.

(** What the observer's part of a configuration guarantees. *)
Definition observer_ok (env : Environ) (o : ObserverConfig) : Prop :=
  env_opt env (str "RPC_HOST") = Some (rpc_host (oc_rpc o)) ∧
  env_opt env (str "RPC_USER") = Some (rpc_user (oc_rpc o)) ∧
  env_opt env (str "RPC_PASS") = Some (rpc_pass (oc_rpc o)) ∧
  env_opt env (str "ZMQ_BLOCKS_ENDPOINT") = Some (oc_blocks_endpoint o) ∧
  is_u64 (oc_poll_interval_secs o).

(** A missing variable that is named is one of [keys] and has no value. *)
Definition missing_among (env : Environ) (keys : list Str) (e : ConfigError) : Prop :=
  match e with Missing k => k ∈ keys ∧ env_opt env k = None | Invalid _ _ _ => True end.

Lemma observer_from_env_spec env :
  match ObserverConfig_from_env env with
  | Ok o => observer_ok env o
  | Err e => missing_among env (drop 1 required) e
  end.
Proof.
  unfold ObserverConfig_from_env.
  destruct (env_req_cases env (str "RPC_HOST")) as [(v1 & -> & _ & E1)|[-> E1]]; simpl;
    [|split; [set_solver|done]].
  destruct (env_req_cases env (str "RPC_USER")) as [(v2 & -> & _ & E2)|[-> E2]]; simpl;
    [|split; [set_solver|done]].
  destruct (env_req_cases env (str "RPC_PASS")) as [(v3 & -> & _ & E3)|[-> E3]]; simpl;
    [|split; [set_solver|done]].
  destruct (env_req_cases env (str "ZMQ_BLOCKS_ENDPOINT")) as [(v4 & -> & _ & E4)|[-> E4]]; simpl;
    [|split; [set_solver|done]].
  destruct (env_parse _ _ _ _) as [n|e] eqn:E5; simpl.
  - split_and!; try done. eapply env_parse_range, E5. by vm_compute.
  - by apply env_parse_not_missing in E5 as (? & ? & ->).
Qed.

(** A configuration that is accepted has a sampling interval no shorter than the
    native resolution, 64-bit numbers, and every required variable taken, non-empty, from
    the environment; one that is refused as missing names a required variable that the
    environment, the file included, does not set.  Variables set before win over the
    file. *)
Theorem from_env_validates dotenv env env' :
  load_dotenv_from dotenv env = Some env' →
  match ApiConfig_from_env dotenv env with
  | None => False
  | Some (Ok cfg) =>
      MIN_GAUGE_INTERVAL_SECS ≤ ac_gauge_interval_secs cfg < 2 ^ 64 ∧
      env_opt env' (str "DATABASE_URL") = Some (ac_database_url cfg) ∧
      observer_ok env' (ac_observer cfg) ∧
      is_u64 (ac_tx_backfill_queue_capacity cfg) ∧ is_u64 (lc_max_files (ac_logging cfg))
  | Some (Err e) => missing_among env' required e
  end.
Proof.
  intros Hl. unfold ApiConfig_from_env. rw Hl /=. unfold ApiConfig_read.
  destruct (env_parse parse_u64 env' (str "GAUGE_INTERVAL_SECS") _) as [g|e] eqn:Eg; simpl.
  2:{ by apply env_parse_not_missing in Eg as (? & ? & ->). }
  apply env_parse_range in Eg as Hg; [|by vm_compute].
  destruct (Z.ltb_spec g MIN_GAUGE_INTERVAL_SECS) as [|Hmin]; [done|].
  destruct (env_req_cases env' (str "DATABASE_URL")) as [(url & -> & _ & E1)|[-> E1]]; simpl;
    [|split; [set_solver|done]].
  unfold LoggingConfig_from_env, MetricsConfig_from_env.
  destruct (env_parse parse_bool env' (str "LOG_TO_FILE") _) as [b1|e] eqn:Eb1; simpl;
    [|by apply env_parse_not_missing in Eb1 as (? & ? & ->)].
  destruct (env_parse parse_u64 env' (str "LOG_MAX_FILES") _) as [n1|e] eqn:En1; simpl;
    [|by apply env_parse_not_missing in En1 as (? & ? & ->)].
  destruct (env_parse parse_bool env' (str "METRICS_ENABLED") _) as [b2|e] eqn:Eb2; simpl;
    [|by apply env_parse_not_missing in Eb2 as (? & ? & ->)].
  pose proof (observer_from_env_spec env') as Ho.
  destruct (ObserverConfig_from_env env') as [o|[k|k v r]]; simpl in *; [|set_solver|done].
  destruct (env_parse parse_u64 env' (str "TX_BACKFILL_QUEUE_CAPACITY") _) as [n2|e] eqn:En2; simpl;
    [|by apply env_parse_not_missing in En2 as (? & ? & ->)].
  apply env_parse_range in En1; [|by vm_compute]. apply env_parse_range in En2; [|by vm_compute].
  unfold is_u64 in Hg. split_and!; try done; lia.
Qed.

(** ** Witnesses *)

Definition sample_dotenv : Str :=
  str "DATABASE_URL=postgres://db" ++ [10] ++ str "RPC_HOST=node:8332" ++ [10] ++
  str "RPC_USER=u" ++ [10] ++ str "RPC_PASS=p" ++ [10] ++
  str "ZMQ_BLOCKS_ENDPOINT=tcp://node:28333" ++ [10] ++ str "GAUGE_INTERVAL_SECS=120" ++ [10].

Definition loaded_environ : Environ :=
  match load_dotenv_from (Some sample_dotenv) ∅ with Some env => env | None => ∅ end.

Lemma parse_u64_round_trip_witness :
  parse_u64 (to_string 18446744073709551615) = Ok 18446744073709551615.
Proof. apply (proj1 (parse_u64_round_trip 18446744073709551615)). by vm_compute. Defined.

Lemma from_env_validates_witness :
  match ApiConfig_from_env (Some sample_dotenv) ∅ with
  | Some (Ok cfg) => ac_gauge_interval_secs cfg = 120
  | _ => False
  end ∧
  match ApiConfig_from_env (Some sample_dotenv) ∅ with
  | None => False
  | Some (Ok cfg) =>
      MIN_GAUGE_INTERVAL_SECS ≤ ac_gauge_interval_secs cfg < 2 ^ 64 ∧
      env_opt loaded_environ (str "DATABASE_URL") = Some (ac_database_url cfg) ∧
      observer_ok loaded_environ (ac_observer cfg) ∧
      is_u64 (ac_tx_backfill_queue_capacity cfg) ∧ is_u64 (lc_max_files (ac_logging cfg))
  | Some (Err e) => missing_among loaded_environ required e
  end.
Proof.
  split; [vm_compute; reflexivity|].
  apply (from_env_validates (Some sample_dotenv) ∅ loaded_environ). vm_compute. reflexivity.
Defined.

End Config.
