(* ===== verification/Process.v ===== *)
(** * Process statistics from [/proc]

    [api/src/infra/process.rs]: the parsers of [/proc/self/stat], [/proc/self/status] and
    [/proc/stat], the cached start time, and the gauges one sample sets.  [f64] is the binary64
    format of the library's [SpecFloat]; its [FromStr] is written out and rounds once, to
    nearest, ties to even. *)

From Stdlib Require Import SpecFloat.
From S2P Require Import Prelude.
From S2P Require Import Float.
From S2P Require Import Dotenv.
From S2P Require Import Config.

Open Scope Z_scope.

Module Process.
Import Float Dotenv Config.

(** ** The parts of [std] the code uses *)

Definition is_digit (c : Z) : bool := bool_decide (48 ≤ c ≤ 57).

Fixpoint span (p : Z → bool) (s : Str) : Str * Str :=
  match s with
  | c :: s' => if p c then let '(a, b) := span p s' in (c :: a, b) else ([], s)
  | [] => ([], [])
  end.

Definition digits_value (ds : Str) : Z := foldl (λ acc c, acc * 10 + (c - 48)) 0 ds.

Definition to_lower (c : Z) : Z := if bool_decide (65 ≤ c ≤ 90) then c + 32 else c.

Definition strip_sign (s : Str) : bool * Str :=
  match s with
  | 45 :: s => (true, s)
  | 43 :: s => (false, s)
  | _ => (false, s)
  end.

(** The number nearest to [m * 10 ^ e]. *)
Definition round_decimal (negative : bool) (m e : Z) : f64 :=
  if 0 <=? e then
    match m * 10 ^ e with
    | Zpos p => binary_round 53 1024 negative p 0
    | _ => S754_zero negative
    end
  else
    match m with
    | Zpos _ =>
        let '(q, ez, rest) := SFdiv_core_binary 53 1024 m 0 (10 ^ (- e)) 0 in
        binary_round_aux 53 1024 negative q ez rest
    | _ => S754_zero negative
    end.

Definition parse_exponent (s : Str) : option Z :=
  match s with
  | [] => Some 0
  | c :: s =>
      if to_lower c =? 101 then
        let '(negative, s) := strip_sign s in
        match span is_digit s with
        | ([], _) | (_, _ :: _) => None
        | (ds, []) => Some (if negative then - digits_value ds else digits_value ds)
        end
      else None
  end.

Definition parse_number (negative : bool) (s : Str) : option f64 :=
  let '(int, rest) := span is_digit s in
  let '(frac, rest) :=
    match rest with 46 :: rest => span is_digit rest | _ => ([], rest) end in
  match int ++ frac with
  | [] => None
  | ds =>
      e ← parse_exponent rest;
      Some (round_decimal negative (digits_value ds) (e - Z.of_nat (length frac)))
  end.

(** [f64::from_str(s).ok()] *)
Definition parse_f64 (s : Str) : option f64 :=
  let '(negative, s) := strip_sign s in
  let lower := to_lower <$> s in
  if bool_decide (lower = str "inf" ∨ lower = str "infinity") then Some (S754_infinity negative)
  else if bool_decide (lower = str "nan") then Some S754_nan
  else parse_number negative s.

Definition is_ascii_whitespace (c : Z) : bool :=
  bool_decide (c = 9 ∨ c = 10 ∨ c = 12 ∨ c = 13 ∨ c = 32).

Fixpoint split_words (word : Str) (s : Str) : list Str :=
  let flush rest := match word with [] => rest | _ => word :: rest end in
  match s with
  | [] => flush []
  | c :: s =>
      if is_ascii_whitespace c then flush (split_words [] s) else split_words (word ++ [c]) s
  end.
Definition split_ascii_whitespace (s : Str) : list Str := split_words [] s.

(** [&s[s.rfind(c)? + 1..]], for an ASCII [c]. *)
Fixpoint after_last (c : Z) (s : Str) : option Str :=
  match s with
  | [] => None
  | c' :: s =>
      match after_last c s with
      | Some rest => Some rest
      | None => if c' =? c then Some s else None
      end
  end.

Fixpoint starts_with_str (key s : Str) : bool :=
  match key, s with
  | [], _ => true
  | k :: key, c :: s => (k =? c) && starts_with_str key s
  | _ :: _, [] => false
  end.

(** ** The parsers *)

Definition USER_HZ : f64 := of_Z 100.

Record Stat := mkStat {
  cpu_user_seconds : f64;
  cpu_system_seconds : f64;
  threads : f64;
  start_time_ticks : f64;
}.

Record Status := mkStatus {
  resident_bytes : f64;
  resident_peak_bytes : f64;
  virtual_bytes : f64;
}.

Definition ticks_to_seconds (field : Str) : option f64 :=
  ticks ← parse_f64 field; Some (f64_div ticks USER_HZ).

Definition CLOSE_PAREN : Z := 41.

Definition parse_stat (raw : Str) : option Stat :=
  rest ← after_last CLOSE_PAREN raw;
  let fields := split_ascii_whitespace rest in
  user ← (fields !! 11%nat ≫= ticks_to_seconds);
  system ← (fields !! 12%nat ≫= ticks_to_seconds);
  threads ← (fields !! 17%nat ≫= parse_f64);
  ticks ← (fields !! 19%nat ≫= parse_f64);
  Some (mkStat user system threads ticks).

Definition kilobytes_field (raw key : Str) : option f64 :=
  line ← list_find (λ line, starts_with_str key line = true) (lines raw);
  kilobytes ← (split_ascii_whitespace line.2 !! 1%nat ≫= parse_f64);
  Some (f64_mul kilobytes (of_Z 1024)).

Definition parse_status (raw : Str) : option Status :=
  rss ← kilobytes_field raw (str "VmRSS:");
  hwm ← kilobytes_field raw (str "VmHWM:");
  size ← kilobytes_field raw (str "VmSize:");
  Some (mkStatus rss hwm size).

Definition parse_boot_time (raw : Str) : option f64 :=
  line ← list_find (λ line, starts_with_str (str "btime ") line = true) (lines raw);
  split_ascii_whitespace line.2 !! 1%nat ≫= parse_f64.

(** ** The sampler *)

(** The three files, each as it reads at the moment of the sample. *)
Record Proc := mkProc {
  pr_stat : option Str;
  pr_status : option Str;
  pr_boot : option Str;
}.

Definition read (proc : Proc) : option (Stat * Status) :=
  stat ← (pr_stat proc ≫= parse_stat);
  status ← (pr_status proc ≫= parse_status);
  Some (stat, status).

(** The gauges set so far, and the statics: the start time once it was computed, and
    whether the warning was given. *)
Record Sampler := mkSampler {
  sm_gauges : gmap string f64;
  sm_start_time : option (option f64);
  sm_warned : bool;
}.

Definition start_time_seconds (boot : option Str) (ticks : f64) (cache : option (option f64)) :
    option f64 * option (option f64) :=
  match cache with
  | Some start => (start, cache)
  | None =>
      let start :=
        boot_time ← (boot ≫= parse_boot_time); Some (f64_add boot_time (f64_div ticks USER_HZ)) in
      (start, Some start)
  end.

Definition sample (proc : Proc) (s : Sampler) : Sampler :=
  match read proc with
  | None => mkSampler (sm_gauges s) (sm_start_time s) true
  | Some (stat, status) =>
      let g := <["process_cpu_user_seconds_total" := cpu_user_seconds stat]> (sm_gauges s) in
      let g := <["process_cpu_system_seconds_total" := cpu_system_seconds stat]> g in
      let g := <["process_cpu_seconds_total"
                 := f64_add (cpu_user_seconds stat) (cpu_system_seconds stat)]> g in
      let g := <["process_threads" := threads stat]> g in
      let g := <["process_resident_memory_bytes" := resident_bytes status]> g in
      let g := <["process_resident_memory_peak_bytes" := resident_peak_bytes status]> g in
      let g := <["process_virtual_memory_bytes" := virtual_bytes status]> g in
      let '(start, cache) := start_time_seconds (pr_boot proc) (start_time_ticks stat) (sm_start_time s) in
      let g := match start with
               | Some t => <["process_start_time_seconds" := t]> g
               | None => g
               end in
      mkSampler g cache (sm_warned s)
  end.

(** Samples, and the inputs they must get right. *)
Example parses_fraction : parse_f64 (str "2.5") = Some (f64_div (of_Z 5) (of_Z 2)).
Proof. by vm_compute. Qed.
Example parses_tenth : parse_f64 (str "0.1") = Some (f64_div (of_Z 1) (of_Z 10)).
Proof. by vm_compute. Qed.
Example parses_exponent : parse_f64 (str "-12e-1") = Some (f64_div (of_Z (-6)) (of_Z 5)).
Proof. by vm_compute. Qed.
Example parses_huge : parse_f64 (str "1e400") = Some (S754_infinity false).
Proof. by vm_compute. Qed.
Example rejects_point : parse_f64 (str ".") = None ∧ parse_f64 (str "1e") = None ∧ parse_f64 [] = None.
Proof. by vm_compute. Qed.

(** ** Numbers *)

Lemma span_all p s : Forall (λ c, p c = true) s → span p s = (s, []).
Proof. induction 1 as [|c s Hc _ IH]; simpl; [done|]. by rw Hc IH. Qed.

Lemma decimal_digits fuel n :
  0 ≤ n < 10 ^ Z.of_nat fuel → fuel ≠ O →
  Forall (λ c, is_digit c = true) (decimal fuel n) ∧ digits_value (decimal fuel n) = n.
Proof.
  revert n. induction fuel as [|fuel IH]; intros n Hn Hf; [done|]. cbn [decimal].
  destruct (Z.ltb_spec n 10) as [Hlt|Hge].
  - split; [apply Forall_singleton; apply bool_decide_eq_true_2; lia|].
    unfold digits_value. simpl. lia.
  - pose proof (Z.mod_pos_bound n 10 ltac:(lia)) as Hm.
    assert (n = 10 * (n / 10) + n mod 10) as Hdm by (apply Z.div_mod; lia).
    rw Nat2Z.inj_succ Z.pow_succ_r in Hn; [|lia].
    destruct (IH (n / 10)) as [Hd Hv]; [lia|destruct fuel; [simpl in Hn; lia|done]|].
    split.
    + apply Forall_app_2; [done|]. apply Forall_singleton, bool_decide_eq_true_2. lia.
    + unfold digits_value in *. rw foldl_app Hv. simpl. lia.
Qed.

Lemma to_string_digits n :
  is_u64 n → Forall (λ c, is_digit c = true) (to_string n) ∧ digits_value (to_string n) = n ∧
             to_string n ≠ [].
Proof.
  unfold is_u64. intros Hn. unfold to_string.
  destruct (decimal_digits 20 n) as [Hd Hv]; [|done|].
  - split; [lia|]. apply Z.lt_le_trans with (2 ^ 64); [lia|]. by vm_compute.
  - split_and!; [done..|]. by destruct (decimal_head 20 n) as (c & s & -> & _); [lia|done|].
Qed.

Lemma digit_head c s : is_digit c = true → strip_sign (c :: s) = (false, c :: s).
Proof.
  intros Hc%bool_decide_eq_true_1. unfold strip_sign.
  destruct c as [|c|c]; [lia| |lia]. by repeat (destruct c as [c|c|]; try lia).
Qed.

(** What [u64::to_string] writes, [f64::from_str] reads as the nearest number. *)
Lemma parse_f64_u64 n : is_u64 n → parse_f64 (to_string n) = Some (of_Z n).
Proof.
  intros Hn. destruct (to_string_digits n Hn) as (Hd & Hv & Hne).
  destruct (to_string n) as [|c s] eqn:E; [done|].
  pose proof (Forall_inv Hd) as Hc. unfold parse_f64. rw digit_head //.
  assert (to_lower c = c) as Hl.
  { apply bool_decide_eq_true_1 in Hc. unfold to_lower. rw bool_decide_eq_false_2; [done|lia]. }
  apply bool_decide_eq_true_1 in Hc.
  assert (∀ w k, hd_error w = Some k → k > 57 → to_lower <$> c :: s ≠ w) as Hw.
  { intros [|k' w] k; [done|]. intros [= ->] Hk [= He _]. lia. }
  rw bool_decide_eq_false_2; [|by intros [He|He]; revert He; apply (Hw _ 105)].
  rw bool_decide_eq_false_2; [|by apply (Hw _ 110)].
  unfold parse_number. rw span_all //. cbn zeta iota beta. rw app_nil_r. cbn [length].
  cbn [mbind option_bind parse_exponent]. rw Hv. unfold round_decimal. simpl (0 <=? _).
  rw Z.mul_1_r. unfold of_Z, binary_normalize. unfold is_u64 in Hn. destruct n; [done|done|lia].
Qed.

(** ** Words and lines *)

Definition token (s : Str) : Prop := s ≠ [] ∧ Forall (λ c, is_ascii_whitespace c = false) s.

Lemma digit_not_space c : is_digit c = true → is_ascii_whitespace c = false.
Proof.
  intros Hc%bool_decide_eq_true_1. unfold is_ascii_whitespace.
  apply bool_decide_eq_false_2. lia.
Qed.

Lemma to_string_token n : is_u64 n → token (to_string n).
Proof.
  intros Hn. destruct (to_string_digits n Hn) as (Hd & _ & Hne). split; [done|].
  eapply Forall_impl; [exact Hd|]. apply digit_not_space.
Qed.

Lemma split_words_token word s rest :
  Forall (λ c, is_ascii_whitespace c = false) s →
  split_words word (s ++ rest) = split_words (word ++ s) rest.
Proof.
  intros Hs. revert word. induction Hs as [|c s Hc _ IH]; intros word; [by rw app_nil_r|].
  cbn [app split_words]. rw Hc IH -app_assoc. done.
Qed.

Lemma split_words_space word s rest :
  s ≠ [] → Forall (λ c, is_ascii_whitespace c = true) s →
  split_words word (s ++ rest) = (match word with [] => [] | _ => [word] end) ++ split_words [] rest.
Proof.
  intros Hne Hs. revert word Hne. induction Hs as [|c s Hc Hs IH]; intros word Hne; [done|].
  cbn [app split_words]. rw Hc. destruct s as [|c' s].
  - by destruct word.
  - rw IH //. by destruct word.
Qed.

Lemma split_fields word fields :
  Forall token fields →
  split_words word ((fields ≫= λ f, SPACE :: f) ++ [10])
  = (match word with [] => [] | _ => [word] end) ++ fields.
Proof.
  intros Hf. revert word. induction Hf as [|f fields [Hne Hs] _ IH]; intros word.
  - cbn [mbind list_bind app]. rw (split_words_space word [10] []); [done|done|].
    by apply Forall_singleton.
  - rw bind_cons -app_assoc. cbn [app].
    rw (split_words_space word [SPACE]); [|done|by apply Forall_singleton].
    rw split_words_token // IH. by destruct f.
Qed.

Lemma after_last_some c pre rest : c ∉ rest → after_last c (pre ++ c :: rest) = Some rest.
Proof.
  intros Hc. assert (after_last c rest = None) as Hn.
  { induction rest as [|c' rest IH]; [done|]. apply not_elem_of_cons in Hc as [Hne Hc]. simpl.
    rw IH //. by destruct (Z.eqb_spec c' c). }
  induction pre as [|c' pre IH]; cbn [app after_last]; [by rw Hn Z.eqb_refl|]. by rw IH.
Qed.

Definition one_line (l : Str) : Prop := (10 ∉ l) ∧ last l ≠ Some 13.
#[global] Instance one_line_dec l : Decision (one_line l).
Proof. unfold one_line. apply _. Defined.

Lemma lines_of ls : Forall one_line ls → lines (ls ≫= λ l, l ++ [10]) = ls.
Proof.
  induction 1 as [|l ls [Hn Hl] _ IH]; [done|]. unfold lines. rw bind_cons -app_assoc.
  cbn [app]. rw split_lines_line //. by f_equal.
Qed.

(** ** The files *)

(** [/proc/self/stat]: the pid and the name in parentheses, then the fields. *)
Definition render_stat (pid : Z) (comm : Str) (fields : list Str) : Str :=
  (to_string pid ++ str " (" ++ comm) ++ CLOSE_PAREN :: (fields ≫= λ f, SPACE :: f) ++ [10].

(** The keys of the lines looked for are words. *)
Lemma keys_are_tokens : token (str "VmRSS:") ∧ token (str "VmHWM:") ∧ token (str "VmSize:").
Proof. split_and!; (split; [done|by repeat constructor]). Qed.

(** A line of [/proc/self/status]. *)
Definition status_line (key gap : Str) (n : Z) : Str := key ++ gap ++ to_string n ++ str " kB".

Definition gap_ok (gap : Str) : Prop :=
  gap ≠ [] ∧ Forall (λ c, is_ascii_whitespace c = true) gap.

Definition finds (key : Str) (ls : list Str) (n : Z) : Prop :=
  is_u64 n ∧ ∃ i gap, gap_ok gap ∧
    list_find (λ line, starts_with_str key line = true) ls = Some (i, status_line key gap n).

Lemma second_word key gap n :
  token key → gap_ok gap → is_u64 n →
  split_ascii_whitespace (status_line key gap n) !! 1%nat = Some (to_string n).
Proof.
  intros [Hk Hks] [Hg Hgs] Hn. destruct (to_string_token n Hn) as [Ht Hts].
  unfold split_ascii_whitespace, status_line. rw split_words_token // split_words_space //.
  rw split_words_token //. change (str " kB") with ([SPACE] ++ str "kB").
  rw (split_words_space ([] ++ to_string n) [SPACE]); [|done|by apply Forall_singleton].
  destruct key as [|c key]; [done|]. simpl. by destruct (to_string n).
Qed.

Lemma kilobytes_read ls key n :
  token key → Forall one_line ls → finds key ls n →
  kilobytes_field (ls ≫= λ l, l ++ [10]) key = Some (f64_mul (of_Z n) (of_Z 1024)).
Proof.
  intros Hk Hls (Hn & i & gap & Hg & Hf). unfold kilobytes_field. rw lines_of // Hf.
  cbn [mbind option_bind snd]. rw second_word //. cbn [mbind option_bind]. by rw parse_f64_u64.
Qed.

Lemma parse_stat_read pid comm fields user system n ticks :
  Forall token fields → Forall (λ f, CLOSE_PAREN ∉ f) fields →
  is_u64 user → is_u64 system → is_u64 n → is_u64 ticks →
  fields !! 11%nat = Some (to_string user) → fields !! 12%nat = Some (to_string system) →
  fields !! 17%nat = Some (to_string n) → fields !! 19%nat = Some (to_string ticks) →
  parse_stat (render_stat pid comm fields)
  = Some (mkStat (f64_div (of_Z user) USER_HZ) (f64_div (of_Z system) USER_HZ) (of_Z n) (of_Z ticks)).
Proof.
  intros Hf Hp Hu Hs Hn Ht H11 H12 H17 H19. unfold parse_stat, render_stat.
  rw after_last_some.
  2:{ intros [Hin|Hin]%elem_of_app; [|by apply list_elem_of_singleton in Hin].
      apply list_elem_of_bind in Hin as (f & Hin & Hf'). apply elem_of_cons in Hin as [?|Hin]; [done|].
      rw Forall_forall in Hp. by eapply Hp. }
  cbn [mbind option_bind]. unfold split_ascii_whitespace. rw split_fields // app_nil_l.
  rw H11 H12 H17 H19. cbn [mbind option_bind]. unfold ticks_to_seconds. by rw !parse_f64_u64.
Qed.

(** Whatever the executable is called, parentheses, blanks and line ends included, a
    sample of well-formed files sets every gauge to the figure the kernel wrote: seconds are
    its ticks over 100, bytes its kilobytes times 1024, each rounded once; a sample whose
    files cannot be read or parsed sets no gauge. *)
Theorem proc_reads_back pid comm fields ls boot user system n ticks rss hwm size s :
  Forall token fields → Forall (λ f, CLOSE_PAREN ∉ f) fields → Forall one_line ls →
  is_u64 user → is_u64 system → is_u64 n → is_u64 ticks →
  fields !! 11%nat = Some (to_string user) → fields !! 12%nat = Some (to_string system) →
  fields !! 17%nat = Some (to_string n) → fields !! 19%nat = Some (to_string ticks) →
  finds (str "VmRSS:") ls rss → finds (str "VmHWM:") ls hwm → finds (str "VmSize:") ls size →
  let proc := mkProc (Some (render_stat pid comm fields)) (Some (ls ≫= λ l, l ++ [10])) boot in
  let g := sm_gauges (sample proc s) in
  g !! "process_cpu_user_seconds_total" = Some (f64_div (of_Z user) (of_Z 100)) ∧
  g !! "process_cpu_system_seconds_total" = Some (f64_div (of_Z system) (of_Z 100)) ∧
  g !! "process_threads" = Some (of_Z n) ∧
  g !! "process_resident_memory_bytes" = Some (f64_mul (of_Z rss) (of_Z 1024)) ∧
  g !! "process_resident_memory_peak_bytes" = Some (f64_mul (of_Z hwm) (of_Z 1024)) ∧
  g !! "process_virtual_memory_bytes" = Some (f64_mul (of_Z size) (of_Z 1024)) ∧
  (∀ proc', read proc' = None → sm_gauges (sample proc' s) = sm_gauges s).
Proof.
  intros Hf Hp Hls Hu Hs Hn Ht H11 H12 H17 H19 Hr Hh Hz proc g.
  assert (∀ proc', read proc' = None → sm_gauges (sample proc' s) = sm_gauges s) as Hnone.
  { intros proc' Hr'. unfold sample. by rw Hr'. }
  assert (read proc = Some (mkStat (f64_div (of_Z user) USER_HZ) (f64_div (of_Z system) USER_HZ)
            (of_Z n) (of_Z ticks), mkStatus (f64_mul (of_Z rss) (of_Z 1024))
            (f64_mul (of_Z hwm) (of_Z 1024)) (f64_mul (of_Z size) (of_Z 1024)))) as Hread.
  { unfold read, proc. cbn [pr_stat pr_status mbind option_bind].
    rw (parse_stat_read _ _ _ user system n ticks) //. cbn [mbind option_bind].
    destruct keys_are_tokens as (K1 & K2 & K3).
    unfold parse_status.
    rw (kilobytes_read ls _ rss K1 Hls Hr). cbn [mbind option_bind].
    rw (kilobytes_read ls _ hwm K2 Hls Hh). cbn [mbind option_bind].
    by rw (kilobytes_read ls _ size K3 Hls Hz). }
  unfold g, sample. rw Hread.
  destruct (start_time_seconds _ _ _) as [[t|] cache]; cbn [sm_gauges];
    split_and!; first [exact Hnone | by simplify_map_eq].
Qed.

(** The start time is computed once: whatever [/proc/stat] says later, the gauge never moves
    again, and a boot time that could not be read is not asked for a second time. *)
Theorem start_time_is_stable procs proc s :
  is_Some (read proc) →
  let s1 := sample proc s in
  let s2 := foldl (λ s p, sample p s) s1 procs in
  is_Some (sm_start_time s1) ∧ sm_start_time s2 = sm_start_time s1 ∧
  sm_gauges s2 !! "process_start_time_seconds" = sm_gauges s1 !! "process_start_time_seconds".
Proof.
  intros [[stat status] Hr] s1 s2.
  assert (is_Some (sm_start_time s1) ∧
          ∀ t, mjoin (sm_start_time s1) = Some t →
               sm_gauges s1 !! "process_start_time_seconds" = Some t) as [Hc Hg].
  { unfold s1, sample. rw Hr. unfold start_time_seconds.
    destruct (sm_start_time s) as [[t|]|]; cbn [sm_start_time sm_gauges].
    - split; [done|]. intros t' [= <-]. by simplify_map_eq.
    - split; [done|]. by intros t'.
    - split; [done|]. cbn [mjoin option_join].
      intros t' ->. by simplify_map_eq. }
  split; [done|]. unfold s2. clearbody s1. clear s2. revert s1 Hc Hg.
  induction procs as [|p procs IH]; intros s1 Hc Hg; [done|]. cbn [foldl].
  assert (sm_start_time (sample p s1) = sm_start_time s1 ∧
          sm_gauges (sample p s1) !! "process_start_time_seconds"
          = sm_gauges s1 !! "process_start_time_seconds") as [Ht Hs].
  { unfold sample. destruct (read p) as [[st su]|]; [|done]. destruct Hc as [start Hc].
    unfold start_time_seconds. rw Hc. cbn [sm_start_time sm_gauges]. split; [done|].
    destruct start as [t|]; simplify_map_eq; [|done]. symmetry. apply Hg. by rw Hc. }
  destruct (IH (sample p s1)) as [IH1 IH2]; [by rw Ht|by rw Ht Hs|]. by rw IH1 IH2.
Qed.

(** ** A sample *)

Definition sample_fields : list Str :=
  str "S" :: ((λ n, to_string n) <$>
    [1; 1; 1; 0; 0; 0; 0; 0; 0; 0; 250; 125; 0; 0; 20; 0; 9; 0; 4200; 7]).
Definition sample_lines : list Str :=
  [str "Name:	api"; status_line (str "VmSize:") [9; SPACE] 2048;
   status_line (str "VmHWM:") [9] 1024; status_line (str "VmRSS:") [9; SPACE; SPACE] 512].
Definition cold : Sampler := mkSampler ∅ None false.

Lemma sample_line_found key gap n i :
  is_u64 n → gap_ok gap →
  list_find (λ line, starts_with_str key line = true) sample_lines = Some (i, status_line key gap n) →
  finds key sample_lines n.
Proof. intros ???. split; [done|by eexists _, _]. Qed.

Lemma proc_reads_back_witness :
  sm_gauges (sample (mkProc (Some (render_stat 7 (str "a) b (c") sample_fields))
                            (Some (sample_lines ≫= λ l, l ++ [10])) None) cold)
    !! "process_cpu_user_seconds_total" = Some (f64_div (of_Z 5) (of_Z 2)).
Proof.
  transitivity (Some (f64_div (of_Z 250) (of_Z 100))); [|by vm_compute].
  apply (proc_reads_back 7 (str "a) b (c") sample_fields sample_lines None 250 125 9 4200 512 1024 2048 cold);
    try (by vm_compute); try (by repeat constructor).
  - apply (bool_decide_unpack _). by vm_compute.
  - apply (bool_decide_unpack _). by vm_compute.
  - apply (sample_line_found _ [9; SPACE; SPACE] _ 3); [done|by split; [|repeat constructor]|by vm_compute].
  - apply (sample_line_found _ [9] _ 2); [done|by split; [|repeat constructor]|by vm_compute].
  - apply (sample_line_found _ [9; SPACE] _ 1); [done|by split; [|repeat constructor]|by vm_compute].
Defined.

End Process.
