(* ===== verification/Models.v ===== *)
(** * Shared data model

    The data types that the observer, the api and its clients exchange
    ([shared/src/models.rs], [shared/src/events.rs], [observer/src/error.rs]).
    A txid or block hash is a [string]; an [OffsetDateTime] is the number of
    nanoseconds since the unix epoch, a [Z]; an [f64] that is only stored and
    passed on is the [Z] of its bits. *)

From S2P Require Import Prelude.

Open Scope Z_scope.

(** ** Node errors *)

Inductive ObserverError :=
| FailedToConnect (msg : string)
| FailedToFetch (msg : string)
| InvalidParams (msg : string)
| InvalidZmqMessage (msg : string)
| TxNotFoundInMempool (msg : string)
| OtherError (msg : string).

#[global] Instance ObserverError_eq_dec : EqDecision ObserverError.
Proof. solve_decision. Defined.

(** [ObserverError::to_string] *)
Definition error_to_string (e : ObserverError) : string :=
  match e with
  | FailedToConnect msg => "Failed to connect: " +:+ msg
  | FailedToFetch msg => "Failed to fetch: " +:+ msg
  | InvalidParams msg => "Invalid parameters: " +:+ msg
  | InvalidZmqMessage msg => "Invalid ZMQ message: " +:+ msg
  | TxNotFoundInMempool msg => "Transaction not found in mempool: " +:+ msg
  | OtherError msg => "Other error: " +:+ msg
  end.

(** ** Weight and virtual size

    [Weight::to_vbytes_ceil] belongs to the [bitcoin] crate: weight units to
    virtual bytes, rounding up, four weight units to a virtual byte. *)
Class BitcoinUnits := {
  to_vbytes_ceil : Z → Z;
  to_vbytes_ceil_spec : ∀ wu, is_u64 wu →
    4 * to_vbytes_ceil wu - 4 < wu ≤ 4 * to_vbytes_ceil wu;
}.

Definition ceil_units : BitcoinUnits.
Proof.
  refine {| to_vbytes_ceil := λ wu, (wu + 3) / 4 |}.
  intros wu _. pose proof (Z.div_mod (wu + 3) 4) as Hd.
  pose proof (Z.mod_pos_bound (wu + 3) 4). lia.
Defined.

Definition vsize_from_weight `{BitcoinUnits} (weight : Z) : Z :=
  to_i64 (to_vbytes_ceil (to_u64 weight)).

(** ** Clusters as the node reports them *)

Record ClusterChunk := mkClusterChunk {
  chunk_txids : list string;
  chunk_fee_sats : Z;
  chunk_weight : Z;
}.

#[global] Instance ClusterChunk_eq_dec : EqDecision ClusterChunk.
Proof. solve_decision. Defined.

(** The txids of a list of chunks, in mining order: every [txids()] accessor
    of the code is this [flat_map]. *)
Definition chunks_txids (chunks : list ClusterChunk) : list string :=
  chunks ≫= chunk_txids.

Record GetMempoolClusterModel := mkGetMempoolClusterModel {
  gmc_cluster_weight : Z;
  gmc_tx_count : Z;
  gmc_chunks : list ClusterChunk;
}.

Definition gmc_txids (c : GetMempoolClusterModel) : list string :=
  chunks_txids (gmc_chunks c).

(** ** Blocks and transactions as the node reports them *)

Record BlockTxSummary := mkBlockTxSummary {
  bt_txid : string;
  bt_vsize : Z;
  bt_weight : Z;
  bt_fee_sats : Z;
  bt_input_txids : list string;
}.

Record GetBlockModel := mkGetBlockModel {
  gb_hash : string;
  gb_height : Z;
  gb_mined_at : Z;
  gb_size : Z;
  gb_difficulty : Z;
  gb_txs : list BlockTxSummary;
}.

Definition gb_tx_count (b : GetBlockModel) : Z := to_i64 (Z.of_nat (length (gb_txs b))).
Definition gb_total_fee_sats (b : GetBlockModel) : Z :=
  sum_i64 (bt_fee_sats <$> gb_txs b).

Record MempoolEntrySummary := mkMempoolEntrySummary {
  mes_txid : string;
  mes_fee_in_sats : Z;
  mes_vsize : Z;
  mes_weight : Z;
  mes_ancestor_count : Z;
  mes_descendant_count : Z;
  mes_time : Z;
  mes_height : Z;
}.

Record GetRawTransactionModel := mkGetRawTransactionModel {
  grt_txid : string;
  grt_version : Z;
  grt_lock_time : Z;
  grt_vsize : Z;
  grt_weight : Z;
  grt_input_count : Z;
  grt_input_txids : list string;
  grt_output_count : Z;
  grt_confirmations : Z;
  grt_time : option Z;
}.

(** ** The node's own state *)

Record GetBlockchainInfoModel := mkGetBlockchainInfoModel {
  bci_blocks : Z;
  bci_headers : Z;
  bci_verification_progress : Z;
  bci_initial_block_download : bool;
}.

Record GetMempoolInfoModel := mkGetMempoolInfoModel {
  gmi_loaded : bool;
}.

Record GetNetworkInfoModel := mkGetNetworkInfoModel {
  gni_version : Z;
  gni_subversion : string;
}.

(** ** Mempool residency transitions *)

Inductive DeltaDirection := Add | Remove.

#[global] Instance DeltaDirection_eq_dec : EqDecision DeltaDirection.
Proof. solve_decision. Defined.

(** ** Events handed to websocket clients *)

Record MempoolDeltaEvent := mkMempoolDeltaEvent {
  mde_added : list string;
  mde_removed : list string;
}.

Record ClusterChunkRef := mkClusterChunkRef {
  ccr_txids : list string;
  ccr_fee : Z;
  ccr_vsize : Z;
}.

Record ClusterRef := mkClusterRef {
  cr_id : Z;
  cr_chunks : list ClusterChunkRef;
  cr_total_vsize : Z;
  cr_total_fee : Z;
  cr_first_seen_at : Z;
}.

Record ClusterDeltaEvent := mkClusterDeltaEvent {
  cde_upserted : list ClusterRef;
  cde_removed : list Z;
}.

Record NewBlockInfoEvent := mkNewBlockInfoEvent {
  nbi_height : Z;
  nbi_mined_at : Z;
}.

Inductive NodeStatusEvent :=
| StatusReachable (blocks headers verification_progress : Z) (initial_block_download : bool)
| StatusUnreachable (error : string).

Definition reachable (info : GetBlockchainInfoModel) : NodeStatusEvent :=
  StatusReachable (bci_blocks info) (bci_headers info) (bci_verification_progress info)
    (bci_initial_block_download info).

Definition unreachable (error : ObserverError) : NodeStatusEvent :=
  StatusUnreachable (error_to_string error).

(** [Subject] together with the payload published on it. *)
Inductive BusEvent :=
| OnMempoolDelta (e : MempoolDeltaEvent)
| OnClusterDelta (e : ClusterDeltaEvent)
| OnNewBlockInfo (e : NewBlockInfoEvent).

(** ** Facts *)

Lemma elem_of_chunks_txids t chunks :
  t ∈ chunks_txids chunks ↔ ∃ c, c ∈ chunks ∧ t ∈ chunk_txids c.
Proof.
  unfold chunks_txids. rw list_elem_of_bind. naive_solver.
Qed.

Lemma chunks_txids_app l1 l2 :
  chunks_txids (l1 ++ l2) = chunks_txids l1 ++ chunks_txids l2.
Proof. unfold chunks_txids. apply bind_app. Qed.

Section vsize.
Context `{BitcoinUnits}.

(** Within the range of a stored weight the cast changes nothing: the vsize
    is the weight divided by four, rounded up. *)
Lemma vsize_from_weight_bounds w :
  0 ≤ w < 2 ^ 63 →
  4 * vsize_from_weight w - 4 < w ≤ 4 * vsize_from_weight w.
Proof.
  intros Hw. unfold vsize_from_weight.
  assert (is_u64 w) as Hu by (unfold is_u64; Zpow_lia).
  rw (to_u64_id w Hu). pose proof (to_vbytes_ceil_spec w Hu).
  rw to_i64_id; [lia|unfold is_i64; Zpow_lia].
Qed.
End vsize.
