(* ===== verification/Transport.v ===== *)
(** * Connections to the node

    [observer/src/clients/]: the pool of HTTP connections every JSON-RPC call goes through
    ([pooled_json_rpc_transport.rs]), the client on top of it ([custom_corepc_client.rs],
    the constructor of [rpc_client.rs]) and the ZMQ subscription ([zmq_client.rs]).  Calls
    run on the blocking threads of the runtime, so the pool is a step relation in which any
    number of them interleave; the pool's mutex makes [pop] and [push] atomic, and nothing
    else.  Durations are in milliseconds. *)

From S2P Require Import Prelude.
From S2P Require Import Models.
From S2P Require Import Dotenv.
From S2P Require Import Config.

Module Transport.
Import Dotenv.

(** ** The pool *)

Section pool.
(** The [jsonrpc] crate: its errors, parsed addresses, requests and responses, the parser
    behind [Builder::url], and what one of its transports answers.  The number stands for
    the moment of the call, so that an answer need not depend on the request alone. *)
Context {RpcError Url Request Response : Type}.
Context (parse_url : Str → result RpcError Url).

(** What [Builder] builds.  [socket] tells connections apart; a clone would share it. *)
Record SimpleHttpTransport := mkHttp {
  socket : nat;
  http_url : Url;
  http_timeout : Z;
  http_auth : Str * option Str;
}.

Context (http_send_request :
  nat → SimpleHttpTransport → Request → result RpcError Response).
Context (http_send_batch :
  nat → SimpleHttpTransport → list Request → result RpcError (list Response)).

Record PooledJsonRpcTransport := mkPool {
  url : Str;
  user : Str;
  pass : Str;
  timeout : Z;
  idle : list SimpleHttpTransport;
}.

Definition new_transport (url user pass : Str) (timeout : Z) : PooledJsonRpcTransport :=
  mkPool url user pass timeout [].

Definition set_idle (l : list SimpleHttpTransport) (p : PooledJsonRpcTransport) :
    PooledJsonRpcTransport :=
  mkPool (url p) (user p) (pass p) (timeout p) l.

(** The first half of [checkout], under the mutex: [Vec::pop] takes the last one. *)
Definition pop_idle (p : PooledJsonRpcTransport) :
    option (SimpleHttpTransport * PooledJsonRpcTransport) :=
  match reverse (idle p) with
  | [] => None
  | t :: rest => Some (t, set_idle (reverse rest) p)
  end.

(** The second half, outside it: a connection of its own, with a socket nobody has. *)
Definition build (fresh : nat) (p : PooledJsonRpcTransport) :
    result RpcError SimpleHttpTransport :=
  u ← parse_url (url p); Ok (mkHttp fresh u (timeout p) (user p, Some (pass p))).

Definition checkin (t : SimpleHttpTransport) (p : PooledJsonRpcTransport) :
    PooledJsonRpcTransport :=
  set_idle (idle p ++ [t]) p.

Definition fmt_target (p : PooledJsonRpcTransport) : Str := url p.

(** [send_request] and [send_batch] differ in what they hand the connection only. *)
Inductive Outgoing := One (req : Request) | Batch (reqs : list Request).
Inductive Incoming := OneAnswer (resp : Response) | BatchAnswer (resps : list Response).

Definition send_on (moment : nat) (t : SimpleHttpTransport) (q : Outgoing) :
    result RpcError Incoming :=
  match q with
  | One req => resp ← http_send_request moment t req; Ok (OneAnswer resp)
  | Batch reqs => resps ← http_send_batch moment t reqs; Ok (BatchAnswer resps)
  end.

(** Where a call is: it found the pool empty and builds a connection; it has one and waits
    for the answer; it has the answer and is about to give the connection back; it returned. *)
Inductive CallPc :=
| Building
| Sending (t : SimpleHttpTransport)
| Answered (t : SimpleHttpTransport) (r : result RpcError Incoming)
| Returned (r : result RpcError Incoming).

Definition in_progress (pc : CallPc) : Prop :=
  match pc with Returned _ => False | _ => True end.
#[global] Instance in_progress_dec pc : Decision (in_progress pc).
Proof. destruct pc; simpl; apply _. Defined.

(** The connection a call has checked out. *)
Definition held (pc : CallPc) : option SimpleHttpTransport :=
  match pc with Sending t | Answered t _ => Some t | _ => None end.
Definition holding (pc : CallPc) : Prop := is_Some (held pc).
#[global] Instance holding_dec pc : Decision (holding pc).
Proof. unfold holding. apply _. Defined.

(** [built] counts the connections made so far, [peak] the most calls in progress at once. *)
Record Sys := mkSys {
  pool : PooledJsonRpcTransport;
  built : nat;
  calls : gmap nat (Outgoing * CallPc);
  peak : nat;
}.

Definition boot (p : PooledJsonRpcTransport) : Sys := mkSys p 0 ∅ 0.

Definition busy (m : gmap nat (Outgoing * CallPc)) : nat :=
  size (filter (λ kv : nat * (Outgoing * CallPc), in_progress kv.2.2) m).
Definition borrowed (m : gmap nat (Outgoing * CallPc)) : nat :=
  size (filter (λ kv : nat * (Outgoing * CallPc), holding kv.2.2) m).

Inductive step : Sys → Sys → Prop :=
| step_pop c q p p' t b m k :
    m !! c = None → pop_idle p = Some (t, p') →
    step (mkSys p b m k)
         (mkSys p' b (<[c := (q, Sending t)]> m) (k `max` busy (<[c := (q, Sending t)]> m)))
| step_none_idle c q p b m k :
    m !! c = None → pop_idle p = None →
    step (mkSys p b m k)
         (mkSys p b (<[c := (q, Building)]> m) (k `max` busy (<[c := (q, Building)]> m)))
| step_build c q p t b m k :
    m !! c = Some (q, Building) → build b p = Ok t →
    step (mkSys p b m k) (mkSys p (S b) (<[c := (q, Sending t)]> m) k)
| step_no_url c q p e b m k :
    m !! c = Some (q, Building) → build b p = Err e →
    step (mkSys p b m k) (mkSys p b (<[c := (q, Returned (Err e))]> m) k)
| step_answer c q t moment p b m k :
    m !! c = Some (q, Sending t) →
    step (mkSys p b m k) (mkSys p b (<[c := (q, Answered t (send_on moment t q))]> m) k)
| step_checkin c q t r p b m k :
    m !! c = Some (q, Answered t r) →
    step (mkSys p b m k) (mkSys (checkin t p) b (<[c := (q, Returned r)]> m) k).

(** ** Counting *)

Lemma count_start (P : CallPc → Prop) `{∀ pc, Decision (P pc)}
    (m : gmap nat (Outgoing * CallPc)) c q pc :
  m !! c = None →
  size (filter (λ kv : nat * (Outgoing * CallPc), P kv.2.2) (<[c := (q, pc)]> m)) =
  ((if decide (P pc) then 1 else 0) +
   size (filter (λ kv : nat * (Outgoing * CallPc), P kv.2.2) m))%nat.
Proof.
  intros Hc. case_decide as Hp.
  - rw map_filter_insert_True // map_size_insert_None // map_lookup_filter_None. by left.
  - rw map_filter_insert_False // delete_id //.
Qed.

Lemma count_move (P : CallPc → Prop) `{∀ pc, Decision (P pc)}
    (m : gmap nat (Outgoing * CallPc)) c q pc q' pc' :
  m !! c = Some (q, pc) →
  (size (filter (λ kv : nat * (Outgoing * CallPc), P kv.2.2) (<[c := (q', pc')]> m)) +
   (if decide (P pc) then 1 else 0) =
   (if decide (P pc') then 1 else 0) +
   size (filter (λ kv : nat * (Outgoing * CallPc), P kv.2.2) m))%nat.
Proof.
  intros Hc. rw -(insert_delete_id m c (q, pc)) // insert_insert_eq.
  rw !count_start ?lookup_delete_eq //. repeat case_decide; lia.
Qed.

Lemma pop_idle_some p t p' :
  pop_idle p = Some (t, p') → idle p = idle p' ++ [t] ∧ p' = set_idle (idle p') p.
Proof.
  unfold pop_idle. destruct (reverse (idle p)) as [|t' rest] eqn:E; [done|].
  intros [= -> <-]. split; [|done]. simpl. by rw -(reverse_involutive (idle p)) E reverse_cons.
Qed.

Lemma pop_idle_none p : pop_idle p = None → idle p = [].
Proof.
  unfold pop_idle. destruct (reverse (idle p)) as [|t rest] eqn:E; [|done].
  intros _. by rw -(reverse_involutive (idle p)) E.
Qed.

(** ** Invariant *)

(** Where an answer comes from. *)
Definition answers (u : Str) (q : Outgoing) (r : result RpcError Incoming) : Prop :=
  match parse_url u with
  | Ok _ => ∃ moment t, r = send_on moment t q
  | Err e => r = Err e
  end.

Definition reply (pc : CallPc) : option (result RpcError Incoming) :=
  match pc with Answered _ r | Returned r => Some r | _ => None end.

(** No two connections of the pool or of the calls are the same one. *)
Record apart (p : PooledJsonRpcTransport) (b : nat) (m : gmap nat (Outgoing * CallPc)) : Prop := {
  ap_idle : NoDup (socket <$> idle p);
  ap_idle_built : ∀ t, t ∈ idle p → (socket t < b)%nat;
  ap_held : ∀ c q pc t, m !! c = Some (q, pc) → held pc = Some t →
    (socket t < b)%nat ∧ socket t ∉ socket <$> idle p;
  ap_calls : ∀ c q pc t c' q' pc' t', m !! c = Some (q, pc) → m !! c' = Some (q', pc') →
    held pc = Some t → held pc' = Some t' → socket t = socket t' → c = c';
}.

Record ok (u : Str) (s : Sys) : Prop := {
  ok_url : url (pool s) = u;
  ok_apart : apart (pool s) (built s) (calls s);
  ok_total : (length (idle (pool s)) + borrowed (calls s) = built s)%nat;
  ok_peak : match parse_url u with
            | Ok _ => (length (idle (pool s)) + busy (calls s) = peak s)%nat
            | Err _ => built s = 0%nat
            end;
  ok_answers : ∀ c q pc r, calls s !! c = Some (q, pc) → reply pc = Some r → answers u q r;
}.

(** A call that starts, or moves on, with a connection [t] that nobody else has. *)
Lemma apart_take p p' b b' m c q pc t :
  apart p b m → held pc = Some t → idle p' = idle p ∨ idle p = idle p' ++ [t] →
  (b ≤ b')%nat → (socket t < b')%nat → socket t ∉ socket <$> idle p' →
  (∀ c' q' pc' t', c' ≠ c → m !! c' = Some (q', pc') → held pc' = Some t' → socket t' ≠ socket t) →
  apart p' b' (<[c := (q, pc)]> m).
Proof.
  intros [Hi Hb Hh Hc] Hpc Hp Hle Ht Hn Hother.
  assert (∀ t', t' ∈ idle p' → t' ∈ idle p) as Hsub by (destruct Hp as [->| ->]; set_solver).
  split.
  - destruct Hp as [->|E]; [done|]. rw E fmap_app NoDup_app in Hi. by destruct Hi.
  - intros t' Ht'. specialize (Hb _ (Hsub _ Ht')). lia.
  - intros c' q' pc' t' Hl Hheld. destruct (decide (c' = c)) as [->|Hne].
    + rw lookup_insert_eq in Hl. simplify_eq. done.
    + rw lookup_insert_ne // in Hl. destruct (Hh _ _ _ _ Hl Hheld) as [Hlt Hni]. split; [lia|].
      contradict Hni. apply list_elem_of_fmap in Hni as (x & -> & Hx). apply list_elem_of_fmap_2.
      by apply Hsub.
  - intros c1 q1 pc1 t1 c2 q2 pc2 t2 H1 H2 Hh1 Hh2 Heq.
    destruct (decide (c1 = c)) as [->|Hn1], (decide (c2 = c)) as [->|Hn2]; [done| | |].
    + rw lookup_insert_eq in H1. rw lookup_insert_ne // in H2. simplify_eq.
      by destruct (Hother _ _ _ _ Hn2 H2 Hh2).
    + rw lookup_insert_eq in H2. rw lookup_insert_ne // in H1. simplify_eq.
      by destruct (Hother _ _ _ _ Hn1 H1 Hh1).
    + rw lookup_insert_ne // in H1. rw lookup_insert_ne // in H2. by eapply Hc.
Qed.

(** A call without a connection changes nothing. *)
Lemma apart_none p b m c q pc :
  apart p b m → held pc = None → apart p b (<[c := (q, pc)]> m).
Proof.
  intros [Hi Hb Hh Hc] Hpc.
  assert (∀ c' q' pc' t', <[c := (q, pc)]> m !! c' = Some (q', pc') → held pc' = Some t' →
    m !! c' = Some (q', pc')) as Hl.
  { intros c' q' pc' t' E Ht. destruct (decide (c' = c)) as [->|]; [|by rw lookup_insert_ne in E].
    rw lookup_insert_eq in E. by simplify_eq. }
  split; [done..| |]; naive_solver.
Qed.

(** A connection goes back to the pool. *)
Lemma apart_checkin p b m c q t r r' :
  apart p b m → m !! c = Some (q, Answered t r) →
  apart (checkin t p) b (<[c := (q, Returned r')]> m).
Proof.
  intros [Hi Hb Hh Hc] Hl. destruct (Hh c q _ t Hl eq_refl) as [Hlt Hni].
  destruct (apart_none p b m c q (Returned r')) as [_ _ Hh' Hc']; [by split|done|].
  split; simpl; [| |intros c' q' pc' t' Hl' Ht'|exact Hc'].
  - rw fmap_app NoDup_app. split_and!; [done| |apply NoDup_singleton].
    intros x Hx Hxt. simpl in Hxt. apply list_elem_of_singleton in Hxt as ->. done.
  - intros x [Hx|Hx%list_elem_of_singleton]%elem_of_app; [by apply Hb|by subst].
  - destruct (Hh' _ _ _ _ Hl' Ht') as [Hlt' Hni']. split; [done|].
    rw fmap_app elem_of_app. intros [?|Hx]; [done|]. simpl in Hx.
    apply list_elem_of_singleton in Hx.
    destruct (decide (c' = c)) as [->|Hne]; [rw lookup_insert_eq in Hl'; simplify_eq|].
    rw lookup_insert_ne // in Hl'. by destruct Hne; eapply Hc.
Qed.

Lemma answers_insert u (m : gmap nat (Outgoing * CallPc)) c q pc :
  (∀ c q pc r, m !! c = Some (q, pc) → reply pc = Some r → answers u q r) →
  (∀ r, reply pc = Some r → answers u q r) →
  ∀ c' q' pc' r, <[c := (q, pc)]> m !! c' = Some (q', pc') → reply pc' = Some r → answers u q' r.
Proof.
  intros Hm Hpc c' q' pc' r Hl Hr. destruct (decide (c' = c)) as [->|].
  - rw lookup_insert_eq in Hl. simplify_eq. by apply Hpc.
  - rw lookup_insert_ne // in Hl. by eapply Hm.
Qed.

Lemma pool_ok_boot u us pw to : ok u (boot (new_transport u us pw to)).
Proof.
  split; simpl; [done| | | |].
  - split; simpl; [by apply NoDup_nil|set_solver|set_solver|set_solver].
  - unfold borrowed. by rw map_filter_empty map_size_empty.
  - unfold busy. by destruct (parse_url u); rw ?map_filter_empty ?map_size_empty.
  - set_solver.
Qed.

(** The counts a move from [pc] to [pc'] leaves. *)
Lemma busy_move m c q pc pc' :
  m !! c = Some (q, pc) →
  (busy (<[c := (q, pc')]> m) + (if decide (in_progress pc) then 1 else 0) =
   (if decide (in_progress pc') then 1 else 0) + busy m)%nat.
Proof. apply (count_move in_progress). Qed.
Lemma borrowed_move m c q pc pc' :
  m !! c = Some (q, pc) →
  (borrowed (<[c := (q, pc')]> m) + (if decide (holding pc) then 1 else 0) =
   (if decide (holding pc') then 1 else 0) + borrowed m)%nat.
Proof. apply (count_move holding). Qed.

Lemma borrowed_le_busy m : (borrowed m ≤ busy m)%nat.
Proof.
  unfold borrowed, busy. apply map_subseteq_size, map_filter_subseteq_ext.
  intros c [q pc] _ [t Ht]. simpl in *. by destruct pc.
Qed.

Lemma start_ok c q p p' t b m k u :
  m !! c = None → pop_idle p = Some (t, p') → ok u (mkSys p b m k) →
  ok u (mkSys p' b (<[c := (q, Sending t)]> m) (k `max` busy (<[c := (q, Sending t)]> m))).
Proof.
  intros Hc [Hi Hp']%pop_idle_some [Hu Ha Ht Hk Hans]. simpl in *.
  assert (url p' = url p) as Hurl by (by rw Hp').
  assert (t ∈ idle p) as Htin by (rw Hi; apply elem_of_app; right; by apply list_elem_of_singleton).
  rw Hi length_app /= in Ht.
  split; simpl.
  - by rw Hurl.
  - pose proof Ha as [Hnd Hb Hh _]. rw Hi fmap_app NoDup_app in Hnd. destruct Hnd as (_ & Hnd & _).
    eapply apart_take; [exact Ha|done|by right|done|by apply Hb| |].
    + intros Hin. apply (Hnd _ Hin). by apply list_elem_of_singleton.
    + intros c' q' pc' t' _ Hl Hheld Heq. destruct (Hh _ _ _ _ Hl Hheld) as [_ []].
      rw Heq. by apply list_elem_of_fmap_2.
  - unfold borrowed in *. rw (count_start holding) //=. lia.
  - destruct (parse_url u); [|done]. unfold busy in *. rw (count_start in_progress) //=.
    rw Hi length_app /= in Hk. lia.
  - by apply answers_insert.
Qed.

Lemma none_idle_ok c q p b m k u :
  m !! c = None → pop_idle p = None → ok u (mkSys p b m k) →
  ok u (mkSys p b (<[c := (q, Building)]> m) (k `max` busy (<[c := (q, Building)]> m))).
Proof.
  intros Hc Hi%pop_idle_none [Hu Ha Ht Hk Hans]. simpl in *. split; simpl.
  - done.
  - by apply apart_none.
  - unfold borrowed in *. rw (count_start holding) //=.
  - destruct (parse_url u); [|done]. unfold busy in *. rw (count_start in_progress) //=.
    rw Hi /= in Hk |- *. lia.
  - by apply answers_insert.
Qed.

Lemma build_ok c q p t b m k u :
  m !! c = Some (q, Building) → build b p = Ok t → ok u (mkSys p b m k) →
  ok u (mkSys p (S b) (<[c := (q, Sending t)]> m) k).
Proof.
  intros Hc Hb [Hu Ha Ht Hk Hans]. simpl in *. pose proof Ha as [_ Hib Hh _].
  unfold build in Hb. rw Hu in Hb. destruct (parse_url u) as [a|e] eqn:Eu; [|done].
  injection Hb as <-. split; simpl.
  - done.
  - eapply apart_take; [exact Ha|done|by left|lia|simpl; lia| |].
    + simpl. intros (x & Heq & Hx)%list_elem_of_fmap. specialize (Hib _ Hx). lia.
    + intros c' q' pc' t' _ Hl Hheld. destruct (Hh _ _ _ _ Hl Hheld) as [Hlt _]. simpl. lia.
  - pose proof (borrowed_move m c q Building (Sending (mkHttp b a (timeout p) (user p, Some (pass p)))) Hc)
      as E. simpl in E. lia.
  - rw Eu. pose proof (busy_move m c q Building (Sending (mkHttp b a (timeout p) (user p, Some (pass p)))) Hc)
      as E. simpl in E. lia.
  - by apply answers_insert.
Qed.

Lemma no_url_ok c q p e b m k u :
  m !! c = Some (q, Building) → build b p = Err e → ok u (mkSys p b m k) →
  ok u (mkSys p b (<[c := (q, Returned (Err e))]> m) k).
Proof.
  intros Hc Hb [Hu Ha Ht Hk Hans]. simpl in *. unfold build in Hb. rw Hu in Hb.
  destruct (parse_url u) as [a|e'] eqn:Eu; [done|]. injection Hb as ->. split; simpl.
  - done.
  - by apply apart_none.
  - pose proof (borrowed_move m c q Building (Returned (Err e)) Hc) as E. simpl in E. lia.
  - by rw Eu.
  - apply answers_insert; [done|]. intros r [= <-]. unfold answers. by rw Eu.
Qed.

Lemma answer_ok c q t moment p b m k u :
  m !! c = Some (q, Sending t) → ok u (mkSys p b m k) →
  ok u (mkSys p b (<[c := (q, Answered t (send_on moment t q))]> m) k).
Proof.
  intros Hc [Hu Ha Ht Hk Hans]. simpl in *. pose proof Ha as [_ _ Hh Hcs].
  destruct (Hh _ _ _ _ Hc eq_refl) as [Hlt Hni]. split; simpl.
  - done.
  - eapply apart_take; [exact Ha|done|by left|done|done|done|].
    intros c' q' pc' t' Hne Hl Hheld Heq. by destruct Hne; eapply Hcs.
  - pose proof (borrowed_move m c q _ (Answered t (send_on moment t q)) Hc) as E. simpl in E. lia.
  - destruct (parse_url u); [|done].
    pose proof (busy_move m c q _ (Answered t (send_on moment t q)) Hc) as E. simpl in E. lia.
  - apply answers_insert; [done|]. intros r [= <-]. unfold answers.
    destruct (parse_url u); [by exists moment, t|lia].
Qed.

Lemma checkin_ok c q t r p b m k u :
  m !! c = Some (q, Answered t r) → ok u (mkSys p b m k) →
  ok u (mkSys (checkin t p) b (<[c := (q, Returned r)]> m) k).
Proof.
  intros Hc [Hu Ha Ht Hk Hans]. simpl in *. split; simpl; rw ?length_app /=.
  - done.
  - by eapply apart_checkin.
  - pose proof (borrowed_move m c q _ (Returned r) Hc) as E. simpl in E. lia.
  - destruct (parse_url u); [|done]. pose proof (busy_move m c q _ (Returned r) Hc) as E. simpl in E. lia.
  - apply answers_insert; [done|]. intros r' [= <-]. by eapply Hans.
Qed.

Lemma pool_step_ok u s s' : step s s' → ok u s → ok u s'.
Proof.
  destruct 1; eauto using start_ok, none_idle_ok, build_ok, no_url_ok, answer_ok, checkin_ok.
Qed.

Lemma pool_reachable_ok u us pw to s : rtc step (boot (new_transport u us pw to)) s → ok u s.
Proof.
  intros Hr. pose proof (pool_ok_boot u us pw to) as Hok. revert Hok.
  induction Hr as [|s1 s2 s3 Hs _ IH]; [done|]. intros Hok. by eapply IH, pool_step_ok.
Qed.

(** Nobody waits for anybody: a call returns in at most three steps of its own. *)
Lemma call_can_return s c q pc :
  calls s !! c = Some (q, pc) →
  ∃ s' r, rtc step s s' ∧ calls s' !! c = Some (q, Returned r).
Proof.
  assert (∀ p b m k t r, m !! c = Some (q, Answered t r) → ∃ s' r',
    rtc step (mkSys p b m k) s' ∧ calls s' !! c = Some (q, Returned r')) as H3.
  { intros p b m k t r Hc. eexists _, r. split; [by eapply rtc_once, step_checkin|].
    simpl. by rw lookup_insert_eq. }
  assert (∀ p b m k t, m !! c = Some (q, Sending t) → ∃ s' r',
    rtc step (mkSys p b m k) s' ∧ calls s' !! c = Some (q, Returned r')) as H2.
  { intros p b m k t Hc. edestruct H3 as (s' & r' & Hr & Hl); [apply lookup_insert_eq|].
    exists s', r'. split; [|done]. by eapply rtc_l; [eapply (step_answer c q t 0)|]. }
  destruct s as [p b m k]. intros Hc. simpl in Hc. destruct pc as [|t|t r|r].
  - destruct (build b p) as [t|e] eqn:Hb.
    + edestruct H2 as (s' & r' & Hr & Hl); [apply lookup_insert_eq|].
      exists s', r'. split; [|done]. by eapply rtc_l; [eapply step_build|].
    + eexists _, _. split; [by eapply rtc_once, step_no_url|]. simpl. by rw lookup_insert_eq.
  - by eapply H2.
  - by eapply H3.
  - by exists (mkSys p b m k), r.
Qed.

(** C24.  Any number of calls share the pool: no two calls in progress ever use the same
    connection, and none uses a connection that is still in the pool.  With a usable address
    the idle connections and the calls in progress add up to the most calls ever in progress
    at once, so the pool grows to that number and no further, and when nothing is in progress
    every connection ever made is back in it.  With an unusable address no connection is made
    and every call returns the parser's error.  What a call returns is what a connection
    answered to its own request, and every call can return. *)
Theorem pool_is_exclusive_and_peak_sized u us pw to s :
  rtc step (boot (new_transport u us pw to)) s →
  (∀ c q pc t c' q' pc' t', calls s !! c = Some (q, pc) → calls s !! c' = Some (q', pc') →
     held pc = Some t → held pc' = Some t' → socket t = socket t' → c = c') ∧
  (∀ c q pc t, calls s !! c = Some (q, pc) → held pc = Some t →
     socket t ∉ socket <$> idle (pool s)) ∧
  match parse_url u with
  | Ok _ =>
      (length (idle (pool s)) + busy (calls s) = peak s)%nat ∧ (built s ≤ peak s)%nat ∧
      (busy (calls s) = 0%nat → length (idle (pool s)) = built s ∧ built s = peak s) ∧
      (∀ c q r, calls s !! c = Some (q, Returned r) → ∃ moment t, r = send_on moment t q)
  | Err e =>
      built s = 0%nat ∧ idle (pool s) = [] ∧
      ∀ c q r, calls s !! c = Some (q, Returned r) → r = Err e
  end ∧
  (∀ c q pc, calls s !! c = Some (q, pc) →
     ∃ s' r, rtc step s s' ∧ calls s' !! c = Some (q, Returned r)).
Proof.
  intros Hr. destruct (pool_reachable_ok _ _ _ _ _ Hr) as [Hu Ha Ht Hk Hans].
  split; [apply Ha|]. split; [intros; by eapply Ha|]. split; [|intros; by eapply call_can_return].
  assert (∀ c q r, calls s !! c = Some (q, Returned r) → answers u q r) as Hret
    by (intros c q r Hc; by eapply Hans). unfold answers in Hret.
  pose proof (borrowed_le_busy (calls s)) as Hle.
  destruct (parse_url u) as [a|e].
  - split_and!; [done|lia|lia|done].
  - split_and!; [done| |done]. apply nil_length_inv. lia.
Qed.
End pool.

Arguments SimpleHttpTransport : clear implicits.
Arguments PooledJsonRpcTransport : clear implicits.
Arguments Outgoing : clear implicits.
Arguments Incoming : clear implicits.

(** ** The client *)

(** [custom_corepc_client.rs]: [Matches the timeout corepc gives its own client.] *)
Definition TIMEOUT : Z := 60000.

(** [Client::new] and [RpcClient::new]: a client is its transport. *)
Definition client_new {Url} (url user pass : Str) : PooledJsonRpcTransport Url :=
  new_transport url user pass TIMEOUT.
Definition rpc_client_new {Url} (config : Config.RpcConfig) :
    result ObserverError (PooledJsonRpcTransport Url) :=
  Ok (client_new (str "http://" ++ Config.rpc_host config) (Config.rpc_user config)
        (Config.rpc_pass config)).

Section client.
Context {RpcError JsonError Value RawValue Request Response T : Type}.

(** The variants of corepc's [Error] that a call can end in. *)
Inductive ClientError := JsonRpc (e : RpcError) | Json (e : JsonError).

(** [serde_json::value::to_raw_value], and of the [jsonrpc] crate [Client::build_request],
    [Client::send_request] over the pool, and [Response::result]. *)
Context (to_raw_value : list Value → result JsonError RawValue).
Context (build_request : string → RawValue → Request).
Context (inner_send_request : Request → result RpcError Response).
Context (response_result : Response → result RpcError T).

(** [Client::call] *)
Definition client_call (method : string) (args : list Value) : result ClientError T :=
  raw ← map_err Json (to_raw_value args);
  let req := build_request method raw in
  resp ← map_err JsonRpc (inner_send_request req);
  map_err JsonRpc (response_result resp).

(** A call ends in the error of the first stage that fails, and nothing is sent for
    arguments that do not serialize. *)
Lemma client_call_stages method args :
  client_call method args =
  match to_raw_value args with
  | Err e => Err (Json e)
  | Ok raw =>
      match inner_send_request (build_request method raw) with
      | Err e => Err (JsonRpc e)
      | Ok resp => match response_result resp with Err e => Err (JsonRpc e) | Ok a => Ok a end
      end
  end.
Proof.
  unfold client_call. destruct (to_raw_value args) as [raw|e]; [|done]. simpl.
  by destruct (inner_send_request _).
Qed.
End client.

(** ** The block notifications *)

Definition HANDSHAKE_TIMEOUT : Z := 5000.

(** [ZmqClient::blocks].  [handshake] is what [subscribe_async_wait_handshake] does: after
    how long it completes and with what, or that it never does.  The [timeout] around it
    looks at the future before it looks at the deadline.  The result comes with the time
    taken. *)
Definition blocks {Stream} (endpoint : string) (handshake : option (Z * result string Stream)) :
    result ObserverError Stream * Z :=
  let late := (Err (FailedToConnect ("no zmq handshake from " +:+ endpoint +:+
                " within 5s -- check the host and port, and that bitcoind publishes hashblock there")),
               HANDSHAKE_TIMEOUT) in
  match handshake with
  | Some (elapsed, answer) =>
      if bool_decide (elapsed ≤ HANDSHAKE_TIMEOUT)%Z then
        match answer with
        | Ok stream => (Ok stream, elapsed)
        | Err e => (Err (FailedToConnect ("zmq subscribe to " +:+ endpoint +:+ " failed: " +:+ e)),
                    elapsed)
        end
      else late
  | None => late
  end.

(** Subscribing to the node's blocks takes five seconds at most whatever the node does, and
    gives a stream exactly when the handshake succeeded within them; otherwise the error says
    that the connection failed. *)
Theorem handshake_is_bounded {Stream} endpoint (handshake : option (Z * result string Stream)) :
  let (answer, elapsed) := blocks endpoint handshake in
  (elapsed ≤ HANDSHAKE_TIMEOUT)%Z ∧
  (∀ stream, answer = Ok stream ↔
     ∃ took, handshake = Some (took, Ok stream) ∧ (took ≤ HANDSHAKE_TIMEOUT)%Z) ∧
  (∀ e, answer = Err e → ∃ msg, e = FailedToConnect msg).
Proof.
  destruct handshake as [[took [stream|e]]|]; simpl; [case_bool_decide..|]; naive_solver.
Qed.

(** ** Witness *)

(** Three requests: the first two at once, the third when they are done. *)
Definition sample_url (u : Str) : result string Str := if decide (u = []) then Err "empty" else Ok u.
Definition sample_send (moment : nat) (t : SimpleHttpTransport Str) (n : nat) :
    result string nat :=
  if decide (n = 9%nat) then Err "refused" else Ok (n + moment)%nat.
Definition sample_send_batch (moment : nat) (t : SimpleHttpTransport Str) (ns : list nat) :
    result string (list nat) := Ok ns.
Definition node_url : Str := str "http://node".
Definition sample_conn (n : nat) : SimpleHttpTransport Str :=
  mkHttp n node_url TIMEOUT (str "u", Some (str "p")).
Definition sample_sys : Sys (RpcError := string) (Url := Str) (Request := nat) (Response := nat) :=
  mkSys (mkPool node_url (str "u") (str "p") TIMEOUT [sample_conn 1%nat]) 2%nat
    (<[3%nat := (Batch [7%nat], Sending (sample_conn 0%nat))]>
    (<[1%nat := (One 5%nat, Returned (Ok (OneAnswer 5%nat)))]>
    (<[1%nat := (One 5%nat, Answered (sample_conn 0%nat) (Ok (OneAnswer 5%nat)))]>
    (<[2%nat := (One 9%nat, Returned (Err "refused"))]>
    (<[2%nat := (One 9%nat, Answered (sample_conn 1%nat) (Err "refused"))]>
    (<[2%nat := (One 9%nat, Sending (sample_conn 1%nat))]>
    (<[2%nat := (One 9%nat, Building)]>
    (<[1%nat := (One 5%nat, Sending (sample_conn 0%nat))]>
    (<[1%nat := (One 5%nat, Building)]> ∅))))))))) 2%nat.

Lemma pool_sample_reached :
  rtc (step sample_url sample_send sample_send_batch)
    (boot (new_transport node_url (str "u") (str "p") TIMEOUT)) sample_sys.
Proof.
  eapply rtc_l; [by apply (step_none_idle _ _ _ 1%nat (One 5%nat))|].
  eapply rtc_l; [by eapply (step_build _ _ _ 1%nat)|].
  eapply rtc_l; [by apply (step_none_idle _ _ _ 2%nat (One 9%nat))|].
  eapply rtc_l; [by eapply (step_build _ _ _ 2%nat)|].
  eapply rtc_l; [by eapply (step_answer _ _ _ 2%nat _ _ 0%nat)|].
  eapply rtc_l; [by eapply (step_checkin _ _ _ 2%nat)|].
  eapply rtc_l; [by eapply (step_answer _ _ _ 1%nat _ _ 0%nat)|].
  eapply rtc_l; [by eapply (step_checkin _ _ _ 1%nat)|].
  eapply rtc_l; [by eapply (step_pop _ _ _ 3%nat (Batch [7%nat]))|].
  apply rtc_refl.
Qed.

Lemma pool_is_exclusive_and_peak_sized_witness :
  rtc (step sample_url sample_send sample_send_batch)
    (boot (new_transport node_url (str "u") (str "p") TIMEOUT)) sample_sys ∧
  (length (idle (pool sample_sys)) + busy (calls sample_sys) = peak sample_sys)%nat.
Proof.
  split; [exact pool_sample_reached|].
  pose proof (pool_is_exclusive_and_peak_sized sample_url sample_send sample_send_batch
    node_url (str "u") (str "p") TIMEOUT sample_sys pool_sample_reached) as (_ & _ & Hmid & _).
  exact (proj1 Hmid).
Defined.

End Transport.
