(* ===== verification/PubSub.v ===== *)
(** * Publish and subscribe

    [shared/src/subjects.rs], [shared/src/pubsub.rs], [observer/src/publisher.rs] and
    [api/src/services/pubsub.rs]: one broadcast channel per subject, JSON payloads, and
    typed streams of events.

    Two parts belong to other crates and are parameters.  [Codec] is serialization: what it
    writes it reads back.  [Broadcast] is tokio's channel as one subscriber sees it: what it
    is handed of the messages sent since it subscribed, with [Err n] where it fell behind and
    [n] messages were skipped; a subscriber that was never told so missed nothing. *)

From S2P Require Import Prelude.
From S2P Require Import Models.

Module PubSub.

Inductive Subject :=
| MempoolDelta
| BlockConnected
| ClusterDelta
| NewBlockInfo
| MempoolFeerateDiagram
| NodeStatus.
#[global] Instance Subject_eq_dec : EqDecision Subject.
Proof. solve_decision. Defined.

Definition Subject_ALL : list Subject :=
  [MempoolDelta; BlockConnected; ClusterDelta; NewBlockInfo; MempoolFeerateDiagram; NodeStatus].

Definition as_str (subject : Subject) : string :=
  match subject with
  | MempoolDelta => "rpc.mempooldelta"
  | BlockConnected => "zmq.blockconnected"
  | ClusterDelta => "api.clusterdelta"
  | NewBlockInfo => "api.newblockinfo"
  | MempoolFeerateDiagram => "rpc.mempoolfeeratediagram"
  | NodeStatus => "rpc.nodestatus"
  end.

Record Message := mkMessage {
  msg_subject : string;
  msg_payload : list Byte.byte;
}.

(** Everything sent so far on each channel.  A subscription is the position in its channel
    from which it listens. *)
Record Bus := mkBus { channels : Subject → list Message }.

(** [PubSub::new]: one empty channel per subject. *)
Definition new : Bus := mkBus (λ _, []).

Definition publish (subject : Subject) (payload : list Byte.byte) (bus : Bus) : Bus :=
  let message := mkMessage (as_str subject) payload in
  mkBus (λ s, if decide (s = subject) then channels bus s ++ [message] else channels bus s).

Class Broadcast := {
  hand_over : list Message → list (result nat Message);
  hand_over_all : ∀ sent,
    (∀ skipped, Err skipped ∉ hand_over sent) → hand_over sent = Ok <$> sent;
}.

(** Where a subscription made now starts. *)
Definition subscribe_at (subject : Subject) (bus : Bus) : nat := length (channels bus subject).

Class Codec (T : Type) := {
  to_vec : T → result string (list Byte.byte);
  from_slice : list Byte.byte → result string T;
  from_to : ∀ e bytes, to_vec e = Ok bytes → from_slice bytes = Ok e;
}.

Section bus.
Context `{Broadcast}.

(** What a subscriber that listens from [start] is given; a gap is skipped over. *)
Definition subscribe (subject : Subject) (start : nat) (bus : Bus) : list Message :=
  omap (λ res, match res with Ok message => Some message | Err _ => None end)
       (hand_over (drop start (channels bus subject))).

Section typed.
Context {T : Type} `{Codec T}.

(** [publish_event] and [PubSubService::publish]: an event that cannot be serialized is
    dropped. *)
Definition publish_event (subject : Subject) (event : T) (bus : Bus) : Bus :=
  match to_vec event with
  | Ok payload => publish subject payload bus
  | Err _ => bus
  end.

(** [PubSubService::subscribe]: a payload that cannot be read is skipped. *)
Definition subscribe_events (subject : Subject) (start : nat) (bus : Bus) : list T :=
  omap (λ msg, result_ok (from_slice (msg_payload msg))) (subscribe subject start bus).
End typed.
End bus.

(** ** What a subscriber sees *)

Section facts.
Context `{Broadcast}.
Context {T : Type} `{Codec T}.

Lemma subscribe_all subject start bus :
  (∀ skipped, Err skipped ∉ hand_over (drop start (channels bus subject))) →
  subscribe subject start bus = drop start (channels bus subject).
Proof.
  intros Hl. unfold subscribe. rw (hand_over_all _ Hl).
  generalize (drop start (channels bus subject)). intros l.
  induction l as [|m l IH]; [done|]. rw fmap_cons omap_cons IH. done.
Qed.

(** The events of a sequence of publications that can be serialized. *)
Definition serializable (events : list T) : list T :=
  omap (λ e, match to_vec e with Ok _ => Some e | Err _ => None end) events.

Lemma channel_publish_event subject event bus s :
  channels (publish_event subject event bus) s =
  channels bus s ++
    (if decide (s = subject) then
       match to_vec event with Ok payload => [mkMessage (as_str subject) payload] | Err _ => [] end
     else []).
Proof.
  unfold publish_event. destruct (to_vec event); simpl; case_decide; by rw ?app_nil_r.
Qed.

Lemma decode_channel (events : list (Subject * T)) subject bus :
  ∃ sent,
    channels (foldl (λ bus '(s, e), publish_event s e bus) bus events) subject
      = channels bus subject ++ sent ∧
    omap (λ msg, result_ok (from_slice (msg_payload msg))) sent
      = serializable (snd <$> filter (λ p, p.1 = subject) events).
Proof.
  revert bus. induction events as [|[s e] events IH]; intros bus; cbn [foldl].
  { exists []. by rw app_nil_r. }
  destruct (IH (publish_event s e bus)) as (sent & Hs & Hd).
  rw Hs channel_publish_event -app_assoc. eexists. split; [done|]. rw omap_app Hd filter_cons /=.
  case_decide as Hsub; subst.
  - rw decide_True // fmap_cons /serializable omap_cons. cbn [snd].
    destruct (to_vec e) as [payload|] eqn:E; [|done]. rw omap_cons /= (from_to _ _ E). done.
  - by rw decide_False.
Qed.

(** A subscriber that is never told it fell behind receives exactly the events
    published on its subject since it subscribed, in the order they were published and each
    once; of all events only those that cannot be serialized are lost, and other subjects
    never interfere. *)
Theorem subscriber_receives_exactly bus subject (events : list (Subject * T)) :
  let start := subscribe_at subject bus in
  let bus' := foldl (λ bus '(s, e), publish_event s e bus) bus events in
  (∀ skipped, Err skipped ∉ hand_over (drop start (channels bus' subject))) →
  subscribe_events subject start bus'
  = serializable (snd <$> filter (λ p, p.1 = subject) events).
Proof.
  cbv zeta. intros Hl. unfold subscribe_events. rw (subscribe_all _ _ _ Hl).
  destruct (decode_channel events subject bus) as (sent & -> & <-).
  unfold subscribe_at. by rw drop_app_length.
Qed.
End facts.

(** ** Witness *)

(** A subscriber that keeps up, and a codec of one byte per truth value. *)
Definition prompt : Broadcast.
Proof. by refine (Build_Broadcast (λ sent, Ok <$> sent) _). Defined.

Definition write_bool (b : bool) : result string (list Byte.byte) :=
  Ok [if b then Byte.x01 else Byte.x00].
Definition read_bool (bytes : list Byte.byte) : result string bool :=
  match bytes with
  | [Byte.x01] => Ok true
  | [Byte.x00] => Ok false
  | _ => Err "malformed"
  end.
Definition bool_codec : Codec bool.
Proof. refine (Build_Codec bool write_bool read_bool _). by intros [] bytes [= <-]. Defined.

Lemma subscriber_receives_exactly_witness :
  subscribe_events (H := prompt) (H0 := bool_codec) NodeStatus 1
    (publish_event (H0 := bool_codec) NodeStatus true
      (publish_event (H0 := bool_codec) ClusterDelta false
        (publish_event (H0 := bool_codec) NodeStatus false
          (publish_event (H0 := bool_codec) NodeStatus true new))))
  = [false; true].
Proof.
  apply (subscriber_receives_exactly (T := bool) (H := prompt) (H0 := bool_codec)
    (publish_event (H0 := bool_codec) NodeStatus true new) NodeStatus
    [(NodeStatus, false); (ClusterDelta, false); (NodeStatus, true)]).
  intros skipped Hin. vm_compute in Hin.
  repeat (apply elem_of_cons in Hin as [Hin|Hin]; [discriminate Hin|]).
  by apply not_elem_of_nil in Hin.
Defined.

End PubSub.
