(* ===== verification/Channel.v ===== *)
(** * Subscriptions over the broadcast channel

    [shared/src/pubsub.rs] hands every subject to a [tokio] broadcast channel of
    [CHANNEL_CAPACITY] messages; [subscribe] counts what the channel reports as missed and
    passes on the rest.  The channel itself is not part of the program: it is the parameter
    [BroadcastRing], what a receiver gets next, with the documented behaviour of [tokio] as
    laws.  Senders and receivers interleave as a step relation, in which a receiver keeps the
    record of what it was handed.  The last section closes the loop: a channel with these laws
    has the property [PubSub] asks of it. *)

From S2P Require Import Prelude.
From S2P Require Import PubSub.

Module Channel.

Definition CHANNEL_CAPACITY : nat := 1024.

(** What a receiver of a channel finds: nothing yet, its next message, or
    [RecvError::Lagged], after which it stands so many messages further. *)
Inductive Poll := Pending | Delivered | Lagged (skipped : nat).

(** [tokio::sync::broadcast]: the outcome for a receiver at [pos] of a channel made for
    [capacity] messages that was sent [tail] of them.  A channel may hold more than it was made
    for; it reports a lag only to a receiver that is further behind than that, and moves it to
    the oldest message it still holds. *)
Class BroadcastRing := {
  poll : nat → nat → nat → Poll;
  poll_pending capacity tail pos : poll capacity tail pos = Pending ↔ (tail ≤ pos)%nat;
  poll_lagged capacity tail pos skipped :
    poll capacity tail pos = Lagged skipped →
    (capacity < tail - pos ∧ 0 < skipped ∧ pos + skipped + capacity ≤ tail)%nat;
}.

Section channel.
Context `{BroadcastRing} {A : Type}.

(** A receiver of [subscribe]: the position it subscribed at, the position of its next
    message, what it was handed so far, what it added to [PUBSUB_LAGGED_TOTAL], and the
    furthest it has ever been behind. *)
Record Receiver := mkReceiver {
  rx_start : nat;
  rx_pos : nat;
  rx_got : list (result nat A);
  rx_lagged : nat;
  rx_worst : nat;
}.

Record Channel := mkChannel {
  sent : list A;
  receivers : gmap nat Receiver;
}.

Definition fresh : Channel := mkChannel [] ∅.

(** How many messages wait for a receiver. *)
Definition behind (tail : nat) (r : Receiver) : nat := tail - rx_pos r.

(** The record of how far behind a receiver is, when a message is sent. *)
Definition fall_behind (tail : nat) (r : Receiver) : Receiver :=
  mkReceiver (rx_start r) (rx_pos r) (rx_got r) (rx_lagged r) (rx_worst r `max` behind tail r).

Definition send (x : A) (ch : Channel) : Channel :=
  let sent' := sent ch ++ [x] in
  mkChannel sent' (fall_behind (length sent') <$> receivers ch).

Definition subscribed (tail : nat) : Receiver := mkReceiver tail tail [] 0 0.

(** The [filter_map] of [subscribe]: a message is passed on, a lag is counted. *)
Definition recv (sent : list A) (r : Receiver) : option Receiver :=
  match poll CHANNEL_CAPACITY (length sent) (rx_pos r) with
  | Pending => None
  | Delivered =>
      message ← sent !! rx_pos r;
      Some (mkReceiver (rx_start r) (S (rx_pos r)) (rx_got r ++ [Ok message]) (rx_lagged r)
              (rx_worst r))
  | Lagged skipped =>
      Some (mkReceiver (rx_start r) (rx_pos r + skipped) (rx_got r ++ [Err skipped])
              (rx_lagged r + skipped) (rx_worst r))
  end.

Inductive step : Channel → Channel → Prop :=
| step_send x ch : step ch (send x ch)
| step_subscribe id l rs :
    rs !! id = None →
    step (mkChannel l rs) (mkChannel l (<[id := subscribed (length l)]> rs))
| step_recv id r r' l rs :
    rs !! id = Some r → recv l r = Some r' →
    step (mkChannel l rs) (mkChannel l (<[id := r']> rs))
| step_close id l rs : step (mkChannel l rs) (mkChannel l (delete id rs)).

(** ** What was handed over, and what was not *)

(** The messages a receiver passed on. *)
Definition received (got : list (result nat A)) : list A := omap result_ok got.

(** [got] accounts for the messages [l]: each is handed over in its place, or part of a gap
    of the announced length. *)
Inductive accounts : list (result nat A) → list A → Prop :=
| accounts_nil : accounts [] []
| accounts_ok x got l : accounts got l → accounts (got ++ [Ok x]) (l ++ [x])
| accounts_gap gap got l :
    gap ≠ [] → accounts got l → accounts (got ++ [Err (length gap)]) (l ++ gap).

(** Messages of a gap. *)
Definition missed (got : list (result nat A)) : nat :=
  foldr (λ res n, match res with Err k => k + n | Ok _ => n end)%nat 0%nat got.

Lemma missed_snoc got res :
  missed (got ++ [res]) = (missed got + match res with Err k => k | Ok _ => 0 end)%nat.
Proof. induction got as [|[x|k] got IH]; simpl; [destruct res; lia|done|]. rw IH. lia. Qed.

Lemma received_snoc got res : received (got ++ [res]) = received got ++ option_list (result_ok res).
Proof. unfold received. rw omap_app. by destruct res. Qed.

Lemma accounts_length got l :
  accounts got l → (length (received got) + missed got = length l)%nat.
Proof.
  induction 1 as [|x got l Ha IH|gap got l Hg Ha IH]; [done| |];
    rw received_snoc missed_snoc !length_app /=; lia.
Qed.

(** Nothing was missed exactly when every message was handed over, in order. *)
Lemma accounts_exact got l :
  accounts got l → missed got = 0%nat → got = Ok <$> l.
Proof.
  induction 1 as [|x got l Ha IH|gap got l Hg Ha IH]; intros Hm; [done| |].
  - rw missed_snoc in Hm. rw fmap_app -IH //. lia.
  - rw missed_snoc in Hm. destruct gap; simpl in *; [done|lia].
Qed.

Lemma received_all (l : list A) : received (Ok <$> l) = l.
Proof. unfold received. induction l as [|x l IH]; [done|]. by rw fmap_cons omap_cons IH. Qed.

Lemma missed_zero got : (∀ k, Err k ∉ got) → missed got = 0%nat.
Proof.
  induction got as [|[x|k] got IH]; intros Hn; [done| |]; simpl.
  - apply IH. intros k Hk. apply (Hn k). by right.
  - destruct (Hn k). by left.
Qed.

(** ** Invariant *)

(** The messages between two positions. *)
Definition between (l : list A) (i j : nat) : list A := take (j - i) (drop i l).

Lemma between_self l i : between l i i = [].
Proof. unfold between. by rw Nat.sub_diag. Qed.

Lemma between_split l i j k : (i ≤ j ≤ k)%nat → between l i k = between l i j ++ between l j k.
Proof.
  intros [Hij Hjk]. unfold between. replace (k - i)%nat with ((j - i) + (k - j))%nat by lia.
  rw -(take_take_drop (drop i l) (j - i) (k - j)) drop_drop.
  by replace (i + (j - i))%nat with j by lia.
Qed.

Lemma between_next l i x : l !! i = Some x → between l i (S i) = [x].
Proof.
  intros Hx. unfold between. replace (S i - i)%nat with 1%nat by lia. by rw (drop_S l x i).
Qed.

Lemma between_length l i j : (i ≤ j ≤ length l)%nat → length (between l i j) = (j - i)%nat.
Proof. intros ?. unfold between. rw length_take length_drop. lia. Qed.

Lemma between_send l x i j : (j ≤ length l)%nat → between (l ++ [x]) i j = between l i j.
Proof.
  intros Hj. unfold between. destruct (decide (i ≤ j)%nat).
  - rw drop_app_le; [|lia]. by rw take_app_le; [|rw length_drop; lia].
  - by replace (j - i)%nat with 0%nat by lia.
Qed.

Record rx_ok (l : list A) (r : Receiver) : Prop := {
  rx_range : (rx_start r ≤ rx_pos r ≤ length l)%nat;
  rx_accounts : accounts (rx_got r) (between l (rx_start r) (rx_pos r));
  rx_counted : rx_lagged r = missed (rx_got r);
  rx_bound : (behind (length l) r ≤ rx_worst r)%nat;
  rx_late : (0 < rx_lagged r → CHANNEL_CAPACITY < rx_worst r)%nat;
}.

Definition channel_ok (ch : Channel) : Prop :=
  ∀ id r, receivers ch !! id = Some r → rx_ok (sent ch) r.

Lemma send_ok x l r : rx_ok l r → rx_ok (l ++ [x]) (fall_behind (length (l ++ [x])) r).
Proof.
  intros [Hr Ha Hc Hb Hl]. unfold fall_behind, behind in *. split; simpl; rw ?length_app /=.
  - lia.
  - by rw between_send; [|lia].
  - done.
  - unfold behind. simpl. lia.
  - lia.
Qed.

(** A turn of a receiver moves it forward and accounts for what it moved past. *)
Lemma recv_accounts l r r' :
  recv l r = Some r' → (rx_start r ≤ rx_pos r ≤ length l)%nat →
  accounts (rx_got r) (between l (rx_start r) (rx_pos r)) →
  rx_start r' = rx_start r ∧ (rx_pos r < rx_pos r' ≤ length l)%nat ∧ rx_worst r' = rx_worst r ∧
  accounts (rx_got r') (between l (rx_start r') (rx_pos r')) ∧
  (rx_lagged r' + missed (rx_got r) = rx_lagged r + missed (rx_got r'))%nat ∧
  (rx_lagged r' ≠ rx_lagged r → CHANNEL_CAPACITY < behind (length l) r)%nat.
Proof.
  intros Hv Hr Ha. unfold recv, behind in *.
  destruct (poll CHANNEL_CAPACITY (length l) (rx_pos r)) as [| |skipped] eqn:Ep; [done| |].
  - destruct (l !! rx_pos r) as [x|] eqn:Hx; [|done]. injection Hv as <-.
    pose proof (lookup_lt_Some _ _ _ Hx). simpl. split_and!; try done; try lia.
    + rw (between_split _ _ (rx_pos r)); [|lia]. rw (between_next _ _ _ Hx). by apply accounts_ok.
    + rw missed_snoc. lia.
  - apply poll_lagged in Ep. injection Hv as <-. simpl. split_and!; try done; try lia.
    + rw (between_split _ _ (rx_pos r)); [|lia].
      assert (length (between l (rx_pos r) (rx_pos r + skipped)) = skipped) as Hlen
        by (rw between_length; lia).
      rw -{1}Hlen. apply accounts_gap; [|done]. intros Hnil%(f_equal length). simpl in Hnil. lia.
    + rw missed_snoc. lia.
Qed.

(** A receiver with a message to come has a turn. *)
Lemma recv_moves l r :
  (rx_start r ≤ rx_pos r < length l)%nat →
  accounts (rx_got r) (between l (rx_start r) (rx_pos r)) →
  ∃ r', recv l r = Some r' ∧ (rx_pos r < rx_pos r' ≤ length l)%nat.
Proof.
  intros Hr Ha. assert (∃ r', recv l r = Some r') as [r' Hv].
  { unfold recv. destruct (poll CHANNEL_CAPACITY (length l) (rx_pos r)) as [| |skipped] eqn:Ep.
    - apply poll_pending in Ep. lia.
    - destruct (lookup_lt_is_Some_2 l (rx_pos r)) as [x ->]; [lia|]. by eexists.
    - by eexists. }
  exists r'. split; [done|]. apply (recv_accounts _ _ _ Hv); [lia|done].
Qed.

Lemma recv_ok l r r' : recv l r = Some r' → rx_ok l r → rx_ok l r'.
Proof.
  intros Hv [Hr Ha Hc Hb Hl].
  destruct (recv_accounts _ _ _ Hv Hr Ha) as (Hs & Hp & Hw & Ha' & Hm & Hlate).
  unfold behind in *. split; unfold behind; lia || done.
Qed.

Lemma channel_step_ok ch ch' : step ch ch' → channel_ok ch → channel_ok ch'.
Proof.
  intros Hs Hok. destruct Hs as [x ch|id l rs Hid|id r r' l rs Hid Hv|id l rs]; intros id' q Hq; simpl in *.
  - rw lookup_fmap in Hq. destruct (receivers ch !! id') as [r|] eqn:E; [|done].
    injection Hq as <-. by eapply send_ok, Hok.
  - apply lookup_insert_Some in Hq as [[<- <-]|[_ Hq]]; [|by eapply Hok].
    split; simpl; unfold behind; simpl; [lia|rw between_self; constructor|done|lia|lia].
  - apply lookup_insert_Some in Hq as [[<- <-]|[_ Hq]]; [|by eapply Hok].
    by eapply recv_ok, Hok.
  - apply lookup_delete_Some in Hq as [_ Hq]. by eapply Hok.
Qed.

Lemma channel_reachable_ok ch : rtc step fresh ch → channel_ok ch.
Proof.
  intros Hr. assert (channel_ok fresh) as H0 by (by intros id r; simpl; rw lookup_empty).
  revert H0. induction Hr as [|c1 c2 c3 Hs _ IH]; [done|]. intros H0. by eapply IH, channel_step_ok.
Qed.

(** A receiver that keeps receiving catches up. *)
Lemma receiver_catches_up ch id r :
  channel_ok ch → receivers ch !! id = Some r →
  ∃ ch' r', rtc step ch ch' ∧ sent ch' = sent ch ∧ receivers ch' !! id = Some r' ∧
    rx_pos r' = length (sent ch).
Proof.
  intros Hok Hid. remember (length (sent ch) - rx_pos r)%nat as n eqn:Hn.
  revert ch r Hok Hid Hn. induction n as [n IH] using lt_wf_ind; intros ch r Hok Hid Hn.
  pose proof (Hok _ _ Hid) as [Hr Ha _ _ _].
  destruct (decide (rx_pos r = length (sent ch))) as [Heq|Hne]; [by exists ch, r|].
  destruct (recv_moves (sent ch) r) as (r' & Hv & Hlt); [lia|done|].
  destruct ch as [l rs]. simpl in *. pose proof (step_recv id r r' l rs Hid Hv) as Hs.
  destruct (IH (length l - rx_pos r')%nat) with (ch := mkChannel l (<[id := r']> rs)) (r := r')
    as (ch' & q & Hq1 & Hq2 & Hq3 & Hq4).
  - pose proof (recv_ok _ _ _ Hv (Hok _ _ Hid)) as [Hr' _ _ _ _]. lia.
  - by eapply channel_step_ok.
  - simpl. by rw lookup_insert_eq.
  - done.
  - exists ch', q. split; [by eapply rtc_l|done].
Qed.

(** C25.  Over any broadcast channel with the documented behaviour, nothing published on a
    subject disappears silently: at any moment the messages sent since a subscription are those
    the subscriber passed on, those it added to the lag counter, and those still waiting for
    it, and what it was handed accounts for them in order, gap by gap.  The counter moves only
    for a subscriber that was once more than the capacity behind; one that never was passes on
    every message, in order.  Whoever keeps receiving catches up. *)
Theorem lag_is_accounted ch id r :
  rtc step fresh ch → receivers ch !! id = Some r →
  accounts (rx_got r) (between (sent ch) (rx_start r) (rx_pos r)) ∧
  (length (received (rx_got r)) + rx_lagged r + behind (length (sent ch)) r
   = length (sent ch) - rx_start r)%nat ∧
  (0 < rx_lagged r → CHANNEL_CAPACITY < rx_worst r)%nat ∧
  (rx_worst r ≤ CHANNEL_CAPACITY →
   received (rx_got r) = between (sent ch) (rx_start r) (rx_pos r))%nat ∧
  ∃ ch' r', rtc step ch ch' ∧ sent ch' = sent ch ∧ receivers ch' !! id = Some r' ∧
    rx_pos r' = length (sent ch).
Proof.
  intros Hr Hid. pose proof (channel_reachable_ok _ Hr) as Hok.
  destruct (Hok _ _ Hid) as [Hran Ha Hc Hb Hl]. split_and!.
  - done.
  - pose proof (accounts_length _ _ Ha) as Hlen. rw between_length // in Hlen.
    unfold behind in *. lia.
  - done.
  - intros Hw. assert (missed (rx_got r) = 0%nat) as Hm by lia.
    rw {1}(accounts_exact _ _ Ha Hm). apply received_all.
  - by eapply receiver_catches_up.
Qed.

(** ** A subscriber that is served at its own pace *)

(** What a subscriber is handed of [sent] in the end: [gaps] says how many messages are sent
    before each of its turns; after the last of them it is served until nothing is left. *)
Fixpoint serve (gaps : list nat) (fuel visible : nat) (sent : list A) (r : Receiver) : Receiver :=
  match fuel with
  | O => r
  | S fuel =>
      let visible := match gaps with
                     | [] => length sent
                     | k :: _ => (visible + k) `min` length sent
                     end in
      match recv (take visible sent) r with
      | Some r => serve (tail gaps) fuel visible sent r
      | None => match gaps with [] => r | _ :: _ => serve (tail gaps) fuel visible sent r end
      end
  end.

Lemma between_take (l : list A) v i j : (j ≤ v)%nat → between (take v l) i j = between l i j.
Proof.
  intros Hj. unfold between. rw skipn_firstn_comm take_take. f_equal. lia.
Qed.

Lemma serve_accounts gaps fuel visible l r :
  (rx_start r ≤ rx_pos r ≤ visible)%nat → (visible ≤ length l)%nat →
  (length gaps + (length l - rx_pos r) < fuel)%nat →
  accounts (rx_got r) (between l (rx_start r) (rx_pos r)) →
  let r' := serve gaps fuel visible l r in
  rx_start r' = rx_start r ∧ accounts (rx_got r') (between l (rx_start r) (length l)).
Proof.
  revert gaps visible r. induction fuel as [|fuel IH]; intros gaps visible r Hr Hv Hf Ha; [lia|].
  cbn [serve]. set (v := match gaps with [] => length l | k :: _ => (visible + k) `min` length l end).
  assert (visible ≤ v ≤ length l)%nat as Hvv by (subst v; destruct gaps; lia).
  assert (length (take v l) = v) as Hlen by (rw length_take; lia).
  destruct (recv (take v l) r) as [r'|] eqn:Er.
  - apply recv_accounts in Er as (Hs & Hp & _ & Ha' & _); [|lia|by rw between_take; [|lia]].
    rw between_take in Ha'; [|lia]. rw Hlen in Hp.
    destruct (IH (tail gaps) v r') as [Hs' Ha'']; [lia|lia|destruct gaps; simpl in *; lia|done|].
    rw Hs' -Hs. done.
  - destruct gaps as [|k gaps].
    + split; [done|]. subst v. rw take_ge // in Er.
      destruct (decide (rx_pos r = length l)) as [Heq|Hne]; [by rw -Heq|].
      destruct (recv_moves l r) as (r' & Hv' & _); [lia|done|congruence].
    + apply IH; simpl in *; [lia|lia|lia|done].
Qed.
End channel.

(** The channel keeps the promise [PubSub.Broadcast] asks for, whatever the pace: a subscriber
    that is not told of a gap was handed everything. *)
Definition ring `{BroadcastRing} (gaps : list nat) : PubSub.Broadcast.
Proof.
  refine (PubSub.Build_Broadcast
    (λ sent, rx_got (serve gaps (S (length gaps + length sent)) 0 sent (subscribed 0))) _).
  intros sent Hno.
  destruct (serve_accounts gaps (S (length gaps + length sent)) 0 sent (subscribed 0)) as [_ Ha];
    [simpl; lia..|rw between_self; constructor|].
  rw (accounts_exact _ _ Ha (missed_zero _ Hno)). simpl. unfold between.
  by rw Nat.sub_0_r drop_0 firstn_all.
Defined.

(** ** Witness *)

(** A channel that holds exactly as many messages as it was made for. *)
Definition exact_poll (capacity tail pos : nat) : Poll :=
  if bool_decide (tail ≤ pos)%nat then Pending
  else if bool_decide (capacity < tail - pos)%nat then Lagged (tail - capacity - pos)
  else Delivered.

Definition exact_ring : BroadcastRing.
Proof.
  refine (Build_BroadcastRing exact_poll _ _); unfold exact_poll; intros capacity tail pos.
  - repeat case_bool_decide; split; (done || lia).
  - intros skipped. repeat case_bool_decide; [done| |done]. intros [= <-]. lia.
Defined.

(** Two thousand messages are sent before a subscriber's first two turns. *)
Definition flood (n : nat) : Channel (A := nat) :=
  Nat.iter n (send 7) (mkChannel [] {[ 1%nat := subscribed 0 ]}).
Definition two_turns (ch : Channel (A := nat)) : option (Receiver (A := nat)) :=
  r ← receivers ch !! 1%nat; r ← @recv exact_ring _ (sent ch) r; @recv exact_ring _ (sent ch) r.
Definition after_turns (ch : Channel (A := nat)) (r : Receiver) : Channel :=
  mkChannel (sent ch) (<[1%nat := r]> (receivers ch)).

Local Abbreviation demo_step := (@step exact_ring nat).

Lemma flood_reached n : rtc demo_step fresh (flood n).
Proof.
  eapply rtc_l; [by apply (step_subscribe 1)|].
  induction n as [|n IH]; [apply rtc_refl|]. by eapply rtc_r; [exact IH|apply step_send].
Qed.

Lemma after_turns_reached n r : two_turns (flood n) = Some r → rtc demo_step fresh (after_turns (flood n) r).
Proof.
  unfold two_turns, after_turns. pose proof (flood_reached n) as Hf. destruct (flood n) as [l rs].
  cbn [sent receivers]. destruct (rs !! 1%nat) as [r0|] eqn:E0; [|done]. cbn [mbind option_bind].
  destruct (recv l r0) as [r1|] eqn:E1; [|done]. intros E2.
  eapply rtc_r; [eapply rtc_r; [exact Hf|by eapply step_recv]|].
  rw -(insert_insert_eq rs 1%nat r r1). eapply step_recv; [by rw lookup_insert_eq|done].
Qed.

Definition lagging : Receiver (A := nat) := default (subscribed 0) (two_turns (flood 2000)).

Lemma lag_is_accounted_witness :
  (length (received (rx_got lagging)) + rx_lagged lagging + behind 2000 lagging = 2000)%nat ∧
  received (rx_got lagging) = [7%nat] ∧ rx_lagged lagging = 976%nat ∧ behind 2000 lagging = 1023%nat.
Proof.
  split; [|vm_compute; done].
  assert (two_turns (flood 2000) = Some lagging) as Hr by (vm_compute; reflexivity).
  apply (@lag_is_accounted exact_ring nat _ 1 lagging (after_turns_reached _ _ Hr)).
  apply lookup_insert_eq.
Defined.
End Channel.
