(* ===== verification/Websocket.v ===== *)
(** * The websocket connection

    [shared/src/ws.rs] and [api/src/controllers/websocket/mod.rs]: one connection carries
    many subscriptions.  A frame from the client starts or stops the task that feeds one
    subject; every task and the error replies share one bounded queue that the connection
    drains into the socket.  The runtime has several threads, so an aborted task stops only at
    its next wait: until then it may still send, also beside the task of a new subscription.

    [serde_json] is a parameter: [parse] reads a client frame or gives the error text.  What a
    task sends is the serialized event of its subject. *)

From S2P Require Import Prelude.

Module Websocket.

Inductive WsSubject := WsMempoolDelta | WsMempoolStats | WsChainTip | WsClusterDelta.
#[global] Instance WsSubject_eq_dec : EqDecision WsSubject.
Proof. solve_decision. Defined.

Definition ws_as_str (subject : WsSubject) : string :=
  match subject with
  | WsMempoolDelta => "mempool.delta"
  | WsMempoolStats => "mempool.stats"
  | WsChainTip => "chain.tip"
  | WsClusterDelta => "cluster.delta"
  end.

(** Subjects key the subscriptions by the name they are sent under. *)
Definition subject_of_str (s : string) : option WsSubject :=
  if decide (s = "mempool.delta") then Some WsMempoolDelta
  else if decide (s = "mempool.stats") then Some WsMempoolStats
  else if decide (s = "chain.tip") then Some WsChainTip
  else if decide (s = "cluster.delta") then Some WsClusterDelta
  else None.

#[global] Instance WsSubject_countable : Countable WsSubject.
Proof. apply (inj_countable ws_as_str subject_of_str). by intros []. Defined.

Inductive ClientFrame :=
| Subscribe (subject : WsSubject)
| Unsubscribe (subject : WsSubject).

(** A frame in the outbound queue: of the task of a subject, or an error reply. *)
Inductive Outbound :=
| EventText (subject : WsSubject) (text : string)
| ErrorText (message : string).

Definition OUTBOUND_CHANNEL_CAPACITY : nat := 256.

(** A connection: the handle of the task of each subject, the tasks that have not ended, those
    that were told to, the handle the next task gets, the queue, and what the client has been
    sent. *)
Record Connection := mkConnection {
  ws_subscriptions : gmap WsSubject nat;
  ws_running : gmap nat WsSubject;
  ws_aborted : gset nat;
  ws_next : nat;
  ws_outbound : list Outbound;
  ws_sent : list Outbound;
}.

Definition open_connection : Connection := mkConnection ∅ ∅ ∅ 0 [] [].

(** [tokio::spawn]: the task runs from now on. *)
Definition spawn_subscription (subject : WsSubject) (c : Connection) : nat * Connection :=
  (ws_next c,
   mkConnection (ws_subscriptions c) (<[ws_next c := subject]> (ws_running c))
     (ws_aborted c) (S (ws_next c)) (ws_outbound c) (ws_sent c)).

(** [JoinHandle::abort]: the task is to stop at its next wait. *)
Definition abort (handle : nat) (c : Connection) : Connection :=
  mkConnection (ws_subscriptions c) (ws_running c) ({[handle]} ∪ ws_aborted c) (ws_next c)
    (ws_outbound c) (ws_sent c).

(** [send_event]: [try_send] drops the reply when the queue is full. *)
Definition send_event (message : string) (c : Connection) : Connection :=
  if bool_decide (length (ws_outbound c) < OUTBOUND_CHANNEL_CAPACITY) then
    mkConnection (ws_subscriptions c) (ws_running c) (ws_aborted c) (ws_next c)
      (ws_outbound c ++ [ErrorText message]) (ws_sent c)
  else c.

Definition set_subscriptions (m : gmap WsSubject nat) (c : Connection) : Connection :=
  mkConnection m (ws_running c) (ws_aborted c) (ws_next c) (ws_outbound c) (ws_sent c).

Section connection.
Context (parse : string → result string ClientFrame).

Definition handle_client_frame (text : string) (c : Connection) : Connection :=
  match parse text with
  | Err e => send_event ("invalid frame: " +:+ e) c
  | Ok (Subscribe subject) =>
      match ws_subscriptions c !! subject with
      | Some _ => c
      | None =>
          let '(handle, c) := spawn_subscription subject c in
          set_subscriptions (<[subject := handle]> (ws_subscriptions c)) c
      end
  | Ok (Unsubscribe subject) =>
      match ws_subscriptions c !! subject with
      | Some handle => abort handle (set_subscriptions (delete subject (ws_subscriptions c)) c)
      | None => c
      end
  end.

(** The end of [handle_connection]: every task is aborted. *)
Definition close_connection (c : Connection) : Connection :=
  foldl (λ c handle, abort handle c) c (snd <$> map_to_list (ws_subscriptions c)).

(** What can happen to a connection: a frame arrives, a task that has not ended sends once
    there is room, aborted or not, the loop hands the oldest frame to the socket, a task ends,
    with its stream or because it was aborted. *)
Inductive ws_step : Connection → Connection → Prop :=
| ws_inbound text c : ws_step c (handle_client_frame text c)
| ws_produce handle subject text subs running aborted next out sent :
    running !! handle = Some subject → length out < OUTBOUND_CHANNEL_CAPACITY →
    ws_step (mkConnection subs running aborted next out sent)
            (mkConnection subs running aborted next (out ++ [EventText subject text]) sent)
| ws_deliver frame subs running aborted next out sent :
    ws_step (mkConnection subs running aborted next (frame :: out) sent)
            (mkConnection subs running aborted next out (sent ++ [frame]))
| ws_task_ends handle subject subs running aborted next out sent :
    running !! handle = Some subject →
    ws_step (mkConnection subs running aborted next out sent)
            (mkConnection subs (delete handle running) aborted next out sent).

(** ** Invariant *)

(** A task that is to go on is the one its subject is subscribed with, and none of those was
    told to stop; handles are not used twice. *)
Definition ws_inv (c : Connection) : Prop :=
  (∀ handle subject, ws_running c !! handle = Some subject →
     handle ∈ ws_aborted c ∨ ws_subscriptions c !! subject = Some handle) ∧
  (∀ subject handle, ws_subscriptions c !! subject = Some handle → handle < ws_next c) ∧
  (∀ s1 s2 handle, ws_subscriptions c !! s1 = Some handle →
     ws_subscriptions c !! s2 = Some handle → s1 = s2) ∧
  (∀ subject handle, ws_subscriptions c !! subject = Some handle → handle ∉ ws_aborted c) ∧
  (∀ handle, handle ∈ ws_aborted c → handle < ws_next c) ∧
  length (ws_outbound c) ≤ OUTBOUND_CHANNEL_CAPACITY.

Lemma ws_inv_open : ws_inv open_connection.
Proof.
  unfold ws_inv, open_connection. simpl. split_and!; try lia; try set_solver;
    intros *; by rw lookup_empty.
Qed.

Lemma ws_inv_send message c : ws_inv c → ws_inv (send_event message c).
Proof.
  intros (I1 & I2 & I3 & I4 & I5 & I6). unfold send_event. case_bool_decide; [|done].
  split_and!; [done..|]. simpl. rw length_app /=. lia.
Qed.

(** A new subscription gets a task with a fresh handle. *)
Lemma ws_inv_subscribe subject c :
  ws_inv c → ws_subscriptions c !! subject = None →
  let '(handle, c') := spawn_subscription subject c in
  ws_inv (set_subscriptions (<[subject := handle]> (ws_subscriptions c')) c').
Proof.
  intros (I1 & I2 & I3 & I4 & I5 & I6) E. unfold ws_inv. simpl. split_and!; [| | | | |done].
  - intros h s. rw lookup_insert_Some. intros [[<- <-]|[Hne Hr]].
    + right. by rw lookup_insert_eq.
    + destruct (I1 _ _ Hr) as [?|Hs]; [by left|right]. rw lookup_insert_ne; [done|congruence].
  - intros s h. rw lookup_insert_Some. intros [[<- <-]|[Hne Hs]]; [lia|].
    specialize (I2 _ _ Hs). lia.
  - intros s1 s2 h. rw !lookup_insert_Some.
    intros [[<- <-]|[? Ha]] [[<- Hh]|[? Hb]]; [done| | |by eapply I3].
    + specialize (I2 _ _ Hb). lia.
    + specialize (I2 _ _ Ha). lia.
  - intros s h. rw lookup_insert_Some. intros [[<- <-]|[Hne Hs]]; [|by eapply I4].
    intros Hin%I5. lia.
  - intros h Hin%I5. lia.
Qed.

Lemma ws_inv_unsubscribe subject handle c :
  ws_inv c → ws_subscriptions c !! subject = Some handle →
  ws_inv (abort handle (set_subscriptions (delete subject (ws_subscriptions c)) c)).
Proof.
  intros (I1 & I2 & I3 & I4 & I5 & I6) E. unfold ws_inv. simpl. split_and!; [| | | | |done].
  - intros h s Hr. destruct (decide (h = handle)) as [->|Hne]; [left; set_solver|].
    destruct (I1 _ _ Hr) as [?|Hs]; [left; set_solver|right]. rw lookup_delete_ne; [done|congruence].
  - intros s h. rw lookup_delete_Some. intros [_ Hs]. by eapply I2.
  - intros s1 s2 h. rw !lookup_delete_Some. intros [_ Ha] [_ Hb]. by eapply I3.
  - intros s h. rw lookup_delete_Some. intros [Hne Hs] [->%elem_of_singleton|Hin]%elem_of_union.
    + apply Hne. by eapply I3.
    + by eapply I4.
  - intros h [->%elem_of_singleton|Hin]%elem_of_union; [by eapply I2|by apply I5].
Qed.

Lemma ws_inv_frame text c : ws_inv c → ws_inv (handle_client_frame text c).
Proof.
  intros Hi. unfold handle_client_frame.
  destruct (parse text) as [[subject|subject]|e]; [| |by apply ws_inv_send];
    destruct (ws_subscriptions c !! subject) as [handle|] eqn:E; try done.
  - exact (ws_inv_subscribe subject c Hi E).
  - by apply ws_inv_unsubscribe.
Qed.

Lemma ws_inv_step c c' : ws_step c c' → ws_inv c → ws_inv c'.
Proof.
  intros Hs. destruct Hs; [apply ws_inv_frame| | |]; intros (I1 & I2 & I3 & I4 & I5 & I6); simpl in *;
    split_and!; simpl; try done.
  - rw length_app /=. lia.
  - lia.
  - intros h s. rw lookup_delete_Some. intros [_ Hr]. by eapply I1.
Qed.

Lemma ws_inv_steps c c' : rtc ws_step c c' → ws_inv c → ws_inv c'.
Proof. induction 1; eauto using ws_inv_step. Qed.

Lemma abort_all handles c :
  let c' := foldl (λ c handle, abort handle c) c handles in
  ws_running c' = ws_running c ∧ ws_aborted c' = list_to_set handles ∪ ws_aborted c.
Proof.
  revert c. induction handles as [|h handles IH]; intros c; simpl; [set_solver|].
  destruct (IH (abort h c)) as [-> ->]. simpl. set_solver.
Qed.

(** Frames leave the queue in the order they entered it, and none is lost in between. *)
Lemma ws_queue_grows c c' :
  rtc ws_step c c' → ws_sent c ++ ws_outbound c `prefix_of` ws_sent c' ++ ws_outbound c'.
Proof.
  induction 1 as [|c1 c2 c3 Hs _ IH]; [done|]. etrans; [|exact IH]. clear IH.
  destruct Hs as [text c|h s txt subs running aborted next out sent
    |frame subs running aborted next out sent|h s subs running aborted next out sent]; simpl.
  - unfold handle_client_frame, send_event, set_subscriptions.
    destruct (parse text) as [[s|s]|e]; [by destruct (_ !! s)..|].
    case_bool_decide; [|done]. simpl. rw app_assoc. by apply prefix_app_r.
  - rw app_assoc. by apply prefix_app_r.
  - by rw -app_assoc.
  - done.
Qed.

(** C35.  Whatever frames arrive and however the tasks and the socket keep pace, of the tasks
    that were not aborted a connection has at most one per subject, the one the subject is
    subscribed with, and it aborts none of those.  After an unsubscription every task of the
    subject that has not ended is aborted, and after the end of the connection every task is:
    what may still run and send are tasks that stop at their next wait.  The queue never
    exceeds its capacity and loses and reorders nothing. *)
Theorem connection_runs_one_task_per_subject c :
  rtc ws_step open_connection c →
  (∀ handle subject, ws_running c !! handle = Some subject → handle ∉ ws_aborted c →
     ws_subscriptions c !! subject = Some handle) ∧
  (∀ handle subject, ws_subscriptions c !! subject = Some handle → handle ∉ ws_aborted c) ∧
  length (ws_outbound c) ≤ OUTBOUND_CHANNEL_CAPACITY ∧
  (∀ text subject handle, parse text = Ok (Unsubscribe subject) →
     let c' := handle_client_frame text c in
     ws_running c' !! handle = Some subject → handle ∈ ws_aborted c') ∧
  (∀ c', rtc ws_step c c' → ws_sent c ++ ws_outbound c `prefix_of` ws_sent c' ++ ws_outbound c') ∧
  (∀ handle, is_Some (ws_running (close_connection c) !! handle) →
     handle ∈ ws_aborted (close_connection c)).
Proof.
  intros Hr. pose proof (ws_inv_steps _ _ Hr ws_inv_open) as Hi.
  pose proof Hi as (I1 & _ & _ & I4 & _ & I6). split_and!.
  - intros handle subject Hrun Hn. by destruct (I1 _ _ Hrun).
  - intros handle subject. apply I4.
  - done.
  - intros text subject handle Hp c' Hrun. pose proof (ws_inv_frame text c Hi) as (I1' & _).
    destruct (I1' _ _ Hrun) as [?|Hs]; [done|exfalso].
    unfold handle_client_frame in Hs. rw Hp in Hs.
    destruct (ws_subscriptions c !! subject) as [h|] eqn:E; simpl in Hs; [|congruence].
    by rw lookup_delete_eq in Hs.
  - intros c'. apply ws_queue_grows.
  - unfold close_connection. destruct (abort_all (snd <$> map_to_list (ws_subscriptions c)) c) as [-> ->].
    intros h [s Hs]. apply elem_of_union. destruct (I1 _ _ Hs) as [?|Hsub]; [by right|left].
    apply elem_of_list_to_set, list_elem_of_fmap. exists (s, h). split; [done|].
    by apply elem_of_map_to_list.
Qed.
End connection.

(** ** Witness *)

Definition toy_parse (text : string) : result string ClientFrame :=
  if decide (text = "+") then Ok (Subscribe WsChainTip)
  else if decide (text = "-") then Ok (Unsubscribe WsChainTip)
  else Err "expected a frame".

(** Subscribed twice over, unsubscribed, and subscribed again while the first task has not
    stopped yet. *)
Definition frames_handled (texts : list string) : Connection :=
  foldl (λ c text, handle_client_frame toy_parse text c) open_connection texts.

Lemma frames_handled_reached texts : rtc (ws_step toy_parse) open_connection (frames_handled texts).
Proof.
  unfold frames_handled. generalize open_connection as c.
  induction texts as [|text texts IH]; intros c; [apply rtc_refl|].
  eapply rtc_l; [apply ws_inbound|apply IH].
Qed.

Definition resubscribed : Connection := frames_handled ["+"; "+"; "?"; "-"; "+"].

Lemma connection_runs_one_task_per_subject_witness :
  ws_running resubscribed = {[ 0 := WsChainTip; 1 := WsChainTip ]} ∧
  ws_outbound resubscribed = [ErrorText "invalid frame: expected a frame"] ∧
  ws_subscriptions resubscribed !! WsChainTip = Some 1 ∧
  (1 ∉ ws_aborted resubscribed) ∧ (0 ∈ ws_aborted resubscribed) ∧
  (∀ handle, is_Some (ws_running (close_connection resubscribed) !! handle) →
     handle ∈ ws_aborted (close_connection resubscribed)).
Proof.
  destruct (connection_runs_one_task_per_subject toy_parse resubscribed
    (frames_handled_reached _)) as (Hu & Hn & _ & _ & _ & Hc).
  assert (ws_subscriptions resubscribed !! WsChainTip = Some 1) as Hs by (vm_compute; reflexivity).
  split; [vm_compute; reflexivity|]. split; [vm_compute; reflexivity|]. split; [exact Hs|].
  split; [exact (Hn _ _ Hs)|]. split; [|exact Hc].
  destruct (decide (0 ∈ ws_aborted resubscribed)) as [Hin|Hout]; [exact Hin|exfalso].
  assert (ws_running resubscribed !! 0 = Some WsChainTip) as Hr by (vm_compute; reflexivity).
  apply Hu in Hr; [|exact Hout]. congruence.
Defined.

End Websocket.
