(* ===== verification/Ledger.v ===== *)
(** * The mempool ledger

    [shared/src/snapshot/mempool.rs]: the single owner of what is in our
    mempool right now ([live]) together with the journal of transitions that
    the reconciler has not yet written to the database.

    [Inner] is the state behind the [RwLock]; each method holds the lock for
    its whole body, so a method is one function on [Inner].  [now n] is the
    clock reading a call takes when the journal holds [n] entries: a call reads
    the clock once per accepted entry, so every sequence of readings of one
    call is some [now]. *)

From S2P Require Import Prelude.
From S2P Require Import Models.

Open Scope Z_scope.

Module Ledger.

Definition JOURNAL_CAP : Z := 250000.

Record JournalEntry := mkEntry {
  je_txid : string;
  je_direction : DeltaDirection;
  je_observed_at : Z;
}.

Record Inner := mkInner {
  live : gset string;
  journal : list JournalEntry;
  degraded : bool;
}.

Definition default : Inner := mkInner ∅ [] false.

Definition set_live (s : gset string) (inner : Inner) : Inner :=
  mkInner s (journal inner) (degraded inner).

(** ** Operations *)

Definition push (now : nat → Z) (inner : Inner) (txid : string)
    (direction : DeltaDirection) : bool * Inner :=
  if JOURNAL_CAP <=? Z.of_nat (length (journal inner)) then
    (false, mkInner (live inner) (journal inner) true)
  else
    let entry := mkEntry txid direction (now (length (journal inner))) in
    (true, mkInner (live inner) (journal inner ++ [entry]) (degraded inner)).

(** [for txid in txids { complete &= inner.push(txid, direction) }] *)
Definition push_all (now : nat → Z) (inner : Inner) (direction : DeltaDirection)
    (txids : list string) : bool * Inner :=
  foldl (λ '(complete, inner) txid,
           let '(accepted, inner) := push now inner txid direction in
           (complete && accepted, inner))
        (true, inner) txids.

Definition seed (txids : gset string) (inner : Inner) : Inner := set_live txids inner.

Definition assert_present_one (now : nat → Z) (inner : Inner) (txid : string) : Inner :=
  if decide (txid ∈ live inner) then inner
  else snd (push now (set_live ({[txid]} ∪ live inner) inner) txid Add).

Definition assert_present (now : nat → Z) (txids : list string) (inner : Inner) : Inner :=
  foldl (assert_present_one now) inner txids.

Definition assert_absent_one (now : nat → Z) (inner : Inner) (txid : string) : Inner :=
  if decide (txid ∈ live inner) then
    snd (push now (set_live (live inner ∖ {[txid]}) inner) txid Remove)
  else inner.

Definition assert_absent (now : nat → Z) (txids : list string) (inner : Inner) : Inner :=
  foldl (assert_absent_one now) inner txids.

(** The entries a [FlushBatch] carries: the whole journal, left in place. *)
Definition begin_flush (inner : Inner) : option (list JournalEntry) :=
  match journal inner with [] => None | _ :: _ => Some (journal inner) end.

(** [None] is the panic of [drain(..n)] on a journal shorter than [n]. *)
Definition commit (entries : list JournalEntry) (inner : Inner) : option Inner :=
  if bool_decide (length entries ≤ length (journal inner))%nat then
    Some (mkInner (live inner) (drop (length entries) (journal inner)) (degraded inner))
  else None.

Definition transition_counts (entries : list JournalEntry) : nat * nat :=
  foldl (λ '(added, removed) entry,
           match je_direction entry with
           | Add => (S added, removed)
           | Remove => (added, S removed)
           end) (0%nat, 0%nat) entries.

Definition first_last_step (m : gmap string (DeltaDirection * DeltaDirection))
    (entry : JournalEntry) : gmap string (DeltaDirection * DeltaDirection) :=
  match m !! je_txid entry with
  | Some (first, _) => <[je_txid entry := (first, je_direction entry)]> m
  | None => <[je_txid entry := (je_direction entry, je_direction entry)]> m
  end.

Definition first_last (entries : list JournalEntry) :
    gmap string (DeltaDirection * DeltaDirection) :=
  foldl first_last_step ∅ entries.

Section iterating.
Context `{EnumOrder}.

(** The distinct txids among [entries] moving in [direction]. *)
Definition distinct_txids (entries : list JournalEntry) (direction : DeltaDirection) :
    list string :=
  iter_set (list_to_set (je_txid <$> filter (λ e, je_direction e = direction) entries)
            : gset string).

Definition added_txids (entries : list JournalEntry) : list string :=
  distinct_txids entries Add.

Definition residency_delta (entries : list JournalEntry) : list string * list string :=
  foldl (λ '(added, removed) '(txid, (first, last)),
           match first, last with
           | Add, Add => (added ++ [txid], removed)
           | Remove, Remove => (added, removed ++ [txid])
           | _, _ => (added, removed)
           end)
        ([], []) (iter_map (first_last entries)).

Definition submit_authoritative (now : nat → Z) (txids : gset string)
    (inner : Inner) : Inner :=
  let to_add := filter (λ txid, txid ∉ live inner) (iter_set txids) in
  let to_remove := iter_set (live inner ∖ txids) in
  let inner := snd (push_all now inner Add to_add) in
  let inner := snd (push_all now inner Remove to_remove) in
  set_live txids inner.

Definition apply_entry (residency : gset string) (entry : JournalEntry) : gset string :=
  match je_direction entry with
  | Add => {[je_txid entry]} ∪ residency
  | Remove => residency ∖ {[je_txid entry]}
  end.

Definition replay (residency : gset string) (entries : list JournalEntry) : gset string :=
  foldl apply_entry residency entries.

Definition reconcile_against (now : nat → Z) (db_image : gset string)
    (inner : Inner) : Inner :=
  let eventual := replay db_image (journal inner) in
  let to_add := iter_set (live inner ∖ eventual) in
  let to_remove := iter_set (eventual ∖ live inner) in
  let '(complete_add, inner) := push_all now inner Add to_add in
  let '(complete_remove, inner) := push_all now inner Remove to_remove in
  if complete_add && complete_remove
  then mkInner (live inner) (journal inner) false
  else inner.
End iterating.

(** ** The journal as a log of a residency set *)

(** [well_logged s es]: read from residency [s], every entry of [es] is a real
    transition: an [Add] of an absent txid or a [Remove] of a resident one. *)
Fixpoint well_logged (s : gset string) (es : list JournalEntry) : Prop :=
  match es with
  | [] => True
  | e :: es =>
      match je_direction e with
      | Add => je_txid e ∉ s
      | Remove => je_txid e ∈ s
      end ∧ well_logged (apply_entry s e) es
  end.

Lemma replay_app s es1 es2 : replay s (es1 ++ es2) = replay (replay s es1) es2.
Proof. apply foldl_app. Qed.

Lemma well_logged_app s es1 es2 :
  well_logged s (es1 ++ es2) ↔ well_logged s es1 ∧ well_logged (replay s es1) es2.
Proof.
  revert s. induction es1 as [|e es1 IH]; intros s; simpl; [tauto|].
  rw IH. tauto.
Qed.

Lemma replay_uniform s d es :
  Forall (λ e, je_direction e = d) es →
  replay s es = match d with
                | Add => s ∪ list_to_set (je_txid <$> es)
                | Remove => s ∖ list_to_set (je_txid <$> es)
                end.
Proof.
  revert s. induction es as [|e es IH]; intros s Hd; simpl.
  - destruct d; set_solver.
  - inversion Hd; subst. rw IH //.
    unfold apply_entry. destruct (je_direction e); set_solver.
Qed.

Lemma well_logged_uniform s d es :
  Forall (λ e, je_direction e = d) es → NoDup (je_txid <$> es) →
  Forall (λ t, match d with Add => t ∉ s | Remove => t ∈ s end) (je_txid <$> es) →
  well_logged s es.
Proof.
  revert s. induction es as [|e es IH]; intros s Hd Hnd Hs; [done|].
  apply Forall_cons in Hd as [<- Hd]. rw fmap_cons in Hnd Hs.
  apply NoDup_cons in Hnd as [Hni Hnd]. apply Forall_cons in Hs as [He Hs].
  split; [done|]. apply IH; [done..|].
  rw Forall_forall in Hs. apply Forall_forall. intros t Ht. specialize (Hs t Ht).
  assert (t ≠ je_txid e) by (intros ->; done).
  unfold apply_entry. destruct (je_direction e); set_solver.
Qed.

(** ** What the push loops do *)

Lemma push_spec now inner t d :
  live (push now inner t d).2 = live inner ∧
  ((push now inner t d).1 = true ∧
     degraded (push now inner t d).2 = degraded inner ∧
     journal (push now inner t d).2
       = journal inner ++ [mkEntry t d (now (length (journal inner)))]
   ∨ (push now inner t d).1 = false ∧
     degraded (push now inner t d).2 = true ∧
     journal (push now inner t d).2 = journal inner).
Proof. unfold push. destruct (_ <=? _); simpl; tauto. Qed.

(** Entries [es] record exactly the moves of [ts] in direction [d]. *)
Definition records (es : list JournalEntry) (d : DeltaDirection) (ts : list string) : Prop :=
  je_txid <$> es = ts ∧ Forall (λ e, je_direction e = d) es.

Lemma push_all_snoc now inner d ts t :
  push_all now inner d (ts ++ [t]) =
  (let '(ok, st) := push_all now inner d ts in
   let '(b, st) := push now st t d in (ok && b, st)).
Proof. unfold push_all. rw foldl_app /=. by destruct (foldl _ _ ts). Qed.

Lemma push_all_spec now inner d ts :
  let st := (push_all now inner d ts).2 in
  live st = live inner ∧
  (∃ es, journal st = journal inner ++ es ∧
         Forall (λ e, je_direction e = d) es ∧ je_txid <$> es ⊆+ ts) ∧
  ((push_all now inner d ts).1 = true ∧ degraded st = degraded inner ∧
     (∃ es, journal st = journal inner ++ es ∧ records es d ts)
   ∨ (push_all now inner d ts).1 = false ∧ degraded st = true).
Proof.
  induction ts as [|t ts IH] using rev_ind.
  - simpl. split; [done|]. split.
    + exists []. rw app_nil_r. split_and!; [done|constructor|constructor].
    + left. split; [done|]. split; [done|]. exists []. rw app_nil_r.
      split; [done|]. by split; [|constructor].
  - rw push_all_snoc. destruct (push_all now inner d ts) as [ok st] eqn:E.
    simpl in IH. destruct IH as (Hl & (es & Hj & Hd & Hsub) & IH).
    destruct (push now st t d) as [b st'] eqn:Ep.
    pose proof (push_spec now st t d) as [Hl' Hp]. rw Ep /= in Hl' Hp. simpl.
    split; [congruence|]. destruct Hp as [(-> & Hdeg & Hj')|(-> & Hdeg & Hj')].
    + split.
      { eexists (es ++ [_]). rw Hj' Hj -app_assoc. split; [done|].
        rw Forall_app Forall_singleton fmap_app. split; [done|].
        by apply submseteq_app. }
      rw andb_true_r. destruct IH as [(-> & Hd' & es' & Hes' & Ht & Hf)|[-> Hd']].
      * left. split; [done|]. split; [congruence|].
        eexists (es' ++ [_]). rw Hj' Hes' -app_assoc. split; [done|].
        split; [by rw fmap_app Ht|]. by rw Forall_app Forall_singleton.
      * right. split; [done|congruence].
    + split; [|by rw andb_false_r; right].
      exists es. rw Hj' Hj. split; [done|]. split; [done|].
      by apply submseteq_inserts_r.
Qed.

(** An undegraded result means every push was accepted. *)
Lemma push_all_undegraded now inner d ts :
  degraded (push_all now inner d ts).2 = false →
  degraded inner = false ∧ live (push_all now inner d ts).2 = live inner ∧
  ∃ es, journal (push_all now inner d ts).2 = journal inner ++ es ∧ records es d ts.
Proof.
  pose proof (push_all_spec now inner d ts) as (Hl & _ & [(_&Hd&Hes)|[_ Hd]]);
    intros Hu; [|congruence].
  split; [congruence|]. done.
Qed.

(** ** Transitions: what every generator does to the log *)

(** From [inner] to [inner'] the journal only grew at the back, and unless an
    entry was refused the appended entries lead from the old [live] to the new
    one, each a real transition. *)
Definition logs (inner inner' : Inner) : Prop :=
  journal inner `prefix_of` journal inner' ∧
  (degraded inner' = false →
     degraded inner = false ∧
     ∃ es, journal inner' = journal inner ++ es ∧
           well_logged (live inner) es ∧ replay (live inner) es = live inner').

Lemma logs_refl inner : logs inner inner.
Proof.
  split; [done|]. intros Hd. split; [done|]. exists []. by rw app_nil_r.
Qed.

Lemma logs_trans inner1 inner2 inner3 :
  logs inner1 inner2 → logs inner2 inner3 → logs inner1 inner3.
Proof.
  intros [Hp1 H1] [Hp2 H2]. split; [by etrans|]. intros Hd.
  destruct (H2 Hd) as (Hd2 & es2 & Hj2 & Hw2 & Hr2).
  destruct (H1 Hd2) as (Hd1 & es1 & Hj1 & Hw1 & Hr1).
  split; [done|]. exists (es1 ++ es2). rw Hj2 Hj1 -app_assoc well_logged_app replay_app Hr1.
  done.
Qed.

Lemma logs_fold {A} (f : Inner → A → Inner) l inner :
  (∀ inner x, logs inner (f inner x)) → logs inner (foldl f inner l).
Proof.
  intros Hf. revert inner. induction l as [|x l IH]; intros inner; simpl.
  - apply logs_refl.
  - eapply logs_trans; [apply Hf|apply IH].
Qed.

(** One accepted or refused push, after [live] was already updated. *)
Lemma push_logs now inner s t d :
  match d with Add => t ∉ live inner | Remove => t ∈ live inner end →
  s = apply_entry (live inner) (mkEntry t d 0) →
  logs inner (snd (push now (set_live s inner) t d)).
Proof.
  intros Ht ->. pose proof (push_spec now
    (set_live (apply_entry (live inner) (mkEntry t d 0)) inner) t d) as [Hl Hp].
  unfold logs. simpl in *. destruct Hp as [(_ & Hd & Hj)|(_ & Hd & Hj)]; rw Hj.
  - split; [by apply prefix_app_r|]. intros Hu. split; [congruence|].
    eexists. split; [done|]. simpl. split; [by destruct d|].
    by rw Hl /apply_entry /=; destruct d.
  - split; [done|]. congruence.
Qed.

Lemma assert_present_logs now ts inner : logs inner (assert_present now ts inner).
Proof.
  apply logs_fold. clear inner. intros inner t. unfold assert_present_one.
  case_decide; [apply logs_refl|]. by apply push_logs.
Qed.

Lemma assert_absent_logs now ts inner : logs inner (assert_absent now ts inner).
Proof.
  apply logs_fold. clear inner. intros inner t. unfold assert_absent_one.
  case_decide; [|apply logs_refl]. by apply push_logs.
Qed.

Lemma push_all_prefix now inner d ts :
  journal inner `prefix_of` journal (push_all now inner d ts).2.
Proof.
  destruct (push_all_spec now inner d ts) as (_ & (es & -> & _) & _).
  by apply prefix_app_r.
Qed.

Lemma live_assert_present now ts inner :
  live (assert_present now ts inner) = live inner ∪ list_to_set ts.
Proof.
  unfold assert_present. revert inner. induction ts as [|t ts IH]; intros inner; simpl.
  - set_solver.
  - rw IH /assert_present_one. case_decide; [set_solver|].
    rw (proj1 (push_spec _ _ _ _)) /=. set_solver.
Qed.

Lemma live_assert_absent now ts inner :
  live (assert_absent now ts inner) = live inner ∖ list_to_set ts.
Proof.
  unfold assert_absent. revert inner. induction ts as [|t ts IH]; intros inner; simpl.
  - set_solver.
  - rw IH /assert_absent_one. case_decide; [|set_solver].
    rw (proj1 (push_spec _ _ _ _)) /=. set_solver.
Qed.

Section authoritative.
Context `{EnumOrder}.

Lemma submit_authoritative_logs now txids inner :
  logs inner (submit_authoritative now txids inner).
Proof.
  unfold submit_authoritative.
  set (to_add := filter _ _). set (to_remove := iter_set _).
  set (mid := (push_all now inner Add to_add).2). split.
  { simpl. etrans; [apply push_all_prefix|apply push_all_prefix]. }
  simpl. intros Hd.
  destruct (push_all_undegraded _ _ _ _ Hd) as (Hd' & _ & rems & Hjr & Htr & Hfr).
  destruct (push_all_undegraded _ _ _ _ Hd') as (Hd'' & _ & adds & Hja & Hta & Hfa).
  split; [done|]. exists (adds ++ rems). rw Hjr /mid Hja app_assoc.
  split; [done|]. rw well_logged_app replay_app.
  rw (replay_uniform _ Add adds Hfa) (replay_uniform _ Remove rems Hfr) Hta Htr.
  assert (∀ t, t ∈ to_add ↔ t ∈ txids ∧ t ∉ live inner) as Hadd.
  { intros t. subst to_add. rw list_elem_of_filter elem_of_iter_set. tauto. }
  assert (∀ t, t ∈ to_remove ↔ t ∈ live inner ∧ t ∉ txids) as Hrem.
  { intros t. subst to_remove. rw elem_of_iter_set. set_solver. }
  split_and!.
  - eapply well_logged_uniform; [done|rw Hta|].
    + apply NoDup_filter, NoDup_iter_set.
    + rw Hta. apply Forall_forall. naive_solver.
  - eapply well_logged_uniform; [done|rw Htr; apply NoDup_iter_set|].
    rw Htr. apply Forall_forall. set_solver.
  - apply set_eq. intros t. rw elem_of_difference elem_of_union !elem_of_list_to_set.
    rw Hadd Hrem. destruct (decide (t ∈ live inner)), (decide (t ∈ txids)); naive_solver.
Qed.
End authoritative.

(** ** The flush protocol

    The ledger beside the residency the database holds and the batch the single
    consumer has read but not yet committed.  Generators run at any point,
    also while a batch is in flight. *)

Record Sys := mkSys {
  sys_db : gset string;
  sys_ledger : Inner;
  sys_batch : option (list JournalEntry);
}.

(** Bootstrap seeds [live] with what the database already holds. *)
Definition boot (prev : gset string) : Sys := mkSys prev (seed prev default) None.

Section protocol.
Context `{EnumOrder}.

Inductive step : Sys → Sys → Prop :=
| step_submit now txids db inner batch :
    step (mkSys db inner batch) (mkSys db (submit_authoritative now txids inner) batch)
| step_present now txids db inner batch :
    step (mkSys db inner batch) (mkSys db (assert_present now txids inner) batch)
| step_absent now txids db inner batch :
    step (mkSys db inner batch) (mkSys db (assert_absent now txids inner) batch)
| step_begin db inner entries :
    begin_flush inner = Some entries →
    step (mkSys db inner None) (mkSys db inner (Some entries))
| step_written db inner inner' entries :
    commit entries inner = Some inner' →
    step (mkSys db inner (Some entries)) (mkSys (replay db entries) inner' None)
| step_dropped db inner entries :
    step (mkSys db inner (Some entries)) (mkSys db inner None).

(** The journal leads from the database's residency to [live]. *)
Definition consistent (db : gset string) (inner : Inner) : Prop :=
  degraded inner = false →
  well_logged db (journal inner) ∧ replay db (journal inner) = live inner.

Definition sys_inv (s : Sys) : Prop :=
  consistent (sys_db s) (sys_ledger s) ∧
  ∀ entries, sys_batch s = Some entries →
    entries `prefix_of` journal (sys_ledger s).

Lemma consistent_logs db inner inner' :
  logs inner inner' → consistent db inner → consistent db inner'.
Proof.
  intros [_ Hl] Hc Hd. destruct (Hl Hd) as (Hd' & es & -> & Hw & Hr).
  destruct (Hc Hd') as [Hw' Hr']. by rw well_logged_app replay_app Hr'.
Qed.

Lemma sys_inv_generator db inner inner' batch :
  logs inner inner' → sys_inv (mkSys db inner batch) → sys_inv (mkSys db inner' batch).
Proof.
  intros Hl [Hc Hp]. split; [by eapply consistent_logs|].
  simpl. intros es ->. etrans; [by apply Hp|]. apply Hl.
Qed.

Lemma commit_prefix entries inner :
  entries `prefix_of` journal inner →
  commit entries inner
  = Some (mkInner (live inner) (drop (length entries) (journal inner)) (degraded inner)).
Proof. intros [k Hk]. unfold commit. rw bool_decide_eq_true_2 // Hk length_app. lia. Qed.

Lemma consistent_commit db entries inner inner' :
  entries `prefix_of` journal inner → commit entries inner = Some inner' →
  consistent db inner → consistent (replay db entries) inner'.
Proof.
  intros Hp. rw commit_prefix //. intros [= <-] Hc Hd. simpl in *.
  destruct Hp as [k Hk]. destruct (Hc Hd) as [Hw Hr].
  rw Hk drop_app_length. rw Hk well_logged_app replay_app in Hw Hr. tauto.
Qed.

Lemma sys_inv_step s s' : step s s' → sys_inv s → sys_inv s'.
Proof.
  intros Hs. destruct Hs.
  - apply sys_inv_generator, submit_authoritative_logs.
  - apply sys_inv_generator, assert_present_logs.
  - apply sys_inv_generator, assert_absent_logs.
  - intros [Hc _]. split; [done|]. simpl. intros es [= <-].
    unfold begin_flush in *. destruct (journal inner); simplify_eq. done.
  - intros [Hc Hp]. split; [|done]. simpl. eapply consistent_commit; [|done..].
    by apply Hp.
  - intros [Hc Hp]. by split.
Qed.

Lemma sys_inv_boot prev : sys_inv (boot prev).
Proof. split; [|done]. by intros _. Qed.

Lemma sys_inv_reachable prev s : rtc step (boot prev) s → sys_inv s.
Proof.
  intros Hr. pose proof (sys_inv_boot prev) as Hi. revert Hi.
  induction Hr; eauto using sys_inv_step.
Qed.

(** C6.  However the authoritative polls, the cluster syncs, the block removals
    and the flushes interleave after a bootstrap, as long as no entry was ever
    refused the journal is an exact log: read from the residency the database
    holds, every entry is a real transition (no txid is added twice or removed
    twice) and the last one lands on [live]. *)
Theorem journal_is_exact_log prev s :
  rtc step (boot prev) s → degraded (sys_ledger s) = false →
  well_logged (sys_db s) (journal (sys_ledger s)) ∧
  replay (sys_db s) (journal (sys_ledger s)) = live (sys_ledger s).
Proof. intros Hr. apply (sys_inv_reachable _ _ Hr). Qed.

(** [commit] never panics and removes exactly the entries that were
    written: whatever was pushed while the batch was in flight stays queued,
    in order, and flushing a batch that covered the whole journal leaves the
    database holding [live]. *)
Theorem commit_drains_what_was_read prev db inner entries :
  rtc step (boot prev) (mkSys db inner (Some entries)) →
  ∃ later, journal inner = entries ++ later ∧
    commit entries inner = Some (mkInner (live inner) later (degraded inner)) ∧
    (degraded inner = false → later = [] → replay db entries = live inner).
Proof.
  intros Hr. destruct (sys_inv_reachable _ _ Hr) as [Hc Hp]. simpl in *.
  destruct (Hp _ eq_refl) as [later Hl]. exists later. split; [done|]. split.
  - rw commit_prefix; [|by eexists]. by rw Hl drop_app_length.
  - intros Hd ->. rw app_nil_r in Hl. rw -Hl. by apply Hc.
Qed.
End protocol.

(** ** Netting a batch out *)

Lemma first_last_snoc es e :
  first_last (es ++ [e]) = first_last_step (first_last es) e.
Proof. unfold first_last. by rw foldl_app. Qed.

(** What the first and last entry of a txid say about a well-logged batch. *)
Lemma first_last_spec base es t :
  well_logged base es →
  match first_last es !! t with
  | Some (first, last) => (first = Add ↔ t ∉ base) ∧ (last = Add ↔ t ∈ replay base es)
  | None => t ∈ base ↔ t ∈ replay base es
  end.
Proof.
  induction es as [|e es IH] using rev_ind; [done|].
  rw well_logged_app first_last_snoc replay_app. intros [Hw [He _]].
  specialize (IH Hw). unfold first_last_step. simpl. unfold apply_entry.
  destruct (decide (t = je_txid e)) as [->|Hne].
  - destruct (first_last es !! je_txid e) as [[first last]|]; rw lookup_insert_eq;
      destruct (je_direction e); set_solver.
  - destruct (first_last es !! je_txid e) as [[first last]|];
      rw lookup_insert_ne //; destruct (first_last es !! t) as [[??]|];
      destruct (je_direction e); set_solver.
Qed.

Section residency.
Context `{EnumOrder}.

(** The loop of [residency_delta] as two selections. *)
Lemma residency_delta_select entries :
  residency_delta entries =
  ((λ kv, kv.1) <$> filter (λ kv, kv.2 = (Add, Add)) (iter_map (first_last entries)),
   (λ kv, kv.1) <$> filter (λ kv, kv.2 = (Remove, Remove)) (iter_map (first_last entries))).
Proof.
  unfold residency_delta.
  generalize (iter_map (first_last entries)) as kvs. intros kvs.
  induction kvs as [|[t [f l]] kvs IH] using rev_ind; [done|].
  rw foldl_app IH /= !filter_app !fmap_app.
  by destruct f, l; rw /= ?app_nil_r.
Qed.

Lemma elem_of_selected entries d t :
  t ∈ (λ kv : string * (DeltaDirection * DeltaDirection), kv.1) <$>
        filter (λ kv, kv.2 = (d, d)) (iter_map (first_last entries))
  ↔ first_last entries !! t = Some (d, d).
Proof.
  rw list_elem_of_fmap. setoid_rewrite list_elem_of_filter. split.
  - intros ([t' fl] & -> & Hfl & Hin). simpl in *. subst.
    by apply elem_of_iter_map in Hin.
  - intros Hin. exists (t, (d, d)). by rw elem_of_iter_map.
Qed.

Lemma selected_NoDup entries d :
  NoDup ((λ kv : string * (DeltaDirection * DeltaDirection), kv.1) <$>
        filter (λ kv, kv.2 = (d, d)) (iter_map (first_last entries))).
Proof.
  apply (sublist_NoDup _ ((iter_map (first_last entries)).*1)).
  - unfold iter_map. rw shuffle_perm. apply NoDup_fst_map_to_list.
  - apply fmap_sublist, sublist_filter.
Qed.

(** The event the reconciler publishes for a batch is the net residency
    change: [added] lists exactly the txids that were absent before the batch
    and resident after it, [removed] exactly those that were resident before
    and absent after, each once; churn inside the batch cancels out. *)
Theorem residency_delta_is_net_change base entries added removed :
  well_logged base entries → residency_delta entries = (added, removed) →
  NoDup added ∧ NoDup removed ∧
  list_to_set added = replay base entries ∖ base ∧
  list_to_set removed = base ∖ replay base entries.
Proof.
  rw residency_delta_select. intros Hw [= <- <-].
  split_and!; [apply selected_NoDup..| |]; apply set_eq; intros t;
    rw elem_of_list_to_set elem_of_selected elem_of_difference;
    pose proof (first_last_spec base entries t Hw) as Hfl;
    destruct (decide (t ∈ base)), (decide (t ∈ replay base entries));
    destruct (first_last entries !! t) as [[[] []]|]; intuition congruence.
Qed.

End residency.

(** ** Overflow and repair *)

Lemma push_fits now inner t d :
  (push now inner t d).1 = true ↔ Z.of_nat (length (journal inner)) + 1 ≤ JOURNAL_CAP.
Proof.
  unfold push. destruct (Z.leb_spec JOURNAL_CAP (Z.of_nat (length (journal inner))));
    simpl; split; intros; try done; lia.
Qed.

Lemma push_all_fits now inner d ts :
  (push_all now inner d ts).1 = true ↔
  ts = [] ∨ Z.of_nat (length (journal inner)) + Z.of_nat (length ts) ≤ JOURNAL_CAP.
Proof.
  induction ts as [|t ts IH] using rev_ind; [simpl; tauto|].
  rw push_all_snoc. pose proof (push_all_spec now inner d ts) as (_ & _ & Hs).
  destruct (push_all now inner d ts) as [ok st]. simpl in *.
  pose proof (push_fits now st t d) as Hf. destruct (push now st t d) as [b st'].
  simpl in *. rw length_app /= andb_true_iff IH Hf.
  destruct Hs as [(-> & _ & es & Hj & Ht & _)|[-> _]].
  - rw Hj length_app -(length_fmap je_txid es) Ht. destruct ts; naive_solver lia.
  - split; [naive_solver|]. intros [?|Hle]; [by destruct ts|].
    assert (ts = [] ∨ Z.of_nat (length (journal inner)) + Z.of_nat (length ts)
                      ≤ JOURNAL_CAP) as Hok by lia.
    by apply IH in Hok.
Qed.

Section repair.
Context `{EnumOrder}.

(** Entries carry readings of the clock. *)
Lemma push_observed (P : Z → Prop) now inner t d :
  (∀ i, P (now i)) → Forall (λ e, P (je_observed_at e)) (journal inner) →
  Forall (λ e, P (je_observed_at e)) (journal (push now inner t d).2).
Proof.
  intros Hp Hj. unfold push. destruct (_ <=? _); simpl; [done|].
  rw Forall_app Forall_singleton. split; [done|apply Hp].
Qed.

Lemma push_all_observed (P : Z → Prop) now inner d ts :
  (∀ i, P (now i)) → Forall (λ e, P (je_observed_at e)) (journal inner) →
  Forall (λ e, P (je_observed_at e)) (journal (push_all now inner d ts).2).
Proof.
  intros Hp Hj. induction ts as [|t ts IH] using rev_ind; [done|]. rw push_all_snoc.
  destruct (push_all now inner d ts) as [ok st]. simpl in IH.
  pose proof (push_observed P now st t d Hp IH) as Ho. by destruct (push now st t d).
Qed.

Lemma submit_authoritative_observed (P : Z → Prop) now txids inner :
  (∀ i, P (now i)) → Forall (λ e, P (je_observed_at e)) (journal inner) →
  Forall (λ e, P (je_observed_at e)) (journal (submit_authoritative now txids inner)).
Proof. intros Hp Hj. simpl. by apply push_all_observed, push_all_observed. Qed.

(** A poll whose whole difference fits into the journal is logged completely. *)
Lemma submit_authoritative_undegraded now txids inner :
  degraded inner = false →
  Z.of_nat (length (journal inner)) + Z.of_nat (size (txids ∖ live inner))
    + Z.of_nat (size (live inner ∖ txids)) ≤ JOURNAL_CAP →
  degraded (submit_authoritative now txids inner) = false.
Proof.
  intros Hd Hfit. unfold submit_authoritative.
  set (adds := filter _ _). set (rems := iter_set _).
  assert (length adds = size (txids ∖ live inner)) as Ha.
  { rw -(length_iter_set (txids ∖ live inner)). apply Permutation_length, NoDup_Permutation.
    - apply NoDup_filter, NoDup_iter_set.
    - apply NoDup_iter_set.
    - intros t. subst adds. rw list_elem_of_filter !elem_of_iter_set. set_solver. }
  assert (length rems = size (live inner ∖ txids)) as Hr by apply length_iter_set.
  clearbody adds rems. simpl.
  pose proof (push_all_spec now inner Add adds) as (_ & _ & Hs1).
  pose proof (push_all_fits now inner Add adds) as Hf1.
  destruct (push_all now inner Add adds) as [ok1 st1]. simpl in *.
  assert (ok1 = true) as -> by (apply Hf1; right; lia).
  destruct Hs1 as [(_ & Hd1 & es & Hj & Ht & _)|[? _]]; [|done].
  pose proof (push_all_spec now st1 Remove rems) as (_ & _ & Hs2).
  pose proof (push_all_fits now st1 Remove rems) as Hf2.
  destruct (push_all now st1 Remove rems) as [ok2 st2]. simpl in *.
  assert (ok2 = true) as ->.
  { apply Hf2. right. rw Hj length_app -(length_fmap je_txid es) Ht. lia. }
  destruct Hs2 as [(_ & Hd2 & _)|[? _]]; [|done]. congruence.
Qed.

(** [reconcile_against] leaves [live] alone and ends undegraded exactly
    when the whole repair fitted into the journal; then the journal again
    leads from the database image to [live], whatever had been lost before. *)
Theorem reconcile_closes_the_gap now db inner :
  let eventual := replay db (journal inner) in
  let repair := (size (live inner ∖ eventual) + size (eventual ∖ live inner))%nat in
  let inner' := reconcile_against now db inner in
  live inner' = live inner ∧
  (degraded inner' = false ↔
     repair = 0%nat ∨
     Z.of_nat (length (journal inner)) + Z.of_nat repair ≤ JOURNAL_CAP) ∧
  (degraded inner' = false → replay db (journal inner') = live inner').
Proof.
  intros eventual repair inner'. subst inner'. unfold reconcile_against.
  fold eventual. set (adds := iter_set _). set (rems := iter_set (eventual ∖ _)).
  assert (repair = length adds + length rems)%nat as ->.
  { subst repair adds rems. by rw !length_iter_set. }
  assert (∀ t, t ∈ adds ↔ t ∈ live inner ∖ eventual) as Hadds
    by (intros t; apply elem_of_iter_set).
  assert (∀ t, t ∈ rems ↔ t ∈ eventual ∖ live inner) as Hrems
    by (intros t; apply elem_of_iter_set).
  clearbody adds rems.
  pose proof (push_all_spec now inner Add adds) as (Hl1 & _ & Hs1).
  pose proof (push_all_fits now inner Add adds) as Hf1.
  destruct (push_all now inner Add adds) as [ok1 st1]. simpl in *.
  pose proof (push_all_spec now st1 Remove rems) as (Hl2 & _ & Hs2).
  pose proof (push_all_fits now st1 Remove rems) as Hf2.
  destruct (push_all now st1 Remove rems) as [ok2 st2]. simpl in *.
  assert (ok1 && ok2 = true ↔
    (length adds + length rems = 0)%nat ∨
    Z.of_nat (length (journal inner)) + Z.of_nat (length adds + length rems)
      ≤ JOURNAL_CAP) as Hok.
  { rw andb_true_iff Hf1 Hf2. destruct Hs1 as [(_ & _ & es & Hj & Ht & _)|[Ho _]].
    - rw Hj length_app -(length_fmap je_txid es) Ht.
      destruct adds, rems; simpl; naive_solver lia.
    - rw Ho in Hf1. split; [naive_solver|]. intros Hle. exfalso.
      assert (false = true) by (apply Hf1; destruct adds; [by left|right; simpl in *; lia]). done. }
  destruct (ok1 && ok2) eqn:Eok; simpl.
  - split; [congruence|]. split; [tauto|]. intros _.
    apply andb_true_iff in Eok as [-> ->].
    destruct Hs1 as [(_ & _ & es1 & Hj1 & Ht1 & Hd1)|[? _]]; [|done].
    destruct Hs2 as [(_ & _ & es2 & Hj2 & Ht2 & Hd2)|[? _]]; [|done].
    rw Hj2 Hj1 Hl2 Hl1 !replay_app (replay_uniform _ _ _ Hd1) (replay_uniform _ _ _ Hd2).
    rw Ht1 Ht2. fold eventual. apply set_eq. intros t.
    rw elem_of_difference elem_of_union !elem_of_list_to_set Hadds Hrems.
    destruct (decide (t ∈ live inner)), (decide (t ∈ eventual)); set_solver.
  - assert (degraded st2 = true) as Hd2.
    { destruct Hs2 as [(Ho & Hd & _)|[_ ?]]; [|done]. rw Ho in Eok.
      destruct Hs1 as [(Ho1 & _)|[_ Hd1]]; [by rw Ho1 in Eok|congruence]. }
    split; [congruence|]. split; [|congruence]. split; [congruence|].
    intros Hle. by apply Hok in Hle.
Qed.

(** A txid whose [Add] was refused is not in the eventual residency and no
    generator queues it again while it stays live. *)
Lemma lost_add_step s s' t :
  step s s' → t ∈ live (sys_ledger s) → t ∈ live (sys_ledger s') →
  (∀ es, sys_batch s = Some es → es `prefix_of` journal (sys_ledger s)) →
  t ∉ replay (sys_db s) (journal (sys_ledger s)) →
  t ∉ replay (sys_db s') (journal (sys_ledger s')).
Proof.
  intros Hs. destruct Hs as [now txids db inner batch|now txids db inner batch
    |now txids db inner batch|db inner entries Hb|db inner inner' entries Hc
    |db inner entries]; simpl; intros Ht Ht' Hp Hn; try done.
  - unfold submit_authoritative. set (adds := filter _ _). set (rems := iter_set _).
    destruct (push_all_spec now inner Add adds) as (_ & (e1 & Hj1 & Hd1 & Hs1) & _).
    destruct (push_all_spec now (push_all now inner Add adds).2 Remove rems)
      as (_ & (e2 & Hj2 & Hd2 & Hs2) & _).
    simpl. rw Hj2 Hj1 !replay_app (replay_uniform _ _ _ Hd1) (replay_uniform _ _ _ Hd2).
    assert (t ∉ je_txid <$> e1); [|set_solver].
    intros Hin. apply (elem_of_submseteq _ _ _ Hin) in Hs1.
    subst adds. apply list_elem_of_filter in Hs1 as [? _]. done.
  - clear Hp. unfold assert_present in *. clear Ht'. revert inner Ht Hn.
    induction txids as [|u txids IH]; intros inner Ht Hn; simpl; [done|].
    apply IH; clear IH; unfold assert_present_one; case_decide as Hu; try done.
    + rw (proj1 (push_spec _ _ _ _)) /=. set_solver.
    + destruct (push_spec now (set_live ({[u]} ∪ live inner) inner) u Add)
        as [_ [(_&_&->)|(_&_&->)]]; simpl; [|done].
      rw replay_app /= /apply_entry /=. set_solver.
  - clear Hp. unfold assert_absent in *.
    assert (logs_sub : ∀ inner, t ∉ replay db (journal inner) →
      t ∉ replay db (journal (foldl (assert_absent_one now) inner txids))).
    { clear. induction txids as [|u txids IH]; intros inner Hn; simpl; [done|].
      apply IH. unfold assert_absent_one. case_decide; [|done].
      destruct (push_spec now (set_live (live inner ∖ {[u]}) inner) u Remove)
        as [_ [(_&_&->)|(_&_&->)]]; simpl; [|done].
      rw replay_app /= /apply_entry /=. set_solver. }
    by apply logs_sub.
  - rw commit_prefix in Hc; [|by apply Hp]. simplify_eq. simpl.
    rw -replay_app. destruct (Hp _ eq_refl) as [k Hk]. rw Hk in Hn. by rw Hk drop_app_length.
Qed.

(** C18.  An overflow is permanent unless [reconcile_against] runs: once a live
    txid is missing from the residency the database is heading for, it stays
    missing through every poll, sync and flush for as long as it stays live. *)
Theorem lost_add_never_requeued s s' t :
  rtc (λ s s', step s s' ∧ t ∈ live (sys_ledger s')) s s' →
  t ∈ live (sys_ledger s) → sys_batch s = None →
  t ∉ replay (sys_db s) (journal (sys_ledger s)) →
  t ∉ replay (sys_db s') (journal (sys_ledger s')).
Proof.
  intros Hr Ht Hb Hn.
  assert (∀ es, sys_batch s = Some es → es `prefix_of` journal (sys_ledger s)) as Hp
    by congruence.
  clear Hb. induction Hr as [|s1 s2 s3 [Hs Ht2] _ IH]; [done|].
  apply IH; [done|by apply (lost_add_step s1 s2)|].
  clear IH Hn. destruct Hs; simpl in *; intros es Heq; simplify_eq.
  - etrans; [by apply Hp|]. apply submit_authoritative_logs.
  - etrans; [by apply Hp|]. apply assert_present_logs.
  - etrans; [by apply Hp|]. apply assert_absent_logs.
  - unfold begin_flush in *. destruct (journal inner); simplify_eq. done.
Qed.
End repair.

(** ** Witnesses *)

Definition sample_clock (n : nat) : Z := 1700000000 + Z.of_nat n.

(** Bootstrapped holding [a]; a poll then sees [a] leave and [b] arrive. *)
Definition sample_polled : Inner :=
  @submit_authoritative stored_order sample_clock {["b"]} (seed {["a"]} default).
Definition sample_batch : list JournalEntry := journal sample_polled.
(** A cluster sync sees [c] while the batch is in flight. *)
Definition sample_inner : Inner := assert_present sample_clock ["c"] sample_polled.

Lemma sample_reachable :
  rtc (@step stored_order) (boot {["a"]})
      (mkSys {["a"]} sample_inner (Some sample_batch)).
Proof.
  eapply rtc_l; [apply (@step_submit stored_order sample_clock {["b"]})|].
  eapply rtc_l; [apply step_begin; vm_compute; reflexivity|].
  eapply rtc_l; [apply (step_present sample_clock ["c"])|].
  apply rtc_refl.
Defined.

Example sample_batch_entries :
  sample_batch = [mkEntry "b" Add 1700000000; mkEntry "a" Remove 1700000001].
Proof. vm_compute. reflexivity. Qed.

Lemma journal_is_exact_log_witness :
  degraded sample_inner = false ∧
  well_logged {["a"]} (journal sample_inner) ∧
  replay {["a"]} (journal sample_inner) = live sample_inner.
Proof.
  split; [vm_compute; reflexivity|].
  apply (@journal_is_exact_log stored_order {["a"]} _ sample_reachable).
  vm_compute. reflexivity.
Defined.

Lemma commit_drains_what_was_read_witness :
  ∃ later, journal sample_inner = sample_batch ++ later ∧
    commit sample_batch sample_inner
    = Some (mkInner (live sample_inner) later (degraded sample_inner)) ∧
    (degraded sample_inner = false → later = [] →
     replay {["a"]} sample_batch = live sample_inner).
Proof. exact (@commit_drains_what_was_read stored_order _ _ _ _ sample_reachable). Defined.

Lemma residency_delta_is_net_change_witness :
  well_logged {["a"]} sample_batch ∧
  NoDup ["b"] ∧ NoDup ["a"] ∧
  list_to_set ["b"] = replay {["a"]} sample_batch ∖ {["a"]} ∧
  list_to_set ["a"] = {["a"]} ∖ replay {["a"]} sample_batch.
Proof.
  assert (well_logged {["a"]} sample_batch) as Hw.
  { rw sample_batch_entries. split; [|split; [|done]]; simpl; set_solver. }
  split; [done|].
  apply (@residency_delta_is_net_change stored_order {["a"]} sample_batch);
    [done|vm_compute; reflexivity].
Defined.

(** The state an overflow leaves: [x] is live, the database never heard of it. *)
Definition sample_overflowed : Sys := mkSys ∅ (mkInner {["x"]} [] true) None.
Definition sample_polled_again : Sys :=
  mkSys ∅ (@submit_authoritative stored_order sample_clock {["x"; "y"]}
             (mkInner {["x"]} [] true)) None.

Lemma lost_add_never_requeued_witness :
  "x" ∉ replay (sys_db sample_polled_again) (journal (sys_ledger sample_polled_again)).
Proof.
  apply (@lost_add_never_requeued stored_order sample_overflowed sample_polled_again "x").
  - apply rtc_once. split; [apply (@step_submit stored_order)|].
    apply (bool_decide_unpack _). vm_compute. reflexivity.
  - simpl. set_solver.
  - reflexivity.
  - simpl. set_solver.
Defined.

End Ledger.
