(* ===== verification/MempoolFeed.v ===== *)
(** * The mempool stream of a websocket client

    [api/src/services/mempool.rs] composed with the ledger and the reconciler: a client that
    subscribes to [mempool.delta] is sent the ledger's live set and then every delta the
    reconciler publishes.  The reconciler publishes the net change of a batch after
    committing it; the watchers move the live set at any time in between.  The relation
    [feed_step] has all these interleavings, and the client may subscribe and be sent its
    snapshot at any two points of a run. *)

From S2P Require Import Prelude.
From S2P Require Import Models.
From S2P Require Import Ledger.

Module MempoolFeed.
Import Ledger.

(** ** The stream and the client *)

Section stream.
Context `{EnumOrder}.

(** [get_snapshot_then_delta_stream]: the snapshot as one event, then the deltas received
    since the subscription, which was made before the snapshot was read. *)
Definition get_snapshot_then_delta_stream (snapshot : gset string)
    (delta_stream : list MempoolDeltaEvent) : list MempoolDeltaEvent :=
  mkMempoolDeltaEvent (iter_set snapshot) [] :: delta_stream.

(** How a client folds an event: extend by [added], then drop [removed]. *)
Definition fold_event (set : gset string) (e : MempoolDeltaEvent) : gset string :=
  (set ∪ list_to_set (mde_added e)) ∖ list_to_set (mde_removed e).

Definition client_view (stream : list MempoolDeltaEvent) : gset string :=
  foldl fold_event ∅ stream.

(** ** The system around it *)

(** The ledger, the database and the batch in flight; an event that is committed and not
    yet published; the events published so far. *)
Record Feed := mkFeed {
  fd_sys : Sys;
  fd_outbox : option MempoolDeltaEvent;
  fd_bus : list MempoolDeltaEvent;
}.

Definition fd_live (f : Feed) : gset string := live (sys_ledger (fd_sys f)).

(** The event of a committed batch. *)
Definition batch_event (entries : list JournalEntry) : MempoolDeltaEvent :=
  let '(added, removed) := residency_delta entries in mkMempoolDeltaEvent added removed.

Definition feed_boot (prev : gset string) : Feed := mkFeed (boot prev) None [].

(** The reconciler is a single task: it begins no batch before it has published the last. *)
Inductive feed_step : Feed → Feed → Prop :=
| feed_submit now txids db inner batch out bus :
    feed_step (mkFeed (mkSys db inner batch) out bus)
              (mkFeed (mkSys db (submit_authoritative now txids inner) batch) out bus)
| feed_present now txids db inner batch out bus :
    feed_step (mkFeed (mkSys db inner batch) out bus)
              (mkFeed (mkSys db (assert_present now txids inner) batch) out bus)
| feed_absent now txids db inner batch out bus :
    feed_step (mkFeed (mkSys db inner batch) out bus)
              (mkFeed (mkSys db (assert_absent now txids inner) batch) out bus)
| feed_begin db inner entries bus :
    begin_flush inner = Some entries →
    feed_step (mkFeed (mkSys db inner None) None bus)
              (mkFeed (mkSys db inner (Some entries)) None bus)
| feed_dropped db inner entries bus :
    feed_step (mkFeed (mkSys db inner (Some entries)) None bus)
              (mkFeed (mkSys db inner None) None bus)
| feed_committed db inner inner' entries bus :
    commit entries inner = Some inner' →
    feed_step (mkFeed (mkSys db inner (Some entries)) None bus)
              (mkFeed (mkSys (replay db entries) inner' None) (Some (batch_event entries)) bus)
| feed_published s e bus :
    feed_step (mkFeed s (Some e) bus) (mkFeed s None (bus ++ [e])).

(** Nothing is pending: every transition of the live set has been announced. *)
Definition quiet (f : Feed) : Prop :=
  journal (sys_ledger (fd_sys f)) = [] ∧ sys_batch (fd_sys f) = None ∧ fd_outbox f = None.

(** What the events published so far add up to. *)
Definition announced (prev : gset string) (f : Feed) : gset string :=
  foldl fold_event prev (fd_bus f).

(** Whether some event says anything about [t]. *)
Definition mentioned (t : string) (events : list MempoolDeltaEvent) : Prop :=
  Exists (λ e, t ∈ mde_added e ∨ t ∈ mde_removed e) events.

(** ** Invariant *)

Definition feed_inv (prev : gset string) (f : Feed) : Prop :=
  sys_inv (fd_sys f) ∧
  (degraded (sys_ledger (fd_sys f)) = false →
   match fd_outbox f with
   | None => announced prev f
   | Some e => fold_event (announced prev f) e
   end = sys_db (fd_sys f)).

(** A generator that ends undegraded was undegraded before. *)
Lemma logs_undegraded inner inner' : logs inner inner' → degraded inner' = false → degraded inner = false.
Proof. intros [_ Hl] Hd. by destruct (Hl Hd). Qed.

Lemma feed_inv_generator prev db inner inner' batch out bus :
  logs inner inner' → feed_inv prev (mkFeed (mkSys db inner batch) out bus) →
  feed_inv prev (mkFeed (mkSys db inner' batch) out bus).
Proof.
  intros Hl [Hs Ha]. split; [by eapply sys_inv_generator|].
  intros Hd. apply Ha. by eapply logs_undegraded.
Qed.

(** The event of a batch takes the residency before it to the one after it. *)
Lemma fold_batch_event base entries :
  well_logged base entries → fold_event base (batch_event entries) = replay base entries.
Proof.
  intros Hw. unfold batch_event, fold_event. destruct (residency_delta entries) as [a r] eqn:E.
  rw residency_delta_select in E. injection E as <- <-. simpl. apply set_eq. intros t.
  rw elem_of_difference elem_of_union !elem_of_list_to_set !elem_of_selected.
  pose proof (first_last_spec base entries t Hw) as Hfl.
  destruct (decide (t ∈ base)), (decide (t ∈ replay base entries));
    destruct (first_last entries !! t) as [[[] []]|]; intuition congruence.
Qed.

Lemma feed_inv_step prev f f' : feed_step f f' → feed_inv prev f → feed_inv prev f'.
Proof.
  intros Hs. destruct Hs as [now txids db inner batch out bus|now txids db inner batch out bus
    |now txids db inner batch out bus|db inner entries bus Hb|db inner entries bus
    |db inner inner' entries bus Hc|s e bus].
  - apply feed_inv_generator, submit_authoritative_logs.
  - apply feed_inv_generator, assert_present_logs.
  - apply feed_inv_generator, assert_absent_logs.
  - intros [Hi Ha]. split; [|done]. by eapply sys_inv_step, Hi; constructor.
  - intros [Hi Ha]. split; [|done]. by eapply sys_inv_step, Hi; constructor.
  - intros [Hi Ha]. split; [by eapply sys_inv_step, Hi; constructor|]. simpl in *.
    destruct Hi as [Hcons Hp]. specialize (Hp _ eq_refl). simpl in Hcons, Hp.
    rw commit_prefix // in Hc. injection Hc as <-. simpl. intros Hd.
    destruct (Hcons Hd) as [Hw _]. destruct Hp as [later Hl].
    rw Hl well_logged_app in Hw. destruct Hw as [Hw _].
    specialize (Ha Hd). unfold announced in *. simpl in *. rw Ha. by apply fold_batch_event.
  - intros [Hi Ha]. split; [done|]. intros Hd. specialize (Ha Hd). simpl in *.
    unfold announced in *. by rw foldl_app.
Qed.

Lemma feed_inv_steps prev f f' : rtc feed_step f f' → feed_inv prev f → feed_inv prev f'.
Proof. induction 1; eauto using feed_inv_step. Qed.

Lemma feed_inv_boot prev : feed_inv prev (feed_boot prev).
Proof. split; [apply sys_inv_boot|done]. Qed.

(** Events are only ever appended. *)
Lemma feed_bus_grows f f' : rtc feed_step f f' → fd_bus f `prefix_of` fd_bus f'.
Proof.
  induction 1 as [|f1 f2 f3 Hs _ IH]; [done|]. etrans; [|exact IH].
  destruct Hs; simpl; try done. by apply prefix_app_r.
Qed.

Lemma feed_undegraded f f' :
  rtc feed_step f f' → degraded (sys_ledger (fd_sys f')) = false →
  degraded (sys_ledger (fd_sys f)) = false.
Proof.
  induction 1 as [|f1 f2 f3 Hs _ IH]; [done|]. intros Hd. specialize (IH Hd).
  destruct Hs as [now txids db inner batch out bus|now txids db inner batch out bus
    |now txids db inner batch out bus|db inner entries bus Hb|db inner entries bus
    |db inner inner' entries bus Hc|s e bus]; simpl in *; try done.
  - by apply (logs_undegraded _ (submit_authoritative now txids inner)); [apply submit_authoritative_logs|].
  - by apply (logs_undegraded _ (assert_present now txids inner)); [apply assert_present_logs|].
  - by apply (logs_undegraded _ (assert_absent now txids inner)); [apply assert_absent_logs|].
  - unfold commit in Hc. case_bool_decide; by simplify_eq.
Qed.

Lemma quiet_announced prev f :
  feed_inv prev f → quiet f → degraded (sys_ledger (fd_sys f)) = false →
  announced prev f = fd_live f.
Proof.
  intros [[Hc _] Ha] (Hj & Hb & Ho) Hd. specialize (Ha Hd). rw Ho in Ha. rw Ha.
  destruct (Hc Hd) as [_ Hr]. rw Hj in Hr. done.
Qed.

(** ** Folding events *)

Lemma fold_event_mentioned s1 s2 t e :
  t ∈ mde_added e ∨ t ∈ mde_removed e → t ∈ fold_event s1 e ↔ t ∈ fold_event s2 e.
Proof. unfold fold_event. set_solver. Qed.

Lemma fold_event_unmentioned s t e :
  ¬ (t ∈ mde_added e ∨ t ∈ mde_removed e) → t ∈ fold_event s e ↔ t ∈ s.
Proof. unfold fold_event. set_solver. Qed.

Lemma fold_event_agree s1 s2 t e :
  (t ∈ s1 ↔ t ∈ s2) → t ∈ fold_event s1 e ↔ t ∈ fold_event s2 e.
Proof. unfold fold_event. set_solver. Qed.

(** From two sets that agree on [t], or after an event that mentions it, the fold agrees. *)
Lemma folds_agree s1 s2 t events :
  (t ∈ s1 ↔ t ∈ s2) ∨ mentioned t events →
  t ∈ foldl fold_event s1 events ↔ t ∈ foldl fold_event s2 events.
Proof.
  revert s1 s2. induction events as [|e events IH]; intros s1 s2 Hag; simpl.
  - destruct Hag as [?|Hm]; [done|]. by inversion Hm.
  - apply IH. destruct Hag as [Hag|Hm]; [left; by apply fold_event_agree|].
    apply Exists_cons in Hm as [Hm|Hm]; [|by right]. left. by apply fold_event_mentioned.
Qed.

Lemma folds_unmentioned s t events :
  ¬ mentioned t events → t ∈ foldl fold_event s events ↔ t ∈ s.
Proof.
  revert s. induction events as [|e events IH]; intros s Hn; simpl; [done|].
  rw IH; [|by intros ?; apply Hn; right].
  apply fold_event_unmentioned. intros ?. apply Hn. by left.
Qed.

Lemma client_view_snapshot snapshot deltas :
  client_view (get_snapshot_then_delta_stream snapshot deltas) = foldl fold_event snapshot deltas.
Proof.
  unfold client_view, get_snapshot_then_delta_stream. cbn [foldl]. f_equal.
  unfold fold_event. simpl. apply set_eq. intros t.
  rw elem_of_difference elem_of_union !elem_of_list_to_set elem_of_iter_set. set_solver.
Qed.

(** ** What the client ends up with *)

(** C11.  A client subscribes at [f0] and is sent the snapshot of [f1] and every event
    published since [f0]; when everything pending has been announced at [f2] and no transition
    was ever refused, its set holds
    - exactly what is live, for every transaction mentioned since it subscribed;
    - what the snapshot held, for any other, and such a transaction is live now exactly if
      it was announced when the client subscribed.
    So the client can only be wrong about a transaction that had moved at [f1] without its
    move being announced and moved back within the same batch; if nothing was pending when
    the snapshot was read, the client mirrors the live set. *)
Theorem mempool_client_mirrors prev f0 f1 f2 :
  rtc feed_step (feed_boot prev) f0 → rtc feed_step f0 f1 → rtc feed_step f1 f2 →
  quiet f2 → degraded (sys_ledger (fd_sys f2)) = false →
  let deltas := drop (length (fd_bus f0)) (fd_bus f2) in
  let client := client_view (get_snapshot_then_delta_stream (fd_live f1) deltas) in
  (∀ t, mentioned t deltas → t ∈ client ↔ t ∈ fd_live f2) ∧
  (∀ t, ¬ mentioned t deltas →
     (t ∈ client ↔ t ∈ fd_live f1) ∧ (t ∈ fd_live f2 ↔ t ∈ announced prev f0)) ∧
  (quiet f1 → client = fd_live f2).
Proof.
  intros R0 R1 R2 Hq Hd deltas client. subst client. rw client_view_snapshot.
  assert (feed_inv prev f1) as I1.
  { eapply feed_inv_steps; [exact R1|]. eapply feed_inv_steps; [exact R0|apply feed_inv_boot]. }
  pose proof (feed_inv_steps prev _ _ R2 I1) as I2.
  rw -(quiet_announced prev f2) //. pose proof (feed_bus_grows _ _ R1) as [b1 B1].
  pose proof (feed_bus_grows _ _ R2) as [b2 B2].
  assert (announced prev f2 = foldl fold_event (announced prev f0) deltas) as Ha.
  { unfold announced, deltas. rw -foldl_app B2 B1 -app_assoc drop_app_length. done. }
  rw Ha. split_and!.
  - intros t Hm. apply folds_agree. by right.
  - intros t Hm. split; by apply folds_unmentioned.
  - intros Hq1. pose proof (feed_undegraded _ _ R2 Hd) as Hd1.
    rw -(quiet_announced prev f1) //. apply set_eq. intros t.
    assert (announced prev f1 = foldl fold_event (announced prev f0) b1) as ->.
    { unfold announced. by rw B1 foldl_app. }
    apply folds_agree.
    destruct (decide (t ∈ (list_to_set (deltas ≫= mde_added) ∪ list_to_set (deltas ≫= mde_removed) : gset string)))
      as [Hin|Hout].
    + right. unfold mentioned. rw Exists_exists.
      rw elem_of_union !elem_of_list_to_set !list_elem_of_bind in Hin. naive_solver.
    + left. apply folds_unmentioned. intros Hm. apply Hout.
      rw elem_of_union !elem_of_list_to_set !list_elem_of_bind.
      apply Exists_exists in Hm as (e & He & Hm).
      assert (e ∈ deltas) as Hed.
      { unfold deltas. rw B2 B1 -app_assoc drop_app_length. apply elem_of_app. by left. }
      naive_solver.
Qed.
End stream.

(** ** Runs *)

Definition feed_clock (n : nat) : Z := (1700000000 + Z.of_nat n)%Z.

(** [a] is live from the start; a poll sees [b] and loses [a]; everything is announced. *)
Definition polled : Inner := sample_polled.
Definition drained : Inner := mkInner {["b"]} [] false.

Lemma settle_steps (db : gset string) (inner inner' : Inner) entries bus :
  begin_flush inner = Some entries → commit entries inner = Some inner' →
  rtc (@feed_step stored_order) (mkFeed (mkSys db inner None) None bus)
    (mkFeed (mkSys (replay db entries) inner' None) None
            (bus ++ [@batch_event stored_order entries])).
Proof.
  intros Hb Hc. eapply rtc_l; [by apply feed_begin|].
  eapply rtc_l; [by apply feed_committed|]. eapply rtc_l; [apply feed_published|]. apply rtc_refl.
Defined.

Definition settled : Feed :=
  mkFeed (mkSys (replay {["a"]} sample_batch) drained None) None
         ([] ++ [@batch_event stored_order sample_batch]).

Lemma mempool_client_mirrors_witness :
  @client_view (@get_snapshot_then_delta_stream stored_order {["a"]} (fd_bus settled))
  = fd_live settled.
Proof.
  apply (proj2 (proj2 (@mempool_client_mirrors stored_order {["a"]} (feed_boot {["a"]})
    (feed_boot {["a"]}) settled (rtc_refl _ _) (rtc_refl _ _)
    (rtc_l _ _ _ _ (@feed_submit stored_order sample_clock {["b"]} {["a"]} _ None None [])
       (settle_steps {["a"]} polled drained sample_batch [] eq_refl eq_refl))
    (conj eq_refl (conj eq_refl eq_refl)) eq_refl))).
  repeat split.
Defined.

(** The remaining case happens: [x] enters the mempool, a client is sent a snapshot with
    [x], and [x] leaves before the next flush.  The batch nets out, no event mentions [x],
    and the client keeps it although it is not live. *)
Definition seen_x : Inner := assert_present feed_clock ["x"] (seed ∅ default).
Definition lost_x : Inner := assert_absent feed_clock ["x"] seen_x.
Definition flicker_end : Feed :=
  mkFeed (mkSys (replay ∅ (journal lost_x)) (mkInner ∅ [] false) None) None
         ([] ++ [@batch_event stored_order (journal lost_x)]).

Theorem mempool_client_keeps_phantom :
  ∃ f1 f2, rtc (@feed_step stored_order) (feed_boot ∅) f1 ∧
    rtc (@feed_step stored_order) f1 f2 ∧
    quiet f2 ∧ degraded (sys_ledger (fd_sys f2)) = false ∧ fd_live f2 = ∅ ∧
    client_view (@get_snapshot_then_delta_stream stored_order (fd_live f1)
                   (drop (length (fd_bus f1)) (fd_bus f2))) = {["x"]}.
Proof.
  exists (mkFeed (mkSys ∅ seen_x None) None []), flicker_end. split.
  { eapply rtc_l; [apply (@feed_present stored_order feed_clock ["x"])|]. apply rtc_refl. }
  split.
  { eapply rtc_l; [apply (@feed_absent stored_order feed_clock ["x"])|].
    apply (settle_steps ∅ lost_x (mkInner ∅ [] false) (journal lost_x) []);
      vm_compute; reflexivity. }
  split_and!; [by vm_compute..|]. apply (bool_decide_unpack _). vm_compute. reflexivity.
Qed.

End MempoolFeed.
