(* ===== verification/ClusterSnapshot.v ===== *)
(** * The active-cluster snapshot and its delta service

    [shared/src/snapshot/cluster.rs], the in-memory view of the active clusters
    keyed by id, and [api/src/services/cluster_delta.rs], which diffs each
    mutation round against it and publishes one [ClusterDeltaEvent].  The map
    behind the [RwLock] is a [gmap Z ClusterState]; each method is one function
    on it. *)

From S2P Require Import Prelude.
From S2P Require Import Models.

Open Scope Z_scope.

Module Snapshot.

Record ActiveCluster := mkActiveCluster {
  ac_id : Z;
  ac_chunks : list ClusterChunk;
  ac_total_weight : Z;
  ac_total_fee : Z;
  ac_first_seen_at : Z;
}.

Record ClusterState := mkClusterState {
  cs_chunks : list ClusterChunk;
  cs_total_weight : Z;
  cs_total_fee : Z;
  cs_first_seen_at : Z;
}.

#[global] Instance ClusterState_eq_dec : EqDecision ClusterState.
Proof. solve_decision. Defined.

Definition ac_txids (c : ActiveCluster) : list string := chunks_txids (ac_chunks c).
Definition cs_txids (s : ClusterState) : list string := chunks_txids (cs_chunks s).

Definition state (c : ActiveCluster) : ClusterState :=
  mkClusterState (ac_chunks c) (ac_total_weight c) (ac_total_fee c) (ac_first_seen_at c).

Record ClusterStats := mkClusterStats {
  st_cluster_count : nat;
  st_tx_count : nat;
  st_total_weight : Z;
  st_total_fee : Z;
}.

Definition SNAPSHOT_CHUNK_SIZE : nat := 1000.

Section operations.
Context `{EnumOrder, BitcoinUnits}.

Definition reference (id : Z) (s : ClusterState) : ClusterRef :=
  mkClusterRef id
    ((λ chunk, mkClusterChunkRef (chunk_txids chunk) (to_i64 (chunk_fee_sats chunk))
                 (vsize_from_weight (to_i64 (chunk_weight chunk)))) <$> cs_chunks s)
    (vsize_from_weight (cs_total_weight s)) (cs_total_fee s) (cs_first_seen_at s).

(** [collect] into a [HashMap]: a later cluster with the same id wins. *)
Definition seed (clusters : list ActiveCluster) : gmap Z ClusterState :=
  foldl (λ m c, <[ac_id c := state c]> m) ∅ clusters.

Definition upsert (m : gmap Z ClusterState) (cluster : ActiveCluster) :
    option ClusterRef * gmap Z ClusterState :=
  if decide (m !! ac_id cluster = Some (state cluster)) then (None, m)
  else (Some (reference (ac_id cluster) (state cluster)),
        <[ac_id cluster := state cluster]> m).

Definition remove (m : gmap Z ClusterState) (id : Z) : bool * gmap Z ClusterState :=
  (bool_decide (is_Some (m !! id)), delete id m).

Definition len (m : gmap Z ClusterState) : nat := size m.

Definition stats (m : gmap Z ClusterState) : ClusterStats :=
  foldl (λ acc '(_, s),
           mkClusterStats (st_cluster_count acc)
             (st_tx_count acc + length (cs_txids s))
             (to_i64 (st_total_weight acc + cs_total_weight s))
             (to_i64 (st_total_fee acc + cs_total_fee s)))
        (mkClusterStats (size m) 0 0 0) (iter_map m).

Definition missing_member_count (live_txids : gset string) (m : gmap Z ClusterState) : nat :=
  length (filter (λ txid, txid ∉ live_txids) (iter_map m ≫= λ kv, cs_txids kv.2)).

Definition chunked_step (chunk_size : nat)
    (acc : list ClusterDeltaEvent * list ClusterRef) (kv : Z * ClusterState) :
    list ClusterDeltaEvent * list ClusterRef :=
  let '(events, upserted) := acc in
  let upserted := upserted ++ [reference kv.1 kv.2] in
  if decide (length upserted = chunk_size)
  then (events ++ [mkClusterDeltaEvent upserted []], [])
  else (events, upserted).

Definition get_current_chunked (chunk_size : nat) (m : gmap Z ClusterState) :
    list ClusterDeltaEvent :=
  let '(events, upserted) :=
    foldl (chunked_step (chunk_size `max` 1)) ([], []) (iter_map m) in
  match upserted with
  | [] => events
  | _ :: _ => events ++ [mkClusterDeltaEvent upserted []]
  end.

(** ** The delta service *)

Definition get_current_snapshot (m : gmap Z ClusterState) : list ClusterDeltaEvent :=
  match get_current_chunked SNAPSHOT_CHUNK_SIZE m with
  | [] => [mkClusterDeltaEvent [] []]
  | frames => frames
  end.

Definition publish_upserted (acc : list ClusterRef * gmap Z ClusterState)
    (cluster : ActiveCluster) : list ClusterRef * gmap Z ClusterState :=
  let '(refs, m) := acc in
  match upsert m cluster with
  | (Some r, m) => (refs ++ [r], m)
  | (None, m) => (refs, m)
  end.

Definition publish_removed (acc : list Z * gmap Z ClusterState) (id : Z) :
    list Z * gmap Z ClusterState :=
  let '(ids, m) := acc in
  match remove m id with
  | (true, m) => (ids ++ [id], m)
  | (false, m) => (ids, m)
  end.

(** [None]: nothing changed, so no event is published. *)
Definition publish (upserted : list ActiveCluster) (removed : list Z)
    (m : gmap Z ClusterState) : option ClusterDeltaEvent * gmap Z ClusterState :=
  let '(refs, m) := foldl publish_upserted ([], m) upserted in
  let '(ids, m) := foldl publish_removed ([], m) removed in
  match refs, ids with
  | [], [] => (None, m)
  | _, _ => (Some (mkClusterDeltaEvent refs ids), m)
  end.

(** ** What a client holds

    The browser keeps a map from cluster id to reference and applies an event
    by upserting, then deleting ([web/src/hooks/useClusterDeltaSocket.ts]). *)

Definition apply_delta (live : gmap Z ClusterRef) (delta : ClusterDeltaEvent) :
    gmap Z ClusterRef :=
  foldl (λ m id, delete id m)
        (foldl (λ m c, <[cr_id c := c]> m) live (cde_upserted delta))
        (cde_removed delta).

(** The client map that mirrors a snapshot. *)
Definition client_view (m : gmap Z ClusterState) : gmap Z ClusterRef :=
  map_imap (λ id s, Some (reference id s)) m.
End operations.

Section theorems.
Context `{EnumOrder, BitcoinUnits}.

Lemma lookup_client_view m id : client_view m !! id = reference id <$> m !! id.
Proof. unfold client_view. rw map_lookup_imap. by destruct (m !! id). Qed.

Lemma client_view_insert m id s :
  client_view (<[id := s]> m) = <[id := reference id s]> (client_view m).
Proof.
  apply map_eq. intros i. rw lookup_client_view.
  destruct (decide (id = i)) as [<-|]; [by rw !lookup_insert_eq|].
  by rw !lookup_insert_ne // lookup_client_view.
Qed.

Lemma client_view_delete m id : client_view (delete id m) = delete id (client_view m).
Proof.
  apply map_eq. intros i. rw lookup_client_view.
  destruct (decide (id = i)) as [<-|]; [by rw !lookup_delete_eq|].
  by rw !lookup_delete_ne // lookup_client_view.
Qed.

(** One round of upserts: the references collected so far carry the client
    from its old view to the view of the new map. *)
Lemma publish_upserted_view cs refs m0 m :
  foldl (λ m c, <[cr_id c := c]> m) (client_view m0) refs = client_view m →
  let '(refs', m') := foldl publish_upserted (refs, m) cs in
  foldl (λ m c, <[cr_id c := c]> m) (client_view m0) refs' = client_view m'.
Proof.
  revert refs m. induction cs as [|c cs IH]; intros refs m Hv; [done|].
  simpl. unfold upsert. case_decide; simpl; apply IH; [done|].
  by rw foldl_app Hv /= client_view_insert.
Qed.

Lemma publish_removed_view ids acc v m :
  foldl (λ m id, delete id m) v acc = client_view m →
  let '(acc', m') := foldl publish_removed (acc, m) ids in
  foldl (λ m id, delete id m) v acc' = client_view m'.
Proof.
  revert acc m. induction ids as [|id ids IH]; intros acc m Hv; [done|].
  simpl. case_bool_decide as Hid; simpl; apply IH.
  - by rw foldl_app Hv /= client_view_delete.
  - rw delete_id //. by apply eq_None_not_Some.
Qed.

(** A client that mirrors the snapshot and applies the published event
    (or none, when nothing was published) mirrors the snapshot after the round. *)
Lemma publish_view upserted removed m :
  let '(event, m') := publish upserted removed m in
  client_view m'
  = match event with
    | Some delta => apply_delta (client_view m) delta
    | None => client_view m
    end.
Proof.
  unfold publish.
  pose proof (publish_upserted_view upserted [] m m eq_refl) as Hu.
  destruct (foldl publish_upserted ([], m) upserted) as [refs m1].
  pose proof (publish_removed_view removed [] _ m1 Hu) as Hr.
  destruct (foldl publish_removed ([], m1) removed) as [ids m2].
  simpl in Hr. destruct refs as [|r refs], ids as [|i ids]; by rw -Hr.
Qed.

Lemma publish_upserted_map cs refs m :
  (foldl publish_upserted (refs, m) cs).2 = foldl (λ m c, <[ac_id c := state c]> m) m cs.
Proof.
  revert refs m. induction cs as [|c cs IH]; intros refs m; [done|].
  simpl. unfold upsert. case_decide as Hc; simpl; rw IH; [|done].
  by rw (insert_id _ _ _ Hc).
Qed.

Lemma publish_removed_map ids acc m :
  (foldl publish_removed (acc, m) ids).2 = foldl (λ m id, delete id m) m ids.
Proof.
  revert acc m. induction ids as [|id ids IH]; intros acc m; [done|].
  simpl. case_bool_decide; simpl; by rw IH.
Qed.

Lemma publish_removed_nil ids acc m acc' m' :
  foldl publish_removed (acc, m) ids = (acc', m') → acc' = [] → m' = m.
Proof.
  revert acc m. induction ids as [|id ids IH]; intros acc m; simpl; [naive_solver|].
  case_bool_decide as Hid; simpl.
  - intros Hf ->. exfalso. clear IH Hid.
    assert (∀ ids acc m, acc ≠ [] → (foldl publish_removed (acc, m) ids).1 ≠ []) as Hne.
    { clear. induction ids as [|i ids IH]; intros acc m Ha; [done|].
      simpl. case_bool_decide; simpl; apply IH; [|done]. by destruct acc. }
    apply (Hne ids (acc ++ [id]) (delete id m)); [by destruct acc|by rw Hf].
  - intros Hf Hn. rw (IH _ _ Hf Hn). apply delete_id. by apply eq_None_not_Some.
Qed.

Lemma publish_upserted_nil cs m :
  (foldl publish_upserted ([], m) cs).1 = [] → (foldl publish_upserted ([], m) cs).2 = m.
Proof.
  assert (∀ cs refs m, refs ≠ [] → (foldl publish_upserted (refs, m) cs).1 ≠ []) as Hne.
  { clear. induction cs as [|c cs IH]; intros refs m Hr; [done|].
    simpl. unfold upsert. case_decide; simpl; apply IH; [done|]. by destruct refs. }
  revert m. induction cs as [|c cs IH]; intros m; [done|].
  simpl. unfold upsert. case_decide; simpl; [apply IH|].
  intros Hn. by apply Hne in Hn.
Qed.

Lemma publish_map upserted removed m :
  (publish upserted removed m).2
  = foldl (λ m id, delete id m) (foldl (λ m c, <[ac_id c := state c]> m) m upserted) removed.
Proof.
  unfold publish. pose proof (publish_upserted_map upserted [] m) as Hu.
  destruct (foldl publish_upserted ([], m) upserted) as [refs m1]. simpl in Hu.
  pose proof (publish_removed_map removed [] m1) as Hr.
  destruct (foldl publish_removed ([], m1) removed) as [ids m2]. simpl in Hr.
  rw -Hu -Hr. by destruct refs, ids.
Qed.

(** Diffing against the snapshot is invisible in its contents: a round
    leaves the map that plainly inserting every upserted cluster and then
    deleting every removed id would, and an event is withheld only when the
    map did not change at all. *)
Theorem publish_is_insert_then_delete upserted removed m :
  (publish upserted removed m).2
  = foldl (λ m id, delete id m) (foldl (λ m c, <[ac_id c := state c]> m) m upserted) removed ∧
  ((publish upserted removed m).1 = None → (publish upserted removed m).2 = m).
Proof.
  split; [apply publish_map|].
  unfold publish. pose proof (publish_upserted_nil upserted m) as Hun.
  destruct (foldl publish_upserted ([], m) upserted) as [refs m1]. simpl in Hun.
  pose proof (publish_removed_nil removed [] m1) as Hrn.
  destruct (foldl publish_removed ([], m1) removed) as [ids m2].
  destruct refs, ids; simpl; try done.
  intros _. rw (Hrn _ _ eq_refl eq_refl). by apply Hun.
Qed.

(** ** Initial frames *)

Lemma chunked_fold n kvs events upserted events' upserted' :
  (0 < n)%nat → (length upserted < n)%nat →
  Forall (λ e, length (cde_upserted e) = n ∧ cde_removed e = []) events →
  foldl (chunked_step n) (events, upserted) kvs = (events', upserted') →
  (length upserted' < n)%nat ∧
  Forall (λ e, length (cde_upserted e) = n ∧ cde_removed e = []) events' ∧
  (events' ≫= cde_upserted) ++ upserted'
  = (events ≫= cde_upserted) ++ upserted ++ ((λ kv, reference kv.1 kv.2) <$> kvs).
Proof.
  intros Hn. revert events upserted. induction kvs as [|kv kvs IH];
    intros events upserted Hl Hf; simpl.
  - intros [= <- <-]. by rw app_nil_r.
  - case_decide as Hc; intros Heq.
    + edestruct IH as (Hl' & Hf' & Hcat); [| |exact Heq|]; [simpl; lia| |].
      { apply Forall_app. split; [done|]. by apply Forall_singleton. }
      split; [done|]. split; [done|]. rw Hcat bind_app /= -!app_assoc. done.
    + edestruct IH as (Hl' & Hf' & Hcat); [| |exact Heq|]; [|done|].
      { rw length_app /= in Hc |- *. lia. }
      split; [done|]. split; [done|]. rw Hcat -!app_assoc. done.
Qed.

(** The frames of a snapshot: full ones, then possibly a shorter last one. *)
Lemma get_current_chunked_spec chunk_size m :
  let frames := get_current_chunked chunk_size m in
  Forall (λ e, (0 < length (cde_upserted e) ≤ chunk_size `max` 1)%nat ∧
               cde_removed e = []) frames ∧
  frames ≫= cde_upserted = (λ kv, reference kv.1 kv.2) <$> iter_map m.
Proof.
  unfold get_current_chunked. set (n := (chunk_size `max` 1)%nat).
  assert (0 < n)%nat as Hn by lia.
  destruct (foldl (chunked_step n) ([], []) (iter_map m)) as [events upserted] eqn:E.
  apply (chunked_fold n _ [] [] _ _ Hn) in E as (Hl & Hf & Hcat);
    [|simpl; lia|constructor].
  assert (Forall (λ e, (0 < length (cde_upserted e) ≤ n)%nat ∧ cde_removed e = [])
                 events) as Hf'.
  { eapply Forall_impl; [exact Hf|]. simpl. intros e [-> ->]. split; [lia|done]. }
  simpl in Hcat. rw -Hcat. destruct upserted as [|r upserted]; simpl.
  - by rw app_nil_r.
  - rw Forall_app Forall_singleton bind_app /= app_nil_r. simpl in Hl.
    split; [|done]. split; [done|]. split; [lia|done].
Qed.

(** Frames without removals amount to one long upsert. *)
Lemma apply_frames frames (v : gmap Z ClusterRef) :
  Forall (λ e, cde_removed e = []) frames →
  foldl apply_delta v frames
  = foldl (λ m c, <[cr_id c := c]> m) v (frames ≫= cde_upserted).
Proof.
  revert v. induction frames as [|f frames IH]; intros v Hrm; simpl; [done|].
  apply Forall_cons in Hrm as [Hf Hrm]. rw IH // foldl_app. unfold apply_delta.
  by rw Hf.
Qed.

Lemma fold_references (kvs : list (Z * ClusterState)) (v : gmap Z ClusterRef) id :
  NoDup (fst <$> kvs) →
  foldl (λ m c, <[cr_id c := c]> m) v ((λ kv, reference kv.1 kv.2) <$> kvs) !! id
  = match (list_to_map kvs : gmap Z ClusterState) !! id with
    | Some s => Some (reference id s) | None => v !! id end.
Proof.
  revert v. induction kvs as [|[k s] kvs IH]; intros v Hnd; [done|].
  rw fmap_cons in Hnd. apply NoDup_cons in Hnd as [Hk Hnd]. simpl. rw IH //.
  destruct (decide (k = id)) as [<-|Hne].
  - rw lookup_insert_eq (not_elem_of_list_to_map_1 kvs k) //. by rw lookup_insert_eq.
  - by rw !lookup_insert_ne.
Qed.

(** The initial frames carry every active cluster exactly once and nothing
    else: none is empty or larger than the chunk size, none removes anything,
    and a client that folds them over an empty map mirrors the snapshot. *)
Theorem initial_frames_mirror_snapshot chunk_size m :
  let frames := get_current_chunked chunk_size m in
  Forall (λ e, (0 < length (cde_upserted e) ≤ chunk_size `max` 1)%nat ∧
               cde_removed e = []) frames ∧
  (frames ≫= cde_upserted) ≡ₚ (λ kv, reference kv.1 kv.2) <$> map_to_list m ∧
  foldl apply_delta ∅ frames = client_view m.
Proof.
  intros frames. destruct (get_current_chunked_spec chunk_size m) as [Hf Hcat].
  fold frames in Hf, Hcat. split; [done|]. split.
  { rw Hcat. apply fmap_Permutation, shuffle_perm. }
  rw apply_frames; [|by eapply Forall_impl; [exact Hf|]; simpl; intros ? [_ ?]].
  rw Hcat. apply map_eq. intros id.
  pose proof (NoDup_fst_iter_map m) as Hnd. rw fold_references // lookup_client_view.
  rw (list_to_map_proper (iter_map m) (map_to_list m)) //; [|apply iter_map_perm].
  rw list_to_map_to_list. by destruct (m !! id).
Qed.

(** ** Aggregates *)

Lemma stats_fold kvs acc :
  foldl (λ acc '(_, s),
           mkClusterStats (st_cluster_count acc)
             (st_tx_count acc + length (cs_txids s))
             (to_i64 (st_total_weight acc + cs_total_weight s))
             (to_i64 (st_total_fee acc + cs_total_fee s)))
        acc (kvs : list (Z * ClusterState))
  = mkClusterStats (st_cluster_count acc)
      (st_tx_count acc + length (kvs ≫= λ kv, cs_txids kv.2))
      (foldl (λ a x, to_i64 (a + x)) (st_total_weight acc)
             ((λ kv, cs_total_weight kv.2) <$> kvs))
      (foldl (λ a x, to_i64 (a + x)) (st_total_fee acc)
             ((λ kv, cs_total_fee kv.2) <$> kvs)).
Proof.
  revert acc. induction kvs as [|[k s] kvs IH]; intros acc.
  - destruct acc; simpl. by rw Nat.add_0_r.
  - cbn [foldl]. rw IH bind_cons !fmap_cons length_app. cbn. f_equal. lia.
Qed.

(** [stats] adds every tracked cluster up once, in whatever order the map
    is walked: the counts are exact, the sums are the exact totals wrapped to
    64 bits (so exact whenever they fit). *)
Theorem stats_are_totals m :
  stats m
  = mkClusterStats (size m)
      (length (map_to_list m ≫= λ kv, cs_txids kv.2))
      (to_i64 (sum_Z ((λ kv, cs_total_weight kv.2) <$> map_to_list m)))
      (to_i64 (sum_Z ((λ kv, cs_total_fee kv.2) <$> map_to_list m))).
Proof.
  unfold stats. rw stats_fold. simpl.
  change (foldl (λ a x, to_i64 (a + x)) 0) with sum_i64. rw !sum_i64_wraps.
  f_equal.
  - by rw iter_map_perm.
  - f_equal. apply sum_Z_perm, fmap_Permutation, iter_map_perm.
  - f_equal. apply sum_Z_perm, fmap_Permutation, iter_map_perm.
Qed.

(** The stale-member gauge is zero exactly when every member is live. *)
Lemma missing_member_count_zero live m :
  missing_member_count live m = 0%nat ↔
  ∀ id s t, m !! id = Some s → t ∈ cs_txids s → t ∈ live.
Proof.
  unfold missing_member_count. rw length_zero_iff_nil. split.
  - intros Hn id s t Hid Ht. destruct (decide (t ∈ live)) as [|Hni]; [done|].
    exfalso. apply (not_elem_of_nil t). rw -Hn list_elem_of_filter. split; [done|].
    apply list_elem_of_bind. exists (id, s). by rw elem_of_iter_map.
  - intros Hall. apply filter_nil_iff.
    intros t ([id s] & Ht & Hin)%list_elem_of_bind Hni. apply Hni.
    apply elem_of_iter_map in Hin. eauto.
Qed.
End theorems.
End Snapshot.
