(* ===== verification/ClusterFeed.v ===== *)
(** * The cluster stream of a websocket client

    The [ClusterDelta] arm of [api/src/controllers/websocket/streams.rs], [build], over
    [api/src/services/cluster_delta.rs]: a client subscribes to the events, is then sent the
    snapshot in frames, and folds both.  [publish] takes the snapshot's lock once per
    cluster, so the snapshot may be read in the middle of a round, whose event comes later;
    a round is therefore a sequence of steps here.  Rounds follow one another: the block
    gate keeps the two services that publish apart. *)

From S2P Require Import Prelude.
From S2P Require Import Models.
From S2P Require Import ClusterSnapshot.

Open Scope Z_scope.

Module ClusterFeed.
Import Snapshot.

(** A round of [publish]: what is left to upsert and to remove, and the event so far. *)
Record Round := mkRound {
  ro_upserts : list ActiveCluster;
  ro_removes : list Z;
  ro_event : ClusterDeltaEvent;
}.

Record Feed := mkFeed {
  cf_map : gmap Z ClusterState;
  cf_round : option Round;
  cf_bus : list ClusterDeltaEvent;
}.

Definition no_event : ClusterDeltaEvent := mkClusterDeltaEvent [] [].

(** Whether there is anything to publish. *)
Definition empty_event (e : ClusterDeltaEvent) : bool :=
  match cde_upserted e, cde_removed e with [], [] => true | _, _ => false end.

Section feed.
Context `{EnumOrder, BitcoinUnits}.

Inductive feed_step : Feed → Feed → Prop :=
| feed_begin ups rems m bus :
    feed_step (mkFeed m None bus) (mkFeed m (Some (mkRound ups rems no_event)) bus)
| feed_upsert c ups rems refs ids m bus :
    feed_step (mkFeed m (Some (mkRound (c :: ups) rems (mkClusterDeltaEvent refs ids))) bus)
      (let '(refs, m) := publish_upserted (refs, m) c in
       mkFeed m (Some (mkRound ups rems (mkClusterDeltaEvent refs ids))) bus)
| feed_remove id rems refs ids m bus :
    feed_step (mkFeed m (Some (mkRound [] (id :: rems) (mkClusterDeltaEvent refs ids))) bus)
      (let '(ids, m) := publish_removed (ids, m) id in
       mkFeed m (Some (mkRound [] rems (mkClusterDeltaEvent refs ids))) bus)
| feed_publish e m bus :
    feed_step (mkFeed m (Some (mkRound [] [] e)) bus)
      (mkFeed m None (if empty_event e then bus else bus ++ [e])).

(** The stream of a client: the frames of the snapshot, then the events. *)
Definition cluster_stream (m : gmap Z ClusterState) (deltas : list ClusterDeltaEvent) :
    list ClusterDeltaEvent :=
  get_current_snapshot m ++ deltas.

(** What the client holds after a stream. *)
Definition client_map (stream : list ClusterDeltaEvent) : gmap Z ClusterRef :=
  foldl apply_delta ∅ stream.

(** ** Events as sequences of writes *)

Definition Op : Type := Z * option ClusterRef.
Definition apply_op (v : gmap Z ClusterRef) (op : Op) : gmap Z ClusterRef :=
  match op.2 with Some c => <[op.1 := c]> v | None => delete op.1 v end.

Definition ops_of (e : ClusterDeltaEvent) : list Op :=
  ((λ c, (cr_id c, Some c)) <$> cde_upserted e) ++ ((λ id, (id, None)) <$> cde_removed e).

Lemma apply_delta_ops v e : apply_delta v e = foldl apply_op v (ops_of e).
Proof.
  unfold apply_delta, ops_of. rw foldl_app.
  assert (∀ l v, foldl apply_op v ((λ c, (cr_id c, Some c)) <$> l)
                 = foldl (λ m c, <[cr_id c := c]> m) v l) as ->.
  { clear. induction l as [|c l IH]; intros v; [done|]. simpl. by rw IH. }
  generalize (foldl (λ m c, <[cr_id c := c]> m) v (cde_upserted e)). clear v.
  induction (cde_removed e) as [|id l IH]; intros v; [done|]. simpl. by rw IH.
Qed.

Lemma apply_deltas_ops v es : foldl apply_delta v es = foldl apply_op v (es ≫= ops_of).
Proof.
  revert v. induction es as [|e es IH]; intros v; [done|].
  rw bind_cons foldl_app. cbn [foldl]. by rw IH apply_delta_ops.
Qed.

(** The last write to a key decides, so writes made early are absorbed when they are made
    again as part of the whole sequence. *)
Lemma apply_ops_agree (v v' : gmap Z ClusterRef) ops k :
  v !! k = v' !! k ∨ k ∈ ops.*1 → foldl apply_op v ops !! k = foldl apply_op v' ops !! k.
Proof.
  revert v v'. induction ops as [|[k' o] ops IH]; intros v v' Hk; simpl.
  - destruct Hk as [?|Hin]; [done|by apply not_elem_of_nil in Hin].
  - apply IH. destruct (decide (k ∈ ops.*1)) as [?|Hni]; [by right|left].
    destruct (decide (k' = k)) as [->|Hne].
    + unfold apply_op. simpl. destruct o; [by rw !lookup_insert_eq|by rw !lookup_delete_eq].
    + assert (v !! k = v' !! k) as Hv.
      { destruct Hk as [?|Hin]; [done|]. simpl in Hin. apply elem_of_cons in Hin as [?|?]; [congruence|done]. }
      unfold apply_op. simpl. destruct o; [by rw !lookup_insert_ne|by rw !lookup_delete_ne].
Qed.

Lemma apply_ops_untouched (v : gmap Z ClusterRef) ops k :
  k ∉ ops.*1 → foldl apply_op v ops !! k = v !! k.
Proof.
  revert v. induction ops as [|[k' o] ops IH]; intros v Hk; [done|]. simpl in *.
  apply not_elem_of_cons in Hk as [Hne Hk]. rw IH //. unfold apply_op. simpl.
  destruct o; [by rw lookup_insert_ne|by rw lookup_delete_ne].
Qed.

Lemma apply_ops_absorb (v : gmap Z ClusterRef) early rest :
  foldl apply_op (foldl apply_op v early) (early ++ rest) = foldl apply_op v (early ++ rest).
Proof.
  apply map_eq. intros k. apply apply_ops_agree.
  destruct (decide (k ∈ early.*1)) as [Hin|Hni].
  - right. rw fmap_app. set_solver.
  - left. by apply apply_ops_untouched.
Qed.

(** ** Invariant *)

(** The writes made so far: those announced, then those of the round in progress. *)
Definition writes (f : Feed) : list Op :=
  (cf_bus f ≫= ops_of) ++
  match cf_round f with Some r => ops_of (ro_event r) | None => [] end.

Record feed_inv (base : gmap Z ClusterState) (f : Feed) : Prop := {
  fi_view : client_view (cf_map f) = foldl apply_op (client_view base) (writes f);
  fi_order : ∀ r, cf_round f = Some r → ro_upserts r ≠ [] → cde_removed (ro_event r) = [];
}.

Definition feed_boot (m : gmap Z ClusterState) : Feed := mkFeed m None [].

Lemma cluster_feed_boot m : feed_inv m (feed_boot m).
Proof. by split. Qed.

(** One lock of the snapshot is one write, or none. *)
Lemma publish_upserted_write refs m c :
  let '(refs', m') := publish_upserted (refs, m) c in
  (refs' = refs ∧ m' = m) ∨
  ∃ r, refs' = refs ++ [r] ∧ client_view m' = apply_op (client_view m) (cr_id r, Some r).
Proof.
  unfold publish_upserted, upsert. case_decide; [by left|right].
  eexists. split; [done|]. by rw client_view_insert.
Qed.

Lemma publish_removed_write ids m id :
  let '(ids', m') := publish_removed (ids, m) id in
  (ids' = ids ∧ m' = m) ∨
  (ids' = ids ++ [id] ∧ client_view m' = apply_op (client_view m) (id, None)).
Proof.
  unfold publish_removed, remove. case_bool_decide as Hid.
  - right. split; [done|]. by rw client_view_delete.
  - left. split; [done|]. apply delete_id. by apply eq_None_not_Some.
Qed.

Lemma ops_of_upserted refs r :
  ops_of (mkClusterDeltaEvent (refs ++ [r]) []) =
  ops_of (mkClusterDeltaEvent refs []) ++ [(cr_id r, Some r)].
Proof. unfold ops_of. cbn [cde_upserted cde_removed]. by rw fmap_app /= !app_nil_r. Qed.

Lemma ops_of_removed refs ids id :
  ops_of (mkClusterDeltaEvent refs (ids ++ [id])) =
  ops_of (mkClusterDeltaEvent refs ids) ++ [(id, None)].
Proof. unfold ops_of. cbn [cde_upserted cde_removed]. by rw fmap_app /= app_assoc. Qed.

Lemma feed_step_inv base f f' :
  feed_step f f' → feed_inv base f → feed_inv base f' ∧ writes f `prefix_of` writes f'.
Proof.
  intros Hs [Hv Ho]. destruct Hs as [ups rems m bus|c ups rems refs ids m bus|id rems refs ids m bus|e m bus].
  - split; [|done]. split; [done|]. by intros r [= <-].
  - specialize (Ho _ eq_refl). simpl in Ho. rw Ho // in Hv |- *.
    pose proof (publish_upserted_write refs m c) as Hw.
    destruct (publish_upserted (refs, m) c) as [refs' m']. destruct Hw as [[-> ->]|(r & -> & Hw)].
    + split; [|done]. split; [done|]. by intros r [= <-].
    + unfold writes in *. cbn [cf_bus cf_round ro_event cf_map] in *. rw ops_of_upserted app_assoc.
      split; [|by eexists]. split; [|by intros r' [= <-]].
      unfold writes. cbn [cf_bus cf_round ro_event cf_map].
      rw ops_of_upserted app_assoc foldl_app -Hv. exact Hw.
  - pose proof (publish_removed_write ids m id) as Hw.
    destruct (publish_removed (ids, m) id) as [ids' m']. destruct Hw as [[-> ->]|[-> Hw]].
    + split; [|done]. split; [done|]. by intros r [= <-].
    + unfold writes in *. cbn [cf_bus cf_round ro_event cf_map] in *. rw ops_of_removed app_assoc.
      split; [|by eexists]. split; [|by intros r' [= <-]].
      unfold writes. cbn [cf_bus cf_round ro_event cf_map].
      rw ops_of_removed app_assoc foldl_app -Hv. exact Hw.
  - assert (writes (mkFeed m None (if empty_event e then bus else bus ++ [e]))
            = writes (mkFeed m (Some (mkRound [] [] e)) bus)) as Hw.
    { unfold writes. cbn [cf_bus cf_round ro_event]. destruct (empty_event e) eqn:E.
      - destruct e as [[|] [|]]; [done|done..].
      - by rw bind_app /= !app_nil_r. }
    rw -Hw. split; [|done]. split; [by rw Hw|done].
Qed.

Lemma feed_steps_inv base f f' :
  rtc feed_step f f' → feed_inv base f → feed_inv base f' ∧ writes f `prefix_of` writes f'.
Proof.
  intros Hr. induction Hr as [f|f1 f2 f3 Hs _ IH]; intros Hi; [done|].
  destruct (feed_step_inv base _ _ Hs Hi) as [Hi2 Hp]. destruct (IH Hi2) as [Hi3 Hp'].
  split; [done|]. by etrans.
Qed.

Lemma cluster_bus_grows f f' : rtc feed_step f f' → cf_bus f `prefix_of` cf_bus f'.
Proof.
  intros Hr. induction Hr as [f|f1 f2 f3 Hs _ IH]; [done|]. etrans; [|exact IH].
  destruct Hs as [ups rems m bus|c ups rems refs ids m bus|id rems refs ids m bus|e m bus]; [done|..].
  - by destruct (publish_upserted (refs, m) c).
  - by destruct (publish_removed (ids, m) id).
  - simpl. destruct (empty_event e); [done|by eexists].
Qed.

Lemma client_map_snapshot m : client_map (get_current_snapshot m) = client_view m.
Proof.
  unfold client_map, get_current_snapshot.
  pose proof (initial_frames_mirror_snapshot SNAPSHOT_CHUNK_SIZE m) as (_ & _ & Hv).
  by destruct (get_current_chunked _ m).
Qed.
(** The granular round is [publish]: run to its end, it leaves the snapshot and the event
    the service's own function computes. *)
Lemma round_upserts ups rems refs ids m bus :
  rtc feed_step (mkFeed m (Some (mkRound ups rems (mkClusterDeltaEvent refs ids))) bus)
    (let '(refs, m) := foldl publish_upserted (refs, m) ups in
     mkFeed m (Some (mkRound [] rems (mkClusterDeltaEvent refs ids))) bus).
Proof.
  revert refs m. induction ups as [|c ups IH]; intros refs m; [done|].
  eapply rtc_l; [apply feed_upsert|]. cbn [foldl].
  destruct (publish_upserted (refs, m) c) as [refs' m']. apply IH.
Qed.

Lemma round_removes rems refs ids m bus :
  rtc feed_step (mkFeed m (Some (mkRound [] rems (mkClusterDeltaEvent refs ids))) bus)
    (let '(ids, m) := foldl publish_removed (ids, m) rems in
     mkFeed m (Some (mkRound [] [] (mkClusterDeltaEvent refs ids))) bus).
Proof.
  revert ids m. induction rems as [|id rems IH]; intros ids m; [done|].
  eapply rtc_l; [apply feed_remove|]. cbn [foldl].
  destruct (publish_removed (ids, m) id) as [ids' m']. apply IH.
Qed.

Lemma round_is_publish ups rems m bus :
  rtc feed_step (mkFeed m None bus)
    (mkFeed (publish ups rems m).2 None (bus ++ option_list (publish ups rems m).1)).
Proof.
  eapply rtc_l; [apply (feed_begin ups rems)|].
  etrans; [apply round_upserts|]. unfold publish.
  destruct (foldl publish_upserted ([], m) ups) as [refs m1].
  etrans; [apply round_removes|].
  destruct (foldl publish_removed ([], m1) rems) as [ids m2].
  eapply rtc_l; [apply feed_publish|].
  destruct refs, ids; simpl; rw ?app_nil_r; done.
Qed.

(** Whatever a client reads, the events from its subscription on bring it up to date. *)
Lemma cluster_view_follows m f0 f1 f2 :
  rtc feed_step (feed_boot m) f0 → rtc feed_step f0 f1 → rtc feed_step f1 f2 →
  cf_round f2 = None →
  client_map (cluster_stream (cf_map f1) (drop (length (cf_bus f0)) (cf_bus f2)))
  = client_view (cf_map f2).
Proof.
  intros Hs0 Hs1 Hs2 Hidle.
  destruct (feed_steps_inv m _ _ Hs0 (cluster_feed_boot m)) as [Hi0 _].
  destruct (feed_steps_inv m _ _ Hs1 Hi0) as [Hi1 [w1 Hw1]].
  destruct (feed_steps_inv m _ _ Hs2 Hi1) as [Hi2 [w2 Hw2]].
  destruct (cluster_bus_grows f0 f2) as [later Hbus]; [by etrans|].
  unfold cluster_stream, client_map. rw foldl_app. fold (client_map (get_current_snapshot (cf_map f1))).
  rw client_map_snapshot.
  rw Hbus drop_app_length apply_deltas_ops (fi_view _ _ Hi1) (fi_view _ _ Hi2).
  unfold writes at 2 in Hw1. rw -app_assoc in Hw1.
  set (A := cf_bus f0 ≫= ops_of) in *.
  set (p := _ ++ w1) in Hw1.
  assert (later ≫= ops_of = p ++ w2) as ->.
  { unfold writes at 1 in Hw2. rw Hidle app_nil_r Hbus bind_app Hw1 -app_assoc in Hw2.
    by apply app_inv_head in Hw2. }
  rw Hw2 Hw1 -app_assoc (foldl_app apply_op A p) (foldl_app apply_op A (p ++ w2)).
  apply apply_ops_absorb.
Qed.

(** Whenever a client subscribes ([f0]) and however far the round in progress has
    come when the snapshot is read afterwards ([f1]), the client ends with exactly the
    active clusters: once no round is in progress ([f2]), folding the snapshot's frames and
    every event from the subscription on gives the service's own view. *)
Theorem cluster_client_mirrors m f0 f1 f2 :
  rtc feed_step (feed_boot m) f0 → rtc feed_step f0 f1 → rtc feed_step f1 f2 →
  cf_round f2 = None →
  client_map (cluster_stream (cf_map f1) (drop (length (cf_bus f0)) (cf_bus f2)))
  = client_view (cf_map f2).
Proof. apply cluster_view_follows. Qed.
End feed.

(** ** A run

    Two clusters come up and one goes in a single round; the client reads the snapshot
    after the first of them. *)
Definition sample_cluster (id : Z) : ActiveCluster := mkActiveCluster id [] 400 1000 0.
Definition sample_base : gmap Z ClusterState := {[ 3 := state (sample_cluster 3) ]}.
Definition mid_round : Feed :=
  mkFeed (<[1 := state (sample_cluster 1)]> sample_base)
    (Some (mkRound [sample_cluster 2] [3]
             (mkClusterDeltaEvent [@reference ceil_units 1 (state (sample_cluster 1))] []))) [].
Definition round_done : Feed :=
  mkFeed (delete 3 (<[2 := state (sample_cluster 2)]> (<[1 := state (sample_cluster 1)]> sample_base)))
    None
    [mkClusterDeltaEvent [@reference ceil_units 1 (state (sample_cluster 1));
                          @reference ceil_units 2 (state (sample_cluster 2))] [3]].

Lemma reaches_mid_round : rtc (@feed_step ceil_units) (feed_boot sample_base) mid_round.
Proof.
  eapply rtc_l; [apply (feed_begin [sample_cluster 1; sample_cluster 2] [3])|].
  eapply rtc_l; [apply feed_upsert|]. apply rtc_refl.
Qed.

Lemma mid_round_ends : rtc (@feed_step ceil_units) mid_round round_done.
Proof.
  eapply rtc_l; [apply feed_upsert|]. eapply rtc_l; [apply feed_remove|].
  eapply rtc_l; [apply feed_publish|]. apply rtc_refl.
Qed.

Lemma cluster_client_mirrors_witness :
  client_map (@cluster_stream stored_order ceil_units (cf_map mid_round) (cf_bus round_done))
  = @client_view ceil_units (cf_map round_done).
Proof.
  exact (@cluster_client_mirrors stored_order ceil_units sample_base (feed_boot sample_base)
    mid_round round_done (rtc_refl _ _) reaches_mid_round mid_round_ends eq_refl).
Defined.

End ClusterFeed.
