(* ===== verification/Delivery.v ===== *)
(** * Delivering cluster events to websocket clients

    The way of a cluster event from [ClusterDeltaService::publish] to a browser, over
    [shared/src/pubsub.rs] and [api/src/controllers/websocket/]: the rounds of [ClusterFeed]
    send their events into the broadcast channel of [Channel]; the task of each connection
    subscribes, reads the snapshot, and hands the frames and then the events, one at a time,
    to the bounded queue the connection loop drains into the socket.  A slow socket fills the
    queue, a full queue holds the task up, and a task that is held up falls behind in the
    channel, which in the end drops messages for it.

    Everything is executable: [live_do] performs one action of the server or of a client, and
    the actions interleave freely. *)

From S2P Require Import Prelude.
From S2P Require Import Models.
From S2P Require Import ClusterSnapshot.
From S2P Require Import Channel.
From S2P Require Import Websocket.
From S2P Require Import ClusterFeed.

Module Delivery.
Import Snapshot Channel ClusterFeed.

(** A connection's task for [cluster.delta]: its receiver, the frames of the snapshot still
    to be handed on ([None] before the snapshot is read), the event between [next] and
    [send], the outbound queue, and what the client was sent. *)
Record Client := mkClient {
  dc_rx : Receiver (A := ClusterDeltaEvent);
  dc_frames : option (list ClusterDeltaEvent);
  dc_hand : option ClusterDeltaEvent;
  dc_queue : list ClusterDeltaEvent;
  dc_shown : list ClusterDeltaEvent;
}.

(** The events published so far, [cf_bus], are the messages sent on the channel. *)
Record Live := mkLive {
  lv_feed : Feed;
  lv_clients : gmap nat Client;
}.

Definition set_rx (r : Receiver) (c : Client) : Client :=
  mkClient r (dc_frames c) (dc_hand c) (dc_queue c) (dc_shown c).

(** An action of [publish]: start a round, or take its next lock. *)
Inductive FeedAct := Begin (ups : list ActiveCluster) (rems : list Z) | Go.

Inductive Action :=
| Server (a : FeedAct)
| Connect (id : nat)
| ReadSnapshot (id : nat)
| Next (id : nat)
| Push (id : nat)
| Deliver (id : nat)
| Leave (id : nat).

Section delivery.
Context `{EnumOrder, BitcoinUnits, BroadcastRing}.

Definition feed_do (a : FeedAct) (f : Feed) : option Feed :=
  match a, cf_round f with
  | Begin ups rems, None => Some (mkFeed (cf_map f) (Some (mkRound ups rems no_event)) (cf_bus f))
  | Go, Some (mkRound (c :: ups) rems (mkClusterDeltaEvent refs ids)) =>
      let '(refs, m) := publish_upserted (refs, cf_map f) c in
      Some (mkFeed m (Some (mkRound ups rems (mkClusterDeltaEvent refs ids))) (cf_bus f))
  | Go, Some (mkRound [] (id :: rems) (mkClusterDeltaEvent refs ids)) =>
      let '(ids, m) := publish_removed (ids, cf_map f) id in
      Some (mkFeed m (Some (mkRound [] rems (mkClusterDeltaEvent refs ids))) (cf_bus f))
  | Go, Some (mkRound [] [] e) =>
      Some (mkFeed (cf_map f) None (if empty_event e then cf_bus f else cf_bus f ++ [e]))
  | _, _ => None
  end.

(** [events.next()] of the chained stream: a frame of the snapshot, or a turn of the
    receiver, which passes on a message or counts a gap. *)
Definition next_event (bus : list ClusterDeltaEvent) (c : Client) : option Client :=
  match dc_hand c, dc_frames c with
  | None, Some (frame :: frames) =>
      Some (mkClient (dc_rx c) (Some frames) (Some frame) (dc_queue c) (dc_shown c))
  | None, Some [] =>
      r ← recv bus (dc_rx c);
      Some (mkClient r (Some []) (e ← last (rx_got r); result_ok e) (dc_queue c) (dc_shown c))
  | _, _ => None
  end.

(** [outbound_tx.send(text).await], once there is room. *)
Definition push_event (c : Client) : option Client :=
  e ← dc_hand c;
  if bool_decide (length (dc_queue c) < Websocket.OUTBOUND_CHANNEL_CAPACITY)%nat then
    Some (mkClient (dc_rx c) (dc_frames c) None (dc_queue c ++ [e]) (dc_shown c))
  else None.

(** The connection loop sends the oldest frame. *)
Definition deliver (c : Client) : option Client :=
  match dc_queue c with
  | [] => None
  | e :: queue => Some (mkClient (dc_rx c) (dc_frames c) (dc_hand c) queue (dc_shown c ++ [e]))
  end.

(** [build] up to the snapshot, and the snapshot. *)
Definition connected (bus : list ClusterDeltaEvent) : Client :=
  mkClient (subscribed (length bus)) None None [] [].
Definition read_snapshot (m : gmap Z ClusterState) (c : Client) : option Client :=
  match dc_frames c with
  | None => Some (mkClient (dc_rx c) (Some (get_current_snapshot m)) None [] [])
  | Some _ => None
  end.

Definition on_client (id : nat) (f : Client → option Client) (s : Live) : option Live :=
  c ← lv_clients s !! id; c ← f c; Some (mkLive (lv_feed s) (<[id := c]> (lv_clients s))).

Definition live_do (a : Action) (s : Live) : option Live :=
  let bus := cf_bus (lv_feed s) in
  match a with
  | Server a =>
      f ← feed_do a (lv_feed s);
      Some (mkLive f (if decide (length (cf_bus f) = length bus) then lv_clients s
                      else (λ c, set_rx (fall_behind (length (cf_bus f)) (dc_rx c)) c)
                             <$> lv_clients s))
  | Connect id =>
      match lv_clients s !! id with
      | None => Some (mkLive (lv_feed s) (<[id := connected bus]> (lv_clients s)))
      | Some _ => None
      end
  | ReadSnapshot id => on_client id (read_snapshot (cf_map (lv_feed s))) s
  | Next id => on_client id (next_event bus) s
  | Push id => on_client id push_event s
  | Deliver id => on_client id deliver s
  | Leave id => Some (mkLive (lv_feed s) (delete id (lv_clients s)))
  end.

Definition live_step (s s' : Live) : Prop := ∃ a, live_do a s = Some s'.
Definition live_boot (m : gmap Z ClusterState) : Live := mkLive (feed_boot m) ∅.

(** ** Facts *)

Lemma feed_do_step a f f' : feed_do a f = Some f' → feed_step f f'.
Proof.
  destruct f as [m [[[|c ups] [|id rems] [refs ids]]|] bus], a as [ups' rems'|];
    cbn [feed_do cf_round cf_map cf_bus]; try done.
  - intros [= <-]. apply feed_publish.
  - intros Hd. pose proof (feed_remove id rems refs ids m bus) as Hs.
    destruct (publish_removed (ids, m) id) as [ids' m']. by simplify_eq.
  - intros Hd. pose proof (feed_upsert c ups [] refs ids m bus) as Hs.
    destruct (publish_upserted (refs, m) c) as [refs' m']. by simplify_eq.
  - intros Hd. pose proof (feed_upsert c ups (id :: rems) refs ids m bus) as Hs.
    destruct (publish_upserted (refs, m) c) as [refs' m']. by simplify_eq.
  - intros [= <-]. apply feed_begin.
Qed.

(** A step of the server sends one event or none. *)
Lemma feed_do_bus a f f' :
  feed_do a f = Some f' → cf_bus f' = cf_bus f ∨ ∃ e, cf_bus f' = cf_bus f ++ [e].
Proof.
  destruct f as [m [[[|c ups] [|id rems] [refs ids]]|] bus], a as [ups' rems'|];
    cbn [feed_do cf_round cf_map cf_bus]; try done.
  - intros [= <-]. simpl. destruct (empty_event _); eauto.
  - destruct (publish_removed (ids, m) id). intros [= <-]. by left.
  - destruct (publish_upserted (refs, m) c). intros [= <-]. by left.
  - destruct (publish_upserted (refs, m) c). intros [= <-]. by left.
  - intros [= <-]. by left.
Qed.

(** The frames and events of a client, from what it was sent to what it will take next, are
    those of its stream. *)
Definition in_order (m1 : gmap Z ClusterState) (frames : list ClusterDeltaEvent) (c : Client) : Prop :=
  (frames ≠ [] → rx_got (dc_rx c) = []) ∧
  dc_shown c ++ dc_queue c ++ option_list (dc_hand c) ++ frames
  = get_current_snapshot m1 ++ received (rx_got (dc_rx c)).

Record client_ok (m : gmap Z ClusterState) (f : Feed) (c : Client) : Prop := {
  co_rx : rx_ok (cf_bus f) (dc_rx c);
  co_room : (length (dc_queue c) ≤ Websocket.OUTBOUND_CHANNEL_CAPACITY)%nat;
  co_stream : ∃ f0, rtc feed_step (feed_boot m) f0 ∧ rtc feed_step f0 f ∧
    rx_start (dc_rx c) = length (cf_bus f0) ∧
    match dc_frames c with
    | None => dc_hand c = None ∧ dc_queue c = [] ∧ dc_shown c = [] ∧ rx_got (dc_rx c) = []
    | Some frames => ∃ f1, rtc feed_step f0 f1 ∧ rtc feed_step f1 f ∧ in_order (cf_map f1) frames c
    end;
}.

Definition live_ok (m : gmap Z ClusterState) (s : Live) : Prop :=
  rtc feed_step (feed_boot m) (lv_feed s) ∧
  ∀ id c, lv_clients s !! id = Some c → client_ok m (lv_feed s) c.

Lemma in_order_rx m1 frames c r :
  rx_got r = rx_got (dc_rx c) → in_order m1 frames c → in_order m1 frames (set_rx r c).
Proof. intros Hr [A1 A2]. unfold in_order. cbn [dc_rx set_rx dc_shown dc_queue dc_hand]. by rw Hr. Qed.

(** The server moves on; the client's receiver may have fallen behind. *)
Lemma client_ok_server m f f' c :
  feed_step f f' → cf_bus f' = cf_bus f ∨ (∃ e, cf_bus f' = cf_bus f ++ [e]) →
  client_ok m f c →
  client_ok m f' (if decide (length (cf_bus f') = length (cf_bus f)) then c
                  else set_rx (fall_behind (length (cf_bus f')) (dc_rx c)) c).
Proof.
  intros Hs Hb [Hr Hq (f0 & T0 & T1 & Hst & Hf)].
  assert (rtc feed_step f0 f') as T1' by by eapply rtc_r.
  assert (∀ c', dc_frames c' = dc_frames c → dc_hand c' = dc_hand c → dc_queue c' = dc_queue c →
    dc_shown c' = dc_shown c → rx_got (dc_rx c') = rx_got (dc_rx c) →
    match dc_frames c' with
    | None => dc_hand c' = None ∧ dc_queue c' = [] ∧ dc_shown c' = [] ∧ rx_got (dc_rx c') = []
    | Some frames => ∃ f1, rtc feed_step f0 f1 ∧ rtc feed_step f1 f' ∧ in_order (cf_map f1) frames c'
    end) as Hgen.
  { intros c' E1 E2 E3 E4 E5. rw E1. destruct (dc_frames c) as [frames|]; [|by rw E2 E3 E4 E5].
    destruct Hf as (f1 & F1 & F2 & F3). exists f1. split; [done|]. split; [by eapply rtc_r|].
    unfold in_order in *. by rw E2 E3 E4 E5. }
  destruct Hb as [Hb|[e Hb]].
  - rw decide_True; [|by rw Hb]. split; [by rw Hb|done|]. exists f0. split_and!; [done..|by apply Hgen].
  - rw decide_False; [|rw Hb length_app /=; lia].
    split; [rw Hb; by apply send_ok|done|]. exists f0. split_and!; [done..|by apply Hgen].
Qed.

(** A turn of the receiver passes on what it moved past, in order. *)
Lemma recv_got {A} (l : list A) (r r' : Receiver) :
  recv l r = Some r' → ∃ e, rx_got r' = rx_got r ++ [e] ∧ rx_start r' = rx_start r.
Proof.
  unfold recv. destruct (poll _ _ _); [done| |intros [= <-]; by eexists].
  destruct (l !! rx_pos r); [|done]. intros [= <-]. by eexists.
Qed.

Lemma next_event_ok m f c c' :
  next_event (cf_bus f) c = Some c' → client_ok m f c → client_ok m f c'.
Proof.
  intros Hn [Hr Hq (f0 & T0 & T1 & Hst & Hf)]. unfold next_event in Hn.
  destruct (dc_hand c) eqn:Eh; [done|]. destruct (dc_frames c) as [[|frame frames]|] eqn:Ef; [| |done].
  - destruct (recv (cf_bus f) (dc_rx c)) as [r|] eqn:Er; [|done]. injection Hn as <-.
    destruct (recv_got _ _ _ Er) as (e & Eg & Es). destruct Hf as (f1 & F1 & F2 & _ & F3).
    split; [by eapply recv_ok|done|]. exists f0. cbn [dc_rx dc_frames]. rw Es.
    split_and!; [done..|]. exists f1. split_and!; [done..|]. split; [done|].
    cbn [dc_rx dc_shown dc_queue dc_hand]. rw Eg last_snoc received_snoc Eh /= in F3 |- *.
    rw !app_nil_r in F3 |- *. by rw app_assoc F3 -app_assoc.
  - injection Hn as <-. destruct Hf as (f1 & F1 & F2 & F3 & F4). split; [done..|]. exists f0.
    split_and!; [done..|]. exists f1. split_and!; [done..|]. unfold in_order. simpl in *.
    split; [intros _; by apply F3|]. by rw -F4 Eh.
Qed.

Lemma push_event_ok m f c c' : push_event c = Some c' → client_ok m f c → client_ok m f c'.
Proof.
  intros Hp [Hr Hq (f0 & T0 & T1 & Hst & Hf)]. unfold push_event in Hp.
  destruct (dc_hand c) as [e|] eqn:Eh; [|done]. simpl in Hp. case_bool_decide; [|done].
  injection Hp as <-. split; [done|simpl; rw length_app /=; lia|]. exists f0. split_and!; [done..|].
  simpl. destruct (dc_frames c) as [frames|]; [|by destruct Hf].
  destruct Hf as (f1 & F1 & F2 & F3 & F4). exists f1. split_and!; [done..|]. split; [done|].
  simpl. by rw -F4 Eh -!app_assoc.
Qed.

Lemma deliver_ok m f c c' : deliver c = Some c' → client_ok m f c → client_ok m f c'.
Proof.
  intros Hd [Hr Hq (f0 & T0 & T1 & Hst & Hf)]. unfold deliver in Hd.
  destruct (dc_queue c) as [|e queue] eqn:Eq; [done|]. injection Hd as <-.
  split; [done|simpl in *; lia|]. exists f0. split_and!; [done..|].
  simpl. destruct (dc_frames c) as [frames|]; [|by destruct Hf as (_ & ? & _)].
  destruct Hf as (f1 & F1 & F2 & F3 & F4). exists f1. split_and!; [done..|]. split; [done|].
  simpl. by rw -F4 Eq -!app_assoc.
Qed.

Lemma read_snapshot_ok m f c c' :
  read_snapshot (cf_map f) c = Some c' → client_ok m f c → client_ok m f c'.
Proof.
  intros Hd [Hr Hq (f0 & T0 & T1 & Hst & Hf)]. unfold read_snapshot in Hd.
  destruct (dc_frames c) eqn:E; [done|]. injection Hd as <-. destruct Hf as (_ & _ & _ & Hg).
  split; [done|simpl; lia|]. exists f0. split_and!; [done..|]. exists f. split_and!; [done..|].
  split; [done|]. simpl. by rw Hg app_nil_r.
Qed.

Lemma on_client_ok m id g s s' :
  (∀ c c', g c = Some c' → client_ok m (lv_feed s) c → client_ok m (lv_feed s) c') →
  on_client id g s = Some s' → live_ok m s → live_ok m s'.
Proof.
  intros Hg Ho [Hf Hc]. unfold on_client in Ho.
  destruct (lv_clients s !! id) as [c|] eqn:Ec; [|done]. simpl in Ho.
  destruct (g c) as [c'|] eqn:Eg; [|done]. injection Ho as <-. split; [done|].
  intros id' q; simpl; intros [[<- <-]|[_ Hq]]%lookup_insert_Some; [|by eapply Hc].
  by eapply Hg, Hc.
Qed.

Lemma connected_ok m f : rtc feed_step (feed_boot m) f → client_ok m f (connected (cf_bus f)).
Proof.
  intros Hf. split; [|simpl; lia|].
  - split; simpl; unfold behind; simpl; [lia|rw between_self; constructor|done|lia|lia].
  - exists f. by split_and!.
Qed.

Lemma live_step_ok m s s' : live_step s s' → live_ok m s → live_ok m s'.
Proof.
  intros [a Ha] Hok. pose proof Hok as [Hf Hc].
  destruct a as [a|id|id|id|id|id|id]; cbn [live_do] in Ha.
  - destruct (feed_do a (lv_feed s)) as [f|] eqn:E; [|done]. injection Ha as <-.
    pose proof (feed_do_step _ _ _ E) as Hs. pose proof (feed_do_bus _ _ _ E) as Hb.
    split; [by eapply rtc_r|]. intros id q Hq. simpl in *.
    destruct (decide (length (cf_bus f) = length (cf_bus (lv_feed s)))) eqn:Ed.
    + pose proof (client_ok_server m _ _ q Hs Hb (Hc _ _ Hq)) as Hk. by rw Ed in Hk.
    + rw lookup_fmap in Hq. destruct (lv_clients s !! id) as [c|] eqn:Ec; [|done].
      injection Hq as <-. pose proof (client_ok_server m _ _ c Hs Hb (Hc _ _ Ec)) as Hk. by rw Ed in Hk.
  - destruct (lv_clients s !! id) eqn:E; [done|]. injection Ha as <-. split; [done|].
    intros id' q; simpl; intros [[<- <-]|[_ Hq]]%lookup_insert_Some; [by apply connected_ok|by eapply Hc].
  - eapply on_client_ok; [|exact Ha|done]. apply read_snapshot_ok.
  - eapply on_client_ok; [|exact Ha|done]. apply next_event_ok.
  - eapply on_client_ok; [|exact Ha|done]. apply push_event_ok.
  - eapply on_client_ok; [|exact Ha|done]. apply deliver_ok.
  - injection Ha as <-. split; [done|]. intros id' q; simpl; intros [_ Hq]%lookup_delete_Some. by eapply Hc.
Qed.

Lemma live_reachable_ok m s : rtc live_step (live_boot m) s → live_ok m s.
Proof.
  assert (live_ok m (live_boot m)) as Hb by (split; [done|intros id c; simpl; by rw lookup_empty]).
  intros Hr. revert Hb. induction Hr as [|s1 s2 s3 Hs _ IH]; [done|]. intros Hb. by eapply IH, live_step_ok.
Qed.

(** Nothing is on its way to the client any more. *)
Definition settled (s : Live) (c : Client) : Prop :=
  dc_frames c = Some [] ∧ dc_hand c = None ∧ dc_queue c = [] ∧
  rx_pos (dc_rx c) = length (cf_bus (lv_feed s)).

(** It never had more messages waiting than the channel keeps. *)
Definition kept_up (c : Client) : Prop := (rx_worst (dc_rx c) ≤ CHANNEL_CAPACITY)%nat.

Lemma settled_mirrors m s id c :
  live_ok m s → lv_clients s !! id = Some c → cf_round (lv_feed s) = None → settled s c →
  kept_up c → client_map (dc_shown c) = client_view (cf_map (lv_feed s)).
Proof.
  intros [_ Hc] Hid Hidle (Ef & Eh & Eq & Ep) Hk.
  destruct (Hc _ _ Hid) as [[Hran Ha Hcount Hb Hl] _ (f0 & T0 & T1 & Hst & Hf)].
  rw Ef in Hf. destruct Hf as (f1 & F1 & F2 & _ & F3). rw Eh Eq /= !app_nil_r in F3. rw F3.
  assert (received (rx_got (dc_rx c)) = drop (length (cf_bus f0)) (cf_bus (lv_feed s))) as ->.
  { assert (missed (rx_got (dc_rx c)) = 0%nat) as Hm by (unfold kept_up in Hk; lia).
    rw (accounts_exact _ _ Ha Hm) received_all Hst Ep. unfold between.
    apply take_ge. by rw length_drop. }
  by eapply cluster_view_follows.
Qed.

(** What is still on its way to a client that has read the snapshot. *)
Definition on_the_way (bus : list ClusterDeltaEvent) (c : Client) : nat :=
  3 * (length bus - rx_pos (dc_rx c)) + 3 * length (default [] (dc_frames c))
  + 2 * length (option_list (dc_hand c)) + length (dc_queue c).

Lemma recv_turn bus (r : Receiver (A := ClusterDeltaEvent)) :
  rx_ok bus r → (rx_pos r < length bus)%nat →
  ∃ r', recv bus r = Some r' ∧ (rx_pos r < rx_pos r' ≤ length bus)%nat ∧ rx_worst r' = rx_worst r.
Proof.
  intros [Hr Ha _ _ _] Hlt. destruct (recv_moves bus r) as (r' & Hv & _); [lia|done|].
  destruct (recv_accounts _ _ _ Hv Hr Ha) as (_ & Hp & Hw & _). eauto.
Qed.

(** Until then some action of its own brings it closer. *)
Lemma client_moves m s id c frames :
  live_ok m s → lv_clients s !! id = Some c → dc_frames c = Some frames → settled s c ∨
  ∃ s' c' frames', live_step s s' ∧ lv_feed s' = lv_feed s ∧ lv_clients s' !! id = Some c' ∧
    dc_frames c' = Some frames' ∧ rx_worst (dc_rx c') = rx_worst (dc_rx c) ∧
    (on_the_way (cf_bus (lv_feed s)) c' < on_the_way (cf_bus (lv_feed s)) c)%nat.
Proof.
  intros Hok Hid Hf. pose proof (proj2 Hok _ _ Hid) as [Hr Hq _].
  assert (∀ a g c' frames', (∀ s, live_do a s = on_client id (g (cf_bus (lv_feed s))) s) →
    g (cf_bus (lv_feed s)) c = Some c' → dc_frames c' = Some frames' →
    rx_worst (dc_rx c') = rx_worst (dc_rx c) →
    (on_the_way (cf_bus (lv_feed s)) c' < on_the_way (cf_bus (lv_feed s)) c)%nat →
    ∃ s' c' frames', live_step s s' ∧ lv_feed s' = lv_feed s ∧ lv_clients s' !! id = Some c' ∧
      dc_frames c' = Some frames' ∧ rx_worst (dc_rx c') = rx_worst (dc_rx c) ∧
      (on_the_way (cf_bus (lv_feed s)) c' < on_the_way (cf_bus (lv_feed s)) c)%nat) as Hmove.
  { intros a g c' frames' Ha Hg Hf' Hw Hlt.
    exists (mkLive (lv_feed s) (<[id := c']> (lv_clients s))), c', frames'.
    split; [exists a; rw Ha; unfold on_client; by rw Hid /= Hg|].
    split_and!; [done|simpl; by rw lookup_insert_eq|done..]. }
  destruct (dc_queue c) as [|e queue] eqn:Eq.
  2:{ right. eapply (Hmove (Deliver id) (λ _, deliver)); [done|unfold deliver; by rw Eq|done..|].
      unfold on_the_way. rw Eq /=. lia. }
  destruct (dc_hand c) as [e|] eqn:Eh.
  { right. eapply (Hmove (Push id) (λ _, push_event)); [done|unfold push_event; by rw Eh Eq|done..|].
    unfold on_the_way. rw Eq Eh /=. lia. }
  destruct frames as [|frame frames].
  - destruct (decide (rx_pos (dc_rx c) = length (cf_bus (lv_feed s)))) as [|Hne]; [by left|right].
    destruct (recv_turn _ _ Hr) as (r' & Hv & Hp & Hw); [pose proof (rx_range _ _ Hr); lia|].
    eapply (Hmove (Next id) next_event); [done|unfold next_event; by rw Eh Hf Hv|done..|].
    unfold on_the_way. rw Eq Eh Hf. cbn [dc_rx dc_frames dc_hand dc_queue default length option_list].
    destruct (last (rx_got r') ≫= result_ok); simpl; lia.
  - right. eapply (Hmove (Next id) next_event); [done|unfold next_event; by rw Eh Hf|done..|].
    unfold on_the_way. rw Eq Eh Hf /=. lia.
Qed.

Lemma client_settles m s id c frames :
  live_ok m s → lv_clients s !! id = Some c → dc_frames c = Some frames →
  ∃ s' c', rtc live_step s s' ∧ live_ok m s' ∧ lv_feed s' = lv_feed s ∧
    lv_clients s' !! id = Some c' ∧ settled s' c' ∧ rx_worst (dc_rx c') = rx_worst (dc_rx c).
Proof.
  remember (on_the_way (cf_bus (lv_feed s)) c) as n eqn:Hn. revert s c frames Hn.
  induction n as [n IH] using lt_wf_ind. intros s c frames Hn Hok Hid Hf.
  destruct (client_moves m s id c frames Hok Hid Hf)
    as [Hs|(s1 & c1 & frames1 & Hs & Ef & Hid1 & Hf1 & Hw & Hlt)]; [by exists s, c|].
  destruct (IH (on_the_way (cf_bus (lv_feed s)) c1)) with (s := s1) (c := c1) (frames := frames1)
    as (s2 & c2 & R1 & R2 & R3 & R4 & R5 & R6); [lia|by rw Ef|by eapply live_step_ok|done..|].
  exists s2, c2. split; [by eapply rtc_l|]. split_and!; [done|by rw R3|done|done|by rw R6].
Qed.

(** C12.  A websocket client that keeps up shows exactly the active clusters.  However the
    rounds of the service, any number of clients and the steps of each connection interleave,
    its outbound queue stays within its capacity; once no round is in progress the client can
    always be brought to rest, by steps of its own connection alone; and at rest, if it never
    had more than the channel's 1024 events waiting, what it was sent folds to the view the
    service holds, however far a round had come when it read its snapshot. *)
Theorem keeping_up_mirrors m s id c :
  rtc live_step (live_boot m) s → lv_clients s !! id = Some c → cf_round (lv_feed s) = None →
  (length (dc_queue c) ≤ Websocket.OUTBOUND_CHANNEL_CAPACITY)%nat ∧
  (settled s c → kept_up c → client_map (dc_shown c) = client_view (cf_map (lv_feed s))) ∧
  ∃ s' c', rtc live_step s s' ∧ lv_feed s' = lv_feed s ∧ lv_clients s' !! id = Some c' ∧
    settled s' c' ∧
    (kept_up c → client_map (dc_shown c') = client_view (cf_map (lv_feed s))).
Proof.
  intros Hr Hid Hidle. pose proof (live_reachable_ok _ _ Hr) as Hok.
  split; [by eapply (co_room _ _ _ (proj2 Hok _ _ Hid))|].
  split; [by eapply settled_mirrors|].
  assert (∃ s1 c1 frames, rtc live_step s s1 ∧ live_ok m s1 ∧ lv_feed s1 = lv_feed s ∧
    lv_clients s1 !! id = Some c1 ∧ dc_frames c1 = Some frames ∧
    rx_worst (dc_rx c1) = rx_worst (dc_rx c)) as (s1 & c1 & frames & R1 & Hok1 & E1 & Hid1 & Hf1 & Hw1).
  { destruct (dc_frames c) as [frames|] eqn:Ef; [by exists s, c, frames|].
    set (c1 := mkClient (dc_rx c) (Some (get_current_snapshot (cf_map (lv_feed s)))) None [] []).
    set (s1 := mkLive (lv_feed s) (<[id := c1]> (lv_clients s))).
    assert (live_step s s1) as Hs.
    { exists (ReadSnapshot id). cbn [live_do]. unfold on_client, read_snapshot. by rw Hid /= Ef. }
    eexists s1, c1, _. split_and!; [by apply rtc_once|by eapply live_step_ok|done| |done..].
    simpl. by rw lookup_insert_eq. }
  destruct (client_settles m s1 id c1 frames Hok1 Hid1 Hf1) as (s2 & c2 & R2 & Hok2 & E2 & Hid2 & Hs2 & Hw2).
  exists s2, c2. split; [by etrans|]. split; [by rw E2|]. split; [done|]. split; [done|].
  intros Hk. assert (lv_feed s2 = lv_feed s) as E by by rw E2. rw -E.
  eapply settled_mirrors; [done|done|by rw E|done|]. unfold kept_up in *. by rw Hw2 Hw1.
Qed.

(** A schedule, performed. *)
Fixpoint live_run (actions : list Action) (s : Live) : option Live :=
  match actions with
  | [] => Some s
  | a :: actions => s ← live_do a s; live_run actions s
  end.

Lemma live_run_steps actions s s' : live_run actions s = Some s' → rtc live_step s s'.
Proof.
  revert s. induction actions as [|a actions IH]; intros s; simpl; [by intros [= <-]|].
  destruct (live_do a s) as [s1|] eqn:E; [|done]. intros Hr.
  eapply rtc_l; [by exists a|by apply IH].
Qed.
End delivery.

(** ** A client that does not keep up

    A client reads a snapshot with one cluster and is then held up while the cluster is
    removed and 1024 further events are published; afterwards it is served all that is left. *)

Definition round_of (ups : list ActiveCluster) (rems : list Z) : list Action :=
  Server (Begin ups rems) :: repeat (Server Go) (S (length ups + length rems)).
Definition served (id : nat) : list Action := [Next id; Push id; Deliver id].

Definition other_rounds (n : nat) : list Action :=
  mjoin (repeat (round_of [sample_cluster 1] [] ++ round_of [] [1%Z]) n).

Definition held_up : list Action :=
  [Connect 0; ReadSnapshot 0] ++ served 0 ++ round_of [] [3%Z] ++ other_rounds 512 ++
  [Next 0] ++ mjoin (repeat (served 0) 1024).

Local Abbreviation demo_run := (@live_run stored_order ceil_units exact_ring).
Local Abbreviation demo_step := (@live_step stored_order ceil_units exact_ring).


(** Where the schedule leaves the server and the client. *)
Definition outcome (s : Live) :=
  c ← lv_clients s !! 0%nat;
  Some ((cf_map (lv_feed s), cf_round (lv_feed s), length (cf_bus (lv_feed s))),
        (dc_frames c, dc_hand c, dc_queue c, rx_pos (dc_rx c), rx_lagged (dc_rx c)),
        client_map (dc_shown c)).

Lemma held_up_outcome :
  (demo_run held_up (live_boot sample_base) ≫= outcome) =
  Some ((∅, None, 1025%nat), (Some [], None, [], 1025%nat, 1%nat),
        {[ 3%Z := @reference ceil_units 3 (state (sample_cluster 3)) ]}).
Proof. vm_compute. reflexivity. Qed.

(** One missed event is enough: nothing is on its way to the client any more, no cluster is
    active, and the client still shows the one whose removal it missed. *)
Theorem lagging_client_drifts :
  ∃ s c, rtc demo_step (live_boot sample_base) s ∧ lv_clients s !! 0%nat = Some c ∧
    settled s c ∧ cf_round (lv_feed s) = None ∧ rx_lagged (dc_rx c) = 1%nat ∧
    cf_map (lv_feed s) = ∅ ∧ is_Some (client_map (dc_shown c) !! 3%Z).
Proof.
  pose proof held_up_outcome as Ho.
  destruct (demo_run held_up (live_boot sample_base)) as [s|] eqn:Er; [|done].
  apply live_run_steps in Er. simpl in Ho. unfold outcome in Ho.
  destruct (lv_clients s !! 0%nat) as [c|] eqn:Ec; [|done]. simpl in Ho.
  apply Some_inj in Ho. rw !pair_equal_spec in Ho.
  destruct Ho as [[[[Hm Hr] Hl] [[[[Hf Hh] Hq] Hp] Hlag]] Hc].
  exists s, c. split_and!; [done|done| |done..|].
  - unfold settled. by rw Hp Hl.
  - rw Hc lookup_singleton_eq. by eexists.
Qed.

(** ** Witness *)

(** A client that connects in the middle of the removal and is served at once. *)
Definition prompt : list Action :=
  [Server (Begin [sample_cluster 1] [3%Z]); Server Go; Connect 0; ReadSnapshot 0; Server Go; Server Go]
  ++ served 0.

Lemma keeping_up_mirrors_witness :
  ∃ s c, lv_clients s !! 0%nat = Some c ∧ cf_bus (lv_feed s) ≠ [] ∧
    client_map (dc_shown c) = @client_view ceil_units (cf_map (lv_feed s)).
Proof.
  assert (∃ s c, demo_run prompt (live_boot sample_base) = Some s ∧ lv_clients s !! 0%nat = Some c ∧
    cf_round (lv_feed s) = None ∧ kept_up c ∧ length (cf_bus (lv_feed s)) = 1%nat)
    as (s & c & Hr & Hc & Hi & Hk & Hb).
  { eexists _, _. split; [vm_compute; reflexivity|]. split; [vm_compute; reflexivity|].
    split; [done|]. split; [|done]. unfold kept_up, CHANNEL_CAPACITY. simpl. lia. }
  destruct (@keeping_up_mirrors stored_order ceil_units exact_ring sample_base s 0 c
    (live_run_steps _ _ _ Hr) Hc Hi) as (_ & _ & s' & c' & _ & Hf & Hc' & _ & Hm).
  exists s', c'. split; [exact Hc'|]. rw Hf. split; [by destruct (cf_bus (lv_feed s))|exact (Hm Hk)].
Defined.
End Delivery.
