(* ===== verification/Database.v ===== *)
(** * The database

    The rows of [api/src/db/models.rs], the tables of [api/migrations] as finite
    maps keyed by their primary key, and the connection through which the
    repositories run statements ([api/src/db/instrument.rs]).

    A statement is a function on the tables.  The server is free to fail any
    statement, and the pool any checkout: [Env] says when.  A transaction that
    fails leaves the tables as they were, except that sequence values handed out
    stay consumed, as in Postgres.  [clock s n] is the [n]-th reading of the
    clock taken during step [s] of a connection. *)

From S2P Require Import Prelude.
From S2P Require Import Models.

Open Scope Z_scope.

Module Database.

(** ** Rows *)

Inductive ClusterStatus := Active | Confirmed | Evicted | Merged.
#[global] Instance ClusterStatus_eq_dec : EqDecision ClusterStatus.
Proof. solve_decision. Defined.

Inductive DeltaReason := AddMempool | RemoveConfirmed | RemoveEvicted.
#[global] Instance DeltaReason_eq_dec : EqDecision DeltaReason.
Proof. solve_decision. Defined.

Definition DeltaReason_ALL : list DeltaReason := [AddMempool; RemoveConfirmed; RemoveEvicted].

Definition direction (r : DeltaReason) : DeltaDirection :=
  match r with
  | AddMempool => Add
  | RemoveConfirmed | RemoveEvicted => Remove
  end.

Definition with_direction (d : DeltaDirection) : list DeltaReason :=
  filter (λ r, direction r = d) DeltaReason_ALL.

(** [Transaction] and [NewTransaction] have the same columns. *)
Record Transaction := mkTransaction {
  tx_txid : string;
  tx_fee : option Z;
  tx_weight : Z;
  tx_first_seen_at : Z;
  tx_confirmed_at : option Z;
  tx_cluster_id : option Z;
  tx_confirmed_at_block : option string;
  tx_input_txids : option (list string);
}.

Definition hollow (now : Z) (txid : string) : Transaction :=
  mkTransaction txid None 0 now None None None None.

Inductive BackfillStage := Raw | Entry.
#[global] Instance BackfillStage_eq_dec : EqDecision BackfillStage.
Proof. solve_decision. Defined.

Record StoredTxFill := mkStoredTxFill {
  has_parents : bool;
  fill_weight : Z;
  has_fee : bool;
}.

Definition backfill_stage (fill : StoredTxFill) : option BackfillStage :=
  if negb (has_parents fill) || (fill_weight fill =? 0) then Some Raw
  else if negb (has_fee fill) then Some Entry
  else None.

(** The columns [input_txids IS NOT NULL, weight, fee IS NOT NULL] of a row. *)
Definition stored_fill (tx : Transaction) : StoredTxFill :=
  mkStoredTxFill (bool_decide (is_Some (tx_input_txids tx))) (tx_weight tx)
                 (bool_decide (is_Some (tx_fee tx))).

Definition is_complete (tx : Transaction) : bool :=
  bool_decide (backfill_stage (stored_fill tx) = None).

(** [sort_by(|a, b| a.txid.cmp(&b.txid))]: a stable sort by the bytes of the txid. *)
Definition txid_le (a b : Transaction) : Prop := String.leb (tx_txid a) (tx_txid b) = true.
#[global] Instance txid_le_dec : RelDecision txid_le.
Proof. intros a b. unfold txid_le. apply _. Defined.
Definition sorted_by_txid (txs : list Transaction) : list Transaction :=
  merge_sort txid_le txs.

Record Block := mkBlock {
  blk_hash : string;
  blk_height : Z;
  blk_mined_at : Z;
  blk_tx_count : Z;
  blk_total_bytes : Z;
  blk_total_fee : Z;
  blk_difficulty : Z;
  blk_created_at : Z;
}.

Record ClusterRow := mkClusterRow {
  clr_id : Z;
  clr_status : ClusterStatus;
  clr_version : Z;
  clr_total_weight : Z;
  clr_total_fee : Z;
  clr_first_seen_at : Z;
  clr_confirmed_at : option Z;
  clr_closed_at : option Z;
}.

(** A [cluster_chunks] row without its key [(cluster_id, version, position)]. *)
Record ChunkRow := mkChunkRow {
  chr_fee : Z;
  chr_weight : Z;
  chr_txids : list string;
  chr_live : bool;
  chr_created_at : Z;
}.

(** [impl From<ClusterChunkRow> for ClusterChunk] *)
Definition chunk_of_row (row : ChunkRow) : ClusterChunk :=
  mkClusterChunk (chr_txids row) (to_u64 (chr_fee row)) (to_u64 (chr_weight row)).

Record Cluster := mkCluster {
  cl_id : Z;
  cl_status : ClusterStatus;
  cl_version : Z;
  cl_total_weight : Z;
  cl_total_fee : Z;
  cl_first_seen_at : Z;
  cl_confirmed_at : option Z;
  cl_closed_at : option Z;
  cl_chunks : list ClusterChunk;
}.

Definition from_row (row : ClusterRow) (chunks : list ClusterChunk) : Cluster :=
  mkCluster (clr_id row) (clr_status row) (clr_version row) (clr_total_weight row)
    (clr_total_fee row) (clr_first_seen_at row) (clr_confirmed_at row)
    (clr_closed_at row) chunks.

Definition cl_txids (c : Cluster) : list string := chunks_txids (cl_chunks c).

Record NewCluster := mkNewCluster {
  nc_chunks : list ClusterChunk;
  nc_first_seen_at : Z;
}.

Record MempoolDelta := mkMempoolDelta {
  md_txid : string;
  md_reason : DeltaReason;
  md_created_at : Z;
}.

(** ** Tables *)

Record Db := mkDb {
  db_clusters : gmap Z ClusterRow;
  db_cluster_seq : Z;
  db_chunks : gmap (Z * Z * Z) ChunkRow;
  db_txs : gmap string Transaction;
  db_blocks : gmap string Block;
  db_deltas : list MempoolDelta;
}.

Definition empty_db : Db := mkDb ∅ 0 ∅ ∅ ∅ [].

Definition set_clusters (m : gmap Z ClusterRow) (db : Db) : Db :=
  mkDb m (db_cluster_seq db) (db_chunks db) (db_txs db) (db_blocks db) (db_deltas db).
Definition set_cluster_seq (n : Z) (db : Db) : Db :=
  mkDb (db_clusters db) n (db_chunks db) (db_txs db) (db_blocks db) (db_deltas db).
Definition set_chunks (m : gmap (Z * Z * Z) ChunkRow) (db : Db) : Db :=
  mkDb (db_clusters db) (db_cluster_seq db) m (db_txs db) (db_blocks db) (db_deltas db).
Definition set_txs (m : gmap string Transaction) (db : Db) : Db :=
  mkDb (db_clusters db) (db_cluster_seq db) (db_chunks db) m (db_blocks db) (db_deltas db).
Definition set_blocks (m : gmap string Block) (db : Db) : Db :=
  mkDb (db_clusters db) (db_cluster_seq db) (db_chunks db) (db_txs db) m (db_deltas db).
Definition set_deltas (l : list MempoolDelta) (db : Db) : Db :=
  mkDb (db_clusters db) (db_cluster_seq db) (db_chunks db) (db_txs db) (db_blocks db) l.

(** ** Connections *)

Inductive DieselError :=
| NotFound
| RollbackTransaction
| DatabaseError (msg : string).

Inductive RepoError :=
| PoolError (msg : string)
| QueryError (e : DieselError).

(** What a request handler fails with; [Internal] keeps the repository error it was made
    from. *)
Inductive ApiError :=
| BadRequest (msg : string)
| Internal (e : RepoError).

(** [into_response]: status and body.  The text of an internal error stays inside. *)
Definition into_response (e : ApiError) : Z * string :=
  match e with
  | BadRequest msg => (400, msg)
  | Internal _ => (500, "internal error")
  end.

Class Env := {
  clock : nat → nat → Z;
  pool_fault : nat → option string;
  stmt_fault : nat → option string;
}.

(** A healthy server and a fixed clock, for the witnesses. *)
Definition calm_env : Env :=
  {| clock := λ s n, 1700000000 + Z.of_nat s;
     pool_fault := λ _, None; stmt_fault := λ _, None |}.

(** [conn_txn] is the start time of the transaction in progress, the value of
    SQL's [now()] inside it. *)
Record Conn := mkConn {
  conn_db : Db;
  conn_step : nat;
  conn_txn : option Z;
}.

Definition DbM (A : Type) : Type := Conn → result DieselError A * Conn.
Definition RepoM (A : Type) : Type := Conn → result RepoError A * Conn.

#[global] Instance DbM_ret : MRet DbM := λ A a c, (Ok a, c).
#[global] Instance DbM_bind : MBind DbM := λ A B f m c,
  match m c with
  | (Ok a, c) => f a c
  | (Err e, c) => (Err e, c)
  end.

Definition fail {A} (e : DieselError) : DbM A := λ c, (Err e, c).

Section connection.
Context `{Env}.

Definition statement {A} (f : Z → Db → result DieselError (A * Db)) : DbM A := λ c,
  let s := conn_step c in
  match stmt_fault s with
  | Some msg => (Err (DatabaseError msg), mkConn (conn_db c) (S s) (conn_txn c))
  | None =>
      match f (default (clock s 0) (conn_txn c)) (conn_db c) with
      | Ok (a, db) => (Ok a, mkConn db (S s) (conn_txn c))
      | Err e => (Err e, mkConn (conn_db c) (S s) (conn_txn c))
      end
  end.

(** A statement that only reads. *)
Definition select {A} (f : Db → A) : DbM A := statement (λ _ db, Ok (f db, db)).
(** A statement that only writes and cannot violate a constraint. *)
Definition execute (f : Z → Db → Db) : DbM unit := statement (λ now db, Ok ((), f now db)).

(** [OffsetDateTime::now_utc()], as many readings as the code takes. *)
Definition read_clock : DbM (nat → Z) := λ c,
  (Ok (clock (conn_step c)), mkConn (conn_db c) (S (conn_step c)) (conn_txn c)).

Definition rollback (before after : Db) : Db :=
  set_cluster_seq (db_cluster_seq after) before.

Definition transaction {A} (m : DbM A) : DbM A := λ c,
  let s := conn_step c in
  match stmt_fault s with
  | Some msg => (Err (DatabaseError msg), mkConn (conn_db c) (S s) None)
  | None =>
      match m (mkConn (conn_db c) (S s) (Some (clock s 0))) with
      | (Ok a, c') =>
          match stmt_fault (conn_step c') with
          | Some msg => (Err (DatabaseError msg),
              mkConn (rollback (conn_db c) (conn_db c')) (S (conn_step c')) None)
          | None => (Ok a, mkConn (conn_db c') (S (conn_step c')) None)
          end
      | (Err e, c') =>
          (Err e, mkConn (rollback (conn_db c) (conn_db c')) (S (conn_step c')) None)
      end
  end.

(** [instrument::query]: check a connection out, run [m] on it. *)
Definition query {A} (m : DbM A) : RepoM A := λ c,
  let s := conn_step c in
  match pool_fault s with
  | Some msg => (Err (PoolError msg), mkConn (conn_db c) (S s) None)
  | None => let '(r, c) := m (mkConn (conn_db c) (S s) None) in (map_err QueryError r, c)
  end.

(** [for x in l { f(x).await? }] *)
Fixpoint for_each {A} (f : A → DbM unit) (l : list A) : DbM unit :=
  match l with
  | [] => mret ()
  | x :: l => _ ← f x; for_each f l
  end.
End connection.

(** ** Reasoning about a connection

    [triple P m Q E]: from tables satisfying [P], a successful run of [m] ends in
    tables satisfying [Q] of its result, a failed one in tables satisfying [E],
    whatever faults the environment injects. *)

Definition triple {A} (P : Db → Prop) (m : DbM A) (Q : A → Db → Prop) (E : Db → Prop) : Prop :=
  ∀ c, P (conn_db c) →
       match m c with
       | (Ok a, c') => Q a (conn_db c')
       | (Err _, c') => E (conn_db c')
       end.

(** The same for a repository call, whose two outcomes are reported to the caller. *)
Definition repo_triple {A} (P : Db → Prop) (m : RepoM A) (Q : A → Db → Prop)
    (E : Db → Prop) : Prop :=
  ∀ c, P (conn_db c) →
       match m c with
       | (Ok a, c') => Q a (conn_db c')
       | (Err _, c') => E (conn_db c')
       end.

Section rules.
Context `{Env}.

Lemma triple_ret {A} (a : A) P (Q : A → Db → Prop) E :
  (∀ db, P db → Q a db) → triple P (mret a) Q E.
Proof. intros HP c Hc. apply HP, Hc. Qed.

Lemma triple_fail {A} e P (Q : A → Db → Prop) E :
  (∀ db, P db → E db) → triple P (fail e) Q E.
Proof. intros HP c Hc. apply HP, Hc. Qed.

Lemma triple_bind {A B} (m : DbM A) (f : A → DbM B) P Q R E :
  triple P m Q E → (∀ a, triple (Q a) (f a) R E) → triple P (m ≫= f) R E.
Proof.
  intros Hm Hf c Hc. specialize (Hm c Hc). unfold mbind, DbM_bind.
  destruct (m c) as [[a|e] c']; [apply (Hf a c' Hm)|done].
Qed.

Lemma triple_conseq {A} (m : DbM A) (P P' : Db → Prop) (Q Q' : A → Db → Prop)
    (E E' : Db → Prop) :
  triple P m Q E → (∀ db, P' db → P db) → (∀ a db, Q a db → Q' a db) →
  (∀ db, E db → E' db) → triple P' m Q' E'.
Proof.
  intros Hm HP HQ HE c Hc. specialize (Hm c (HP _ Hc)).
  destruct (m c) as [[a|e] c']; auto.
Qed.

Lemma triple_statement {A} (f : Z → Db → result DieselError (A * Db)) P Q E :
  (∀ db, P db → E db) →
  (∀ now db, P db →
     match f now db with Ok (a, db') => Q a db' | Err _ => True end) →
  triple P (statement f) Q E.
Proof.
  intros HE Hf c Hc. unfold statement. destruct (stmt_fault _); [by apply HE|].
  specialize (Hf (default (clock (conn_step c) 0) (conn_txn c)) _ Hc).
  destruct (f _ _) as [[a db]|e]; [done|by apply HE].
Qed.

(** A read leaves the tables alone. *)
Lemma query_select_keeps {A} (f : Db → A) c :
  conn_db (query (select f) c).2 = conn_db c ∧
  match (query (select f) c).1 with Ok a => a = f (conn_db c) | Err _ => True end.
Proof.
  unfold query. destruct (pool_fault _); [done|]. unfold select, statement. simpl.
  by destruct (stmt_fault _).
Qed.

Lemma triple_select {A} (f : Db → A) P Q E :
  (∀ db, P db → E db) → (∀ db, P db → Q (f db) db) → triple P (select f) Q E.
Proof. intros HE HQ. apply triple_statement; [done|]. intros _ db Hdb. by apply HQ. Qed.

Lemma triple_execute f P Q E :
  (∀ db, P db → E db) → (∀ now db, P db → Q () (f now db)) → triple P (execute f) Q E.
Proof. intros HE HQ. apply triple_statement; [done|]. intros now db Hdb. by apply HQ. Qed.

Lemma triple_read_clock P Q E :
  (∀ t db, P db → Q t db) → triple P read_clock Q E.
Proof. intros HQ c Hc. by apply HQ. Qed.

Lemma triple_for_each {A} (f : A → DbM unit) l P E :
  (∀ x, x ∈ l → triple P (f x) (λ _, P) E) → triple P (for_each f l) (λ _, P) E.
Proof.
  induction l as [|x l IH]; intros Hf; simpl; [by apply triple_ret|].
  eapply triple_bind; [apply Hf; left|]. intros []. apply IH. intros y Hy.
  apply Hf. by right.
Qed.

(** The same with an assertion that follows the elements already handled. *)
Lemma triple_for_each_acc {A} (f : A → DbM unit) l (P : list A → Db → Prop) E :
  (∀ pre x post, l = pre ++ x :: post → triple (P pre) (f x) (λ _, P (pre ++ [x])) E) →
  triple (P []) (for_each f l) (λ _, P l) E.
Proof.
  intros Hf.
  assert (∀ post pre, l = pre ++ post → triple (P pre) (for_each f post) (λ _, P l) E) as Hgen;
    [|exact (Hgen l [] eq_refl)].
  induction post as [|x post IH]; intros pre Heq; simpl.
  - apply triple_ret. rw Heq app_nil_r. done.
  - eapply triple_bind; [by eapply Hf|]. intros []. apply IH. by rw Heq -app_assoc.
Qed.

(** A failed transaction restores the tables up to the consumed sequence
    values, so whatever is insensitive to those survives it. *)
Lemma triple_transaction {A} (m : DbM A) (I : Db → Prop) (S : Db → Db → Prop) Q E db0 :
  (∀ db, I db → S db db) →
  (∀ db', S db0 db' → E (rollback db0 db')) →
  (∀ db, I db → db = db0) → (∀ a db, Q a db → S db0 db) →
  triple I m Q (S db0) → triple I (transaction m) Q E.
Proof.
  intros HS HE HI HQ Hm c Hc. unfold transaction.
  assert (E (conn_db c)) as HEc.
  { pose proof (HI _ Hc) as Heq. rw Heq. specialize (HE db0).
    replace db0 with (rollback db0 db0) at 1 by (by destruct db0).
    apply HE. rw -Heq. apply HS, Hc. }
  destruct (stmt_fault _); [done|].
  specialize (Hm (mkConn (conn_db c) (1 + conn_step c)%nat (Some (clock (conn_step c) 0))) Hc).
  simpl in Hm. destruct (m _) as [[a|e] c'].
  - destruct (stmt_fault _); simpl; [|done]. rw (HI _ Hc). apply HE. by eapply HQ.
  - simpl. rw (HI _ Hc). by apply HE.
Qed.

Lemma repo_triple_query {A} (m : DbM A) P Q E :
  (∀ db, P db → E db) → triple P m Q E → repo_triple P (query m) Q E.
Proof.
  intros HE Hm c Hc. unfold query. destruct (pool_fault _); [by apply HE|].
  specialize (Hm (mkConn (conn_db c) (S (conn_step c)) None) Hc).
  by destruct (m _) as [[a|e] c'].
Qed.
End rules.

(** ** Symbolic execution

    [runs s0 db m Q]: run from the tables [db], a successful [m] ends in [Q], and a
    failed one leaves the identity sequence of [clusters] at [s0] or beyond, which
    is all a rollback keeps of it. *)

Definition runs {A} (s0 : Z) (db : Db) (m : DbM A) (Q : A → Db → Prop) : Prop :=
  triple (λ d, d = db) m Q (λ d, s0 ≤ db_cluster_seq d).

(** The tables are [db0]'s, except that sequence values may have been consumed. *)
Definition untouched (db0 db : Db) : Prop :=
  ∃ n, db_cluster_seq db0 ≤ n ∧ db = set_cluster_seq n db0.

Lemma untouched_refl db : untouched db db.
Proof. exists (db_cluster_seq db). split; [lia|]. by destruct db. Qed.

Section symbolic.
Context `{Env}.

Lemma runs_ret {A} s0 db (a : A) (Q : A → Db → Prop) : Q a db → runs s0 db (mret a) Q.
Proof. intros HQ. apply triple_ret. by intros ? ->. Qed.

Lemma runs_fail {A} s0 db e (Q : A → Db → Prop) :
  s0 ≤ db_cluster_seq db → runs s0 db (fail e) Q.
Proof. intros Hs. apply triple_fail. by intros ? ->. Qed.

Lemma runs_bind {A B} s0 db (m : DbM A) (f : A → DbM B) Q R :
  runs s0 db m Q → (∀ a db', Q a db' → runs s0 db' (f a) R) → runs s0 db (m ≫= f) R.
Proof.
  intros Hm Hf. eapply triple_bind; [exact Hm|]. intros a c Hc.
  exact (Hf a _ Hc c eq_refl).
Qed.

Lemma runs_conseq {A} s0 db (m : DbM A) (Q R : A → Db → Prop) :
  runs s0 db m Q → (∀ a db', Q a db' → R a db') → runs s0 db m R.
Proof. intros Hm HQ. eapply triple_conseq; [exact Hm|done|done|done]. Qed.

Lemma runs_statement {A} s0 db (f : Z → Db → result DieselError (A * Db)) (Q : A → Db → Prop) :
  s0 ≤ db_cluster_seq db →
  (∀ now, match f now db with Ok (a, db') => Q a db' | Err _ => True end) →
  runs s0 db (statement f) Q.
Proof.
  intros Hs Hf. apply triple_statement; [by intros ? ->|]. intros now ? ->. apply Hf.
Qed.

Lemma runs_select {A} s0 db (f : Db → A) (Q : A → Db → Prop) :
  s0 ≤ db_cluster_seq db → Q (f db) db → runs s0 db (select f) Q.
Proof. intros Hs HQ. by apply runs_statement. Qed.

Lemma runs_execute s0 db f (Q : unit → Db → Prop) :
  s0 ≤ db_cluster_seq db → (∀ now, Q () (f now db)) → runs s0 db (execute f) Q.
Proof. intros Hs HQ. by apply runs_statement. Qed.

Lemma runs_read_clock s0 db (Q : (nat → Z) → Db → Prop) :
  (∀ now, Q now db) → runs s0 db read_clock Q.
Proof. intros HQ. apply triple_read_clock. by intros t ? ->. Qed.

(** The same rules with the continuation. *)
Lemma runs_statement_then {A B} s0 db (f : Z → Db → result DieselError (A * Db))
    (k : A → DbM B) R :
  s0 ≤ db_cluster_seq db →
  (∀ now, match f now db with Ok (a, db') => runs s0 db' (k a) R | Err _ => True end) →
  runs s0 db (statement f ≫= k) R.
Proof.
  intros Hs Hf. eapply runs_bind; [by apply (runs_statement _ _ f (λ a d, runs s0 d (k a) R))|].
  done.
Qed.

Lemma runs_select_then {A B} s0 db (f : Db → A) (k : A → DbM B) R :
  s0 ≤ db_cluster_seq db → runs s0 db (k (f db)) R → runs s0 db (select f ≫= k) R.
Proof. intros Hs Hk. by apply runs_statement_then. Qed.

Lemma runs_execute_then {B} s0 db f (k : unit → DbM B) R :
  s0 ≤ db_cluster_seq db → (∀ now, runs s0 (f now db) (k ()) R) →
  runs s0 db (execute f ≫= k) R.
Proof. intros Hs Hk. by apply runs_statement_then. Qed.

(** [P] follows the elements already handled. *)
Lemma runs_for_each {A} s0 db (f : A → DbM unit) l (P : list A → Db → Prop) :
  P [] db →
  (∀ pre x post db', l = pre ++ x :: post → P pre db' →
     runs s0 db' (f x) (λ _, P (pre ++ [x]))) →
  runs s0 db (for_each f l) (λ _, P l).
Proof.
  intros HP Hf.
  eapply triple_conseq;
    [apply (triple_for_each_acc f l P (λ d, s0 ≤ db_cluster_seq d))|by intros ? ->|done..].
  intros pre x post Hx c Hc. exact (Hf pre x post _ Hx Hc c eq_refl).
Qed.

(** A transaction runs to its end or leaves the tables untouched. *)
Lemma runs_transaction {A} db (m : DbM A) (Q : A → Db → Prop) :
  runs (db_cluster_seq db) db m Q →
  (∀ a db', Q a db' → db_cluster_seq db ≤ db_cluster_seq db') →
  triple (λ d, d = db) (transaction m) Q (untouched db).
Proof.
  intros Hm HQ.
  apply (triple_transaction m _ (λ d d', db_cluster_seq d ≤ db_cluster_seq d') Q _ db);
    [intros; lia| |done|done|done].
  intros db' Hs. by exists (db_cluster_seq db').
Qed.

Lemma repo_runs_transaction {A} db (m : DbM A) (Q : A → Db → Prop) :
  runs (db_cluster_seq db) db m Q →
  (∀ a db', Q a db' → db_cluster_seq db ≤ db_cluster_seq db') →
  repo_triple (λ d, d = db) (query (transaction m)) Q (untouched db).
Proof.
  intros Hm HQ. apply repo_triple_query; [|by apply runs_transaction].
  intros ? ->. apply untouched_refl.
Qed.
End symbolic.

End Database.
