(* ===== verification/Retrievers.v ===== *)
(** * Retrievers

    [observer/src/retrievers/*.rs], [RpcClient::call] and the conversions of
    [shared/src/models.rs]: calls to the node become the models the services work on, or one
    of the errors they tell apart.

    The RPC client and the [bitcoin] crate are parameters ([NodeLibrary]): parsing and
    printing of txids, hashes and amounts, and the [into_model] conversions.  The records
    below with a source in those crates have only the fields this code reads.  What the node
    answers to one call is an argument, a [Response]. *)

From S2P Require Import Prelude.
From S2P Require Import Models.
From S2P Require Import Database.

Open Scope Z_scope.

Module Retrievers.

(** ** Data of the RPC library *)

(** [RawTransactionInput]: the txid is absent for a coinbase input. *)
Record RawTransactionInput := mkRawTransactionInput { ri_txid : option string }.

Record RawTransaction := mkRawTransaction {
  rt_txid : string;
  rt_version : Z;
  rt_lock_time : Z;
  rt_vsize : Z;
  rt_weight : Z;
  rt_inputs : list RawTransactionInput;
  rt_outputs : nat;
  rt_confirmations : option Z;
  rt_transaction_time : option Z;
}.

(** A transaction of [getblock] with verbosity two: the fee is an [f64] of bitcoins. *)
Record BlockTransaction := mkBlockTransaction {
  vt_transaction : RawTransaction;
  vt_fee : option Z;
}.

Record GetBlockVerboseTwo := mkGetBlockVerboseTwo {
  vb_hash : string;
  vb_height : Z;
  vb_time : Z;
  vb_size : Z;
  vb_difficulty : Z;
  vb_tx : list BlockTransaction;
}.

(** An entry of the mempool, amounts in satoshis. *)
Record MempoolEntry := mkMempoolEntry {
  me_base_fee : Z;
  me_vsize : option Z;
  me_weight : option Z;
  me_ancestor_count : Z;
  me_descendant_count : Z;
  me_time : Z;
  me_height : Z;
}.

(** What the library leaves to itself.  Types with a prime are its own. *)
Class NodeLibrary := {
  Txid' : Type;
  parse_txid' : string → result string Txid';
  txid_to_string : Txid' → string;
  (** [Amount::from_btc], in satoshis. *)
  from_btc : Z → result string Z;
  (** [OffsetDateTime::from_unix_timestamp], in nanoseconds; fails out of range. *)
  from_unix_timestamp : Z → option Z;
  timestamp_exact : ∀ s t, from_unix_timestamp s = Some t → t = s * 1000000000;
}.

(** The outcome of a call on the blocking pool: the task may die, the call may fail. *)
Inductive Response (A : Type) :=
| TaskDied (msg : string)
| CallFailed (msg : string)
| Answered (a : A).
Arguments TaskDied {A} msg.
Arguments CallFailed {A} msg.
Arguments Answered {A} a.

(** [RpcClient::call] *)
Definition call {A} (r : Response A) : result ObserverError A :=
  match r with
  | TaskDied msg => Err (FailedToFetch msg)
  | CallFailed msg => Err (FailedToFetch msg)
  | Answered a => Ok a
  end.

(** [str::contains] *)
Fixpoint starts (needle s : string) : bool :=
  match needle, s with
  | EmptyString, _ => true
  | String a needle, String b s => bool_decide (a = b) && starts needle s
  | _, _ => false
  end.
Fixpoint contains (needle s : string) : bool :=
  starts needle s ||
  match s with EmptyString => false | String _ s => contains needle s end.

Section retrievers.
Context `{NodeLibrary}.

(** ** Conversions *)

(** [MempoolEntrySummary::new] *)
Definition entry_summary (txid : Txid') (entry : MempoolEntry) : MempoolEntrySummary :=
  mkMempoolEntrySummary (txid_to_string txid) (me_base_fee entry) (default 0 (me_vsize entry))
    (default 0 (me_weight entry)) (me_ancestor_count entry) (me_descendant_count entry)
    (me_time entry) (me_height entry).

Definition raw_mempool_model (response : list (Txid' * MempoolEntry)) : list MempoolEntrySummary :=
  (λ p, entry_summary p.1 p.2) <$> response.

(** A chunk of a cluster: its transactions, fee in satoshis and weight. *)
Definition chunk_model (chunk : list Txid' * Z * Z) : ClusterChunk :=
  let '(txs, chunk_fee, chunk_weight) := chunk in
  mkClusterChunk (txid_to_string <$> txs) chunk_fee chunk_weight.

(** The library's cluster: weight, number of transactions, chunks. *)
Definition cluster_model (cluster : Z * Z * list (list Txid' * Z * Z)) : GetMempoolClusterModel :=
  let '(cluster_weight, tx_count, chunks) := cluster in
  mkGetMempoolClusterModel cluster_weight (tx_count `mod` 2 ^ 32) (chunk_model <$> chunks).

Definition parent_txids (inputs : list RawTransactionInput) : list string := omap ri_txid inputs.

(** The fee of a block's transaction: zero when absent or not an amount. *)
Definition block_fee_sats (fee : option Z) : Z :=
  default 0 (to_i64 <$> (fee ≫= λ btc, result_ok (from_btc btc))).

(** [now] is the clock, read when the block's time is out of range. *)
Definition block_model (now : Z) (response : GetBlockVerboseTwo) : GetBlockModel :=
  mkGetBlockModel (vb_hash response) (vb_height response)
    (default now (from_unix_timestamp (vb_time response)))
    (vb_size response) (vb_difficulty response)
    ((λ tx, mkBlockTxSummary (rt_txid (vt_transaction tx)) (to_i64 (rt_vsize (vt_transaction tx)))
              (to_i64 (rt_weight (vt_transaction tx))) (block_fee_sats (vt_fee tx))
              (parent_txids (rt_inputs (vt_transaction tx)))) <$> vb_tx response).

Definition raw_transaction_model (response : RawTransaction) : GetRawTransactionModel :=
  mkGetRawTransactionModel (rt_txid response) (rt_version response) (rt_lock_time response)
    (rt_vsize response `mod` 2 ^ 32) (rt_weight response)
    (Z.of_nat (length (rt_inputs response)) `mod` 2 ^ 32) (parent_txids (rt_inputs response))
    (Z.of_nat (rt_outputs response) `mod` 2 ^ 32) (default 0 (rt_confirmations response))
    (rt_transaction_time response ≫= λ secs, from_unix_timestamp (to_i64 secs)).

(** ** Retrievers *)

Definition parse_txid (txid : string) : result ObserverError Txid' :=
  map_err InvalidParams (parse_txid' txid).

Definition not_found_as_missing (e : ObserverError) (message : string) : ObserverError :=
  if contains message (error_to_string e) then TxNotFoundInMempool (error_to_string e) else e.

Definition get_raw_transaction (txid : string) (r : Response RawTransaction) :
    result ObserverError GetRawTransactionModel :=
  _ ← parse_txid txid;
  response ← map_err (λ e, not_found_as_missing e "No such mempool transaction") (call r);
  Ok (raw_transaction_model response).

(** The answer is the entry after [into_model], or why that failed. *)
Definition get_mempool_entry (txid : string) (r : Response (result string MempoolEntry)) :
    result ObserverError MempoolEntrySummary :=
  txid ← parse_txid txid;
  response ← map_err (λ e, not_found_as_missing e "Transaction not in mempool") (call r);
  entry ← map_err FailedToFetch response;
  Ok (entry_summary txid entry).

Definition get_mempool_cluster (txid : string)
    (r : Response (result string (Z * Z * list (list Txid' * Z * Z)))) :
    result ObserverError GetMempoolClusterModel :=
  _ ← parse_txid txid;
  match call r with
  | Ok response => map_err FailedToFetch (cluster ← response; Ok (cluster_model cluster))
  | Err e =>
      if contains "Transaction not in mempool" (error_to_string e)
      then Err (TxNotFoundInMempool (error_to_string e))
      else Err (OtherError (error_to_string e))
  end.

Definition get_raw_mempool_verbose (r : Response (result string (list (Txid' * MempoolEntry)))) :
    result ObserverError (list MempoolEntrySummary) :=
  response ← call r;
  entries ← map_err FailedToFetch response;
  Ok (raw_mempool_model entries).

Definition get_mempool_txids (r : Response (result string (list Txid'))) :
    result ObserverError (gset string) :=
  response ← call r;
  txids ← map_err FailedToFetch response;
  Ok (list_to_set (txid_to_string <$> txids)).

Definition get_mempool_info (r : Response bool) : result ObserverError GetMempoolInfoModel :=
  loaded ← call r; Ok (mkGetMempoolInfoModel loaded).

Definition get_blockchain_info (r : Response GetBlockchainInfoModel) :
    result ObserverError GetBlockchainInfoModel :=
  info ← call r;
  Ok (mkGetBlockchainInfoModel (bci_blocks info) (bci_headers info)
        (bci_verification_progress info) (bci_initial_block_download info)).

Definition get_network_info (r : Response (result string (Z * string))) :
    result ObserverError GetNetworkInfoModel :=
  info ← call r;
  model ← map_err OtherError info;
  let '(version, subversion) := model in Ok (mkGetNetworkInfoModel version subversion).

(** The block hash is parsed first; [valid] is the library's verdict on it. *)
Definition get_block (valid : string → result string unit) (now : Z) (hash : string)
    (r : Response GetBlockVerboseTwo) : result ObserverError GetBlockModel :=
  _ ← map_err InvalidParams (valid hash);
  response ← call r;
  Ok (block_model now response).

Definition get_tip_height (r : Response Z) : result ObserverError Z :=
  count ← call r; Ok (to_i64 count).

Definition get_block_hash (r : Response string) : result ObserverError string := call r.
End retrievers.

(** ** Facts *)

Fixpoint all_chars (p : Ascii.ascii → bool) (s : string) : bool :=
  match s with EmptyString => true | String a s => p a && all_chars p s end.

Lemma starts_app needle s : starts needle (needle +:+ s) = true.
Proof.
  induction needle as [|a needle IH]; simpl; [done|]. by rw bool_decide_eq_true_2.
Qed.

(** [contains] finds a substring wherever it is. *)
Lemma contains_app needle before after : contains needle (before +:+ needle +:+ after) = true.
Proof.
  induction before as [|a before IH]; simpl.
  - destruct (needle +:+ after) as [|b s] eqn:E; simpl.
    + rw -E starts_app. done.
    + by rw -E starts_app.
  - by rw IH orb_true_r.
Qed.

Lemma starts_spec needle s : starts needle s = true → ∃ after, s = needle +:+ after.
Proof.
  revert s. induction needle as [|a needle IH]; intros s; simpl; [by exists s|].
  destruct s as [|b s]; [done|]. intros [->%bool_decide_eq_true Hs]%andb_true_iff.
  destruct (IH s Hs) as [after ->]. by exists after.
Qed.

Lemma contains_spec needle s :
  contains needle s = true ↔ ∃ before after, s = before +:+ needle +:+ after.
Proof.
  split; [|by intros (before & after & ->); apply contains_app].
  induction s as [|a s IH]; simpl; intros [Hs|Hs]%orb_true_iff; try done.
  - apply starts_spec in Hs as [after Hs]. by exists EmptyString, after.
  - apply starts_spec in Hs as [after Hs]. by exists EmptyString, after.
  - destruct (IH Hs) as (before & after & ->). by exists (String a before), after.
Qed.

(** Wrapping the message as a failed fetch does not hide or create a phrase that starts with
    a letter its prefix does not have. *)
Lemma contains_failed a needle msg :
  all_chars (λ b, negb (bool_decide (a = b))) "Failed to fetch: " = true →
  contains (String a needle) (error_to_string (FailedToFetch msg)) = contains (String a needle) msg.
Proof.
  unfold error_to_string. generalize "Failed to fetch: " as pre. intros pre.
  induction pre as [|b pre IH]; simpl; [done|].
  intros [Hb%negb_true_iff Hpre]%andb_true_iff. rw Hb /=. by apply IH.
Qed.

Section classification.
Context `{NodeLibrary}.

Definition NOT_IN_MEMPOOL : string := "Transaction not in mempool".
Definition NO_SUCH_TX : string := "No such mempool transaction".

(** The text of a failed call. *)
Definition failure {A} (r : Response A) : option string :=
  match r with TaskDied msg | CallFailed msg => Some msg | Answered _ => None end.

(** Whether an outcome says that the node does not have the transaction. *)
Definition is_missing {A} (r : result ObserverError A) : Prop :=
  match r with Err (TxNotFoundInMempool _) => True | _ => False end.

Lemma call_failure {A} (r : Response A) msg :
  failure r = Some msg → call r = Err (FailedToFetch msg).
Proof. by destruct r; simpl; intros [= ->]. Qed.

Lemma call_answered {A} (r : Response A) : failure r = None → ∃ a, call r = Ok a ∧ r = Answered a.
Proof. destruct r; simpl; try done. by eexists. Qed.

(** An outcome that is missing exactly when the wrapped failure has the phrase. *)
Lemma missing_iff {A B} (r : Response A) (out : result ObserverError B) a needle :
  all_chars (λ b, negb (bool_decide (a = b))) "Failed to fetch: " = true →
  (∀ msg, failure r = Some msg →
     is_missing out ↔ contains (String a needle) (error_to_string (FailedToFetch msg)) = true) →
  (failure r = None → ¬ is_missing out) →
  is_missing out ↔ ∃ before after, failure r = Some (before +:+ String a needle +:+ after).
Proof.
  intros Ha Hfail Hok. destruct (failure r) as [msg|] eqn:Ef.
  - rw (Hfail msg eq_refl) contains_failed // contains_spec. naive_solver.
  - split; [by intros ?%Hok|by intros (? & ? & ?)].
Qed.

(** C38.  For a txid that parses, each retriever reports the transaction as missing exactly
    when the call failed with the node's own phrase for that method somewhere in its text;
    a dead task, any other failure and an answer that cannot be converted stay errors of
    another kind, so that a failing node is never mistaken for a transaction that left the
    mempool.  An answered cluster keeps the node's transactions in mining order. *)
Theorem missing_tx_told_apart txid t (raw : Response RawTransaction)
    (entry : Response (result string MempoolEntry))
    (cluster : Response (result string (Z * Z * list (list Txid' * Z * Z)))) :
  parse_txid' txid = Ok t →
  (is_missing (get_raw_transaction txid raw) ↔
     ∃ before after, failure raw = Some (before +:+ NO_SUCH_TX +:+ after)) ∧
  (is_missing (get_mempool_entry txid entry) ↔
     ∃ before after, failure entry = Some (before +:+ NOT_IN_MEMPOOL +:+ after)) ∧
  (is_missing (get_mempool_cluster txid cluster) ↔
     ∃ before after, failure cluster = Some (before +:+ NOT_IN_MEMPOOL +:+ after)) ∧
  (∀ weight count chunks, cluster = Answered (Ok (weight, count, chunks)) →
     ∃ model, get_mempool_cluster txid cluster = Ok model ∧
       gmc_txids model = txid_to_string <$> (chunks ≫= λ c, c.1.1) ∧
       length (gmc_chunks model) = length chunks).
Proof.
  intros Hp. split_and!.
  - apply missing_iff; [done| |]; unfold get_raw_transaction, parse_txid; rw Hp /=.
    + intros msg Hf. rw (call_failure _ _ Hf) /= /not_found_as_missing.
      by destruct (contains _ _).
    + intros Hf. destruct (call_answered _ Hf) as (? & -> & _). exact id.
  - apply missing_iff; [done| |]; unfold get_mempool_entry, parse_txid; rw Hp /=.
    + intros msg Hf. rw (call_failure _ _ Hf) /= /not_found_as_missing.
      by destruct (contains _ _).
    + intros Hf. destruct (call_answered _ Hf) as ([] & -> & _); exact id.
  - apply missing_iff; [done| |]; unfold get_mempool_cluster, parse_txid; rw Hp /=.
    + intros msg Hf. rw (call_failure _ _ Hf). by destruct (contains _ _).
    + intros Hf. destruct (call_answered _ Hf) as ([] & -> & _); exact id.
  - intros weight count chunks ->. unfold get_mempool_cluster, parse_txid. rw Hp /=.
    eexists. split; [done|]. unfold gmc_txids, chunks_txids. simpl. rw length_fmap. split; [|done].
    induction chunks as [|[[txs fee] w] chunks IH]; [done|].
    rw fmap_cons !bind_cons fmap_app IH. done.
Qed.
End classification.

(** ** Witness *)

(** A library whose txids are their own text. *)
Definition text_library : NodeLibrary.
Proof.
  refine (Build_NodeLibrary string (λ s, Ok s) (λ t, t) (λ btc, Ok btc)
            (λ s, Some (s * 1000000000)) _).
  by intros s t [= <-].
Defined.

Lemma missing_tx_told_apart_witness :
  is_missing (get_mempool_cluster (H := text_library) "t"
                (CallFailed "RPC error -5: Transaction not in mempool")) ∧
  ¬ is_missing (get_mempool_cluster (H := text_library) "t" (CallFailed "connection refused")).
Proof.
  destruct (missing_tx_told_apart (H := text_library) "t" "t" (TaskDied "") (TaskDied "")
    (CallFailed "RPC error -5: Transaction not in mempool") eq_refl) as (_ & _ & Hm & _).
  split; [|exact id]. apply Hm. exists "RPC error -5: ", "". reflexivity.
Defined.

End Retrievers.
