(* ===== verification/SystemEvents.v ===== *)
(** * The system event log

    [api/src/db/repositories/system_event.rs] and [api/src/services/system_event.rs]: an
    append-only table of lifecycle events with JSON details.  The table lives beside the
    tables of [Db]; a statement on it goes through the same connection and meets the same
    faults. *)

From S2P Require Import Prelude.
From S2P Require Import Models.
From S2P Require Import Database.

Open Scope Z_scope.

Module SystemEvents.
Import Database.

(** ** Details

    The [serde_json::Value]s the program stores are flat objects: names with a scalar
    each. *)
Inductive Scalar :=
| Null
| Bool (b : bool)
| Number (z : Z)
| Str (s : string).

Definition Value : Type := list (string * Scalar).

(** [value[key]]: [Null] when there is no such field. *)
Definition field (key : string) (v : Value) : Scalar :=
  match list_find (λ f, f.1 = key) v with Some (_, f) => f.2 | None => Null end.

Definition as_str (v : Scalar) : option string :=
  match v with Str s => Some s | _ => None end.

(** [json!] of an [Option<String>]. *)
Definition opt_str (o : option string) : Scalar :=
  match o with Some s => Str s | None => Null end.

(** ** Rows *)

Inductive SystemEventKind :=
| ServerStarted
| ServerStopped
| BootstrapStarted
| BootstrapCompleted
| NodeConnected
| NodeDisconnected
| NodeVersionChanged.
#[global] Instance SystemEventKind_eq_dec : EqDecision SystemEventKind.
Proof. solve_decision. Defined.

Definition SystemEventKind_ALL : list SystemEventKind :=
  [ServerStarted; ServerStopped; BootstrapStarted; BootstrapCompleted; NodeConnected;
   NodeDisconnected; NodeVersionChanged].

Record NewSystemEvent := mkNewSystemEvent {
  ne_kind : SystemEventKind;
  ne_details : Value;
}.

Record SystemEventRow := mkSystemEventRow {
  ev_id : Z;
  ev_kind : SystemEventKind;
  ev_details : Value;
  ev_created_at : Z;
}.

(** The table with its identity sequence, and the connection to it. *)
Record Log := mkLog {
  lg_conn : Conn;
  lg_rows : list SystemEventRow;
  lg_seq : Z;
}.

Definition LogM (A : Type) : Type := Log → A * Log.

(** ** Queries *)

Definition of_kind (kind : SystemEventKind) (rows : list SystemEventRow) :
    list SystemEventRow :=
  filter (λ row, ev_kind row = kind) rows.

(** [ORDER BY id DESC LIMIT 1] *)
Definition latest_row (kind : SystemEventKind) (rows : list SystemEventRow) :
    option SystemEventRow :=
  last (sort_by ev_id (of_kind kind rows)).

(** [created_at > from AND created_at <= to], for some row of the kind. *)
Definition exists_in (kind : SystemEventKind) (from to : Z) (rows : list SystemEventRow) :
    bool :=
  existsb (λ row, (from <? ev_created_at row) && (ev_created_at row <=? to)) (of_kind kind rows).

(** The optional bounds of [list], both inclusive. *)
Definition within (from to : option Z) (row : SystemEventRow) : bool :=
  match from with Some from => from <=? ev_created_at row | None => true end &&
  match to with Some to => ev_created_at row <=? to | None => true end.

Section log.
Context `{Env}.

(** One statement on [system_events]; it is given the value of [now()]. *)
Definition on_log {A} (f : Z → list SystemEventRow → Z → A * list SystemEventRow * Z) :
    LogM (result RepoError A) := λ lg,
  match query (statement (λ now db, Ok (now, db))) (lg_conn lg) with
  | (Ok now, c) => let '(a, rows, seq) := f now (lg_rows lg) (lg_seq lg) in
                   (Ok a, mkLog c rows seq)
  | (Err e, c) => (Err e, mkLog c (lg_rows lg) (lg_seq lg))
  end.

Definition read_log {A} (f : list SystemEventRow → A) : LogM (result RepoError A) :=
  on_log (λ _ rows seq, (f rows, rows, seq)).

(** ** The repository *)

Definition insert (event : NewSystemEvent) : LogM (result RepoError nat) :=
  on_log (λ now rows seq,
    (1%nat,
     rows ++ [mkSystemEventRow (seq + 1) (ne_kind event) (ne_details event) now], seq + 1)).

Definition repo_latest_of_kind (kind : SystemEventKind) :
    LogM (result RepoError (option SystemEventRow)) :=
  read_log (latest_row kind).

Definition exists_of_kind_in (kind : SystemEventKind) (from to : Z) :
    LogM (result RepoError bool) :=
  read_log (exists_in kind from to).

Definition repo_list (from to : option Z) : LogM (result RepoError (list SystemEventRow)) :=
  read_log (λ rows, sort_by ev_id (filter (λ row, within from to row) rows)).

(** ** The service

    [shared::api::SystemEvent] has the columns of the row, so the conversion is the
    identity.  A repository error becomes [ApiError::Internal]. *)

Definition record (kind : SystemEventKind) (details : Value) : LogM unit := λ lg,
  let '(_, lg) := insert (mkNewSystemEvent kind details) lg in ((), lg).

Definition latest_of_kind (kind : SystemEventKind) :
    LogM (result ApiError (option SystemEventRow)) := λ lg,
  let '(r, lg) := repo_latest_of_kind kind lg in (map_err Internal r, lg).

Definition list_events (from to : option Z) : LogM (result ApiError (list SystemEventRow)) := λ lg,
  let '(r, lg) := repo_list from to lg in (map_err Internal r, lg).
End log.

(** ** Facts *)

(** The ids of the table increase and the sequence is past them. *)
Definition log_wf (lg : Log) : Prop :=
  StronglySorted (key_le ev_id) (lg_rows lg) ∧ NoDup (ev_id <$> lg_rows lg) ∧
  Forall (λ row, ev_id row ≤ lg_seq lg) (lg_rows lg).

(** The tables the log lives beside. *)
Definition lg_db (lg : Log) : Db := conn_db (lg_conn lg).

Lemma StronglySorted_snoc {A} (R : A → A → Prop) l x :
  StronglySorted R l → Forall (λ y, R y x) l → StronglySorted R (l ++ [x]).
Proof.
  induction 1 as [|y l Hl IH Hy]; intros Hx; simpl; [by repeat constructor|].
  inversion Hx; subst. constructor; [by apply IH|].
  apply Forall_app. split; [done|by repeat constructor].
Qed.

Lemma StronglySorted_filter {A} (R : A → A → Prop) (P : A → Prop) `{∀ x, Decision (P x)} l :
  StronglySorted R l → StronglySorted R (filter P l).
Proof.
  induction 1 as [|y l Hl IH Hy]; [constructor|]. rw filter_cons. case_decide; [|exact IH].
  constructor; [exact IH|]. apply Forall_forall. intros x [_ Hx]%list_elem_of_filter.
  rw Forall_forall in Hy. by apply Hy.
Qed.

(** Sorting rows that are in id order already changes nothing. *)
Lemma sort_by_id (P : SystemEventRow → Prop) `{∀ x, Decision (P x)} lg :
  log_wf lg → sort_by ev_id (filter P (lg_rows lg)) = filter P (lg_rows lg).
Proof.
  intros (Hs & Hnd & _). apply sort_by_unique; [|done|by apply StronglySorted_filter].
  intros x y [_ Hx]%list_elem_of_filter [_ Hy]%list_elem_of_filter.
  by apply (NoDup_key_eq ev_id (lg_rows lg)).
Qed.

Lemma latest_row_last kind lg :
  log_wf lg → latest_row kind (lg_rows lg) = last (of_kind kind (lg_rows lg)).
Proof. intros Hwf. unfold latest_row, of_kind. by rw sort_by_id. Qed.

Section log_facts.
Context `{Env}.

(** Every statement on the log leaves the other tables alone. *)
Lemma on_log_spec {A} (f : Z → list SystemEventRow → Z → A * list SystemEventRow * Z) lg :
  let '(r, lg') := on_log f lg in
  lg_db lg' = lg_db lg ∧
  match r with
  | Ok a => ∃ now, f now (lg_rows lg) (lg_seq lg) = (a, lg_rows lg', lg_seq lg')
  | Err _ => lg_rows lg' = lg_rows lg ∧ lg_seq lg' = lg_seq lg
  end.
Proof.
  unfold on_log, lg_db, query, statement. destruct (pool_fault _); [done|]. simpl.
  destruct (stmt_fault _); [done|]. simpl.
  destruct (f _ _ _) as [[a rows] seq] eqn:E. simpl. split; [done|]. by eexists.
Qed.

Lemma read_log_spec {A} (f : list SystemEventRow → A) lg :
  let '(r, lg') := read_log f lg in
  lg_db lg' = lg_db lg ∧ lg_rows lg' = lg_rows lg ∧ lg_seq lg' = lg_seq lg ∧
  match r with Ok a => a = f (lg_rows lg) | Err _ => True end.
Proof.
  unfold read_log.
  pose proof (on_log_spec (λ _ rows seq, (f rows, rows, seq)) lg) as Hs.
  destruct (on_log _ lg) as [[a|e] lg']; destruct Hs as [Hd Hr].
  - destruct Hr as [now Hr]. by simplify_eq.
  - by destruct Hr as [-> ->].
Qed.

(** Recording appends one row, or nothing when the insert fails. *)
Lemma record_spec kind details lg :
  let lg' := (record kind details lg).2 in
  lg_db lg' = lg_db lg ∧
  (lg_rows lg' = lg_rows lg ∧ lg_seq lg' = lg_seq lg ∨
   ∃ now, lg_rows lg' = lg_rows lg ++ [mkSystemEventRow (lg_seq lg + 1) kind details now] ∧
          lg_seq lg' = lg_seq lg + 1).
Proof.
  unfold record, insert. simpl.
  pose proof (on_log_spec (λ now rows seq, (1%nat,
    rows ++ [mkSystemEventRow (seq + 1) kind details now], seq + 1)) lg) as Hs.
  destruct (on_log _ lg) as [[a|e] lg']; destruct Hs as [Hd Hr]; (split; [done|]); [|by left].
  destruct Hr as [now Hr]. right. exists now. by simplify_eq.
Qed.

Lemma record_wf kind details lg : log_wf lg → log_wf (record kind details lg).2.
Proof.
  intros (Hs & Hnd & Hle). pose proof (record_spec kind details lg) as [_ Hr].
  destruct Hr as [[Hr Hq]|(now & Hr & Hq)]; unfold log_wf; rw Hr Hq; [done|].
  rw Forall_forall in Hle. repeat split.
  - apply StronglySorted_snoc; [done|]. apply Forall_forall. intros row Hrow.
    unfold key_le. simpl. specialize (Hle _ Hrow). lia.
  - rw fmap_app. apply NoDup_app. split; [done|]. split; [|apply NoDup_singleton].
    intros i (row & -> & Hrow)%list_elem_of_fmap ?%list_elem_of_singleton.
    specialize (Hle _ Hrow). simpl in *. lia.
  - apply Forall_app. split; [|repeat constructor; simpl; lia].
    apply Forall_forall. intros row Hrow. specialize (Hle _ Hrow). lia.
Qed.

(** A server that fails nothing. *)
Definition faultless : Prop := ∀ s, pool_fault s = None ∧ stmt_fault s = None.

Lemma on_log_faultless {A} (f : Z → list SystemEventRow → Z → A * list SystemEventRow * Z) lg :
  faultless → ∃ a, (on_log f lg).1 = Ok a.
Proof.
  intros Hf. unfold on_log, query, statement. rw (proj1 (Hf _)). simpl.
  rw (proj2 (Hf _)). simpl. destruct (f _ _ _) as [[a rows] seq]. by exists a.
Qed.

Lemma record_faultless kind details lg :
  faultless → ∃ now, lg_rows (record kind details lg).2 =
                     lg_rows lg ++ [mkSystemEventRow (lg_seq lg + 1) kind details now].
Proof.
  intros Hf. unfold record, insert. simpl.
  set (g := λ now rows seq, _).
  pose proof (on_log_spec g lg) as Hs. destruct (on_log_faultless g lg Hf) as [a Ha].
  destruct (on_log g lg) as [r lg']. simpl in *. subst r. destruct Hs as [_ [now Hr]].
  exists now. unfold g in Hr. by simplify_eq.
Qed.
End log_facts.

End SystemEvents.
