(* ===== verification/NodeHealth.v ===== *)
(** * Node health, readiness and status

    [api/src/services/node_health.rs], [api/src/infra/readiness.rs],
    [api/src/infra/node_wait.rs], [observer/src/watchers/node_status.rs] and
    [api/src/services/node_status.rs].

    At start-up the process polls the node until it is ready, and from then on a watcher
    polls it and publishes a status whenever reachability flips.  Both report to the health
    service, which detects the flips once more and logs them as system events.  The waiting
    loop is generic in the reporter, as in the source: the theorems about when it returns
    hold for any reporter, and the health service is one. *)

From S2P Require Import Prelude.
From S2P Require Import Models.
From S2P Require Import Database.
From S2P Require Import SystemEvents.

Open Scope Z_scope.

Module NodeHealth.
Import Database.
Import SystemEvents.

(** ** The health service *)

Inductive Reachability := Unknown | Reachable | Unreachable.
#[global] Instance Reachability_eq_dec : EqDecision Reachability.
Proof. solve_decision. Defined.

(** [NodeHealthService]; [nh_calls] is the number of [getnetworkinfo] calls made. *)
Record NodeHealthService := mkNodeHealthService {
  nh_log : Log;
  nh_last : Reachability;
  nh_calls : nat;
}.

Definition with_log (lg : Log) (h : NodeHealthService) : NodeHealthService :=
  mkNodeHealthService lg (nh_last h) (nh_calls h).

(** [NodeHealthReporter] *)
Class NodeHealthReporter (H : Type) := {
  observe_reachable : GetBlockchainInfoModel → H → H;
  observe_unreachable : ObserverError → H → H;
}.

Definition transition (observed : Reachability) (h : NodeHealthService) :
    bool * NodeHealthService :=
  if decide (nh_last h = observed) then (false, h)
  else (true, mkNodeHealthService (nh_log h) observed (nh_calls h)).

Section service.
Context `{Env}.

(** The node's answers to [getnetworkinfo], by the number of calls made before. *)
Context (get_network_info : nat → result ObserverError GetNetworkInfoModel).

Definition record_event (kind : SystemEventKind) (details : Value) (h : NodeHealthService) :
    NodeHealthService :=
  with_log (record kind details (nh_log h)).2 h.

Definition check_version (network_info : GetNetworkInfoModel) (h : NodeHealthService) :
    NodeHealthService :=
  let '(r, lg) := latest_of_kind NodeVersionChanged (nh_log h) in
  let h := with_log lg h in
  let previous := match r with Ok previous => previous | Err _ => None end in
  let from_subversion := previous ≫= λ event, as_str (field "to" (ev_details event)) in
  if decide (from_subversion = Some (gni_subversion network_info)) then h
  else record_event NodeVersionChanged
         [("from", opt_str from_subversion); ("to", Str (gni_subversion network_info));
          ("version", Number (gni_version network_info))] h.

Definition nhs_observe_reachable (info : GetBlockchainInfoModel) (h : NodeHealthService) :
    NodeHealthService :=
  let '(changed, h) := transition Reachable h in
  if negb changed then h
  else
    let network_info := result_ok (get_network_info (nh_calls h)) in
    let h := mkNodeHealthService (nh_log h) (nh_last h) (S (nh_calls h)) in
    let h := record_event NodeConnected
               [("blocks", Number (bci_blocks info)); ("headers", Number (bci_headers info));
                ("subversion", opt_str (gni_subversion <$> network_info))] h in
    match network_info with
    | Some network_info => check_version network_info h
    | None => h
    end.

(** [error] is the text of the error. *)
Definition nhs_observe_unreachable (error : string) (h : NodeHealthService) :
    NodeHealthService :=
  let '(changed, h) := transition Unreachable h in
  if negb changed then h
  else record_event NodeDisconnected [("error", Str error)] h.

#[export] Instance service_reporter : NodeHealthReporter NodeHealthService := {
  observe_reachable := nhs_observe_reachable;
  observe_unreachable := λ error, nhs_observe_unreachable (error_to_string error);
}.

(** [NodeStatusService::consume]: one event after the other. *)
Definition consume_one (h : NodeHealthService) (event : NodeStatusEvent) : NodeHealthService :=
  match event with
  | StatusReachable blocks headers verification_progress initial_block_download =>
      nhs_observe_reachable
        (mkGetBlockchainInfoModel blocks headers verification_progress initial_block_download) h
  | StatusUnreachable error => nhs_observe_unreachable error h
  end.
Definition consume (events : list NodeStatusEvent) (h : NodeHealthService) :
    NodeHealthService :=
  foldl consume_one h events.
End service.

(** ** Readiness *)

Inductive Phase := WaitingForNode | Bootstrapping | Ready.
#[global] Instance Phase_eq_dec : EqDecision Phase.
Proof. solve_decision. Defined.

Record NodeReport := mkNodeReport {
  nr_reachable : bool;
  nr_error : option string;
  nr_blocks : option Z;
  nr_headers : option Z;
  nr_verification_progress : option Z;
  nr_initial_block_download : option bool;
  nr_mempool_loaded : option bool;
}.

Definition NodeReport_default : NodeReport := mkNodeReport false None None None None None None.

(** [Readiness], the record behind its lock. *)
Record Readiness := mkReadiness {
  rd_phase : Phase;
  rd_node : NodeReport;
}.

Definition Readiness_default : Readiness := mkReadiness WaitingForNode NodeReport_default.

Definition record_node (info : GetBlockchainInfoModel) (r : Readiness) : Readiness :=
  mkReadiness (rd_phase r)
    (mkNodeReport true None (Some (bci_blocks info)) (Some (bci_headers info))
       (Some (bci_verification_progress info)) (Some (bci_initial_block_download info)) None).

Definition record_mempool_loaded (loaded : bool) (r : Readiness) : Readiness :=
  let n := rd_node r in
  mkReadiness (rd_phase r)
    (mkNodeReport (nr_reachable n) (nr_error n) (nr_blocks n) (nr_headers n)
       (nr_verification_progress n) (nr_initial_block_download n) (Some loaded)).

Definition record_node_error (error : ObserverError) (r : Readiness) : Readiness :=
  mkReadiness (rd_phase r) (mkNodeReport false (Some (error_to_string error)) None None None None None).

Definition set_phase (phase : Phase) (r : Readiness) : Readiness := mkReadiness phase (rd_node r).

Definition is_ready (r : Readiness) : bool := bool_decide (rd_phase r = Ready).

(** [HealthReport]: ready, phase, node. *)
Definition report (r : Readiness) : bool * Phase * NodeReport :=
  (bool_decide (rd_phase r = Ready), rd_phase r, rd_node r).

(** ** Waiting for the node *)

Section wait.
Context {H : Type} `{NodeHealthReporter H}.

(** The node's answers, by the number of the poll. *)
Context (get_blockchain_info : nat → result ObserverError GetBlockchainInfoModel).
Context (get_mempool_info : nat → result ObserverError GetMempoolInfoModel).

(** One iteration of the loop: whether it returns, and what it leaves behind. *)
Definition poll_node (n : nat) (w : H * Readiness) : bool * (H * Readiness) :=
  let '(health, readiness) := w in
  match get_blockchain_info n with
  | Ok info =>
      let readiness := record_node info readiness in
      let health := observe_reachable info health in
      if bci_initial_block_download info then (false, (health, readiness))
      else
        match get_mempool_info n with
        | Ok mempool =>
            if gmi_loaded mempool then (true, (health, record_mempool_loaded true readiness))
            else (false, (health, record_mempool_loaded false readiness))
        | Err _ => (false, (health, readiness))
        end
  | Err e => (false, (observe_unreachable e health, record_node_error e readiness))
  end.

(** The loop from poll [n] on; returns the poll it stopped at. *)
Fixpoint wait_until_ready (fuel n : nat) (w : H * Readiness) : option (nat * (H * Readiness)) :=
  match fuel with
  | O => None
  | S fuel =>
      let '(done, w) := poll_node n w in
      if done : bool then Some (n, w) else wait_until_ready fuel (S n) w
  end.

(** What the loop waits for. *)
Definition node_ready (n : nat) : bool :=
  match get_blockchain_info n, get_mempool_info n with
  | Ok info, Ok mempool => negb (bci_initial_block_download info) && gmi_loaded mempool
  | _, _ => false
  end.

(** What one poll reports to the health service. *)
Definition report_poll (health : H) (answer : result ObserverError GetBlockchainInfoModel) : H :=
  match answer with
  | Ok info => observe_reachable info health
  | Err e => observe_unreachable e health
  end.
End wait.

(** ** The status watcher *)

(** One [watch] on the node's answer; the state is [last_reachable].  It never fails. *)
Definition watch (answer : result ObserverError GetBlockchainInfoModel)
    (last_reachable : option bool) :
    result ObserverError (option NodeStatusEvent) * option bool :=
  let '(is_reachable, event) :=
    match answer with
    | Ok info => (true, reachable info)
    | Err e => (false, unreachable e)
    end in
  if decide (last_reachable = Some is_reachable) then (Ok None, last_reachable)
  else (Ok (Some event), Some is_reachable).

(** What the watcher publishes over a sequence of answers. *)
Fixpoint watch_all (answers : list (result ObserverError GetBlockchainInfoModel))
    (last_reachable : option bool) : list NodeStatusEvent :=
  match answers with
  | [] => []
  | answer :: answers =>
      let '(r, last_reachable) := watch answer last_reachable in
      match r with Ok (Some event) => [event] | _ => [] end ++ watch_all answers last_reachable
  end.

(** ** The log as a function of the observations *)

(** Whether an answer shows the node reachable. *)
Definition answered (answer : result ObserverError GetBlockchainInfoModel) : bool :=
  match answer with Ok _ => true | Err _ => false end.

Definition seen (up : bool) : Reachability := if up then Reachable else Unreachable.
Definition logged_as (up : bool) : SystemEventKind := if up then NodeConnected else NodeDisconnected.

(** One event per change of reachability, none for an observation that confirms it. *)
Fixpoint flips (last : Reachability) (ups : list bool) : list SystemEventKind :=
  match ups with
  | [] => []
  | up :: ups =>
      if decide (last = seen up) then flips last ups
      else logged_as up :: flips (seen up) ups
  end.

(** The connects and disconnects among some rows, in order. *)
Definition connectivity (rows : list SystemEventRow) : list SystemEventKind :=
  filter (λ k, k = NodeConnected ∨ k = NodeDisconnected) (ev_kind <$> rows).

Definition nh_rows (h : NodeHealthService) : list SystemEventRow := lg_rows (nh_log h).

Lemma connectivity_app l1 l2 : connectivity (l1 ++ l2) = connectivity l1 ++ connectivity l2.
Proof. unfold connectivity. by rw fmap_app filter_app. Qed.

Lemma connectivity_one up id details now :
  connectivity [mkSystemEventRow id (logged_as up) details now] = [logged_as up].
Proof. by destruct up. Qed.

Lemma flips_app last ups1 ups2 :
  flips last (ups1 ++ ups2) =
  flips last ups1 ++ flips (default last (seen <$> list.last ups1)) ups2.
Proof.
  revert last. induction ups1 as [|up ups1 IH]; intros lst; [done|].
  rw last_cons. simpl. case_decide as Hd; rw IH; destruct (list.last ups1); simpl; by subst.
Qed.

(** Two events in a row never agree. *)
Lemma flips_alternate last ups i k1 k2 :
  flips last ups !! i = Some k1 → flips last ups !! S i = Some k2 → k1 ≠ k2.
Proof.
  revert last i. induction ups as [|up ups IH]; intros lst i; simpl; [done|].
  case_decide as Hd; [apply IH|]. destruct i as [|i]; simpl; [|apply IH].
  intros [= <-]. clear IH. induction ups as [|up' ups IH]; simpl; [done|].
  case_decide as Hd'; [done|]. intros [= <-]. by destruct up, up'.
Qed.

Section health_facts.
Context `{Env}.
Context (get_network_info : nat → result ObserverError GetNetworkInfoModel).

Local Abbreviation reporter := (service_reporter get_network_info).

(** How an operation extends the log: [l] is what it appended. *)
Definition extends (h h' : NodeHealthService) (l : list SystemEventRow) : Prop :=
  nh_rows h' = nh_rows h ++ l ∧ lg_db (nh_log h') = lg_db (nh_log h) ∧
  (log_wf (nh_log h) → log_wf (nh_log h')).

Lemma record_event_spec kind details h :
  let h' := record_event kind details h in
  nh_last h' = nh_last h ∧
  ∃ l, extends h h' l ∧
    (l = [] ∧ ¬ faultless ∨
     ∃ now, l = [mkSystemEventRow (lg_seq (nh_log h) + 1) kind details now]).
Proof.
  unfold record_event, extends, nh_rows, with_log. simpl. split; [done|].
  pose proof (record_spec kind details (nh_log h)) as [Hd Hr].
  pose proof (record_wf kind details (nh_log h)) as Hwf.
  destruct Hr as [[Hr Hq]|(now & Hr & _)].
  - exists []. rw Hr app_nil_r. split; [done|]. left. split; [done|]. intros Hf.
    destruct (record_faultless kind details (nh_log h) Hf) as [now Hn].
    rw Hr in Hn. apply (f_equal length) in Hn. rw length_app in Hn. simpl in Hn. lia.
  - eexists. rw Hr. split; [done|]. right. by exists now.
Qed.

Lemma check_version_spec info h :
  let h' := check_version info h in
  nh_last h' = nh_last h ∧ nh_calls h' = nh_calls h ∧
  ∃ l, extends h h' l ∧ connectivity l = [].
Proof.
  unfold check_version, latest_of_kind, repo_latest_of_kind.
  pose proof (read_log_spec (latest_row NodeVersionChanged) (nh_log h)) as Hs.
  destruct (read_log _ _) as [r lg]. destruct Hs as (Hd & Hr & Hq & _).
  assert (extends h (with_log lg h) []) as (E1 & E2 & E3).
  { unfold extends, nh_rows. simpl. rw Hr app_nil_r. split; [done|]. split; [done|].
    unfold log_wf. by rw Hr Hq. }
  case_decide; [repeat split; by exists []|].
  set (details := [_; _; _]).
  pose proof (record_event_spec NodeVersionChanged details (with_log lg h))
    as [Hl (l & (F1 & F2 & F3) & Hk)].
  split; [done|]. split; [done|]. exists l. split.
  - split_and!; [by rw F1 E1 app_nil_r|by rw F2|by auto].
  - destruct Hk as [[-> _]|[now ->]]; done.
Qed.

(** Reporting one poll: the log grows by the flip, if there is one and it could be
    written, and by nothing else that concerns reachability. *)
Lemma report_poll_spec answer h :
  let h' := report_poll (H0 := reporter) h answer in
  nh_last h' = seen (answered answer) ∧
  ∃ l, extends h h' l ∧ connectivity l `sublist_of` flips (nh_last h) [answered answer] ∧
    (faultless → connectivity l = flips (nh_last h) [answered answer]).
Proof.
  destruct answer as [info|e]; simpl;
    unfold nhs_observe_reachable, nhs_observe_unreachable, transition; simpl.
  - case_decide as Hd; simpl.
    { split; [done|]. exists []. split; [|done]. unfold extends. by rw app_nil_r. }
    set (h1 := mkNodeHealthService _ _ _). set (details := [_; _; _]).
    pose proof (record_event_spec NodeConnected details h1) as [Hl (l & (E1 & E2 & E3) & Hk)].
    set (h2 := record_event _ _ _) in *.
    assert (extends h h2 l ∧ connectivity l `sublist_of` [NodeConnected] ∧
            (faultless → connectivity l = [NodeConnected])) as (He & Hsub & Heq).
    { split; [done|]. destruct Hk as [[-> Hf]|[now ->]]; (split; [|done]);
        [apply sublist_nil_l|done]. }
    destruct (result_ok _) as [info'|]; [|split; [done|]; by exists l].
    pose proof (check_version_spec info' h2) as (Hl2 & _ & l2 & (F1 & F2 & F3) & Hc).
    split; [by rw Hl2|]. exists (l ++ l2). rw connectivity_app Hc app_nil_r.
    split; [|done]. destruct He as (G1 & G2 & G3).
    split_and!; [by rw F1 G1 app_assoc|by rw F2|by auto].
  - case_decide as Hd; simpl.
    { split; [done|]. exists []. split; [|done]. unfold extends. by rw app_nil_r. }
    set (h1 := mkNodeHealthService _ _ _). set (details := [_]).
    pose proof (record_event_spec NodeDisconnected details h1) as [Hl (l & (E1 & E2 & E3) & Hk)].
    split; [done|]. exists l. split; [done|].
    destruct Hk as [[-> Hf]|[now ->]]; (split; [|done]); [apply sublist_nil_l|done].
Qed.

(** The same for a sequence of polls. *)
Lemma report_polls_spec answers h :
  let h' := foldl (report_poll (H0 := reporter)) h answers in
  let ups := answered <$> answers in
  nh_last h' = default (nh_last h) (seen <$> list.last ups) ∧
  ∃ l, extends h h' l ∧ connectivity l `sublist_of` flips (nh_last h) ups ∧
    (faultless → connectivity l = flips (nh_last h) ups).
Proof.
  revert h. induction answers as [|answer answers IH]; intros h; simpl.
  { split; [done|]. exists []. split; [|done]. unfold extends. by rw app_nil_r. }
  pose proof (report_poll_spec answer h) as (Hl & l & (E1 & E2 & E3) & Hsub & Heq).
  set (h1 := report_poll h answer) in *.
  destruct (IH h1) as (Hl2 & l2 & (F1 & F2 & F3) & Hsub2 & Heq2).
  split. { rw Hl2 Hl last_cons. by destruct (list.last _). }
  exists (l ++ l2). split.
  { split_and!; [by rw F1 E1 app_assoc|by rw F2|by auto]. }
  pose proof (flips_app (nh_last h) [answered answer] (answered <$> answers)) as Ha.
  simpl in Ha. rw connectivity_app Ha. rw Hl in Hsub2 Heq2. simpl in *. split; [by apply sublist_app|].
  intros Hf. by rw Heq // Heq2.
Qed.

(** A poll that confirms what is known does nothing at all. *)
Lemma report_poll_confirms answer h :
  nh_last h = seen (answered answer) → report_poll (H0 := reporter) h answer = h.
Proof.
  intros Hl. destruct answer as [info|e]; simpl;
    unfold nhs_observe_reachable, nhs_observe_unreachable, transition; simpl in *;
    by rw decide_True.
Qed.

(** Consuming the event of an answer is reporting the answer. *)
Lemma consume_one_report answer h :
  consume_one get_network_info h (match answer with Ok info => reachable info | Err e => unreachable e end)
  = report_poll (H0 := reporter) h answer.
Proof. by destruct answer as [[]|e]. Qed.

Lemma consume_watch_all answers last h :
  (∀ up, last = Some up → nh_last h = seen up) →
  consume get_network_info (watch_all answers last) h =
  foldl (report_poll (H0 := reporter)) h answers.
Proof.
  revert last h. induction answers as [|answer answers IH]; intros lst h Hl; [done|].
  simpl. pose proof (consume_one_report answer h) as Hc.
  pose proof (report_poll_spec answer h) as [Hs _].
  destruct answer as [info|e]; unfold watch; case_decide as Hd; simpl in *.
  - rw IH //. f_equal. symmetry. by apply (report_poll_confirms (Ok info)), Hl.
  - unfold consume in *. simpl. rw Hc. apply IH. by intros up [= <-].
  - rw IH //. f_equal. symmetry. by apply (report_poll_confirms (Err e)), Hl.
  - unfold consume in *. simpl. apply IH. by intros up [= <-].
Qed.
End health_facts.

(** ** The waiting loop *)

(** What [/health] reports of a node that is ready. *)
Definition ready_report (info : GetBlockchainInfoModel) : NodeReport :=
  mkNodeReport true None (Some (bci_blocks info)) (Some (bci_headers info))
    (Some (bci_verification_progress info)) (Some (bci_initial_block_download info)) (Some true).

(** A report that hangs together: the chain fields are there exactly when the node is
    reachable, an error exactly when it is not, and a statement about the mempool only
    about a reachable node past its initial download. *)
Definition report_wf (n : NodeReport) : Prop :=
  (nr_reachable n = true → nr_error n = None ∧ is_Some (nr_blocks n) ∧ is_Some (nr_headers n) ∧
     is_Some (nr_verification_progress n) ∧ is_Some (nr_initial_block_download n)) ∧
  (nr_reachable n = false → nr_blocks n = None ∧ nr_headers n = None ∧
     nr_verification_progress n = None ∧ nr_initial_block_download n = None) ∧
  (is_Some (nr_mempool_loaded n) →
     nr_reachable n = true ∧ nr_initial_block_download n = Some false).

Section wait_facts.
Context {H : Type} `{NodeHealthReporter H}.
Context (get_blockchain_info : nat → result ObserverError GetBlockchainInfoModel).
Context (get_mempool_info : nat → result ObserverError GetMempoolInfoModel).

Local Abbreviation poll_node := (poll_node get_blockchain_info get_mempool_info).
Local Abbreviation wait_until_ready := (wait_until_ready get_blockchain_info get_mempool_info).
Local Abbreviation node_ready := (node_ready get_blockchain_info get_mempool_info).

Lemma poll_node_spec n h r :
  let '(done, (h', r')) := poll_node n (h, r) in
  done = node_ready n ∧ h' = report_poll h (get_blockchain_info n) ∧
  rd_phase r' = rd_phase r ∧
  (report_wf (rd_node r) → report_wf (rd_node r')) ∧
  (done = true → ∃ info, get_blockchain_info n = Ok info ∧ rd_node r' = ready_report info).
Proof.
  unfold NodeHealth.poll_node, NodeHealth.node_ready, report_wf.
  destruct (get_blockchain_info n) as [info|e]; simpl; [|by split_and!; naive_solver].
  destruct (bci_initial_block_download info) eqn:Ei; simpl.
  { split_and!; [by destruct (get_mempool_info n)|done..|naive_solver|done]. }
  destruct (get_mempool_info n) as [[[]]|e]; simpl; split_and!; try done; try naive_solver.
  all: intros _; rw Ei; naive_solver.
Qed.

(** The loop returns at the first poll that finds the node ready, and only there; by then it
    has reported every poll, in order, and kept the phase. *)
Lemma wait_until_ready_spec fuel m h r n h' r' :
  wait_until_ready fuel m (h, r) = Some (n, (h', r')) ↔
  (m ≤ n < m + fuel)%nat ∧ node_ready n = true ∧
  (∀ i, (m ≤ i < n)%nat → node_ready i = false) ∧
  h' = foldl report_poll h (get_blockchain_info <$> seq m (S n - m)) ∧
  ∃ info, get_blockchain_info n = Ok info ∧ r' = mkReadiness (rd_phase r) (ready_report info).
Proof.
  revert m h r. induction fuel as [|fuel IH]; intros m h r.
  { split; [done|]. intros (? & _). lia. }
  cbn [NodeHealth.wait_until_ready].
  pose proof (poll_node_spec m h r) as Hp.
  destruct (poll_node m (h, r)) as [done [h1 r1]]. destruct Hp as (-> & -> & Hph & _ & Hdone).
  destruct (node_ready m) eqn:Em.
  - destruct (Hdone eq_refl) as (info & Hi & Hn). split.
    + intros [= <- <- <-]. split_and!; [lia..|done|lia| |].
      * by replace (S m - m)%nat with 1%nat by lia.
      * exists info. split; [done|]. destruct r1; simpl in *. by subst.
    + intros (Hr & Hready & Hfirst & -> & info' & Hi' & ->).
      destruct (decide (n = m)) as [->|]; [|specialize (Hfirst m ltac:(lia)); congruence].
      replace (S m - m)%nat with 1%nat by lia. simpl. destruct r1; simpl in *. congruence.
  - rw IH Hph. assert (∀ k, (S m ≤ k)%nat → seq m (S k - m) = m :: seq (S m) (S k - S m)) as Hs.
    { intros k Hk. replace (S k - m)%nat with (S (S k - S m)) by lia. done. }
    split; intros (Hr & Hready & Hfirst & -> & info & Hi & ->).
    + split_and!; [lia..|done| | |by exists info].
      * intros i Hmi. destruct (decide (i = m)) as [->|]; [done|]. apply Hfirst. lia.
      * by rw Hs; [|lia].
    + assert (n ≠ m) by congruence.
      split_and!; [lia..|done| | |by exists info].
      * intros i Hmi. apply Hfirst. lia.
      * by rw Hs; [|lia].
Qed.
End wait_facts.

(** ** The log of versions *)

(** The version a row says the node changed to. *)
Definition to_version (row : SystemEventRow) : option string :=
  as_str (field "to" (ev_details row)).

Definition versions (rows : list SystemEventRow) : list SystemEventRow :=
  of_kind NodeVersionChanged rows.

Definition last_version (rows : list SystemEventRow) : option string :=
  list.last (versions rows) ≫= to_version.

Section version_chain.
(** Whether reads of the log may fail. *)
Context (lossy : Prop).

(** Each row names the version before it and a different one after it.  Only after a failed
    read may the version before be missing, and the row repeat the one in force. *)
Fixpoint version_chain (prev : option string) (rows : list SystemEventRow) : Prop :=
  match rows with
  | [] => True
  | row :: rows =>
      ∃ to, to_version row = Some to ∧
        (field "from" (ev_details row) = opt_str prev ∧ prev ≠ Some to ∨
         lossy ∧ field "from" (ev_details row) = Null) ∧
        version_chain (Some to) rows
  end.

Lemma version_chain_snoc prev rows row to :
  version_chain prev rows → to_version row = Some to →
  (let cur := match list.last rows with Some r => to_version r | None => prev end in
   field "from" (ev_details row) = opt_str cur ∧ cur ≠ Some to ∨
   lossy ∧ field "from" (ev_details row) = Null) →
  version_chain prev (rows ++ [row]).
Proof.
  revert prev. induction rows as [|r rows IH]; intros prev; simpl.
  - intros _ Ht Hcur. exists to. naive_solver.
  - intros (t & Hrt & Hstep & Hch) Ht Hcur. exists t. split_and!; [done..|].
    apply IH; [done..|]. rw last_cons in Hcur. simpl in *.
    destruct (list.last rows) as [r'|]; [done|]. by rw Hrt in Hcur.
Qed.
End version_chain.

Lemma versions_app l1 l2 : versions (l1 ++ l2) = versions l1 ++ versions l2.
Proof. unfold versions, of_kind. apply filter_app. Qed.

Section version_facts.
Context `{Env}.
Context (get_network_info : nat → result ObserverError GetNetworkInfoModel).

Local Abbreviation reporter := (service_reporter get_network_info).

Definition version_log (h : NodeHealthService) : Prop :=
  log_wf (nh_log h) ∧ version_chain (¬ faultless) None (versions (nh_rows h)).

Lemma record_other_version_log kind details h :
  kind ≠ NodeVersionChanged → version_log h →
  version_log (record_event kind details h) ∧
  versions (nh_rows (record_event kind details h)) = versions (nh_rows h).
Proof.
  intros Hk [Hwf Hc].
  pose proof (record_event_spec kind details h) as [_ (l & (E1 & _ & E3) & Hl)].
  assert (versions l = []) as Hv.
  { destruct Hl as [[-> _]|[now ->]]; [done|]. unfold versions, of_kind.
    by rw filter_cons_False. }
  unfold version_log. rw E1 versions_app Hv app_nil_r. by auto.
Qed.

Lemma check_version_log info h :
  version_log h → version_log (check_version info h) ∧
  (faultless → last_version (nh_rows (check_version info h)) = Some (gni_subversion info)).
Proof.
  intros [Hwf Hc]. unfold check_version, latest_of_kind, repo_latest_of_kind.
  pose proof (read_log_spec (latest_row NodeVersionChanged) (nh_log h)) as Hs.
  pose proof (on_log_faultless
    (λ _ rows seq, (latest_row NodeVersionChanged rows, rows, seq)) (nh_log h)) as Hfl.
  change (on_log _ _) with (read_log (latest_row NodeVersionChanged) (nh_log h)) in Hfl.
  destruct (read_log _ _) as [r lg]. destruct Hs as (Hd & Hr & Hq & Hok). simpl in Hfl.
  assert (log_wf lg) as Hwf' by (unfold log_wf; by rw Hr Hq).
  set (from := _ ≫= _). assert (from = last_version (nh_rows h) ∨ from = None ∧ ¬ faultless) as Hfrom.
  { unfold from, last_version. destruct r as [o|e].
    - left. subst o. by rw latest_row_last.
    - right. split; [done|]. intros Hf. destruct (Hfl Hf) as [a [=]]. }
  unfold version_log, nh_rows in *. case_decide as Hd'.
  { rw /= Hr. split; [done|]. intros Hf. destruct Hfrom as [<-|[_ Hn]]; [done|by destruct Hn]. }
  set (details := [_; _; _]).
  pose proof (record_event_spec NodeVersionChanged details (with_log lg h))
    as [_ (l & (E1 & _ & E3) & Hl)]. unfold nh_rows in E1. simpl in E1, E3. rw E1 Hr versions_app.
  destruct Hl as [[-> Hf]|[now ->]].
  { change (versions []) with (@nil SystemEventRow). rw !app_nil_r.
    split; [|by intros ?%Hf]. split; [by apply E3|done]. }
  unfold last_version. rw versions_app. set (row := mkSystemEventRow _ _ _ _).
  replace (versions [row]) with [row] by done. rw last_snoc.
  split; [|done]. split; [by apply E3|].
  apply (version_chain_snoc _ _ _ _ (gni_subversion info)); [done..|].
  unfold row, details. cbn -[list.last versions].
  destruct Hfrom as [Hf|[Hf Hn]]; [left|right; by rw Hf].
  unfold last_version in Hf. by destruct (list.last _) as [r'|]; simpl in Hf; rw -Hf.
Qed.

Lemma report_poll_version_log answer h :
  version_log h → version_log (report_poll (H0 := reporter) h answer).
Proof.
  intros Hv. destruct answer as [info|e]; simpl;
    unfold nhs_observe_reachable, nhs_observe_unreachable, transition; simpl;
    case_decide as Hd; try done; simpl.
  - set (h1 := mkNodeHealthService _ _ _). set (details := [_; _; _]).
    destruct (record_other_version_log NodeConnected details h1) as [Hv1 _]; [done..|].
    destruct (result_ok _) as [info'|]; [|done]. by apply check_version_log.
  - by apply record_other_version_log.
Qed.
End version_facts.

(** ** Theorems *)

Section theorems.
Context `{Env}.
Context (get_network_info : nat → result ObserverError GetNetworkInfoModel).
Context (get_blockchain_info : nat → result ObserverError GetBlockchainInfoModel).
Context (get_mempool_info : nat → result ObserverError GetMempoolInfoModel).

Local Abbreviation reporter := (service_reporter get_network_info).

(** C27.  From start-up on, the log of connects and disconnects is exactly the sequence of
    changes of reachability: the polls of the waiting loop and, after it, those of the status
    watcher, whose events reach the health service through its own change detection.  An
    observation that changes nothing is not logged twice, nothing is logged that was not
    observed, and when statements fail the log only misses events.  No other table is
    touched. *)
Theorem node_log_is_flips h r fuel n h' r' answers :
  nh_last h = Unknown →
  wait_until_ready (H0 := reporter) get_blockchain_info get_mempool_info fuel 0 (h, r)
    = Some (n, (h', r')) →
  let h'' := consume get_network_info (watch_all answers None) h' in
  let ups := answered <$> (get_blockchain_info <$> seq 0 (S n)) ++ answers in
  ∃ l, nh_rows h'' = nh_rows h ++ l ∧ lg_db (nh_log h'') = lg_db (nh_log h) ∧
    connectivity l `sublist_of` flips Unknown ups ∧
    (faultless → connectivity l = flips Unknown ups).
Proof.
  intros Hfresh Hwait. apply wait_until_ready_spec in Hwait as (_ & _ & _ & -> & _).
  cbv zeta. rw consume_watch_all // -foldl_app Nat.sub_0_r -Hfresh.
  set (polls := _ ++ _).
  pose proof (report_polls_spec get_network_info polls h) as (_ & l & (E1 & E2 & _) & Hs & He).
  by exists l.
Qed.

(** Start-up waits for exactly the first poll at which the node answers, is past its
    initial block download and has loaded its mempool, whatever the reporter: with more fuel
    than that the loop returns there, with any fuel it returns nowhere else.  By then every
    poll has been reported once and in order, the health report describes the ready node,
    and the phase is still the one it started with. *)
Theorem wait_returns_at_first_ready {R : Type} `{NodeHealthReporter R} (h : R) r fuel n h' r' :
  wait_until_ready get_blockchain_info get_mempool_info fuel 0 (h, r) = Some (n, (h', r')) ↔
  (n < fuel)%nat ∧ node_ready get_blockchain_info get_mempool_info n = true ∧
  (∀ i, (i < n)%nat → node_ready get_blockchain_info get_mempool_info i = false) ∧
  h' = foldl report_poll h (get_blockchain_info <$> seq 0 (S n)) ∧
  ∃ info, get_blockchain_info n = Ok info ∧ r' = mkReadiness (rd_phase r) (ready_report info).
Proof.
  rw wait_until_ready_spec Nat.sub_0_r. split.
  - intros (Hn & Hr & Hf & Hh & Hi). split_and!; [lia|done| |done..]. intros i Hlt. apply Hf. lia.
  - intros (Hn & Hr & Hf & Hh & Hi). split_and!; [lia|lia|done| |done|done]. intros i Hlt. apply Hf. lia.
Qed.

(** The two detectors of change compose to one: consuming what a freshly started
    watcher publishes leaves the health service, its log and the tables exactly as if every
    poll had been reported to it directly. *)
Theorem watcher_is_transparent answers h :
  consume get_network_info (watch_all answers None) h =
  foldl (report_poll (H0 := reporter)) h answers.
Proof. by apply consume_watch_all. Qed.

(** The version rows form a chain, whatever the node answers and whatever fails: each
    names the version logged before it and a different version after it, except that a row
    written after a failed read may lack the former.  When nothing fails, a node that comes
    back and reports its version leaves exactly that version as the last one logged. *)
Theorem version_log_is_chain h :
  version_log h →
  (∀ answers, version_log (foldl (report_poll (H0 := reporter)) h answers)) ∧
  (faultless → nh_last h ≠ Reachable →
   ∀ info ni, get_network_info (nh_calls h) = Ok ni →
     last_version (nh_rows (nhs_observe_reachable get_network_info info h))
     = Some (gni_subversion ni)).
Proof.
  intros Hv. split.
  - intros answers. revert h Hv. induction answers as [|answer answers IH]; intros h Hv; [done|].
    simpl. by apply IH, report_poll_version_log.
  - intros Hf Hl info ni Hni. unfold nhs_observe_reachable, transition.
    rw decide_False //= Hni /=. set (h1 := mkNodeHealthService _ _ _). set (details := [_; _; _]).
    destruct (record_other_version_log NodeConnected details h1) as [Hv1 _]; [done..|].
    by apply check_version_log.
Qed.

(** At every poll of the waiting loop the health report is well formed: chain fields
    exactly for a reachable node, an error only for an unreachable one, and a statement about
    the mempool only for a node past its initial download; the phase does not move and the
    routes stay closed. *)
Theorem readiness_report_is_wf {R : Type} `{NodeHealthReporter R} (h : R) k :
  let r := (foldl (λ w n, (poll_node get_blockchain_info get_mempool_info n w).2)
                  (h, Readiness_default) (seq 0 k)).2 in
  report_wf (rd_node r) ∧ rd_phase r = WaitingForNode ∧ is_ready r = false.
Proof.
  cbv zeta.
  assert (∀ ns w, report_wf (rd_node w.2) ∧ rd_phase w.2 = WaitingForNode →
    let r := (foldl (λ w n, (poll_node get_blockchain_info get_mempool_info n w).2) w ns).2 in
    report_wf (rd_node r) ∧ rd_phase r = WaitingForNode) as Hgen.
  { induction ns as [|n ns IH]; intros [h1 r1] [Hwf Hph]; [done|]. cbn [foldl]. apply IH.
    pose proof (poll_node_spec get_blockchain_info get_mempool_info n h1 r1) as Hp.
    destruct (poll_node _ _ _ _) as [d [h2 r2]]. destruct Hp as (_ & _ & Hp & Hw & _).
    simpl in *. split; [by apply Hw|congruence]. }
  destruct (Hgen (seq 0 k) (h, Readiness_default)) as [Hw Hp].
  { split; [|done]. unfold report_wf. simpl. naive_solver. }
  split_and!; [done..|]. unfold is_ready. by rw Hp.
Qed.
End theorems.

(** ** Witnesses *)

Definition sample_info (ibd : bool) : GetBlockchainInfoModel :=
  mkGetBlockchainInfoModel 100 100 0 ibd.

(** Down, then syncing, then ready. *)
Definition scripted_chain (n : nat) : result ObserverError GetBlockchainInfoModel :=
  match n with
  | 0 => Err (FailedToFetch "down")
  | 1 => Ok (sample_info true)
  | _ => Ok (sample_info false)
  end%nat.
Definition scripted_mempool (n : nat) : result ObserverError GetMempoolInfoModel :=
  Ok (mkGetMempoolInfoModel (bool_decide (2 < n)%nat)).
Definition scripted_network (n : nat) : result ObserverError GetNetworkInfoModel :=
  Ok (mkGetNetworkInfoModel 310000 (if decide (n = 0%nat) then "/Satoshi:31.0.0/" else "/Satoshi:31.1.0/")).

Definition fresh_health : NodeHealthService :=
  mkNodeHealthService (mkLog (mkConn empty_db 0 None) [] 0) Unknown 0.

Definition later_answers : list (result ObserverError GetBlockchainInfoModel) :=
  [Ok (sample_info false); Err (FailedToFetch "down"); Err (FailedToFetch "down");
   Ok (sample_info false)].

Definition waited_health : NodeHealthService * Readiness :=
  match wait_until_ready (H0 := service_reporter (H := calm_env) scripted_network)
          scripted_chain scripted_mempool 9 0 (fresh_health, Readiness_default) with
  | Some (_, w) => w
  | None => (fresh_health, Readiness_default)
  end.

Lemma node_log_is_flips_witness :
  let h'' := consume (H := calm_env) scripted_network (watch_all later_answers None)
               waited_health.1 in
  let ups := answered <$> (scripted_chain <$> seq 0 4) ++ later_answers in
  flips Unknown ups = [NodeDisconnected; NodeConnected; NodeDisconnected; NodeConnected] ∧
  ∃ l, nh_rows h'' = nh_rows fresh_health ++ l ∧
    lg_db (nh_log h'') = lg_db (nh_log fresh_health) ∧
    connectivity l `sublist_of` flips Unknown ups ∧
    (faultless (H := calm_env) → connectivity l = flips Unknown ups).
Proof.
  split; [reflexivity|].
  apply (node_log_is_flips (H := calm_env) scripted_network scripted_chain scripted_mempool
    fresh_health Readiness_default 9 3 waited_health.1 waited_health.2 later_answers);
    reflexivity.
Defined.

Lemma version_log_is_chain_witness :
  versions (nh_rows (foldl (report_poll (H0 := service_reporter (H := calm_env) scripted_network))
                           fresh_health later_answers)) ≠ [] ∧
  (∀ answers, version_log (H := calm_env)
     (foldl (report_poll (H0 := service_reporter (H := calm_env) scripted_network))
            fresh_health answers)) ∧
  (faultless (H := calm_env) → nh_last fresh_health ≠ Reachable →
   ∀ info ni, scripted_network (nh_calls fresh_health) = Ok ni →
     last_version (nh_rows (nhs_observe_reachable (H := calm_env) scripted_network info fresh_health))
     = Some (gni_subversion ni)).
Proof.
  split; [vm_compute; discriminate|].
  apply (version_log_is_chain (H := calm_env) scripted_network fresh_health).
  split; [|exact I]. split_and!; repeat constructor.
Defined.

End NodeHealth.
