(* ===== verification/Watchers.v ===== *)
(** * Watchers

    [observer/src/watchers/watcher_trait.rs], [feerate_diagram.rs], [mempool_delta.rs] and
    [block.rs], with [shared/src/snapshot/feerate_diagram.rs] and
    [api/src/services/feerate_diagram.rs]: what one poll of the node, or one message of its
    block stream, does.  The loops around them only sleep; a run is the sequence of its
    polls.  What the node answers to a poll is an argument, see [Retrievers]. *)

From S2P Require Import Prelude.
From S2P Require Import Models.
From S2P Require Import Ledger.
From S2P Require Import Retrievers.
From S2P Require Import NodeHealth.

Open Scope Z_scope.

Module Watchers.
Import Retrievers.

(** ** Polling *)

(** [WatcherRPC]: [Some] when the data changed and is to be published. *)
Class WatcherRPC (W Answer Resp Event : Type) := {
  watch : Answer → W → result ObserverError (option Resp) * W;
  to_event : W → Resp → Event;
}.

Section polling.
Context {W Answer Resp Event : Type} `{WatcherRPC W Answer Resp Event}.

(** One poll on the watcher and the events published so far. *)
Definition poll_once (st : W * list Event) (answer : Answer) : W * list Event :=
  let '(w, published) := st in
  match watch answer w with
  | (Ok (Some response), w) => (w, published ++ [to_event w response])
  | (Ok None, w) => (w, published)
  | (Err _, w) => (w, published)
  end.

(** [run], for as many polls as there are answers. *)
Definition run_polls (answers : list Answer) (w : W) : W * list Event :=
  foldl poll_once (w, []) answers.
End polling.

(** The status watcher is one of them. *)
#[export] Instance node_status_watcher :
  WatcherRPC (option bool) (result ObserverError GetBlockchainInfoModel)
             NodeStatusEvent NodeStatusEvent := {
  watch := NodeHealth.watch;
  to_event := λ _ response, response;
}.

(** ** The feerate diagram *)

Record FeerateDiagramPoint := mkFeerateDiagramPoint { fp_weight : Z; fp_fee_sats : Z }.
#[global] Instance FeerateDiagramPoint_eq_dec : EqDecision FeerateDiagramPoint.
Proof. solve_decision. Defined.

(** Also the state of [FeerateDiagramSnapshot]. *)
Record MempoolFeerateDiagram := mkMempoolFeerateDiagram {
  fd_sampled_at : option Z;
  fd_points : list FeerateDiagramPoint;
}.

Definition MempoolFeerateDiagram_default : MempoolFeerateDiagram := mkMempoolFeerateDiagram None [].

(** The tracker's last points, and the snapshot shared with the api. *)
Record FeerateDiagramWatcher := mkFeerateDiagramWatcher {
  fw_last_points : list FeerateDiagramPoint;
  fw_snapshot : MempoolFeerateDiagram;
}.

Definition FeerateDiagramWatcher_new : FeerateDiagramWatcher :=
  mkFeerateDiagramWatcher [] MempoolFeerateDiagram_default.

(** [feerate_diagram_points], of the weights and fees in satoshis that [into_model] gives. *)
Definition feerate_diagram_points (response : result string (list (Z * Z))) :
    result string (list FeerateDiagramPoint) :=
  match response with
  | Ok model => Ok ((λ point, mkFeerateDiagramPoint point.1 (to_i64 point.2)) <$> model)
  | Err e => Err e
  end.

(** [FeerateDiagramTracker::update] *)
Definition tracker_update (last_points points : list FeerateDiagramPoint) :
    bool * list FeerateDiagramPoint :=
  if decide (last_points = points) then (false, last_points) else (true, points).

(** [FeerateDiagramSnapshot::store] and [get] on the record behind the lock. *)
Definition snapshot_store (diagram : MempoolFeerateDiagram) (w : FeerateDiagramWatcher) :
    FeerateDiagramWatcher :=
  mkFeerateDiagramWatcher (fw_last_points w) diagram.
Definition snapshot_get (w : FeerateDiagramWatcher) : MempoolFeerateDiagram := fw_snapshot w.

(** [FeerateDiagramService::current] *)
Definition current_diagram (w : FeerateDiagramWatcher) : MempoolFeerateDiagram := snapshot_get w.

Definition feerate_record (now : Z) (points : list FeerateDiagramPoint)
    (w : FeerateDiagramWatcher) : bool * FeerateDiagramWatcher :=
  let '(changed, last_points) := tracker_update (fw_last_points w) points in
  (changed, snapshot_store (mkMempoolFeerateDiagram (Some now) points)
              (mkFeerateDiagramWatcher last_points (fw_snapshot w))).

(** The time of a poll and what the node answered. *)
Definition FeerateAnswer : Type := Z * Response (result string (list (Z * Z))).

Definition feerate_watch (answer : FeerateAnswer) (w : FeerateDiagramWatcher) :
    result ObserverError (option unit) * FeerateDiagramWatcher :=
  let '(now, r) := answer in
  match call r with
  | Err e => (Err e, w)
  | Ok raw =>
      match map_err FailedToFetch (feerate_diagram_points raw) with
      | Err e => (Err e, w)
      | Ok points =>
          let '(changed, w) := feerate_record now points w in
          (Ok (if changed : bool then Some () else None), w)
      end
  end.

#[export] Instance feerate_watcher :
  WatcherRPC FeerateDiagramWatcher FeerateAnswer unit MempoolFeerateDiagram := {
  watch := feerate_watch;
  to_event := λ w _, snapshot_get w;
}.

(** ** The mempool *)

Section mempool.
Context `{EnumOrder}.

(** [MempoolDeltaWatcher::poll_once]: [fetched] is [get_mempool_txids] of the answer. *)
Definition mempool_poll_once (now : nat → Z) (fetched : result ObserverError (gset string))
    (ledger : Ledger.Inner) : Ledger.Inner :=
  match fetched with
  | Ok txids => Ledger.submit_authoritative now txids ledger
  | Err _ => ledger
  end.
End mempool.

(** ** Blocks *)

Inductive ZmqMessage :=
| HashBlock (hash : string)
| OtherMessage (description : string).

(** [BlockWatcher::handle_message]; the event is the hash. *)
Definition handle_message (msg : ZmqMessage) : result ObserverError string :=
  match msg with
  | HashBlock hash => Ok hash
  | OtherMessage description =>
      Err (InvalidZmqMessage ("unexpected ZMQ message type: " +:+ description))
  end.

(** [WatcherZMQ::handle_one]: a message that cannot be handled is dropped. *)
Definition handle_one (msg : ZmqMessage) (published : list string) : list string :=
  match handle_message msg with
  | Ok event => published ++ [event]
  | Err _ => published
  end.

(** What the socket's stream yields: a message, an event of the socket's life, or bytes
    that do not decode. *)
Inductive SocketItem :=
| SocketMessage (msg : ZmqMessage)
| SocketEvent (disconnected : bool)
| DecodeError.

(** The hashes published, and the counters by which a flapping node shows. *)
Record ZmqState := mkZmqState {
  zs_published : list string;
  zs_messages : nat;
  zs_errors : nat;
  zs_reconnects : nat;
}.

Definition is_handled (msg : ZmqMessage) : bool :=
  match handle_message msg with Ok _ => true | Err _ => false end.

(** [WatcherZMQ::handle_socket_event] counts a disconnect; [libzmq] reconnects by itself. *)
Definition handle_socket_event (disconnected : bool) (s : ZmqState) : ZmqState :=
  if disconnected
  then mkZmqState (zs_published s) (zs_messages s) (zs_errors s) (S (zs_reconnects s))
  else s.

(** One item of the stream. *)
Definition zmq_item (s : ZmqState) (item : SocketItem) : ZmqState :=
  match item with
  | SocketMessage msg =>
      mkZmqState (handle_one msg (zs_published s)) (S (zs_messages s))
        (if is_handled msg then zs_errors s else S (zs_errors s)) (zs_reconnects s)
  | SocketEvent disconnected => handle_socket_event disconnected s
  | DecodeError =>
      mkZmqState (zs_published s) (S (zs_messages s)) (S (zs_errors s)) (zs_reconnects s)
  end.

(** One turn of the loop of [WatcherZMQ::run]: the subscription fails, or its stream is
    read to the end; either way the loop sleeps and goes round. *)
Definition zmq_session (s : ZmqState) (session : option (list SocketItem)) : ZmqState :=
  let s := match session with None => s | Some items => foldl zmq_item s items end in
  mkZmqState (zs_published s) (zs_messages s) (zs_errors s) (S (zs_reconnects s)).

Definition zmq_run (sessions : list (option (list SocketItem))) (s : ZmqState) : ZmqState :=
  foldl zmq_session s sessions.

(** [WatcherRPC::run]: how long the loop sleeps after a poll; [None] is an overrun. *)
Definition rpc_sleep (rate elapsed : Z) : option Z :=
  if elapsed <? rate then Some (rate - elapsed) else None.

(** ** What a run publishes *)

(** The diagram of a poll that succeeded. *)
Definition fetched_diagram (answer : FeerateAnswer) : option MempoolFeerateDiagram :=
  raw ← result_ok (call answer.2);
  points ← result_ok (feerate_diagram_points raw);
  Some (mkMempoolFeerateDiagram (Some answer.1) points).

(** Of a sequence of diagrams, those whose points differ from the ones before. *)
Fixpoint changed_diagrams (last : list FeerateDiagramPoint) (ds : list MempoolFeerateDiagram) :
    list MempoolFeerateDiagram :=
  match ds with
  | [] => []
  | d :: ds =>
      if decide (last = fd_points d) then changed_diagrams last ds
      else d :: changed_diagrams (fd_points d) ds
  end.

Lemma feerate_poll_spec answer w published :
  poll_once (w, published) answer =
  match fetched_diagram answer with
  | None => (w, published)
  | Some d =>
      (mkFeerateDiagramWatcher (fd_points d) d,
       published ++ (if decide (fw_last_points w = fd_points d) then [] else [d]))
  end.
Proof.
  destruct answer as [now r]. unfold poll_once, fetched_diagram. simpl.
  unfold feerate_watch. destruct (call r) as [raw|e]; simpl; [|done].
  destruct (feerate_diagram_points raw) as [points|e]; simpl; [|done].
  unfold feerate_record, tracker_update, snapshot_store. simpl.
  destruct (decide (fw_last_points w = points)) as [Heq|]; simpl; [|done].
  by rw app_nil_r Heq.
Qed.

Lemma feerate_polls_spec answers w published :
  let ds := omap fetched_diagram answers in
  foldl poll_once (w, published) answers =
  (match last ds with
   | Some d => mkFeerateDiagramWatcher (fd_points d) d
   | None => w
   end,
   published ++ changed_diagrams (fw_last_points w) ds).
Proof.
  revert w published. induction answers as [|answer answers IH]; intros w published.
  { simpl. by rw app_nil_r. }
  cbn [foldl]. rw feerate_poll_spec omap_cons.
  destruct (fetched_diagram answer) as [d|]; simpl option_list; [|by rw IH].
  rw IH. simpl fw_last_points. cbn [app]. rw last_cons. f_equal.
  - by destruct (last _).
  - cbn [changed_diagrams]. destruct (decide _) as [Heq|].
    + by rw app_nil_r -Heq.
    + by rw -app_assoc.
Qed.

(** After any sequence of polls the served feerate diagram is that of the last poll
    that succeeded, with its time, whatever failed since; before the first one it is the
    empty, unsampled one.  The events published are exactly the successful polls whose
    points differ from those of the one before, each with its own points and time. *)
Theorem feerate_diagram_is_last_good answers :
  let '(w, published) := run_polls answers FeerateDiagramWatcher_new in
  let ds := omap fetched_diagram answers in
  current_diagram w = default MempoolFeerateDiagram_default (last ds) ∧
  published = changed_diagrams [] ds.
Proof.
  unfold run_polls. rw feerate_polls_spec. cbv zeta. split; [|done].
  by destruct (last _).
Qed.

(** The published statuses are those of [NodeHealth.watch_all]. *)
Lemma node_status_polls answers lst published :
  (foldl poll_once (lst, published) answers).2 = published ++ NodeHealth.watch_all answers lst.
Proof.
  revert lst published. induction answers as [|answer answers IH]; intros lst published.
  { by rw app_nil_r. }
  cbn [foldl NodeHealth.watch_all]. unfold poll_once at 2. simpl watch.
  destruct (NodeHealth.watch answer lst) as [[[event|]|e] lst']; rw IH //.
  by rw -app_assoc.
Qed.

Section mempool_facts.
Context `{EnumOrder}.

(** A poll that succeeds makes the ledger's live set the node's; one that fails changes
    nothing. *)
Lemma mempool_poll_live now fetched ledger :
  match fetched with
  | Ok txids => Ledger.live (mempool_poll_once now fetched ledger) = txids
  | Err _ => mempool_poll_once now fetched ledger = ledger
  end.
Proof. by destruct fetched. Qed.
End mempool_facts.

(** ** The ZMQ loop *)

Definition received (session : option (list SocketItem)) : list SocketItem := default [] session.

Definition published_hash (item : SocketItem) : option string :=
  match item with SocketMessage (HashBlock hash) => Some hash | _ => None end.

Lemma zmq_items_publish items s :
  zs_published (foldl zmq_item s items) = zs_published s ++ omap published_hash items.
Proof.
  revert s. induction items as [|item items IH]; intros s; cbn [foldl]; [by rw app_nil_r|].
  rw IH. destruct item as [[hash|d]|[]|]; simpl; [by rw -app_assoc|done..].
Qed.

Lemma zmq_items_count items s :
  (zs_messages (foldl zmq_item s items) + zs_errors s =
   zs_messages s + zs_errors (foldl zmq_item s items) + length (omap published_hash items))%nat.
Proof.
  revert s. induction items as [|item items IH]; intros s; cbn [foldl]; [simpl; lia|].
  pose proof (IH (zmq_item s item)) as Hi. revert Hi. generalize (foldl zmq_item (zmq_item s item) items).
  assert (∀ x l, length (omap published_hash (x :: l)) = (length (option_list (published_hash x)) + length (omap published_hash l))%nat) as Ho.
  { intros x l. cbn. by destruct (published_hash x). }
  rw Ho. generalize (length (omap published_hash items)). intros k s' Hi.
  destruct item as [[hash|d]|[]|]; unfold zmq_item, is_handled, handle_message in *;
    cbn [zs_messages zs_errors] in *; simpl in *; lia.
Qed.

(** Across any number of dropped streams and failed subscriptions, every block hash the
    socket delivered is published once and in order, nothing else is, and every message that
    was taken off the socket is either published or counted as an error. *)
Theorem zmq_run_publishes sessions s :
  let s' := zmq_run sessions s in
  let hashes := omap published_hash (sessions ≫= received) in
  zs_published s' = zs_published s ++ hashes ∧
  (zs_messages s' + zs_errors s = zs_messages s + zs_errors s' + length hashes)%nat ∧
  (zs_reconnects s + length sessions ≤ zs_reconnects s')%nat.
Proof.
  cbv zeta. revert s. induction sessions as [|session sessions IH]; intros s.
  - unfold zmq_run. simpl. rw app_nil_r. split_and!; [done|lia|lia].
  - unfold zmq_run in *. cbn [foldl]. specialize (IH (zmq_session s session)) as (I1 & I2 & I3).
    rw I1 bind_cons omap_app length_app.
    assert (zs_published (zmq_session s session) = zs_published s ++ omap published_hash (received session) ∧
      (zs_messages (zmq_session s session) + zs_errors s
       = zs_messages s + zs_errors (zmq_session s session) + length (omap published_hash (received session)))%nat ∧
      (zs_reconnects s < zs_reconnects (zmq_session s session))%nat) as (S1 & S2 & S3).
    { destruct session as [items|]; simpl.
      - rw zmq_items_publish. pose proof (zmq_items_count items s). split_and!; [done|lia|].
        apply le_n_S. clear. revert s. induction items as [|item items IH]; intros s; [done|].
        cbn [foldl]. etrans; [|apply IH]. destruct item as [?|[]|]; simpl; lia.
      - rw app_nil_r. split_and!; [done|lia|lia]. }
    rw S1 app_assoc. simpl length. split_and!; [done|lia|lia].
Qed.

(** Polls start one rate apart unless one overran. *)
Lemma rpc_sleep_paces rate elapsed :
  0 ≤ elapsed → match rpc_sleep rate elapsed with
                | Some d => elapsed + d = rate ∧ 0 < d ≤ rate
                | None => rate ≤ elapsed
                end.
Proof. intros He. unfold rpc_sleep. destruct (Z.ltb_spec elapsed rate); lia. Qed.

End Watchers.
