(* ===== verification/ClusterRepo.v ===== *)
(** * Cluster repositories

    [api/src/db/repositories/cluster.rs] (the lookups) and
    [api/src/db/repositories/cluster_membership.rs] (every write to [clusters],
    [cluster_chunks] and the [transactions.cluster_id] back-link).  Each SQL
    statement is a function on the tables; each method strings its statements
    together in the order of the code, inside the transactions of the code. *)

From S2P Require Import Prelude.
From S2P Require Import Models.
From S2P Require Import Database.

Open Scope Z_scope.

Module ClusterRepo.
Import Database.

Definition TRANSACTION_INSERT_CHUNK_SIZE : nat := Z.to_nat 1000.
Definition MEMPOOL_DELTA_INSERT_CHUNK_SIZE : nat := Z.to_nat 10000.
Definition CLUSTER_CHUNK_INSERT_CHUNK_SIZE : nat := Z.to_nat 9000.
Definition ACTIVE_IDS_JOIN_MIN_TXIDS : nat := 64.

Record ClusterVersionUpdate := mkClusterVersionUpdate {
  cvu_cluster_id : Z;
  cvu_chunks : list ClusterChunk;
}.

Inductive ClusterClosing := ClosingEvicted | ClosingMerged.
Definition closing_status (c : ClusterClosing) : ClusterStatus :=
  match c with ClosingEvicted => Evicted | ClosingMerged => Merged end.

Record ChunkSums := mkChunkSums { sums_weight : Z; sums_fee : Z }.
Definition totals (chunks : list ClusterChunk) : ChunkSums :=
  mkChunkSums (sum_i64 ((λ c, to_i64 (chunk_weight c)) <$> chunks))
              (sum_i64 ((λ c, to_i64 (chunk_fee_sats c)) <$> chunks)).

Record NewClusterChunk := mkNewClusterChunk {
  ncc_cluster_id : Z;
  ncc_version : Z;
  ncc_position : Z;
  ncc_fee : Z;
  ncc_weight : Z;
  ncc_txids : list string;
  ncc_live : bool;
}.

Definition chunk_rows (cluster_id version : Z) (chunks : list ClusterChunk) (live : bool) :
    list NewClusterChunk :=
  imap (λ position chunk,
          mkNewClusterChunk cluster_id version (to_i16 (Z.of_nat position))
            (to_i64 (chunk_fee_sats chunk)) (to_i64 (chunk_weight chunk))
            (chunk_txids chunk) live) chunks.

Definition ncc_key (r : NewClusterChunk) : Z * Z * Z :=
  (ncc_cluster_id r, ncc_version r, ncc_position r).
Definition ncc_row (now : Z) (r : NewClusterChunk) : ChunkRow :=
  mkChunkRow (ncc_fee r) (ncc_weight r) (ncc_txids r) (ncc_live r) now.

(** ** Lookups *)

(** The rows of one version, [ORDER BY position]. *)
Definition version_rows (db : Db) (id version : Z) : list ((Z * Z * Z) * ChunkRow) :=
  sort_by (λ kv : (Z * Z * Z) * ChunkRow, kv.1.2)
    (filter (λ kv : (Z * Z * Z) * ChunkRow, kv.1.1 = (id, version))
            (map_to_list (db_chunks db))).

Definition version_chunks (db : Db) (id version : Z) : list ClusterChunk :=
  (λ kv, chunk_of_row kv.2) <$> version_rows db id version.

Inductive ClusterFilter := ByIds (ids : list Z) | ByActive.

Definition matches (f : ClusterFilter) (kv : Z * ClusterRow) : Prop :=
  match f with
  | ByIds ids => kv.1 ∈ ids
  | ByActive => clr_status kv.2 = Active
  end.
#[global] Instance matches_dec f kv : Decision (matches f kv).
Proof. destruct f; simpl; apply _. Defined.

(** The rows a cluster contributes to the outer join. *)
Definition left_join (row : ClusterRow) (rows : list ((Z * Z * Z) * ChunkRow)) :
    list (ClusterRow * option ChunkRow) :=
  match rows with
  | [] => [(row, None)]
  | _ => (λ r, (row, Some r.2)) <$> rows
  end.

(** [clusters LEFT JOIN cluster_chunks ... ORDER BY id, position] *)
Definition joined_rows (f : ClusterFilter) (db : Db) : list (ClusterRow * option ChunkRow) :=
  sort_by fst (filter (matches f) (map_to_list (db_clusters db))) ≫= λ kv,
    left_join kv.2 (version_rows db kv.1 (clr_version kv.2)).

Definition push_chunk (chunk : ClusterChunk) (c : Cluster) : Cluster :=
  mkCluster (cl_id c) (cl_status c) (cl_version c) (cl_total_weight c) (cl_total_fee c)
    (cl_first_seen_at c) (cl_confirmed_at c) (cl_closed_at c) (cl_chunks c ++ [chunk]).

Definition group_step (out : list Cluster) (r : ClusterRow * option ChunkRow) : list Cluster :=
  let '(row, chunk) := r in
  let out :=
    match last out with
    | Some l => if decide (cl_id l = clr_id row) then out else out ++ [from_row row []]
    | None => out ++ [from_row row []]
    end in
  match chunk with
  | Some chunk => alter (push_chunk (chunk_of_row chunk)) (pred (length out)) out
  | None => out
  end.

Definition load_clusters (f : ClusterFilter) (db : Db) : list Cluster :=
  foldl group_step [] (joined_rows f db).

(** A chunk of a current version together with its cluster. *)
Definition Hit : Type := (Z * Z * Z) * ChunkRow * ClusterRow.
Definition hit_live (h : Hit) : bool := chr_live h.1.2.
Definition hit_closed (h : Hit) : option Z := clr_closed_at h.2.
Definition hit_id (h : Hit) : Z := h.1.1.1.1.

(** [closed_at DESC NULLS LAST]: [a] may stand before [b]. *)
Definition closed_le (a b : option Z) : bool :=
  match a, b with
  | Some x, Some y => y <=? x
  | _, None => true
  | None, Some _ => false
  end.

(** [ORDER BY live DESC, closed_at DESC NULLS LAST, id DESC] *)
Definition hit_le (a b : Hit) : Prop :=
  if Bool.eqb (hit_live a) (hit_live b)
  then if bool_decide (hit_closed a = hit_closed b) then hit_id b ≤ hit_id a
       else closed_le (hit_closed a) (hit_closed b) = true
  else hit_live a = true.
#[global] Instance hit_le_dec : RelDecision hit_le.
Proof. intros a b. unfold hit_le. repeat case_match; apply _. Defined.

Definition current_hits (txid : string) (db : Db) : list Hit :=
  omap (λ kv : (Z * Z * Z) * ChunkRow,
          match db_clusters db !! kv.1.1.1 with
          | Some row =>
              if decide (kv.1.1.2 = clr_version row ∧ txid ∈ chr_txids kv.2) then Some (kv, row)
              else None
          | None => None
          end) (map_to_list (db_chunks db)).

Section repository.
Context `{EnumOrder, Env}.

Definition find_by_txid (txid : string) : RepoM (option Cluster) :=
  query (
    id ← select (λ db, hit_id <$> head (merge_sort hit_le (current_hits txid db)));
    match id with
    | None => mret None
    | Some id => clusters ← select (load_clusters (ByIds [id])); mret (last clusters)
    end).

Definition count : RepoM Z := query (select (λ db, Z.of_nat (size (db_clusters db)))).

Definition find_by_ids (ids : list Z) : RepoM (list Cluster) :=
  query (select (load_clusters (ByIds ids))).

Definition find_active : RepoM (list Cluster) :=
  query (select (load_clusters ByActive)).

(** [txids && $1] *)
Definition overlaps (txids : list string) (row : ChunkRow) : Prop :=
  Exists (λ t, t ∈ txids) (chr_txids row).

Definition ids_by_live_chunks (txids : list string) (db : Db) : list Z :=
  iter_set (list_to_set
    ((λ kv : (Z * Z * Z) * ChunkRow, kv.1.1.1) <$>
       filter (λ kv, chr_live kv.2 = true ∧ overlaps txids kv.2) (map_to_list (db_chunks db)))
    : gset Z).

(** The chunk belongs to the current version of an active cluster. *)
Definition in_active_version (db : Db) (key : Z * Z * Z) : Prop :=
  match db_clusters db !! key.1.1 with
  | Some c => clr_status c = Active ∧ key.1.2 = clr_version c
  | None => False
  end.
#[global] Instance in_active_version_dec db key : Decision (in_active_version db key).
Proof. unfold in_active_version. destruct (db_clusters db !! key.1.1); apply _. Defined.

Definition ids_by_active_join (txids : list string) (db : Db) : list Z :=
  iter_set (list_to_set
    ((λ kv : (Z * Z * Z) * ChunkRow, kv.1.1.1) <$>
       filter (λ kv, in_active_version db kv.1 ∧ overlaps txids kv.2)
              (map_to_list (db_chunks db)))
    : gset Z).

Definition find_active_ids_by_txids (txids : list string) : RepoM (list Z) :=
  match txids with
  | [] => λ c, (Ok [], c)
  | _ =>
      query (if bool_decide (length txids < ACTIVE_IDS_JOIN_MIN_TXIDS)%nat
             then select (ids_by_live_chunks txids)
             else select (ids_by_active_join txids))
  end.

(** ** Statements of the writes *)

(** [INSERT INTO cluster_chunks]: the primary key must be free and the cluster
    must exist; one bad row fails the whole statement. *)
Definition insert_chunk_row (now : Z) (acc : result DieselError Db) (r : NewClusterChunk) :
    result DieselError Db :=
  match acc with
  | Err e => Err e
  | Ok db =>
      match db_chunks db !! ncc_key r, db_clusters db !! ncc_cluster_id r with
      | Some _, _ => Err (DatabaseError "duplicate key")
      | None, None => Err (DatabaseError "foreign key")
      | None, Some _ => Ok (set_chunks (<[ncc_key r := ncc_row now r]> (db_chunks db)) db)
      end
  end.

Definition insert_chunk_batch (batch : list NewClusterChunk) (now : Z) (db : Db) :
    result DieselError (unit * Db) :=
  match foldl (insert_chunk_row now) (Ok db) batch with
  | Ok db => Ok ((), db)
  | Err e => Err e
  end.

Definition insert_chunks (rows : list NewClusterChunk) : DbM unit :=
  for_each (λ batch, statement (insert_chunk_batch batch))
           (slice_chunks CLUSTER_CHUNK_INSERT_CHUNK_SIZE rows).

(** [INSERT INTO transactions ... ON CONFLICT (txid) DO NOTHING] *)
Definition insert_absent (txs : gmap string Transaction) (tx : Transaction) :
    gmap string Transaction :=
  match txs !! tx_txid tx with
  | Some _ => txs
  | None => <[tx_txid tx := tx]> txs
  end.

Definition insert_absent_batch (batch : list Transaction) (_ : Z) (db : Db) : Db :=
  set_txs (foldl insert_absent (db_txs db) batch) db.

Definition insert_hollow_members (txids : list string) : DbM unit :=
  match txids with
  | [] => mret ()
  | _ =>
      now ← read_clock;
      let rows := imap (λ i txid, hollow (now i) txid) txids in
      for_each (λ batch, execute (insert_absent_batch batch))
               (slice_chunks TRANSACTION_INSERT_CHUNK_SIZE (sorted_by_txid rows))
  end.

Definition set_row_live (live : bool) (r : ChunkRow) : ChunkRow :=
  mkChunkRow (chr_fee r) (chr_weight r) (chr_txids r) live (chr_created_at r).
Definition set_tx_cluster (id : option Z) (tx : Transaction) : Transaction :=
  mkTransaction (tx_txid tx) (tx_fee tx) (tx_weight tx) (tx_first_seen_at tx)
    (tx_confirmed_at tx) id (tx_confirmed_at_block tx) (tx_input_txids tx).

(** [UPDATE cluster_chunks SET live = false WHERE cluster_id = id AND version = v] *)
Definition retire_version (id version : Z) (_ : Z) (db : Db) : Db :=
  set_chunks (update_where (λ k _, bool_decide (k.1 = (id, version)))
                           (set_row_live false) (db_chunks db)) db.

(** [UPDATE cluster_chunks SET live = false WHERE cluster_id = ANY(ids) AND live] *)
Definition retire_chunks_stmt (ids : list Z) (_ : Z) (db : Db) : Db :=
  set_chunks (update_where (λ k r, bool_decide (k.1.1 ∈ ids) && chr_live r)
                           (set_row_live false) (db_chunks db)) db.

Definition retire_chunks (ids : list Z) : DbM unit := execute (retire_chunks_stmt ids).

(** [UPDATE transactions SET cluster_id = NULL WHERE cluster_id = id AND txid <> ALL(members)] *)
Definition detach_others (id : Z) (members : list string) (_ : Z) (db : Db) : Db :=
  set_txs (update_where (λ t tx, bool_decide (tx_cluster_id tx = Some id ∧ t ∉ members))
                        (set_tx_cluster None) (db_txs db)) db.

(** [UPDATE transactions SET cluster_id = id WHERE txid = ANY(members)
    AND cluster_id IS DISTINCT FROM id] *)
Definition attach_members (id : Z) (members : list string) (_ : Z) (db : Db) : Db :=
  set_txs (update_where (λ t tx, bool_decide (t ∈ members ∧ tx_cluster_id tx ≠ Some id))
                        (set_tx_cluster (Some id)) (db_txs db)) db.

(** [UPDATE transactions SET cluster_id = NULL WHERE cluster_id = ANY(ids)] *)
Definition detach_clusters (ids : list Z) (_ : Z) (db : Db) : Db :=
  set_txs (update_where (λ _ tx, match tx_cluster_id tx with
                                 | Some id => bool_decide (id ∈ ids)
                                 | None => false
                                 end)
                        (set_tx_cluster None) (db_txs db)) db.

(** ** Inserting clusters *)

Definition allocate_ids (n : nat) (_ : Z) (db : Db) : result DieselError (list Z * Db) :=
  let ids := (λ i, db_cluster_seq db + 1 + Z.of_nat i) <$> seq 0 n in
  Ok (ids, set_cluster_seq (db_cluster_seq db + Z.of_nat n) db).

Definition new_cluster_row (id : Z) (new : NewCluster) : ClusterRow :=
  let sums := totals (nc_chunks new) in
  mkClusterRow id Active 1 (sums_weight sums) (sums_fee sums) (nc_first_seen_at new) None None.

Definition insert_cluster_row (acc : result DieselError Db) (row : ClusterRow) :
    result DieselError Db :=
  match acc with
  | Err e => Err e
  | Ok db =>
      match db_clusters db !! clr_id row with
      | Some _ => Err (DatabaseError "duplicate key")
      | None => Ok (set_clusters (<[clr_id row := row]> (db_clusters db)) db)
      end
  end.

(** [INSERT INTO clusters ... RETURNING]: the order of the rows handed back is
    the server's. *)
Definition insert_cluster_rows (rows : list ClusterRow) (_ : Z) (db : Db) :
    result DieselError (list ClusterRow * Db) :=
  match foldl insert_cluster_row (Ok db) rows with
  | Ok db => Ok (shuffle rows, db)
  | Err e => Err e
  end.

(** The back-link of every member of the new clusters; of several clusters
    naming one txid the server picks one. *)
Definition link_new_members (ids : list Z) (_ : Z) (db : Db) : Db :=
  let ch := filter (λ kv : (Z * Z * Z) * ChunkRow, kv.1.1.1 ∈ ids)
                   (map_to_list (db_chunks db)) in
  set_txs (map_imap (λ t tx,
    Some (match shuffle (filter (λ kv : (Z * Z * Z) * ChunkRow, t ∈ chr_txids kv.2) ch) with
          | kv :: _ => set_tx_cluster (Some kv.1.1.1) tx
          | [] => tx
          end)) (db_txs db)) db.

Definition insert_in (new : list NewCluster) : DbM (list Cluster) :=
  ids ← statement (allocate_ids (length new));
  rows ← statement (insert_cluster_rows (zip_with new_cluster_row ids new));
  _ ← insert_chunks (zip ids new ≫= λ '(id, cluster), chunk_rows id 1 (nc_chunks cluster) true);
  _ ← insert_hollow_members (new ≫= λ cluster, chunks_txids (nc_chunks cluster));
  _ ← execute (link_new_members ids);
  let chunks_by_id := list_to_map (zip ids (nc_chunks <$> new)) : gmap Z (list ClusterChunk) in
  mret ((λ row, from_row row (default [] (chunks_by_id !! clr_id row))) <$> rows).

Definition insert_with_members (new : NewCluster) : RepoM Cluster :=
  query (transaction (
    inserted ← insert_in [new];
    match inserted with
    | cluster :: _ => mret cluster
    | [] => fail NotFound
    end)).

Fixpoint insert_batches (batches : list (list NewCluster)) : DbM (list Cluster) :=
  match batches with
  | [] => mret []
  | batch :: batches =>
      rows ← transaction (insert_in batch);
      rest ← insert_batches batches;
      mret (rows ++ rest)
  end.

Definition insert_many_with_members (new : list NewCluster) : RepoM (list Cluster) :=
  match new with
  | [] => λ c, (Ok [], c)
  | _ => query (insert_batches (slice_chunks MEMPOOL_DELTA_INSERT_CHUNK_SIZE new))
  end.

(** ** Replacing a cluster's chunks *)

Definition find_cluster_row (id : Z) (_ : Z) (db : Db) : result DieselError (ClusterRow * Db) :=
  match db_clusters db !! id with
  | Some row => Ok (row, db)
  | None => Err NotFound
  end.

Definition set_row_version (version : Z) (sums : ChunkSums) (row : ClusterRow) : ClusterRow :=
  mkClusterRow (clr_id row) (clr_status row) version (sums_weight sums) (sums_fee sums)
    (clr_first_seen_at row) (clr_confirmed_at row) (clr_closed_at row).

Definition update_cluster_version (id version : Z) (sums : ChunkSums) (_ : Z) (db : Db) :
    result DieselError (ClusterRow * Db) :=
  match db_clusters db !! id with
  | Some row =>
      let row := set_row_version version sums row in
      Ok (row, set_clusters (<[id := row]> (db_clusters db)) db)
  | None => Err NotFound
  end.

Definition replace_chunks_in (update : ClusterVersionUpdate) (live : bool) : DbM Cluster :=
  let cluster_id := cvu_cluster_id update in
  let chunks := cvu_chunks update in
  old ← statement (find_cluster_row cluster_id);
  current ← select (λ db, version_chunks db cluster_id (clr_version old));
  if decide (clr_status old ≠ Active ∨ current = chunks) then mret (from_row old current)
  else
    let version := clr_version old + 1 in
    _ ← execute (retire_version cluster_id (clr_version old));
    _ ← insert_chunks (chunk_rows cluster_id version chunks live);
    row ← statement (update_cluster_version cluster_id version (totals chunks));
    let cluster := from_row row chunks in
    let members := cl_txids cluster in
    _ ← execute (detach_others cluster_id members);
    _ ← insert_hollow_members members;
    _ ← execute (attach_members cluster_id members);
    mret cluster.

Definition replace_chunks (update : ClusterVersionUpdate) : RepoM Cluster :=
  query (transaction (replace_chunks_in update true)).

(** ** Closing clusters *)

(** [SELECT id ... WHERE id = ANY(ids) AND status = 'active' ORDER BY id FOR UPDATE] *)
Definition active_among (ids : list Z) (db : Db) : list Z :=
  sort_by id (fst <$> filter (λ kv : Z * ClusterRow, kv.1 ∈ ids ∧ clr_status kv.2 = Active)
                             (map_to_list (db_clusters db))).

Definition set_row_closed (status : ClusterStatus) (confirmed_at : option Z) (now : Z)
    (row : ClusterRow) : ClusterRow :=
  mkClusterRow (clr_id row) status (clr_version row) (clr_total_weight row)
    (clr_total_fee row) (clr_first_seen_at row)
    (match confirmed_at with Some t => Some t | None => clr_confirmed_at row end) (Some now).

(** [UPDATE clusters SET status, closed_at = now() [, confirmed_at] WHERE id = ANY(ids)] *)
Definition close_rows (ids : list Z) (status : ClusterStatus) (confirmed_at : option Z)
    (now : Z) (db : Db) : Db :=
  set_clusters (update_where (λ id _, bool_decide (id ∈ ids))
                             (set_row_closed status confirmed_at now) (db_clusters db)) db.

Definition close_many (ids : list Z) (closing : ClusterClosing) : RepoM nat :=
  match ids with
  | [] => λ c, (Ok 0%nat, c)
  | _ =>
      query (transaction (
        open ← select (active_among ids);
        match open with
        | [] => mret 0%nat
        | _ =>
            _ ← execute (close_rows open (closing_status closing) None);
            _ ← retire_chunks open;
            _ ← execute (detach_clusters open);
            mret (length open)
        end))
  end.

Definition mark_evicted (ids : list Z) : RepoM nat := close_many ids ClosingEvicted.
Definition mark_merged (ids : list Z) : RepoM nat := close_many ids ClosingMerged.

Definition confirm_many_in (ids : list Z) (confirmed_at : Z) : DbM nat :=
  pending ← select (active_among ids);
  match pending with
  | [] => mret 0%nat
  | _ =>
      _ ← execute (close_rows pending Confirmed (Some confirmed_at));
      _ ← retire_chunks pending;
      mret (length pending)
  end.

Definition confirm_many (ids : list Z) (confirmed_at : Z) : RepoM nat :=
  match ids with
  | [] => λ c, (Ok 0%nat, c)
  | _ => query (transaction (confirm_many_in ids confirmed_at))
  end.

Definition trim_and_confirm_many (updates : list ClusterVersionUpdate) (confirmed_at : Z) :
    RepoM nat :=
  match updates with
  | [] => λ c, (Ok 0%nat, c)
  | _ =>
      let updates := sort_by cvu_cluster_id updates in
      let ids := cvu_cluster_id <$> updates in
      query (transaction (
        _ ← for_each (λ update, _ ← replace_chunks_in update false; mret ()) updates;
        confirm_many_in ids confirmed_at))
  end.
End repository.
End ClusterRepo.
