(* ===== verification/ClusterWrites.v ===== *)
(** * What each cluster write leaves in the tables

    The effect of the multi-statement writes of [ClusterRepo] on [cluster_chunks]
    and [transactions], as relations between the tables before and after. *)

From S2P Require Import Prelude.
From S2P Require Import Models.
From S2P Require Import Database.
From S2P Require Import ClusterRepo.
From S2P Require Import ClusterRepoFacts.

Open Scope Z_scope.

Module ClusterWrites.
Import Database ClusterRepo ClusterRepoFacts.

(** ** Chunk rows *)

(** [rows] were added to [cluster_chunks], the row with key [k] at time [now k];
    every key was free, all are distinct, and nothing else changed. *)
Record chunks_added (rows : list NewClusterChunk) (now : Z * Z * Z → Z) (db db' : Db) : Prop := {
  ca_rest : db' = set_chunks (db_chunks db') db;
  ca_nodup : NoDup (ncc_key <$> rows);
  ca_fresh : ∀ r, r ∈ rows →
    db_chunks db !! ncc_key r = None ∧ is_Some (db_clusters db !! ncc_cluster_id r);
  ca_lookup : ∀ k r', db_chunks db' !! k = Some r' ↔
    db_chunks db !! k = Some r' ∨
    ∃ r, r ∈ rows ∧ k = ncc_key r ∧ r' = ncc_row (now k) r;
}.

Lemma chunks_added_nil now db : chunks_added [] now db db.
Proof.
  constructor; [by destruct db|constructor|by intros ? ?%not_elem_of_nil|].
  intros k r'. split; [by left|]. intros [?|(r & ?%not_elem_of_nil & _)]; done.
Qed.

Lemma chunks_added_clusters rows now db db' :
  chunks_added rows now db db' →
  db_clusters db' = db_clusters db ∧ db_txs db' = db_txs db ∧
  db_cluster_seq db' = db_cluster_seq db.
Proof. intros Hc. by rw (ca_rest _ _ _ _ Hc). Qed.

Lemma insert_chunk_row_added now rows r f db db1 db2 :
  chunks_added rows f db db1 →
  insert_chunk_row now (Ok db1) r = Ok db2 →
  chunks_added (rows ++ [r]) (λ k, if decide (k = ncc_key r) then now else f k) db db2.
Proof.
  intros Hc. pose proof (chunks_added_clusters _ _ _ _ Hc) as (Hcl & _).
  simpl. destruct (db_chunks db1 !! ncc_key r) eqn:Hk; [done|].
  destruct (db_clusters db1 !! ncc_cluster_id r) eqn:Hid; [|done]. intros [= <-].
  assert (db_chunks db !! ncc_key r = None) as Hfree.
  { destruct (db_chunks db !! ncc_key r) eqn:E; [|done].
    assert (db_chunks db1 !! ncc_key r = Some c0) by (apply Hc; by left). congruence. }
  assert (∀ r0, r0 ∈ rows → ncc_key r0 ≠ ncc_key r) as Hne.
  { intros r0 Hr0 Heq. assert (db_chunks db1 !! ncc_key r0 = Some (ncc_row (f (ncc_key r0)) r0));
      [|congruence]. apply Hc. right. eauto. }
  constructor.
  - simpl. by rw (ca_rest _ _ _ _ Hc).
  - rw fmap_app. apply NoDup_app. split; [apply Hc|]. split; [|apply NoDup_singleton].
    intros k (r0 & -> & Hr0)%list_elem_of_fmap Heq%list_elem_of_singleton. by apply (Hne r0).
  - intros r0 [Hr0| ->%list_elem_of_singleton]%elem_of_app; [by apply Hc|].
    split; [done|]. rw -Hcl. eauto.
  - intros k r'. simpl. rw lookup_insert_Some (ca_lookup _ _ _ _ Hc). split.
    + intros [[<- <-]|[Hkne [?|(r0 & Hr0 & -> & ->)]]].
      * right. exists r. rw decide_True //. split; [|done]. apply elem_of_app. right. by left.
      * by left.
      * right. exists r0. rw decide_False; [|by apply Hne]. split; [|done]. apply elem_of_app. by left.
    + intros [Hold|(r0 & [Hr0| ->%list_elem_of_singleton]%elem_of_app & -> & ->)].
      * right. split; [|by left]. intros <-. congruence.
      * right. rw decide_False; [|by apply Hne]. split; [|by eauto]. intros Heq. by apply (Hne r0).
      * left. by rw decide_True.
Qed.

Lemma insert_chunk_batch_added now batch rows f db db1 db2 :
  chunks_added rows f db db1 →
  foldl (insert_chunk_row now) (Ok db1) batch = Ok db2 →
  ∃ f', chunks_added (rows ++ batch) f' db db2.
Proof.
  revert rows f db1. induction batch as [|r batch IH]; intros rows f db1 Hc Hfold.
  - rw app_nil_r. simplify_eq/=. eauto.
  - cbn [foldl] in Hfold. destruct (insert_chunk_row now (Ok db1) r) as [db1'|e] eqn:E.
    + apply insert_chunk_row_added with (rows := rows) (f := f) (db := db) in E; [|done].
      change (r :: batch) with ([r] ++ batch). rw app_assoc. eauto.
    + exfalso. clear -Hfold. induction batch as [|r' batch IH]; by auto.
Qed.

Lemma elem_of_chunk_rows id v chunks live r :
  r ∈ chunk_rows id v chunks live ↔
  ∃ i c, chunks !! i = Some c ∧
    r = mkNewClusterChunk id v (to_i16 (Z.of_nat i)) (to_i64 (chunk_fee_sats c))
          (to_i64 (chunk_weight c)) (chunk_txids c) live.
Proof. unfold chunk_rows. rw elem_of_lookup_imap. naive_solver. Qed.

(** The totals of the stored rows of one version. *)
Definition version_sums (db : Db) (id v : Z) : ChunkSums :=
  mkChunkSums (sum_i64 ((λ kv, chr_weight kv.2) <$> version_rows db id v))
              (sum_i64 ((λ kv, chr_fee kv.2) <$> version_rows db id v)).

(** The stored rows of a version written by [chunk_rows] are exactly its rows. *)
Lemma chunks_added_version_rows rows now db db' id v chunks live :
  chunks_added rows now db db' →
  (∀ p, db_chunks db !! (id, v, p) = None) →
  (∀ r, r ∈ rows → (ncc_key r).1 = (id, v) → r ∈ chunk_rows id v chunks live) →
  chunk_rows id v chunks live ⊆ rows → NoDup (ncc_key <$> chunk_rows id v chunks live) →
  version_rows db' id v ≡ₚ
    (λ r, (ncc_key r, ncc_row (now (ncc_key r)) r)) <$> chunk_rows id v chunks live.
Proof.
  intros Hc Hnone Hall Hsub Hnd. apply NoDup_Permutation.
  - apply version_rows_NoDup.
  - apply (NoDup_fmap_1 fst). rw -list_fmap_compose. exact Hnd.
  - intros [k r']. rw elem_of_version_rows (ca_lookup _ _ _ _ Hc) list_elem_of_fmap. split.
    + intros (Hk & [Hold|(r & Hr & -> & ->)]).
      * destruct k as [[??] p]. simplify_eq/=. by rw Hnone in Hold.
      * exists r. split; [done|]. by apply Hall.
    + intros (r & [= -> ->] & Hr). split; [|right; exists r; by auto].
      by apply elem_of_chunk_rows in Hr as (i & c & _ & ->).
Qed.

Lemma sums_of_rows db id v (now : Z * Z * Z → Z) chunks live :
  version_rows db id v ≡ₚ
    (λ r, (ncc_key r, ncc_row (now (ncc_key r)) r)) <$> chunk_rows id v chunks live →
  version_sums db id v = totals chunks.
Proof.
  intros Hp. unfold version_sums, totals. rw Hp. unfold chunk_rows.
  f_equal; f_equal; rw -!list_fmap_compose fmap_imap; apply list_eq; intros i;
    rw list_lookup_imap list_lookup_fmap; by destruct (chunks !! i).
Qed.

(** ** [ON CONFLICT (txid) DO NOTHING] *)

(** [txs] were offered to the table [m]: rows already there are kept as they are,
    and every offered txid has a row afterwards. *)
Record absent_added (txs : list Transaction) (m m' : gmap string Transaction) : Prop := {
  aa_keep : ∀ t tx, m !! t = Some tx → m' !! t = Some tx;
  aa_new : ∀ t tx, m' !! t = Some tx →
    m !! t = Some tx ∨ m !! t = None ∧ tx ∈ txs ∧ tx_txid tx = t;
  aa_some : ∀ tx, tx ∈ txs → is_Some (m' !! tx_txid tx);
}.

Lemma absent_added_nil m : absent_added [] m m.
Proof. constructor; [done|by left|by intros ? ?%not_elem_of_nil]. Qed.

Lemma absent_added_snoc txs tx m m' :
  absent_added txs m m' → absent_added (txs ++ [tx]) m (insert_absent m' tx).
Proof.
  intros Ha. unfold insert_absent. destruct (m' !! tx_txid tx) as [tx0|] eqn:E; constructor.
  - apply Ha.
  - intros t tx' Ht. destruct (aa_new _ _ _ Ha t tx' Ht) as [|(? & ? & ?)]; [by left|].
    right. split_and!; [done| |done]. apply elem_of_app. by left.
  - intros tx' [?| ->%list_elem_of_singleton]%elem_of_app; [by apply Ha|eauto].
  - intros t tx' Ht. rw lookup_insert_ne; [by apply Ha|].
    intros <-. apply (aa_keep _ _ _ Ha) in Ht. congruence.
  - intros t tx' [[<- <-]|[Hne Ht]]%lookup_insert_Some.
    + right. split_and!; [|apply elem_of_app; right; by left|done].
      destruct (m !! tx_txid tx) eqn:Em; [|done]. apply (aa_keep _ _ _ Ha) in Em. congruence.
    + destruct (aa_new _ _ _ Ha t tx' Ht) as [|(? & ? & ?)]; [by left|].
      right. split_and!; [done| |done]. apply elem_of_app. by left.
  - intros tx' [?| ->%list_elem_of_singleton]%elem_of_app.
    + destruct (decide (tx_txid tx = tx_txid tx')) as [->|?].
      * rw lookup_insert_eq. eauto.
      * rw lookup_insert_ne //. by apply Ha.
    + rw lookup_insert_eq. eauto.
Qed.

Lemma absent_added_fold txs batch m m' :
  absent_added txs m m' → absent_added (txs ++ batch) m (foldl insert_absent m' batch).
Proof.
  revert txs m'. induction batch as [|tx batch IH]; intros txs m' Ha; [by rw app_nil_r|].
  change (tx :: batch) with ([tx] ++ batch). rw app_assoc. cbn [foldl].
  by apply IH, absent_added_snoc.
Qed.

#[global] Instance absent_added_perm : Proper ((≡ₚ) ==> (=) ==> (=) ==> iff) absent_added.
Proof.
  assert (∀ txs txs' m m', txs ≡ₚ txs' → absent_added txs m m' → absent_added txs' m m') as Hgen.
  { intros txs txs' m m' Hp Ha. constructor.
    - apply Ha.
    - intros t tx Ht. rw -Hp. by apply Ha.
    - intros tx. rw -Hp. apply Ha. }
  intros txs txs' Hp ? m -> ? m' ->. split; by apply Hgen.
Qed.

(** A placeholder row was written for every txid that had none. *)
Record hollow_added (txids : list string) (db db' : Db) : Prop := {
  ha_rest : db' = set_txs (db_txs db') db;
  ha_keep : ∀ t tx, db_txs db !! t = Some tx → db_txs db' !! t = Some tx;
  ha_new : ∀ t tx, db_txs db' !! t = Some tx →
    db_txs db !! t = Some tx ∨ db_txs db !! t = None ∧ t ∈ txids ∧ ∃ now, tx = hollow now t;
  ha_some : ∀ t, t ∈ txids → is_Some (db_txs db' !! t);
}.

Lemma hollow_added_nil db : hollow_added [] db db.
Proof. constructor; [by destruct db|done|by left|by intros ? ?%not_elem_of_nil]. Qed.

Lemma hollow_added_absent (now : nat → Z) txids db db' :
  db' = set_txs (db_txs db') db →
  absent_added (imap (λ i txid, hollow (now i) txid) txids) (db_txs db) (db_txs db') →
  hollow_added txids db db'.
Proof.
  intros Hrest Ha. constructor; [done|apply Ha| |].
  - intros t tx Ht. destruct (aa_new _ _ _ Ha t tx Ht) as [|(Hn & Hin & Hid)]; [by left|].
    right. split; [done|]. apply elem_of_lookup_imap in Hin as (i & t0 & -> & Hi).
    simpl in Hid. subst. split; [by eapply list_elem_of_lookup_2|eauto].
  - intros t [i Hi]%list_elem_of_lookup.
    assert (hollow (now i) t ∈ imap (λ i txid, hollow (now i) txid) txids) as Hin.
    { apply elem_of_lookup_imap. eauto. }
    apply (aa_some _ _ _ Ha) in Hin. done.
Qed.

Section writes.
Context `{EnumOrder, Env}.

(** Offering [txs] in slices is offering them all. *)
Lemma insert_absent_runs s0 db n txs :
  s0 ≤ db_cluster_seq db → (0 < n)%nat →
  runs s0 db (for_each (λ batch, execute (insert_absent_batch batch)) (slice_chunks n txs))
    (λ _ db', db' = set_txs (db_txs db') db ∧ absent_added txs (db_txs db) (db_txs db')).
Proof.
  intros Hs Hn.
  eapply runs_conseq;
    [apply (runs_for_each s0 db _ _ (λ pre db',
       db' = set_txs (db_txs db') db ∧ absent_added (concat pre) (db_txs db) (db_txs db')))|].
  - split; [by destruct db|apply absent_added_nil].
  - intros pre batch post db1 _ [Hr Ha]. apply runs_execute; [by rw Hr|]. intros now.
    unfold insert_absent_batch. simpl. split; [by rw Hr|].
    rw concat_app /= app_nil_r. by apply absent_added_fold.
  - simpl. intros _ db'. by rw concat_slice_chunks.
Qed.

Lemma insert_hollow_members_runs s0 db txids :
  s0 ≤ db_cluster_seq db →
  runs s0 db (insert_hollow_members txids) (λ _ db', hollow_added txids db db').
Proof.
  intros Hs. unfold insert_hollow_members. destruct txids as [|t txids].
  { apply runs_ret, hollow_added_nil. }
  eapply runs_bind; [by apply (runs_read_clock _ _ (λ _ d, d = db))|]. intros now ? ->.
  eapply runs_conseq; [apply insert_absent_runs; [done|unfold TRANSACTION_INSERT_CHUNK_SIZE; lia]|].
  intros _ db' [Hr Ha]. apply (hollow_added_absent now); [done|].
  unfold sorted_by_txid in Ha. by rw merge_sort_Permutation in Ha.
Qed.

Lemma insert_chunks_runs s0 db rows :
  s0 ≤ db_cluster_seq db →
  runs s0 db (insert_chunks rows) (λ _ db', ∃ now, chunks_added rows now db db').
Proof.
  intros Hs. unfold insert_chunks.
  eapply runs_conseq;
    [apply (runs_for_each s0 db _ _ (λ pre db', ∃ now, chunks_added (concat pre) now db db'))|].
  - exists (λ _, 0). apply chunks_added_nil.
  - intros pre batch post db1 _ [f Hc].
    pose proof (chunks_added_clusters _ _ _ _ Hc) as (_ & _ & Hseq).
    apply runs_statement; [lia|]. intros now. unfold insert_chunk_batch.
    destruct (foldl _ _ _) as [db2|e] eqn:E; [|done].
    rw concat_app /= app_nil_r. by eapply insert_chunk_batch_added.
  - simpl. intros _ db'. rw concat_slice_chunks; [done|]. unfold CLUSTER_CHUNK_INSERT_CHUNK_SIZE. lia.
Qed.

(** ** Replacing a version *)

(** [update] gave the active cluster [old] a new version. *)
Record replaced (update : ClusterVersionUpdate) (live : bool) (old : ClusterRow)
    (db db' : Db) : Prop := {
  rp_old : db_clusters db !! cvu_cluster_id update = Some old;
  rp_active : clr_status old = Active;
  rp_clusters : db_clusters db' =
    <[cvu_cluster_id update :=
        set_row_version (clr_version old + 1) (totals (cvu_chunks update)) old]> (db_clusters db);
  rp_chunks : ∃ now t0, chunks_added
    (chunk_rows (cvu_cluster_id update) (clr_version old + 1) (cvu_chunks update) live) now
    (retire_version (cvu_cluster_id update) (clr_version old) t0 db)
    (set_chunks (db_chunks db') db);
  rp_in : ∀ t, t ∈ chunks_txids (cvu_chunks update) → ∃ tx,
    db_txs db' !! t = Some (set_tx_cluster (Some (cvu_cluster_id update)) tx) ∧
    (db_txs db !! t = Some tx ∨ db_txs db !! t = None ∧ ∃ now, tx = hollow now t);
  rp_out : ∀ t, t ∉ chunks_txids (cvu_chunks update) →
    db_txs db' !! t =
      (λ tx, if decide (tx_cluster_id tx = Some (cvu_cluster_id update))
             then set_tx_cluster None tx else tx) <$> db_txs db !! t;
  rp_rest : db' = set_clusters (db_clusters db') (set_chunks (db_chunks db')
    (set_txs (db_txs db') db));
}.

(** The members are linked to [id], and whatever else was linked to it no longer is. *)
Lemma relink_members id members now0 now1 db1 db2 :
  hollow_added members (detach_others id members now0 db1) db2 →
  (∀ t, t ∈ members → ∃ tx,
    db_txs (attach_members id members now1 db2) !! t = Some (set_tx_cluster (Some id) tx) ∧
    (db_txs db1 !! t = Some tx ∨ db_txs db1 !! t = None ∧ ∃ now, tx = hollow now t)) ∧
  (∀ t, t ∉ members →
    db_txs (attach_members id members now1 db2) !! t =
      (λ tx, if decide (tx_cluster_id tx = Some id)
             then set_tx_cluster None tx else tx) <$> db_txs db1 !! t).
Proof.
  intros Ha.
  assert (∀ t, t ∈ members → db_txs (detach_others id members now0 db1) !! t = db_txs db1 !! t)
    as Hin.
  { intros t Ht. simpl. rw lookup_update_where. destruct (db_txs db1 !! t); [|done]. simpl.
    rw bool_decide_eq_false_2; [done|tauto]. }
  split; intros t Ht; simpl; rw lookup_update_where.
  - destruct (ha_some _ _ _ Ha t Ht) as [tx Htx]. rw Htx /=. exists tx. split.
    + case_guards; [done|]. f_equal. destruct tx. simpl in *.
      assert (tx_cluster_id0 = Some id) as -> by (apply dec_stable; tauto). done.
    + rw -Hin //. destruct (ha_new _ _ _ Ha t tx Htx) as [|(? & _ & ?)]; [by left|by right].
  - assert (db_txs db2 !! t = db_txs (detach_others id members now0 db1) !! t) as ->.
    { destruct (db_txs db2 !! t) as [tx|] eqn:E.
      - destruct (ha_new _ _ _ Ha t tx E) as [->|(_ & ? & _)]; [done|by destruct Ht].
      - destruct (db_txs (detach_others _ _ _ _) !! t) eqn:E'; [|done].
        apply (ha_keep _ _ _ Ha) in E'. congruence. }
    simpl. rw lookup_update_where. destruct (db_txs db1 !! t) as [tx|]; [|done]. simpl.
    f_equal. case_guards; tauto.
Qed.

Lemma replaced_intro id chunks live old db db2 db5 db6 now t0 t1 t2 :
  let db3 := set_clusters (<[id := set_row_version (clr_version old + 1) (totals chunks) old]>
                             (db_clusters db)) db2 in
  db_clusters db !! id = Some old → clr_status old = Active →
  chunks_added (chunk_rows id (clr_version old + 1) chunks live) now
    (retire_version id (clr_version old) t0 db) db2 →
  hollow_added (chunks_txids chunks) (detach_others id (chunks_txids chunks) t1 db3) db5 →
  db6 = attach_members id (chunks_txids chunks) t2 db5 →
  replaced (mkClusterVersionUpdate id chunks) live old db db6.
Proof.
  intros db3 Hold Hact Hadd Hh Hdb6.
  pose proof (chunks_added_clusters _ _ _ _ Hadd) as (_ & Htx2 & _).
  destruct (relink_members id (chunks_txids chunks) t1 t2 db3 db5 Hh) as [Hin Hout].
  rw -Hdb6 in Hin Hout. change (db_txs db3) with (db_txs db2) in Hin, Hout. rw Htx2 in Hin Hout.
  assert (db6 = set_txs (db_txs db6) db3) as Hr6.
  { rw Hdb6 (ha_rest _ _ _ Hh). done. }
  assert (db2 = set_chunks (db_chunks db2) db) as Hr2 by (rw {1}(ca_rest _ _ _ _ Hadd); done).
  constructor; simpl; try done.
  - by rw Hr6.
  - exists now, t0. rw Hr6 /=. by rw -Hr2.
  - rw Hr6. unfold db3. rw Hr2. done.
Qed.

Lemma replace_chunks_in_runs s0 db update live :
  s0 ≤ db_cluster_seq db →
  runs s0 db (replace_chunks_in update live) (λ cluster db',
    ∃ old, db_clusters db !! cvu_cluster_id update = Some old ∧
      let current := version_chunks db (cvu_cluster_id update) (clr_version old) in
      (clr_status old ≠ Active ∨ current = cvu_chunks update) ∧
        cluster = from_row old current ∧ db' = db ∨
      current ≠ cvu_chunks update ∧ replaced update live old db db' ∧
        cluster = from_row (set_row_version (clr_version old + 1)
                              (totals (cvu_chunks update)) old) (cvu_chunks update)).
Proof.
  intros Hs. destruct update as [id chunks]. unfold replace_chunks_in. simpl.
  apply runs_statement_then; [done|]. intros ?. unfold find_cluster_row.
  destruct (db_clusters db !! id) as [old|] eqn:Hold; [|done].
  apply runs_select_then; [done|]. destruct (decide _) as [Hcase|Hcase].
  { apply runs_ret. exists old. split; [done|]. by left. }
  apply Decidable.not_or in Hcase as [Hact Hne]. apply dec_stable in Hact.
  apply runs_execute_then; [done|]. intros t0.
  eapply runs_bind; [by apply insert_chunks_runs|]. intros [] db2 [stamp Hadd].
  pose proof (chunks_added_clusters _ _ _ _ Hadd) as (Hcl2 & _ & Hsq2).
  simpl in Hcl2, Hsq2. rw -Hsq2 in Hs.
  apply runs_statement_then; [done|]. intros ?. unfold update_cluster_version.
  rw Hcl2 Hold. apply runs_execute_then; [done|]. intros t1.
  eapply runs_bind; [by apply insert_hollow_members_runs|]. intros [] db5 Hh.
  apply runs_execute_then; [by rw (ha_rest _ _ _ Hh)|]. intros t2.
  apply runs_ret. exists old. split; [done|]. right. split; [done|]. split; [|done].
  by eapply replaced_intro.
Qed.

(** ** Closing *)

Lemma elem_of_active_among ids db id :
  id ∈ active_among ids db ↔
  id ∈ ids ∧ ∃ row, db_clusters db !! id = Some row ∧ clr_status row = Active.
Proof.
  unfold active_among. rw elem_of_sort_by list_elem_of_fmap. split.
  - intros ([i row] & -> & Hin). rw list_elem_of_filter elem_of_map_to_list in Hin.
    simpl in *. naive_solver.
  - intros (Hid & row & Hr & Ha). exists (id, row). split; [done|].
    by rw list_elem_of_filter elem_of_map_to_list.
Qed.

Lemma active_among_nil db : active_among [] db = [].
Proof.
  apply elem_of_nil_inv. intros id [?%not_elem_of_nil _]%elem_of_active_among. done.
Qed.

Lemma NoDup_active_among ids db : NoDup (active_among ids db).
Proof.
  unfold active_among. rw sort_by_perm.
  eapply sublist_NoDup; [apply (NoDup_fst_map_to_list (db_clusters db))|].
  apply fmap_sublist, sublist_filter.
Qed.

(** What confirming and closing the clusters [ids] writes. *)
Definition closed (ids : list Z) (status : ClusterStatus) (confirmed_at : option Z)
    (t0 t1 : Z) (db : Db) : Db :=
  retire_chunks_stmt ids t1 (close_rows ids status confirmed_at t0 db).

Lemma confirm_many_in_runs s0 db ids at_ :
  s0 ≤ db_cluster_seq db →
  runs s0 db (confirm_many_in ids at_) (λ n db',
    n = length (active_among ids db) ∧
    (n = 0%nat ∧ db' = db ∨
     ∃ t0 t1, db' = closed (active_among ids db) Confirmed (Some at_) t0 t1 db)).
Proof.
  intros Hs. unfold confirm_many_in. apply runs_select_then; [done|].
  destruct (active_among ids db) as [|id pending]; [apply runs_ret; by auto|].
  apply runs_execute_then; [done|]. intros t0.
  apply runs_execute_then; [done|]. intros t1. apply runs_ret.
  split; [done|]. right. by exists t0, t1.
Qed.

(** The rest of [close_many]: evicted and merged clusters give their
    transactions up. *)
Lemma close_many_runs db ids closing :
  repo_triple (λ d, d = db) (close_many ids closing)
    (λ n db', n = length (active_among ids db) ∧
      (n = 0%nat ∧ db' = db ∨
       ∃ t0 t1 t2, db' = detach_clusters (active_among ids db) t2
         (closed (active_among ids db) (closing_status closing) None t0 t1 db)))
    (untouched db).
Proof.
  destruct ids as [|id0 ids0] eqn:Eids.
  { intros c Hc. simpl. rw Hc active_among_nil. by auto. }
  unfold close_many. rw -{1}Eids -{1}Eids. apply repo_runs_transaction.
  - rw -Eids. apply runs_select_then; [lia|].
    destruct (active_among ids db) as [|i open]; [apply runs_ret; by auto|].
    apply runs_execute_then; [simpl; lia|]. intros t0.
    apply runs_execute_then; [simpl; lia|]. intros t1.
    apply runs_execute_then; [simpl; lia|]. intros t2. apply runs_ret.
    split; [done|]. right. by exists t0, t1, t2.
  - intros n db' [_ [[_ ->]|(t0 & t1 & t2 & ->)]]; simpl; lia.
Qed.

(** ** Inserting *)

(** [rows] were added to [clusters]; every id was free. *)
Record rows_added (rows : list ClusterRow) (db db' : Db) : Prop := {
  ra_rest : db' = set_clusters (db_clusters db') db;
  ra_fresh : ∀ row, row ∈ rows → db_clusters db !! clr_id row = None;
  ra_lookup : ∀ id row, db_clusters db' !! id = Some row ↔
    db_clusters db !! id = Some row ∨ row ∈ rows ∧ clr_id row = id;
}.

Lemma insert_cluster_row_added rows row db db1 db2 :
  rows_added rows db db1 → insert_cluster_row (Ok db1) row = Ok db2 →
  rows_added (rows ++ [row]) db db2.
Proof.
  intros Hr. simpl. destruct (db_clusters db1 !! clr_id row) eqn:E; [done|]. intros [= <-].
  assert (db_clusters db !! clr_id row = None) as Hfree.
  { destruct (db_clusters db !! clr_id row) eqn:E'; [|done].
    assert (db_clusters db1 !! clr_id row = Some c) by (apply Hr; by left). congruence. }
  constructor.
  - simpl. by rw (ra_rest _ _ _ Hr).
  - intros row' [?| ->%list_elem_of_singleton]%elem_of_app; [by apply Hr|done].
  - intros id row'. simpl. rw lookup_insert_Some (ra_lookup _ _ _ Hr) elem_of_app
      list_elem_of_singleton. split; [naive_solver|].
    intros [Ho|[[Hin| ->] Hid]]; [right|right|by left].
    + split; [|by left]. congruence.
    + split; [|by right]. intros Heq.
      assert (db_clusters db1 !! id = Some row') by (apply Hr; by right). congruence.
Qed.

Lemma insert_cluster_rows_added rows pre db db1 db2 :
  rows_added pre db db1 → foldl insert_cluster_row (Ok db1) rows = Ok db2 →
  rows_added (pre ++ rows) db db2.
Proof.
  revert pre db1. induction rows as [|r rows IH]; intros pre db1 Hr Hf.
  - rw app_nil_r. by simplify_eq/=.
  - cbn [foldl] in Hf. destruct (insert_cluster_row (Ok db1) r) as [db1'|e] eqn:E.
    + change (r :: rows) with ([r] ++ rows). rw app_assoc.
      eapply IH; [by eapply insert_cluster_row_added|done].
    + exfalso. clear -Hf. induction rows; by auto.
Qed.

Lemma rows_added_nil db : rows_added [] db db.
Proof.
  constructor; [by destruct db|by intros ? ?%not_elem_of_nil|].
  intros id row. split; [by left|]. intros [?|[?%not_elem_of_nil _]]; done.
Qed.

Definition new_ids (db : Db) (n : nat) : list Z :=
  (λ i, db_cluster_seq db + 1 + Z.of_nat i) <$> seq 0 n.

Lemma new_ids_length db n : length (new_ids db n) = n.
Proof. unfold new_ids. by rw length_fmap length_seq. Qed.

Lemma new_ids_NoDup db n : NoDup (new_ids db n).
Proof. unfold new_ids. apply NoDup_fmap_2; [intros ???; lia|apply NoDup_seq]. Qed.

Lemma new_ids_range db n id :
  id ∈ new_ids db n → db_cluster_seq db < id ≤ db_cluster_seq db + Z.of_nat n.
Proof.
  unfold new_ids. intros (i & -> & Hi)%list_elem_of_fmap. apply elem_of_seq in Hi. lia.
Qed.

Definition new_rows (ids : list Z) (new : list NewCluster) : list NewClusterChunk :=
  zip ids new ≫= λ '(id, cluster), chunk_rows id 1 (nc_chunks cluster) true.

Lemma elem_of_new_rows ids new r :
  r ∈ new_rows ids new ↔
  ∃ id cluster, (id, cluster) ∈ zip ids new ∧ r ∈ chunk_rows id 1 (nc_chunks cluster) true.
Proof.
  unfold new_rows. rw list_elem_of_bind. split.
  - intros ([id n] & Hr & Hz). eauto.
  - intros (id & n & Hz & Hr). by exists (id, n).
Qed.

Lemma zip_fst_unique {A B} (l : list A) (k : list B) x y1 y2 :
  NoDup l → (x, y1) ∈ zip l k → (x, y2) ∈ zip l k → y1 = y2.
Proof.
  intros Hnd [i Hi]%list_elem_of_lookup [j Hj]%list_elem_of_lookup.
  apply lookup_zip_with_Some in Hi as (? & ? & [= <- <-] & Hi1 & Hi2).
  apply lookup_zip_with_Some in Hj as (? & ? & [= <- <-] & Hj1 & Hj2).
  assert (i = j) as -> by (by eapply NoDup_lookup). congruence.
Qed.

(** [new] were inserted as version 1 of fresh active clusters. *)
Record inserted (new : list NewCluster) (db db' : Db) : Prop := {
  in_seq : db_cluster_seq db' = db_cluster_seq db + Z.of_nat (length new);
  in_clusters : ∀ id row, db_clusters db' !! id = Some row ↔
    db_clusters db !! id = Some row ∨
    ∃ c, (id, c) ∈ zip (new_ids db (length new)) new ∧ row = new_cluster_row id c;
  in_fresh : ∀ id, id ∈ new_ids db (length new) → db_clusters db !! id = None;
  in_chunks : ∃ now, chunks_added (new_rows (new_ids db (length new)) new) now
    (set_clusters (db_clusters db') db)
    (set_chunks (db_chunks db') (set_clusters (db_clusters db') db));
  in_in : ∀ t, t ∈ (new ≫= λ c, chunks_txids (nc_chunks c)) → ∃ id c tx,
    (id, c) ∈ zip (new_ids db (length new)) new ∧ t ∈ chunks_txids (nc_chunks c) ∧
    db_txs db' !! t = Some (set_tx_cluster (Some id) tx) ∧
    (db_txs db !! t = Some tx ∨ db_txs db !! t = None ∧ ∃ now, tx = hollow now t);
  in_out : ∀ t, t ∉ (new ≫= λ c, chunks_txids (nc_chunks c)) →
    db_txs db' !! t = db_txs db !! t;
  in_rest : db_blocks db' = db_blocks db ∧ db_deltas db' = db_deltas db;
}.

(** Every chunk row belongs to a cluster, as the foreign key has it. *)
Definition chunks_owned (db : Db) : Prop :=
  ∀ k r, db_chunks db !! k = Some r → is_Some (db_clusters db !! k.1.1).

(** [link_new_members] links a transaction to one of the clusters of [ids] that
    names it, if there is one. *)
Lemma link_new_members_lookup ids now db t tx :
  db_txs db !! t = Some tx →
  (∃ k r, db_chunks db !! k = Some r ∧ k.1.1 ∈ ids ∧ t ∈ chr_txids r ∧
     db_txs (link_new_members ids now db) !! t = Some (set_tx_cluster (Some k.1.1) tx)) ∨
  (∀ k r, db_chunks db !! k = Some r → k.1.1 ∈ ids → t ∉ chr_txids r) ∧
     db_txs (link_new_members ids now db) !! t = Some tx.
Proof.
  intros Ht. simpl. rw map_lookup_imap Ht /=.
  set (hits := filter (λ kv : (Z * Z * Z) * ChunkRow, t ∈ chr_txids kv.2) _).
  assert (∀ k r, (k, r) ∈ hits ↔ db_chunks db !! k = Some r ∧ k.1.1 ∈ ids ∧ t ∈ chr_txids r)
    as Hh.
  { intros k r. subst hits. rw !list_elem_of_filter elem_of_map_to_list /=. tauto. }
  pose proof (λ kv, elem_of_shuffle kv hits) as Hsh.
  destruct (shuffle hits) as [|[k r] rest].
  - right. split; [|done]. intros k r Hk Hid Hin.
    apply (not_elem_of_nil (k, r)), Hsh, Hh. done.
  - left. exists k, r. assert ((k, r) ∈ hits) as [? [? ?]]%Hh by (apply Hsh; left).
    done.
Qed.

Lemma link_new_members_none ids now db t :
  db_txs db !! t = None → db_txs (link_new_members ids now db) !! t = None.
Proof. intros Ht. simpl. by rw map_lookup_imap Ht. Qed.

Lemma new_row_member (ids : list Z) (new : list NewCluster) t :
  length ids = length new →
  t ∈ (new ≫= λ c, chunks_txids (nc_chunks c)) ↔
  ∃ id c, (id, c) ∈ zip ids new ∧ t ∈ chunks_txids (nc_chunks c).
Proof.
  intros Hlen. rw list_elem_of_bind. split.
  - intros (c & Ht & [i Hi]%list_elem_of_lookup).
    destruct (lookup_lt_is_Some_2 ids i) as [id Hid].
    { rw Hlen. by eapply lookup_lt_Some. }
    exists id, c. split; [|done]. apply (list_elem_of_lookup_2 _ i).
    apply lookup_zip_with_Some. eauto.
  - intros (id & c & [i Hz]%list_elem_of_lookup & Ht).
    apply lookup_zip_with_Some in Hz as (? & ? & [= <- <-] & _ & Hc).
    exists c. split; [done|]. by eapply list_elem_of_lookup_2.
Qed.

(** Reading membership off the rows of the new clusters. *)
Lemma elem_of_new_row_txids ids new r t :
  r ∈ new_rows ids new → t ∈ ncc_txids r →
  ∃ c, (ncc_cluster_id r, c) ∈ zip ids new ∧ t ∈ chunks_txids (nc_chunks c).
Proof.
  intros (id & c & Hz & (i & ch & Hi & ->)%elem_of_chunk_rows)%elem_of_new_rows Ht.
  simpl in *. exists c. split; [done|]. apply elem_of_chunks_txids.
  exists ch. split; [by eapply list_elem_of_lookup_2|done].
Qed.

Lemma new_row_of_member (ids : list Z) (new : list NewCluster) id c t :
  (id, c) ∈ zip ids new → t ∈ chunks_txids (nc_chunks c) →
  ∃ r, r ∈ new_rows ids new ∧ ncc_cluster_id r = id ∧ t ∈ ncc_txids r.
Proof.
  intros Hz (ch & [i Hi]%list_elem_of_lookup & Ht)%elem_of_chunks_txids.
  eexists. split; [apply elem_of_new_rows; exists id, c; split; [done|];
    apply elem_of_chunk_rows; exists i, ch; by split|]. done.
Qed.

(** The links after the whole of [insert_in]. *)
Lemma insert_links ids new now now0 db1 db2 db3 :
  length ids = length new →
  (∀ k r, db_chunks db1 !! k = Some r → k.1.1 ∉ ids) →
  chunks_added (new_rows ids new) now db1 db2 →
  hollow_added (new ≫= λ c, chunks_txids (nc_chunks c)) db2 db3 →
  (∀ t, t ∈ (new ≫= λ c, chunks_txids (nc_chunks c)) → ∃ id c tx,
    (id, c) ∈ zip ids new ∧ t ∈ chunks_txids (nc_chunks c) ∧
    db_txs (link_new_members ids now0 db3) !! t = Some (set_tx_cluster (Some id) tx) ∧
    (db_txs db1 !! t = Some tx ∨ db_txs db1 !! t = None ∧ ∃ now, tx = hollow now t)) ∧
  (∀ t, t ∉ (new ≫= λ c, chunks_txids (nc_chunks c)) →
    db_txs (link_new_members ids now0 db3) !! t = db_txs db1 !! t).
Proof.
  intros Hlen Hfresh Hadd Hh.
  pose proof (chunks_added_clusters _ _ _ _ Hadd) as (_ & Htx & _).
  assert (∀ k r, db_chunks db3 !! k = Some r ↔ db_chunks db2 !! k = Some r) as Hch
    by (rw (ha_rest _ _ _ Hh); done).
  assert (∀ k r t, db_chunks db3 !! k = Some r → k.1.1 ∈ ids → t ∈ chr_txids r →
    ∃ c, (k.1.1, c) ∈ zip ids new ∧ t ∈ chunks_txids (nc_chunks c)) as Hmem.
  { intros k r t Hk Hid Ht. apply Hch, (ca_lookup _ _ _ _ Hadd) in Hk
      as [Hold|(r0 & Hr0 & -> & ->)]; [by destruct (Hfresh _ _ Hold)|].
    by apply (elem_of_new_row_txids ids new r0). }
  split; intros t Ht.
  - destruct (ha_some _ _ _ Hh t Ht) as [tx Hsome].
    assert (db_txs db1 !! t = Some tx ∨ db_txs db1 !! t = None ∧ ∃ now, tx = hollow now t)
      as Hold. { rw -Htx. destruct (ha_new _ _ _ Hh t tx Hsome) as [|(? & _ & ?)]; auto. }
    destruct (link_new_members_lookup ids now0 db3 t tx Hsome)
      as [(k & r & Hk & Hid & Hin & Hres)|[Hno _]].
    + destruct (Hmem k r t Hk Hid Hin) as (c & Hz & Hc). exists k.1.1, c, tx. done.
    + exfalso. apply (new_row_member ids new t Hlen) in Ht as (id & c & Hz & Hc).
      destruct (new_row_of_member _ _ _ _ _ Hz Hc) as (r & Hr & Hid & Hin).
      assert (db_chunks db3 !! ncc_key r = Some (ncc_row (now (ncc_key r)) r)) as Hk.
      { apply Hch, Hadd. right. eauto. }
      apply (Hno _ _ Hk); [|done]. simpl. rw Hid. by eapply elem_of_zip_l.
  - assert (db_txs db3 !! t = db_txs db1 !! t) as <-.
    { rw -Htx. destruct (db_txs db3 !! t) as [tx|] eqn:E.
      - by destruct (ha_new _ _ _ Hh t tx E) as [|(_ & ? & _)].
      - destruct (db_txs db2 !! t) eqn:E'; [|done]. apply (ha_keep _ _ _ Hh) in E'. congruence. }
    destruct (db_txs db3 !! t) as [tx|] eqn:E; [|by apply link_new_members_none].
    destruct (link_new_members_lookup ids now0 db3 t tx E)
      as [(k & r & Hk & Hid & Hin & _)|[_ ->]]; [|done].
    destruct Ht. apply (new_row_member ids new t Hlen). exists k.1.1. by eapply Hmem.
Qed.

Lemma elem_of_zip_with_rows (ids : list Z) (new : list NewCluster) row id :
  row ∈ zip_with new_cluster_row ids new ∧ clr_id row = id ↔
  ∃ c, (id, c) ∈ zip ids new ∧ row = new_cluster_row id c.
Proof.
  split.
  - intros [[i Hi]%list_elem_of_lookup <-].
    apply lookup_zip_with_Some in Hi as (id & c & -> & H1 & H2). exists c. split; [|done].
    apply (list_elem_of_lookup_2 _ i), lookup_zip_with_Some. eauto.
  - intros (c & [i Hi]%list_elem_of_lookup & ->). split; [|done].
    apply lookup_zip_with_Some in Hi as (? & ? & [= <- <-] & H1 & H2).
    apply (list_elem_of_lookup_2 _ i), lookup_zip_with_Some. eauto.
Qed.

Lemma inserted_intro new now now0 db db1 db2 db3 :
  let ids := new_ids db (length new) in
  chunks_owned db →
  rows_added (zip_with new_cluster_row ids new)
    (set_cluster_seq (db_cluster_seq db + Z.of_nat (length new)) db) db1 →
  chunks_added (new_rows ids new) now db1 db2 →
  hollow_added (new ≫= λ c, chunks_txids (nc_chunks c)) db2 db3 →
  inserted new db (link_new_members ids now0 db3).
Proof.
  intros ids Hown Hra Hadd Hh.
  assert (length ids = length new) as Hlen by apply new_ids_length.
  assert (∀ id, id ∈ ids → db_clusters db !! id = None) as Hfree.
  { intros id [i Hi]%list_elem_of_lookup. destruct (lookup_lt_is_Some_2 new i) as [c Hc].
    { rw -Hlen. by eapply lookup_lt_Some. }
    apply (ra_fresh _ _ _ Hra (new_cluster_row id c)).
    apply (list_elem_of_lookup_2 _ i), lookup_zip_with_Some. eauto. }
  assert (db1 = set_clusters (db_clusters db1) (set_cluster_seq
    (db_cluster_seq db + Z.of_nat (length new)) db)) as Hr1 by apply Hra.
  assert (db2 = set_chunks (db_chunks db2) db1) as Hr2 by apply Hadd.
  assert (db3 = set_txs (db_txs db3) db2) as Hr3 by apply Hh.
  assert (db_clusters db3 = db_clusters db1) as Hcl by (by rw Hr3 Hr2).
  destruct (insert_links ids new now now0 db1 db2 db3) as [Hin Hout]; [done| |done..|].
  { intros k r Hk Hid. rw Hr1 in Hk. destruct (Hown _ _ Hk) as [row Hrow].
    by rw Hfree in Hrow. }
  assert (db_txs db1 = db_txs db) as Ht1 by (by rw Hr1). rw Ht1 in Hin Hout.
  constructor; try done.
  - simpl. by rw Hr3 Hr2 Hr1.
  - intros id row. change (db_clusters (link_new_members ids now0 db3)) with (db_clusters db3).
    rw Hcl (ra_lookup _ _ _ Hra) elem_of_zip_with_rows. done.
  - exists now. simpl. rw Hcl. destruct Hadd as [Hrest Hnd Hfr Hlk]. constructor; try done.
    + intros r Hr. destruct (Hfr r Hr) as [Hf Hc]. rw {1}Hr1 in Hf. done.
    + intros k r'. simpl. rw Hr3 /= Hlk Hr1. done.
  - simpl. by rw Hr3 Hr2 Hr1.
Qed.

Lemma insert_in_runs s0 db new :
  s0 ≤ db_cluster_seq db → chunks_owned db →
  runs s0 db (insert_in new) (λ clusters db',
    inserted new db db' ∧
    clusters ≡ₚ zip_with (λ id c, from_row (new_cluster_row id c) (nc_chunks c))
                  (new_ids db (length new)) new).
Proof.
  intros Hs Hown. unfold insert_in.
  apply runs_statement_then; [done|]. intros ?. unfold allocate_ids.
  fold (new_ids db (length new)). set (ids := new_ids db (length new)).
  apply runs_statement_then; [simpl; lia|]. intros ?. unfold insert_cluster_rows.
  destruct (foldl _ _ _) as [db1|e] eqn:E; [|done].
  eapply (insert_cluster_rows_added _ []) in E; [|apply rows_added_nil]. simpl in E.
  assert (s0 ≤ db_cluster_seq db1) as Hs1 by (rw (ra_rest _ _ _ E); simpl; lia).
  fold (new_rows ids new).
  eapply runs_bind; [by apply insert_chunks_runs|]. intros [] db2 [stamp Hadd].
  pose proof (chunks_added_clusters _ _ _ _ Hadd) as (_ & _ & Hsq2).
  eapply runs_bind; [apply insert_hollow_members_runs; lia|]. intros [] db3 Hh.
  apply runs_execute_then; [rw (ha_rest _ _ _ Hh); simpl; lia|]. intros t.
  apply runs_ret. split; [by eapply inserted_intro|].
  rw shuffle_perm. apply reflexive_eq.
  assert (length ids = length new) as Hlen by apply new_ids_length.
  assert (NoDup ids) as Hnd by apply new_ids_NoDup. clearbody ids. clear -Hlen Hnd.
  apply list_eq. intros i. rw list_lookup_fmap !lookup_zip_with.
  destruct (ids !! i) as [id|] eqn:Hi; [|done]. destruct (new !! i) as [c|] eqn:Hc; [|done].
  simpl. do 2 f_equal.
  assert (list_to_map (zip ids (nc_chunks <$> new)) !! id = Some (nc_chunks c)) as ->; [|done].
  apply elem_of_list_to_map_1.
  - rw fst_zip; [done|]. rw length_fmap. lia.
  - apply (list_elem_of_lookup_2 _ i), lookup_zip_with_Some. exists id, (nc_chunks c).
    by rw list_lookup_fmap Hc.
Qed.
End writes.

End ClusterWrites.
