(* ===== verification/ClusterInv.v ===== *)
(** * The invariant of the cluster tables

    What ties [clusters], [cluster_chunks] and [transactions.cluster_id] together
    between two transactions, and that every write of [ClusterRepo] keeps it. *)

From S2P Require Import Prelude.
From S2P Require Import Models.
From S2P Require Import Database.
From S2P Require Import ClusterRepo.
From S2P Require Import ClusterRepoFacts.
From S2P Require Import ClusterWrites.

Open Scope Z_scope.

Module ClusterInv.
Import Database ClusterRepo ClusterRepoFacts ClusterWrites.

(** Rows of [clusters] and [cluster_chunks].  [D] lists the clusters whose current
    version may have been written without the [live] flag: nobody sees them outside
    the transaction of [trim_and_confirm_many]. *)
Record rows_ok (D : list Z) (db : Db) : Prop := {
  ro_row : ∀ id row, db_clusters db !! id = Some row →
    clr_id row = id ∧ 1 ≤ clr_version row ∧ id ≤ db_cluster_seq db;
  ro_dates : ∀ id row, db_clusters db !! id = Some row →
    (is_Some (clr_closed_at row) ↔ clr_status row ≠ Active) ∧
    (is_Some (clr_confirmed_at row) ↔ clr_status row = Confirmed);
  ro_totals : ∀ id row, db_clusters db !! id = Some row →
    version_sums db id (clr_version row) = mkChunkSums (clr_total_weight row) (clr_total_fee row);
  ro_chunk : ∀ id v p r, db_chunks db !! (id, v, p) = Some r → ∃ row,
    db_clusters db !! id = Some row ∧ 1 ≤ v ≤ clr_version row ∧
    (chr_live r = true → clr_status row = Active ∧ v = clr_version row) ∧
    (clr_status row = Active → v = clr_version row → id ∉ D → chr_live r = true);
  ro_member : ∀ k r t, db_chunks db !! k = Some r → t ∈ chr_txids r → is_Some (db_txs db !! t);
}.

(** Back-links: only to the current version of a cluster that is open or was
    confirmed. *)
Definition links_ok (db : Db) : Prop :=
  ∀ t tx id, db_txs db !! t = Some tx → tx_cluster_id tx = Some id → ∃ row,
    db_clusters db !! id = Some row ∧ (clr_status row = Active ∨ clr_status row = Confirmed) ∧
    member db id (clr_version row) t.

Definition cluster_inv (db : Db) : Prop := rows_ok [] db ∧ links_ok db.

Lemma rows_ok_owned D db : rows_ok D db → chunks_owned db.
Proof. intros Hok [[id v] p] r (row & Hrow & _)%Hok. eauto. Qed.

Lemma rows_ok_key D db id row : rows_ok D db → db_clusters db !! id = Some row → clr_id row = id.
Proof. intros Hok Hrow. by destruct (ro_row _ _ Hok _ _ Hrow). Qed.

Lemma cluster_inv_empty : cluster_inv empty_db.
Proof.
  split; [constructor|intros ???]; simpl; intros *; rw ?lookup_empty; by intros ?.
Qed.

Lemma version_sums_ext db db' id v :
  (∀ p, db_chunks db' !! (id, v, p) = db_chunks db !! (id, v, p)) →
  version_sums db' id v = version_sums db id v.
Proof. intros Hext. unfold version_sums. by rw (version_rows_ext db db'). Qed.

(** Changing [live] leaves the totals alone. *)
Lemma version_sums_live g db db' id v :
  (∀ p, db_chunks db' !! (id, v, p) = (λ r, set_row_live (g r) r) <$> db_chunks db !! (id, v, p)) →
  version_sums db' id v = version_sums db id v.
Proof.
  intros Hext. unfold version_sums. rw (version_rows_map _ db db' id v Hext).
  by rw -!list_fmap_compose.
Qed.

Lemma cluster_inv_untouched db0 db : cluster_inv db0 → untouched db0 db → cluster_inv db.
Proof.
  intros [Hok Hl] (n & Hn & ->). split; [|exact Hl].
  destruct Hok as [Hrow Hd Ht Hc Hm]. constructor; try done.
  intros id row Hr. destruct (Hrow id row Hr) as (? & ? & ?). simpl. lia.
Qed.

(** Writes to transactions that keep every row and give no back-link keep the clusters. *)
Lemma cluster_inv_txs db db' :
  db_clusters db' = db_clusters db → db_chunks db' = db_chunks db →
  db_cluster_seq db' = db_cluster_seq db →
  (∀ t, is_Some (db_txs db !! t) → is_Some (db_txs db' !! t)) →
  (∀ t tx id, db_txs db' !! t = Some tx → tx_cluster_id tx = Some id →
     ∃ tx0, db_txs db !! t = Some tx0 ∧ tx_cluster_id tx0 = Some id) →
  cluster_inv db → cluster_inv db'.
Proof.
  intros Hc Hch Hsq Hsome Hlink [Hok Hl]. split.
  - destruct Hok as [O1 O2 O3 O4 O5]. constructor; rw ?Hc ?Hch ?Hsq; try done.
    + intros id row Hr. rw -(O3 id row Hr). apply version_sums_ext. intros p. by rw Hch.
    + intros k r t Hk Ht. by eapply Hsome, O5.
  - intros t tx id Htx Hid. rw Hc. destruct (Hlink t tx id Htx Hid) as (tx0 & Ht0 & Hi0).
    destruct (Hl t tx0 id Ht0 Hi0) as (row & Hr & Hs & p & r & Hp & Ht). exists row.
    split; [done|]. split; [done|]. exists p, r. by rw Hch.
Qed.

(** ** Replacing a version *)

Section replacing.
Context (update : ClusterVersionUpdate) (live : bool) (old : ClusterRow) (db db' : Db).
Context (Hrp : replaced update live old db db').
Local Abbreviation id := (cvu_cluster_id update).
Local Abbreviation chunks := (cvu_chunks update).
Local Abbreviation v := (clr_version old).

Definition retired (i w : Z) (r : ChunkRow) : ChunkRow :=
  if decide ((i, w) = (id, v)) then set_row_live false r else r.

Lemma retired_txids i w r : chr_txids (retired i w r) = chr_txids r.
Proof. unfold retired. by case_guards. Qed.

Lemma replaced_chunk_old i w p r :
  db_chunks db !! (i, w, p) = Some r → db_chunks db' !! (i, w, p) = Some (retired i w r).
Proof.
  destruct (rp_chunks _ _ _ _ _ Hrp) as (now & t0 & Hc). intros Hr.
  apply (ca_lookup _ _ _ _ Hc (i, w, p)). left. simpl. rw lookup_update_where Hr /=.
  unfold retired. by case_guards.
Qed.

Lemma replaced_chunk_new n c :
  chunks !! n = Some c → ∃ now,
  db_chunks db' !! (id, v + 1, to_i16 (Z.of_nat n)) =
    Some (mkChunkRow (to_i64 (chunk_fee_sats c)) (to_i64 (chunk_weight c)) (chunk_txids c) live now).
Proof.
  destruct (rp_chunks _ _ _ _ _ Hrp) as (now & t0 & Hc). intros Hn. eexists.
  apply (ca_lookup _ _ _ _ Hc (id, v + 1, to_i16 (Z.of_nat n))). right.
  eexists. split; [apply elem_of_chunk_rows; exists n, c; by split|]. done.
Qed.

Lemma replaced_chunk_inv i w p r' :
  db_chunks db' !! (i, w, p) = Some r' →
  (∃ r, db_chunks db !! (i, w, p) = Some r ∧ r' = retired i w r) ∨
  i = id ∧ w = v + 1 ∧ ∃ now n c, chunks !! n = Some c ∧
    r' = mkChunkRow (to_i64 (chunk_fee_sats c)) (to_i64 (chunk_weight c)) (chunk_txids c) live now.
Proof.
  destruct (rp_chunks _ _ _ _ _ Hrp) as (now & t0 & Hc).
  rw (ca_lookup _ _ _ _ Hc (i, w, p) r') /= lookup_update_where.
  intros [(r & Hr & Hr')%fmap_Some|(r & Hr & Hk & ->)].
  - left. exists r. split; [done|]. rw Hr' /=. unfold retired. by case_guards.
  - right. apply elem_of_chunk_rows in Hr as (n & c & Hn & ->). unfold ncc_key in Hk. simplify_eq/=.
    split; [done|]. split; [done|]. by eexists _, n, c.
Qed.

Lemma replaced_member_old i w t : member db i w t → member db' i w t.
Proof.
  intros (p & r & Hr & Ht). exists p, (retired i w r).
  split; [by apply replaced_chunk_old|by rw retired_txids].
Qed.

Lemma replaced_member_new t : t ∈ chunks_txids chunks → member db' id (v + 1) t.
Proof.
  intros (c & [n Hn]%list_elem_of_lookup & Ht)%elem_of_chunks_txids.
  destruct (replaced_chunk_new n c Hn) as [now Hr]. by eexists _, _.
Qed.

Lemma replaced_row i row' :
  db_clusters db' !! i = Some row' →
  i = id ∧ row' = set_row_version (v + 1) (totals chunks) old ∨
  i ≠ id ∧ db_clusters db !! i = Some row'.
Proof.
  rw (rp_clusters _ _ _ _ _ Hrp) lookup_insert_Some. naive_solver.
Qed.

Lemma replaced_chunk_other i w p :
  i ≠ id → db_chunks db' !! (i, w, p) = db_chunks db !! (i, w, p).
Proof.
  intros Hne. destruct (db_chunks db !! (i, w, p)) as [r|] eqn:E.
  - rw (replaced_chunk_old _ _ _ _ E). unfold retired. by rw decide_False; [|congruence].
  - destruct (db_chunks db' !! (i, w, p)) as [r'|] eqn:E'; [|done].
    apply replaced_chunk_inv in E' as [(r & Hr & _)|(-> & _)]; [congruence|done].
Qed.

Lemma replaced_sums_other i w :
  i ≠ id → version_sums db' i w = version_sums db i w.
Proof. intros Hne. apply version_sums_ext. intros p. by apply replaced_chunk_other. Qed.

Lemma replaced_version_rows D :
  rows_ok D db → ∃ now, version_rows db' id (v + 1) ≡ₚ
    (λ r, (ncc_key r, ncc_row (now (ncc_key r)) r)) <$> chunk_rows id (v + 1) chunks live.
Proof.
  intros Hok. destruct (rp_chunks _ _ _ _ _ Hrp) as (now & t0 & Hc). exists now.
  change (version_rows db' id (v + 1))
    with (version_rows (set_chunks (db_chunks db') db) id (v + 1)).
  eapply chunks_added_version_rows; [exact Hc| |done|done|apply Hc].
  intros p. simpl. rw lookup_update_where.
  destruct (db_chunks db !! (id, v + 1, p)) as [r|] eqn:E; [|done].
  apply Hok in E as (row & Hrow & Hv & _).
  rw (rp_old _ _ _ _ _ Hrp) in Hrow. simplify_eq. lia.
Qed.

Lemma replaced_sums_new D :
  rows_ok D db → version_sums db' id (v + 1) = totals chunks.
Proof.
  intros [now Hp]%replaced_version_rows. by eapply sums_of_rows.
Qed.

Lemma replaced_has_row i row :
  db_clusters db !! i = Some row → i ≠ id → db_clusters db' !! i = Some row.
Proof. intros Hr Hne. by rw (rp_clusters _ _ _ _ _ Hrp) lookup_insert_ne. Qed.

Lemma replaced_new_row :
  db_clusters db' !! id = Some (set_row_version (v + 1) (totals chunks) old).
Proof. by rw (rp_clusters _ _ _ _ _ Hrp) lookup_insert_eq. Qed.

Lemma replaced_tx t : is_Some (db_txs db !! t) → is_Some (db_txs db' !! t).
Proof.
  intros [tx Htx]. destruct (decide (t ∈ chunks_txids chunks)) as [Hin|Hout].
  - destruct (rp_in _ _ _ _ _ Hrp t Hin) as (tx' & -> & _). eauto.
  - rw (rp_out _ _ _ _ _ Hrp t Hout) Htx. eauto.
Qed.

Lemma replaced_rows_ok D :
  rows_ok D db → (live = true → id ∉ D) → rows_ok (if live then D else id :: D) db'.
Proof.
  intros Hok Hlive. pose proof (rp_old _ _ _ _ _ Hrp) as Hold.
  destruct (ro_row _ _ Hok _ _ Hold) as (Hk & Hv & Hsq).
  assert (db_cluster_seq db' = db_cluster_seq db) as Hseq
    by (rw (rp_rest _ _ _ _ _ Hrp); done).
  constructor.
  - intros i row [[-> ->]|[Hne Hr]]%replaced_row; rw Hseq; [|by apply Hok].
    simpl. split_and!; [done|lia|done].
  - intros i row [[-> ->]|[Hne Hr]]%replaced_row; [apply (ro_dates _ _ Hok _ _ Hold)|].
    by apply (ro_dates _ _ Hok i).
  - intros i row [[-> ->]|[Hne Hr]]%replaced_row; simpl.
    + rw (replaced_sums_new D) //.
    + rw replaced_sums_other //. by apply Hok.
  - intros i w p r' [(r & Hr & ->)|(-> & -> & now & n & c & Hn & ->)]%replaced_chunk_inv.
    + destruct (ro_chunk _ _ Hok _ _ _ _ Hr) as (row & Hrow & Hw & Hl1 & Hl2).
      unfold retired. destruct (decide (i = id)) as [->|Hne].
      * exists (set_row_version (v + 1) (totals chunks) old).
        assert (row = old) as -> by congruence. split; [apply replaced_new_row|].
        simpl. split; [lia|]. case_guards; simplify_eq/=; split; try done; [lia|naive_solver|lia].
      * exists row. rw decide_False; [|congruence]. split; [by apply replaced_has_row|].
        split; [done|]. split; [done|]. intros Ha Hw' Hd. apply Hl2; [done..|].
        destruct live; set_solver.
    + exists (set_row_version (v + 1) (totals chunks) old). split; [apply replaced_new_row|].
      simpl. split; [lia|]. split; [intros ->; by rw (rp_active _ _ _ _ _ Hrp)|].
      intros _ _ Hd. destruct live; [done|set_solver].
  - intros [[i w] p] r' t
      [(r & Hr & ->)|(-> & -> & now & n & c & Hn & ->)]%replaced_chunk_inv Ht.
    + rw retired_txids in Ht. apply replaced_tx. by eapply Hok.
    + destruct (rp_in _ _ _ _ _ Hrp t) as (tx & -> & _); [|eauto].
      apply elem_of_chunks_txids. exists c. split; [by eapply list_elem_of_lookup_2|done].
Qed.

Lemma replaced_links_ok : links_ok db → links_ok db'.
Proof.
  intros Hl t tx i Htx Hi.
  destruct (decide (t ∈ chunks_txids chunks)) as [Hin|Hout].
  - destruct (rp_in _ _ _ _ _ Hrp t Hin) as (tx' & Htx' & _). rw Htx' in Htx. simplify_eq/=.
    eexists. split; [apply replaced_new_row|]. simpl. rw (rp_active _ _ _ _ _ Hrp).
    split; [by left|]. by apply replaced_member_new.
  - rw (rp_out _ _ _ _ _ Hrp t Hout) in Htx.
    destruct (db_txs db !! t) as [tx0|] eqn:E; simplify_eq/=.
    case_guards; [done|]. destruct (Hl t tx0 i E Hi) as (row & Hrow & Hst & Hm).
    exists row. split; [apply replaced_has_row; [done|congruence]|]. split; [done|].
    by apply replaced_member_old.
Qed.
End replacing.

(** ** Closing *)

Section closing.
Context (ids : list Z) (status : ClusterStatus) (confirmed_at : option Z) (t0 t1 : Z) (db : Db).
Local Abbreviation gone := (active_among ids db).
Local Abbreviation db' := (closed gone status confirmed_at t0 t1 db).

Lemma closed_chunk i w p :
  db_chunks db' !! (i, w, p) =
  (λ r, set_row_live (chr_live r && negb (bool_decide (i ∈ gone))) r) <$> db_chunks db !! (i, w, p).
Proof.
  simpl. rw lookup_update_where. destruct (db_chunks db !! (i, w, p)) as [[]|]; [|done].
  simpl. f_equal. unfold set_row_live. simpl. case_guards; destruct chr_live0; done.
Qed.

Lemma closed_member i w t : member db' i w t ↔ member db i w t.
Proof.
  unfold member. setoid_rewrite closed_chunk. split.
  - intros (p & r' & (r & Hr & ->)%fmap_Some & Ht). eauto.
  - intros (p & r & Hr & Ht). exists p. rw Hr /=. eauto.
Qed.

Lemma closed_row i row' :
  db_clusters db' !! i = Some row' → ∃ row, db_clusters db !! i = Some row ∧
    ((i ∈ gone ∧ row' = set_row_closed status confirmed_at t0 row) ∨ (¬ (i ∈ gone) ∧ row' = row)).
Proof.
  simpl. rw lookup_update_where. intros (row & Hr & ->)%fmap_Some. exists row.
  split; [done|]. case_guards; auto.
Qed.

Lemma closed_rows_ok D :
  rows_ok D db → D ⊆ ids → status ≠ Active → (is_Some confirmed_at ↔ status = Confirmed) →
  rows_ok [] db'.
Proof.
  intros Hok Hsub Hst Hconf.
  assert (∀ i row, db_clusters db !! i = Some row → i ∈ gone → clr_status row = Active) as Hact.
  { intros i row Hr (_ & row' & Hr' & Ha)%elem_of_active_among. congruence. }
  constructor.
  - intros i row' (row & Hr & [[_ ->]|[_ ->]])%closed_row;
      by apply (ro_row _ _ Hok _ row).
  - intros i row' (row & Hr & [[Hin ->]|[_ ->]])%closed_row; [|by apply (ro_dates _ _ Hok i)].
    pose proof (ro_dates _ _ Hok _ _ Hr) as [_ Hd]. rw (Hact _ _ Hr Hin) in Hd.
    simpl. split; [by split; [|eauto]|]. destruct confirmed_at; [done|].
    rw Hd -Hconf. split; [done|by intros []].
  - intros i row' (row & Hr & Hcase)%closed_row.
    rw (version_sums_live _ _ _ _ _ (closed_chunk i (clr_version row'))).
    destruct Hcase as [[_ ->]|[_ ->]]; by apply (ro_totals _ _ Hok _ row).
  - intros i w p r'. rw closed_chunk. intros (r & Hr & ->)%fmap_Some.
    destruct (ro_chunk _ _ Hok _ _ _ _ Hr) as (row & Hrow & Hw & Hl1 & Hl2).
    exists (if decide (i ∈ gone) then set_row_closed status confirmed_at t0 row else row).
    split; [simpl; rw lookup_update_where Hrow /=; by case_guards|]. simpl.
    destruct (decide (i ∈ gone)) as [Hin|Hout].
    + rw bool_decide_eq_true_2 // andb_false_r /=. split; [lia|by split].
    + rw bool_decide_eq_false_2 // andb_true_r /=. split; [lia|split; [done|]].
      intros Ha Hv _. apply Hl2; [done..|]. intros Hd%Hsub. apply Hout, elem_of_active_among.
      eauto.
  - intros [[i w] p] r' t. rw closed_chunk. intros (r & Hr & ->)%fmap_Some. by apply (ro_member _ _ Hok (i, w, p) r).
Qed.

Lemma confirmed_links_ok : status = Confirmed → links_ok db → links_ok db'.
Proof.
  intros Hst Hl t tx i Htx Hi. destruct (Hl t tx i Htx Hi) as (row & Hr & Hs & Hm).
  exists (if decide (i ∈ gone) then set_row_closed status confirmed_at t0 row else row).
  split; [simpl; rw lookup_update_where Hr /=; by case_guards|].
  rw closed_member. case_guards; simpl; auto.
Qed.

Lemma detached_links_ok t2 : links_ok db → links_ok (detach_clusters gone t2 db').
Proof.
  intros Hl t tx i. simpl. rw lookup_update_where. intros (tx0 & Htx & ->)%fmap_Some Hi.
  change (db_txs db') with (db_txs db) in Htx.
  destruct (tx_cluster_id tx0) as [j|] eqn:Ej; [|by rw Ej in Hi].
  destruct (bool_decide_reflect (j ∈ gone)); [done|].
  rw Ej in Hi. simplify_eq. destruct (Hl t tx0 i Htx Ej) as (row & Hr & Hs & Hm).
  exists row. split; [rw lookup_update_where Hr /= bool_decide_eq_false_2 //|].
  split; [done|]. by apply closed_member.
Qed.
End closing.

(** ** Inserting *)

Section inserting.
Context (new : list NewCluster) (db db' : Db).
Context (Hins : inserted new db db') (Hok : rows_ok [] db).
Local Abbreviation ids := (new_ids db (length new)).

Lemma inserted_chunk_old k r : db_chunks db !! k = Some r → db_chunks db' !! k = Some r.
Proof.
  intros Hr. destruct (in_chunks _ _ _ Hins) as [now Hc].
  apply (ca_lookup _ _ _ _ Hc k r). by left.
Qed.

Lemma inserted_chunk_inv k r :
  db_chunks db' !! k = Some r →
  db_chunks db !! k = Some r ∧ k.1.1 ∉ ids ∨
  ∃ id c now n ch, (id, c) ∈ zip ids new ∧ nc_chunks c !! n = Some ch ∧
    k = (id, 1, to_i16 (Z.of_nat n)) ∧
    r = mkChunkRow (to_i64 (chunk_fee_sats ch)) (to_i64 (chunk_weight ch)) (chunk_txids ch)
          true now.
Proof.
  destruct (in_chunks _ _ _ Hins) as [now Hc].
  intros [Hold|(r0 & Hr0 & -> & ->)]%(ca_lookup _ _ _ _ Hc k r).
  - left. split; [done|]. intros Hid. simpl in Hold.
    destruct (rows_ok_owned _ _ Hok _ _ Hold) as [row Hrow].
    by rw (in_fresh _ _ _ Hins _ Hid) in Hrow.
  - right. apply elem_of_new_rows in Hr0 as (id & c & Hz & (n & ch & Hn & ->)%elem_of_chunk_rows).
    by eexists id, c, _, n, ch.
Qed.

Lemma inserted_row_old id row :
  db_clusters db !! id = Some row → db_clusters db' !! id = Some row.
Proof. intros Hr. apply (in_clusters _ _ _ Hins). by left. Qed.

Lemma inserted_row_new id c :
  (id, c) ∈ zip ids new → db_clusters db' !! id = Some (new_cluster_row id c).
Proof. intros Hz. apply (in_clusters _ _ _ Hins). right. eauto. Qed.

Lemma new_chunk_rows_sublist id c :
  (id, c) ∈ zip ids new →
  chunk_rows id 1 (nc_chunks c) true `sublist_of` new_rows ids new.
Proof.
  intros (l1 & l2 & Heq)%list_elem_of_split. unfold new_rows. rw Heq bind_app bind_cons.
  apply sublist_inserts_l, sublist_inserts_r. done.
Qed.

Lemma inserted_version_rows id c :
  (id, c) ∈ zip ids new → ∃ now, version_rows db' id 1 ≡ₚ
    (λ r, (ncc_key r, ncc_row (now (ncc_key r)) r)) <$> chunk_rows id 1 (nc_chunks c) true.
Proof.
  intros Hz. destruct (in_chunks _ _ _ Hins) as [now Hc]. exists now.
  pose proof (new_chunk_rows_sublist _ _ Hz) as Hsub.
  eapply (chunks_added_version_rows _ _ _ _ _ _ _ _ Hc).
  - intros p. simpl. destruct (db_chunks db !! (id, 1, p)) as [r|] eqn:E; [|done].
    destruct (rows_ok_owned _ _ Hok _ _ E) as [row Hrow]. simpl in Hrow.
    rw (in_fresh _ _ _ Hins) in Hrow; [done|by eapply elem_of_zip_l].
  - intros r (id' & c' & Hz' & Hr)%elem_of_new_rows Hk.
    assert (id' = id) as ->.
    { apply elem_of_chunk_rows in Hr as (n & ch & _ & ->). by simplify_eq/=. }
    by rw (zip_fst_unique _ _ _ _ _ (new_ids_NoDup db (length new)) Hz Hz').
  - intros r Hr. by eapply sublist_subseteq.
  - eapply sublist_NoDup; [apply Hc|]. by apply fmap_sublist.
Qed.

Lemma inserted_sums_new id c :
  (id, c) ∈ zip ids new → version_sums db' id 1 = totals (nc_chunks c).
Proof. intros [now Hp]%inserted_version_rows. by eapply sums_of_rows. Qed.

Lemma inserted_rows_ok : rows_ok [] db'.
Proof.
  constructor.
  - intros id row [Hr|(c & Hz & ->)]%(in_clusters _ _ _ Hins); rw (in_seq _ _ _ Hins).
    + destruct (ro_row _ _ Hok _ _ Hr) as (? & ? & ?). lia.
    + simpl. split; [done|]. apply elem_of_zip_l, new_ids_range in Hz. lia.
  - intros id row [Hr|(c & Hz & ->)]%(in_clusters _ _ _ Hins).
    + by apply (ro_dates _ _ Hok id).
    + simpl. split; split; intros Hx; first [done|by destruct Hx].
  - intros id row [Hr|(c & Hz & ->)]%(in_clusters _ _ _ Hins).
    + rw (version_sums_ext db); [by apply Hok|]. intros p.
      destruct (db_chunks db !! _) as [r|] eqn:E; [by apply inserted_chunk_old|].
      destruct (db_chunks db' !! _) as [r|] eqn:E'; [|done].
      apply inserted_chunk_inv in E' as [[? _]|(id' & c & ? & ? & ? & Hz & ? & Hk & _)];
        [congruence|]. simplify_eq. apply elem_of_zip_l, (in_fresh _ _ _ Hins) in Hz.
      congruence.
    + by rw (inserted_sums_new _ _ Hz).
  - intros id v p r [[Hr _]|(id' & c & now & n & ch & Hz & Hn & Hk & ->)]%inserted_chunk_inv.
    + destruct (ro_chunk _ _ Hok _ _ _ _ Hr) as (row & Hrow & Hrest). exists row.
      split; [by apply inserted_row_old|done].
    + simplify_eq. exists (new_cluster_row id' c). split; [by apply inserted_row_new|].
      simpl. split; [lia|by split].
  - intros k r t [[Hr _]|(id' & c & now & n & ch & Hz & Hn & Hk & ->)]%inserted_chunk_inv Ht.
    + destruct (ro_member _ _ Hok _ _ _ Hr Ht) as [tx Htx].
      destruct (decide (t ∈ (new ≫= λ c, chunks_txids (nc_chunks c)))) as [Hin|Hout].
      * destruct (in_in _ _ _ Hins t Hin) as (? & ? & tx' & _ & _ & -> & _). eauto.
      * rw (in_out _ _ _ Hins t Hout). eauto.
    + destruct (in_in _ _ _ Hins t) as (? & ? & tx' & _ & _ & -> & _); [|eauto].
      apply (new_row_member ids); [apply new_ids_length|]. exists id', c. split; [done|].
      apply elem_of_chunks_txids. exists ch. split; [by eapply list_elem_of_lookup_2|done].
Qed.

Lemma inserted_member_new id c t :
  (id, c) ∈ zip ids new → t ∈ chunks_txids (nc_chunks c) → member db' id 1 t.
Proof.
  intros Hz Ht. destruct (new_row_of_member _ _ _ _ _ Hz Ht) as (r & Hr & Hid & Hin).
  destruct (in_chunks _ _ _ Hins) as [now Hc].
  assert (db_chunks db' !! ncc_key r = Some (ncc_row (now (ncc_key r)) r)) as Hk.
  { apply (ca_lookup _ _ _ _ Hc (ncc_key r)). right. eauto. }
  apply elem_of_new_rows in Hr as (? & ? & _ & (n & ch & _ & ->)%elem_of_chunk_rows).
  simpl in *. subst. by eexists _, _.
Qed.

Lemma inserted_links_ok : links_ok db → links_ok db'.
Proof.
  intros Hl t tx i Htx Hi.
  destruct (decide (t ∈ (new ≫= λ c, chunks_txids (nc_chunks c)))) as [Hin|Hout].
  - destruct (in_in _ _ _ Hins t Hin) as (id & c & tx' & Hz & Ht & Htx' & _).
    rw Htx' in Htx. simplify_eq/=. eexists. split; [by apply inserted_row_new|].
    split; [by left|]. by eapply inserted_member_new.
  - rw (in_out _ _ _ Hins t Hout) in Htx.
    destruct (Hl t tx i Htx Hi) as (row & Hr & Hs & p & r & Hp & Ht).
    exists row. split; [by apply inserted_row_old|]. split; [done|].
    exists p, r. split; [by apply inserted_chunk_old|done].
Qed.
End inserting.
End ClusterInv.
