(* ===== verification/ClusterHistory.v ===== *)
(** * Cluster history and the guarantees of the cluster repositories

    Every write of [ClusterRepo] keeps the invariant of the cluster tables and only
    ever adds to the history of a cluster, whatever the server or the pool does. *)

From S2P Require Import Prelude.
From S2P Require Import Models.
From S2P Require Import Database.
From S2P Require Import ClusterRepo.
From S2P Require Import ClusterRepoFacts.
From S2P Require Import ClusterWrites.
From S2P Require Import ClusterInv.

Open Scope Z_scope.

Module ClusterHistory.
Import Database ClusterRepo ClusterRepoFacts ClusterWrites ClusterInv.

(** ** Append-only history *)

(** From [db] to [db'] clusters were only added, moved to later versions or closed;
    what is closed is frozen, chunk rows only lose [live], and of a transaction only
    the back-link changes. *)
Record history (db db' : Db) : Prop := {
  hi_rows : ∀ id row, db_clusters db !! id = Some row → ∃ row',
    db_clusters db' !! id = Some row' ∧
    clr_first_seen_at row' = clr_first_seen_at row ∧
    clr_version row ≤ clr_version row' ∧
    (clr_status row ≠ Active → row' = row);
  hi_chunks : ∀ k r, db_chunks db !! k = Some r → ∃ l,
    db_chunks db' !! k = Some (set_row_live l r) ∧ (l = true → chr_live r = true);
  hi_txs : ∀ t tx, db_txs db !! t = Some tx → ∃ c, db_txs db' !! t = Some (set_tx_cluster c tx);
  hi_seq : db_cluster_seq db ≤ db_cluster_seq db';
}.

Lemma set_row_live_id r : set_row_live (chr_live r) r = r.
Proof. by destruct r. Qed.
Lemma set_tx_cluster_id tx : set_tx_cluster (tx_cluster_id tx) tx = tx.
Proof. by destruct tx. Qed.

(** Rows that kept everything. *)
Lemma keep_row (m : gmap Z ClusterRow) id row :
  m !! id = Some row → ∃ row', m !! id = Some row' ∧
    clr_first_seen_at row' = clr_first_seen_at row ∧ clr_version row ≤ clr_version row' ∧
    (clr_status row ≠ Active → row' = row).
Proof. intros Hr. exists row. split_and!; by [lia|]. Qed.
Lemma keep_chunk (m : gmap (Z * Z * Z) ChunkRow) k r :
  m !! k = Some r → ∃ l, m !! k = Some (set_row_live l r) ∧ (l = true → chr_live r = true).
Proof. intros Hr. exists (chr_live r). by rw set_row_live_id. Qed.
Lemma keep_tx (m : gmap string Transaction) t tx :
  m !! t = Some tx → ∃ c, m !! t = Some (set_tx_cluster c tx).
Proof. intros Hr. exists (tx_cluster_id tx). by rw set_tx_cluster_id. Qed.
#[local] Hint Resolve keep_row keep_chunk keep_tx : observer.

#[global] Instance history_preorder : PreOrder history.
Proof.
  split.
  - intros db. constructor; eauto with observer. lia.
  - intros db1 db2 db3 H12 H23. constructor.
    + intros id row Hr. destruct (hi_rows _ _ H12 _ _ Hr) as (row2 & H2 & Hf2 & Hv2 & Hc2).
      destruct (hi_rows _ _ H23 _ _ H2) as (row3 & H3 & Hf3 & Hv3 & Hc3). exists row3.
      split_and!; [done|congruence|lia|]. intros Hc. rw -(Hc2 Hc). apply Hc3. by rw (Hc2 Hc).
    + intros k r Hr. destruct (hi_chunks _ _ H12 _ _ Hr) as (l2 & H2 & Hl2).
      destruct (hi_chunks _ _ H23 _ _ H2) as (l3 & H3 & Hl3). exists l3. split; [done|]. auto.
    + intros t tx Ht. destruct (hi_txs _ _ H12 _ _ Ht) as (c2 & H2).
      destruct (hi_txs _ _ H23 _ _ H2) as (c3 & H3). by exists c3.
    + pose proof (hi_seq _ _ H12). pose proof (hi_seq _ _ H23). lia.
Qed.

Lemma history_untouched db db' : untouched db db' → history db db'.
Proof. intros (n & Hn & ->). constructor; simpl; eauto with observer. Qed.

Lemma history_inserted new db db' : rows_ok [] db → inserted new db db' → history db db'.
Proof.
  intros Hok Hins. constructor.
  - intros id row Hr. apply keep_row. by eapply inserted_row_old.
  - intros k r Hr. apply keep_chunk. by eapply inserted_chunk_old.
  - intros t tx Ht. destruct (decide (t ∈ (new ≫= λ c, chunks_txids (nc_chunks c)))) as [Hin|Hout].
    + destruct (in_in _ _ _ Hins t Hin) as (id & c & tx' & _ & _ & -> & [?|[? _]]); [|congruence].
      simplify_eq. eauto.
    + rw (in_out _ _ _ Hins t Hout). by apply keep_tx.
  - rw (in_seq _ _ _ Hins). lia.
Qed.

Lemma history_replaced update live old db db' : replaced update live old db db' → history db db'.
Proof.
  intros Hrp. constructor.
  - intros id row Hr. destruct (decide (id = cvu_cluster_id update)) as [->|Hne].
    + rw (rp_old _ _ _ _ _ Hrp) in Hr. simplify_eq. eexists.
      split; [by eapply replaced_new_row|]. simpl. split_and!; [done|lia|].
      by rw (rp_active _ _ _ _ _ Hrp).
    + apply keep_row. by eapply replaced_has_row.
  - intros [[i w] p] r Hr. rw (replaced_chunk_old _ _ _ _ _ Hrp _ _ _ _ Hr). unfold retired.
    case_guards; [by exists false|]. exists (chr_live r). by rw set_row_live_id.
  - intros t tx Ht. destruct (decide (t ∈ chunks_txids (cvu_chunks update))) as [Hin|Hout].
    + destruct (rp_in _ _ _ _ _ Hrp t Hin) as (tx' & -> & [?|[? _]]); [|congruence].
      simplify_eq. eauto.
    + rw (rp_out _ _ _ _ _ Hrp t Hout) Ht /=. case_guards; [by eauto|].
      exists (tx_cluster_id tx). by rw set_tx_cluster_id.
  - rw (rp_rest _ _ _ _ _ Hrp). simpl. lia.
Qed.

Lemma history_closed ids status at_ t0 t1 db :
  history db (closed (active_among ids db) status at_ t0 t1 db).
Proof.
  constructor.
  - intros id row Hr. simpl. rw lookup_update_where Hr /=. eexists. split; [done|].
    destruct (bool_decide_reflect (id ∈ active_among ids db)) as [Hin|Hout]; simpl.
    + split_and!; [done|lia|]. intros Hn.
      apply elem_of_active_among in Hin as (_ & row' & Hr' & Ha). congruence.
    + split_and!; by [lia|].
  - intros [[i w] p] r Hr. rw closed_chunk Hr /=. eexists. split; [done|]. by intros [??]%andb_prop.
  - eauto with observer.
  - simpl. lia.
Qed.

Lemma history_detached ids t db : history db (detach_clusters ids t db).
Proof.
  constructor; simpl; eauto with observer; [|lia].
  intros t' tx Ht. rw lookup_update_where Ht /=. case_match; [by eauto|].
  exists (tx_cluster_id tx). by rw set_tx_cluster_id.
Qed.

(** A change of back-links alone does not disturb the rows. *)
Lemma rows_ok_txs D ids t db :
  rows_ok D db → history db (detach_clusters ids t db) → rows_ok D (detach_clusters ids t db).
Proof.
  intros [Hr Hd Ht Hc Hm] Hh. constructor; try done.
  intros k r t' Hk Ht'. destruct (Hm k r t' Hk Ht') as [tx Htx].
  destruct (hi_txs _ _ Hh _ _ Htx) as [c ->]. eauto.
Qed.

(** Closing nothing changes nothing. *)
Lemma closed_nil status at_ t0 t1 db : db = closed [] status at_ t0 t1 db.
Proof.
  assert (∀ `{Countable K} {V} (P : K → V → bool) f (m : gmap K V),
    (∀ k v, P k v = false) → update_where P f m = m) as Hid.
  { intros K ?? V P f m HP. apply map_eq. intros k. rw lookup_update_where.
    destruct (m !! k); [|done]. simpl. by rw HP. }
  destruct db. unfold closed, retire_chunks_stmt, close_rows, set_chunks, set_clusters. simpl.
  rw !Hid //; intros; by rw bool_decide_eq_false_2; [|apply not_elem_of_nil].
Qed.

(** ** Any write, any fault *)

Inductive ClusterWrite :=
| InsertOne (new : NewCluster)
| InsertMany (new : list NewCluster)
| ReplaceChunks (update : ClusterVersionUpdate)
| MarkEvicted (ids : list Z)
| MarkMerged (ids : list Z)
| ConfirmMany (ids : list Z) (confirmed_at : Z)
| TrimAndConfirm (updates : list ClusterVersionUpdate) (confirmed_at : Z).

(** The tables went from one consistent state to another along the history. *)
Definition advanced (db db' : Db) : Prop := cluster_inv db' ∧ history db db'.

#[global] Instance advanced_trans : Transitive advanced.
Proof. intros db1 db2 db3 [_ H12] [Hi H23]. split; [done|]. by etrans. Qed.

Lemma advanced_refl db : cluster_inv db → advanced db db.
Proof. intros Hi. by split. Qed.

Lemma advanced_untouched db db' : cluster_inv db → untouched db db' → advanced db db'.
Proof.
  intros Hi Hu. split; [by eapply cluster_inv_untouched|by apply history_untouched].
Qed.

Lemma advanced_inserted new db db' : cluster_inv db → inserted new db db' → advanced db db'.
Proof.
  intros [Hok Hl] Hins. split; [split|by eapply history_inserted].
  - by eapply inserted_rows_ok.
  - by eapply inserted_links_ok.
Qed.

Lemma advanced_replaced update old db db' :
  cluster_inv db → replaced update true old db db' → advanced db db'.
Proof.
  intros [Hok Hl] Hrp. split; [split|by eapply history_replaced].
  - eapply (replaced_rows_ok _ true); [done..|]. intros _. apply not_elem_of_nil.
  - by eapply replaced_links_ok.
Qed.

Section writes.
Context `{EnumOrder, Env}.

Definition run_write (w : ClusterWrite) (c : Conn) : Conn :=
  match w with
  | InsertOne new => (insert_with_members new c).2
  | InsertMany new => (insert_many_with_members new c).2
  | ReplaceChunks update => (replace_chunks update c).2
  | MarkEvicted ids => (mark_evicted ids c).2
  | MarkMerged ids => (mark_merged ids c).2
  | ConfirmMany ids at_ => (confirm_many ids at_ c).2
  | TrimAndConfirm updates at_ => (trim_and_confirm_many updates at_ c).2
  end.

(** Both outcomes of a repository call advance the tables. *)
Lemma advanced_run {A} (m : RepoM A) (Q : A → Db → Prop) (E : Db → Prop) c :
  repo_triple (λ d, d = conn_db c) m Q E →
  (∀ a db, Q a db → advanced (conn_db c) db) → (∀ db, E db → advanced (conn_db c) db) →
  advanced (conn_db c) (conn_db (m c).2).
Proof.
  intros Hm HQ HE. specialize (Hm c eq_refl). destruct (m c) as [[a|e] c']; eauto.
Qed.

Lemma insert_with_members_spec db new :
  chunks_owned db →
  repo_triple (λ d, d = db) (insert_with_members new)
    (λ cl db', inserted [new] db db' ∧
       cl = from_row (new_cluster_row (db_cluster_seq db + 1) new) (nc_chunks new))
    (untouched db).
Proof.
  intros Hown. apply repo_runs_transaction.
  - eapply runs_bind; [by apply insert_in_runs|]. intros cls db' [Hins Hp].
    apply Permutation_singleton_r in Hp as ->. apply runs_ret. split; [done|].
    simpl. by rw Z.add_0_r.
  - intros cl db' [Hins _]. rw (in_seq _ _ _ Hins). lia.
Qed.

Lemma replace_chunks_spec db update :
  repo_triple (λ d, d = db) (replace_chunks update)
    (λ cluster db',
    ∃ old, db_clusters db !! cvu_cluster_id update = Some old ∧
      let current := version_chunks db (cvu_cluster_id update) (clr_version old) in
      (clr_status old ≠ Active ∨ current = cvu_chunks update) ∧
        cluster = from_row old current ∧ db' = db ∨
      current ≠ cvu_chunks update ∧ replaced update true old db db' ∧
        cluster = from_row (set_row_version (clr_version old + 1)
                              (totals (cvu_chunks update)) old) (cvu_chunks update))
    (untouched db).
Proof.
  apply repo_runs_transaction; [apply replace_chunks_in_runs; lia|].
  intros cl db' (old & _ & [(_ & _ & ->)|(_ & Hrp & _)]); [lia|].
  by apply (hi_seq _ _ (history_replaced _ _ _ _ _ Hrp)).
Qed.

Lemma confirm_many_spec db ids at_ :
  repo_triple (λ d, d = db) (confirm_many ids at_)
    (λ n db', n = length (active_among ids db) ∧
      (n = 0%nat ∧ db' = db ∨
       ∃ t0 t1, db' = closed (active_among ids db) Confirmed (Some at_) t0 t1 db))
    (untouched db).
Proof.
  destruct ids as [|i ids].
  { intros c Hc. simpl. rw Hc active_among_nil. by auto. }
  apply repo_runs_transaction; [apply confirm_many_in_runs; lia|].
  intros n db' (_ & [[_ ->]|(t0 & t1 & ->)]); simpl; lia.
Qed.

(** Inside [trim_and_confirm_many], after some of the updates: those clusters may
    be without their [live] flag, everything else is as between transactions. *)
Definition trimming (ids : list Z) (db0 db : Db) : Prop :=
  ∃ D, D ⊆ ids ∧ rows_ok D db ∧ links_ok db ∧ history db0 db.

Lemma trim_step s0 db0 db ids update :
  s0 ≤ db_cluster_seq db → trimming ids db0 db → cvu_cluster_id update ∈ ids →
  runs s0 db (_ ← replace_chunks_in update false; mret ()) (λ _ db', trimming ids db0 db').
Proof.
  intros Hs (D & Hsub & Hok & Hl & Hh) Hin.
  eapply runs_bind; [by apply replace_chunks_in_runs|].
  intros cl db' (old & _ & [(_ & _ & ->)|(_ & Hrp & _)]); apply runs_ret; [by exists D|].
  exists (cvu_cluster_id update :: D). split_and!.
  - set_solver.
  - by eapply (replaced_rows_ok _ false).
  - by eapply replaced_links_ok.
  - etrans; [done|]. by eapply history_replaced.
Qed.

Lemma trim_and_confirm_advances db updates at_ :
  cluster_inv db →
  repo_triple (λ d, d = db) (trim_and_confirm_many updates at_)
    (λ _ db', advanced db db') (untouched db).
Proof.
  intros Hi. pose proof Hi as [Hok Hl]. destruct updates as [|u us].
  { intros c Hc. simpl. rw Hc. by apply advanced_refl. }
  apply repo_runs_transaction; [|intros n db' [_ Hh]; apply Hh].
  set (sorted := sort_by cvu_cluster_id (u :: us)).
  set (ids := cvu_cluster_id <$> sorted).
  eapply runs_bind.
  - apply (runs_for_each _ _ _ _ (λ _ db', trimming ids db db')).
    + exists []. split_and!; [set_solver|done..].
    + intros pre update post db' Heq Htr. apply trim_step; [|done|].
      * destruct Htr as (_ & _ & _ & _ & Hh). apply Hh.
      * apply list_elem_of_fmap. exists update. split; [done|]. rw Heq. set_solver.
  - intros [] db1 (D & Hsub & Hok1 & Hl1 & Hh1).
    eapply runs_conseq; [apply confirm_many_in_runs; apply Hh1|].
    intros n db' [Hn Hcase].
    assert (∃ t0 t1, db' = closed (active_among ids db1) Confirmed (Some at_) t0 t1 db1)
      as (t0 & t1 & ->).
    { destruct Hcase as [[Hz ->]|]; [|done]. exists 0, 0. symmetry in Hn. rw Hz in Hn.
      apply nil_length_inv in Hn as ->. by apply closed_nil. }
    split; [split|].
    + by eapply closed_rows_ok.
    + by apply confirmed_links_ok.
    + etrans; [done|]. apply history_closed.
Qed.

Lemma insert_batches_advances batches db :
  cluster_inv db → triple (λ d, d = db) (insert_batches batches)
                     (λ _ db', advanced db db') (λ db', advanced db db').
Proof.
  revert db. induction batches as [|b bs IH]; intros db Hi; simpl.
  { apply triple_ret. intros ? ->. by apply advanced_refl. }
  eapply triple_bind.
  - eapply triple_conseq.
    + apply runs_transaction; [apply insert_in_runs; [lia|by eapply rows_ok_owned, Hi]|].
      intros cls db' [Hins _]. rw (in_seq _ _ _ Hins). lia.
    + done.
    + intros cls db' [Hins _]. exact (advanced_inserted _ _ _ Hi Hins).
    + intros db' Hu. by apply advanced_untouched.
  - simpl. intros rows c Hc. pose proof (proj1 Hc) as Hi'.
    assert (triple (λ d, d = conn_db c) (rest ← insert_batches bs; mret (rows ++ rest))
      (λ _ db', advanced (conn_db c) db') (λ db', advanced (conn_db c) db')) as Hrest.
    { eapply triple_bind; [by apply IH|]. intros rest. by apply triple_ret. }
    specialize (Hrest c eq_refl).
    destruct ((rest ← insert_batches bs; mret (rows ++ rest)) c) as [[?|?] ?]; by etrans.
Qed.

(** Closing as evicted or merged. *)
Lemma closed_detached_inv ids closing t0 t1 t2 db :
  cluster_inv db →
  cluster_inv (detach_clusters (active_among ids db) t2
    (closed (active_among ids db) (closing_status closing) None t0 t1 db)).
Proof.
  intros [Hok Hl]. split; [|by apply detached_links_ok].
  apply rows_ok_txs; [|by apply history_detached].
  eapply closed_rows_ok; [done|set_solver|by destruct closing|].
  destruct closing; split; first [done|by intros [? ?]].
Qed.

Lemma close_many_advances ids closing c :
  cluster_inv (conn_db c) → advanced (conn_db c) (conn_db (close_many ids closing c).2).
Proof.
  intros Hi. eapply advanced_run; [apply close_many_runs| |by intros; apply advanced_untouched].
  intros n db [_ [[_ ->]|(t0 & t1 & t2 & ->)]]; [by apply advanced_refl|].
  split; [by apply closed_detached_inv|]. etrans; [apply history_closed|apply history_detached].
Qed.

(** Every write advances the tables, whatever fails. *)
Lemma run_write_advances w c :
  cluster_inv (conn_db c) → advanced (conn_db c) (conn_db (run_write w c)).
Proof.
  intros Hi. pose proof Hi as [Hok Hl].
  assert (∀ db, untouched (conn_db c) db → advanced (conn_db c) db) as Hun
    by (intros; by apply advanced_untouched).
  destruct w as [new|new|update|ids|ids|ids at_|updates at_]; simpl.
  - eapply advanced_run; [apply insert_with_members_spec; by eapply rows_ok_owned| |done].
    intros cl db [Hins _]. by eapply advanced_inserted.
  - destruct new as [|n new]; [by apply advanced_refl|].
    eapply advanced_run; [apply repo_triple_query; [|by apply insert_batches_advances]|..].
    + intros ? ->. by apply advanced_refl.
    + done.
    + done.
  - eapply advanced_run; [apply replace_chunks_spec| |done].
    intros cl db (old & _ & [(_ & _ & ->)|(_ & Hrp & _)]); [by apply advanced_refl|].
    by eapply advanced_replaced.
  - by apply close_many_advances.
  - by apply close_many_advances.
  - eapply advanced_run; [apply confirm_many_spec| |done].
    intros n db [_ [[_ ->]|(t0 & t1 & ->)]]; [by apply advanced_refl|]. split; [split|].
    + eapply closed_rows_ok; [done|set_solver|done|done].
    + by apply confirmed_links_ok.
    + apply history_closed.
  - eapply advanced_run; [by apply trim_and_confirm_advances|done|done].
Qed.

Definition run_writes (ws : list ClusterWrite) (c : Conn) : Conn :=
  foldl (λ c w, run_write w c) c ws.

Lemma run_writes_advances ws c :
  cluster_inv (conn_db c) → advanced (conn_db c) (conn_db (run_writes ws c)).
Proof.
  revert c. induction ws as [|w ws IH]; intros c Hi; [by apply advanced_refl|].
  pose proof (run_write_advances w c Hi) as Hw. etrans; [exact Hw|]. apply IH, Hw.
Qed.
End writes.

End ClusterHistory.
