(* ===== verification/ClusterVersions.v ===== *)
(** * Versions of a cluster without a gap

    Every version of a cluster, from the first to the current one, was stored: the writes of
    [cluster.rs] and [cluster_membership.rs] number them one by one. *)

From S2P Require Import Prelude.
From S2P Require Import Models.
From S2P Require Import Database.
From S2P Require Import ClusterRepo.
From S2P Require Import ClusterRepoFacts.
From S2P Require Import ClusterWrites.
From S2P Require Import ClusterInv.
From S2P Require Import ClusterHistory.

Open Scope Z_scope.

Module ClusterVersions.
Import Database ClusterRepo ClusterRepoFacts ClusterWrites ClusterInv ClusterHistory.

(** Version [v] of a cluster has a chunk row. *)
Definition stored (db : Db) (id v : Z) : Prop := ∃ p r, db_chunks db !! (id, v, p) = Some r.

(** No version is skipped. *)
Definition contiguous (db : Db) : Prop :=
  ∀ id row v, db_clusters db !! id = Some row → 1 ≤ v ≤ clr_version row → stored db id v.

(** Writes that name no empty list of chunks. *)
Definition filling (w : ClusterWrite) : Prop :=
  match w with
  | InsertOne new => nc_chunks new ≠ []
  | InsertMany new => Forall (λ c, nc_chunks c ≠ []) new
  | ReplaceChunks update => cvu_chunks update ≠ []
  | TrimAndConfirm updates _ => Forall (λ u, cvu_chunks u ≠ []) updates
  | MarkEvicted _ | MarkMerged _ | ConfirmMany _ _ => True
  end.

Lemma contiguous_empty : contiguous empty_db.
Proof. intros id row v. simpl. by rw lookup_empty. Qed.

Lemma contiguous_untouched db db' : contiguous db → untouched db db' → contiguous db'.
Proof. intros Hc (n & _ & ->). exact Hc. Qed.

Lemma head_chunk {A} (l : list A) : l ≠ [] → ∃ x, l !! 0%nat = Some x.
Proof. destruct l as [|x l]; [done|]. intros _. by exists x. Qed.

Lemma contiguous_inserted new db db' :
  contiguous db → inserted new db db' → Forall (λ c, nc_chunks c ≠ []) new → contiguous db'.
Proof.
  intros Hc Hins Hne id row v Hrow Hv.
  apply (in_clusters _ _ _ Hins) in Hrow as [Hold|(c & Hz & ->)].
  - destruct (Hc id row v Hold Hv) as (p & r & Hr). exists p, r. by eapply inserted_chunk_old.
  - simpl in Hv. assert (v = 1) as -> by lia. apply elem_of_zip_r in Hz as Hin.
    rw Forall_forall in Hne. destruct (head_chunk _ (Hne c Hin)) as [ch Hch].
    destruct (in_chunks _ _ _ Hins) as [now Ha]. eexists _, _.
    apply (ca_lookup _ _ _ _ Ha (id, 1, to_i16 (Z.of_nat 0))). right. eexists.
    split; [apply elem_of_new_rows; exists id, c; split; [done|]; apply elem_of_chunk_rows; by exists 0%nat, ch|].
    done.
Qed.

Lemma contiguous_replaced update live old db db' :
  contiguous db → replaced update live old db db' → cvu_chunks update ≠ [] → contiguous db'.
Proof.
  intros Hc Hrp Hne id row v. rw (rp_clusters _ _ _ _ _ Hrp).
  assert (∀ i w, stored db i w → stored db' i w) as Hkeep.
  { intros i w (p & r & Hr). eexists p, _. by eapply replaced_chunk_old. }
  destruct (decide (id = cvu_cluster_id update)) as [->|Hid].
  - rw lookup_insert_eq. intros [= <-] Hv. simpl in Hv.
    destruct (decide (v = clr_version old + 1)) as [->|Hlt].
    + destruct (head_chunk _ Hne) as [ch Hch].
      destruct (replaced_chunk_new _ _ _ _ _ Hrp _ _ Hch) as [now Hr]. by eexists _, _.
    + apply Hkeep. eapply Hc; [apply Hrp|lia].
  - rw lookup_insert_ne //. intros Hr Hv. apply Hkeep. by eapply Hc.
Qed.

Lemma contiguous_closed ids status at_ t0 t1 db :
  contiguous db → contiguous (closed (active_among ids db) status at_ t0 t1 db).
Proof.
  intros Hc id row v Hrow Hv. apply closed_row in Hrow as (row0 & Hrow0 & Hcase).
  assert (clr_version row = clr_version row0) as Heq by (destruct Hcase as [[_ ->]|[_ ->]]; done).
  destruct (Hc id row0 v Hrow0) as (p & r & Hr); [lia|]. eexists p, _. rw closed_chunk Hr. done.
Qed.

Section writes.
Context `{EnumOrder, Env}.

(** Both outcomes of a repository call. *)
Lemma contiguous_run {A} (m : RepoM A) (Q : A → Db → Prop) (E : Db → Prop) c :
  repo_triple (λ d, d = conn_db c) m Q E →
  (∀ a db, Q a db → contiguous db) → (∀ db, E db → contiguous db) →
  contiguous (conn_db (m c).2).
Proof. intros Hm HQ HE. specialize (Hm c eq_refl). destruct (m c) as [[a|e] c']; eauto. Qed.

Lemma insert_batches_contiguous batches db :
  cluster_inv db → contiguous db → Forall (Forall (λ c, nc_chunks c ≠ [])) batches →
  triple (λ d, d = db) (insert_batches batches) (λ _ db', contiguous db') (λ db', contiguous db').
Proof.
  revert db. induction batches as [|b bs IH]; intros db Hi Hc Hne; simpl.
  { apply triple_ret. by intros ? ->. }
  apply Forall_cons in Hne as [Hb Hbs]. eapply triple_bind.
  - eapply (triple_conseq _ _ _ _ (λ _ db1, cluster_inv db1 ∧ contiguous db1)).
    + apply runs_transaction; [apply insert_in_runs; [lia|by eapply rows_ok_owned, Hi]|].
      intros cls db' [Hins _]. rw (in_seq _ _ _ Hins). lia.
    + done.
    + intros cls db' [Hins _]. split; [by apply (advanced_inserted _ _ _ Hi Hins)|].
      by eapply contiguous_inserted.
    + intros db' Hu. by eapply contiguous_untouched.
  - intros rows c [Hi1 Hc1]. specialize (IH (conn_db c) Hi1 Hc1 Hbs c eq_refl).
    unfold mbind, DbM_bind. by destruct (insert_batches bs c) as [[rest|e] c'].
Qed.

Lemma trim_and_confirm_contiguous db updates at_ :
  cluster_inv db → contiguous db → Forall (λ u, cvu_chunks u ≠ []) updates →
  repo_triple (λ d, d = db) (trim_and_confirm_many updates at_)
    (λ _ db', contiguous db' ∧ db_cluster_seq db ≤ db_cluster_seq db') (untouched db).
Proof.
  intros Hi Hc Hne. destruct updates as [|u us].
  { intros c Hd. simpl. by rw Hd. }
  apply repo_runs_transaction; [|by intros n db' [_ ?]].
  set (sorted := sort_by cvu_cluster_id (u :: us)).
  assert (Forall (λ u, cvu_chunks u ≠ []) sorted) as Hs
    by (unfold sorted; by rw (sort_by_perm cvu_cluster_id (u :: us))).
  eapply runs_bind.
  - apply (runs_for_each _ _ _ _ (λ _ db', contiguous db' ∧ db_cluster_seq db ≤ db_cluster_seq db')).
    + done.
    + intros pre update post db' Heq [Hc' Hle]. eapply runs_bind; [by apply replace_chunks_in_runs|].
      intros cl db2 (old & _ & [(_ & _ & ->)|(_ & Hrp & _)]); apply runs_ret; [done|]. split.
      * eapply contiguous_replaced; [done..|]. rw Forall_forall in Hs. apply Hs. rw Heq. set_solver.
      * etrans; [exact Hle|]. apply (hi_seq _ _ (history_replaced _ _ _ _ _ Hrp)).
  - intros [] db1 [Hc1 Hle]. eapply runs_conseq; [by apply confirm_many_in_runs|].
    intros n db' [_ [[_ ->]|(t0 & t1 & ->)]]; [done|]. split; [by apply contiguous_closed|].
    etrans; [exact Hle|]. apply (hi_seq _ _ (history_closed _ _ _ _ _ _)).
Qed.

Lemma close_many_contiguous ids closing c :
  contiguous (conn_db c) → contiguous (conn_db (close_many ids closing c).2).
Proof.
  intros Hc. eapply contiguous_run; [apply close_many_runs| |by intros; eapply contiguous_untouched].
  intros n db [_ [[_ ->]|(t0 & t1 & t2 & ->)]]; [done|].
  exact (contiguous_closed ids (closing_status closing) None t0 t1 _ Hc).
Qed.

Lemma run_write_contiguous w c :
  cluster_inv (conn_db c) → filling w → contiguous (conn_db c) → contiguous (conn_db (run_write w c)).
Proof.
  intros Hi Hw Hc.
  assert (∀ db, untouched (conn_db c) db → contiguous db) as Hun
    by (intros; by eapply contiguous_untouched).
  destruct w as [new|new|update|ids|ids|ids at_|updates at_]; simpl in Hw |- *.
  - eapply contiguous_run; [apply insert_with_members_spec; by eapply rows_ok_owned, Hi| |done].
    intros cl db [Hins _]. eapply contiguous_inserted; [done..|]. by apply Forall_singleton.
  - destruct new as [|n new]; [done|].
    eapply contiguous_run; [apply repo_triple_query; [|apply insert_batches_contiguous; [done..|]]| |].
    + intros ? ->. exact Hc.
    + rw -(concat_slice_chunks MEMPOOL_DELTA_INSERT_CHUNK_SIZE (n :: new)) in Hw;
        [by apply Forall_concat in Hw|unfold MEMPOOL_DELTA_INSERT_CHUNK_SIZE; lia].
    + done.
    + done.
  - eapply contiguous_run; [apply replace_chunks_spec| |done].
    intros cl db (old & _ & [(_ & _ & ->)|(_ & Hrp & _)]); [done|]. by eapply contiguous_replaced.
  - by apply close_many_contiguous.
  - by apply close_many_contiguous.
  - eapply contiguous_run; [apply confirm_many_spec| |done].
    intros n db [_ [[_ ->]|(t0 & t1 & ->)]]; [done|]. by apply contiguous_closed.
  - eapply contiguous_run; [by apply trim_and_confirm_contiguous|by intros n db [? _]|done].
Qed.

Lemma run_writes_contiguous ws c :
  cluster_inv (conn_db c) → contiguous (conn_db c) → Forall filling ws →
  contiguous (conn_db (run_writes ws c)).
Proof.
  revert c. induction ws as [|w ws IH]; intros c Hi Hc Hw; [done|].
  apply Forall_cons in Hw as [Hw Hws].
  apply IH; [by apply run_write_advances|by apply run_write_contiguous|done].
Qed.
End writes.

End ClusterVersions.
