(* ===== verification/ClusterThms.v ===== *)
(** * Theorems about the cluster repositories

    What holds of the cluster tables after any writes, and what each operation of
    [cluster.rs] and [cluster_membership.rs] does on every outcome. *)

From S2P Require Import Prelude.
From S2P Require Import Models.
From S2P Require Import Database.
From S2P Require Import ClusterRepo.
From S2P Require Import ClusterRepoFacts.
From S2P Require Import ClusterWrites.
From S2P Require Import ClusterInv.
From S2P Require Import ClusterHistory.
From S2P Require Import ClusterVersions.

Open Scope Z_scope.

Module ClusterThms.
Import Database ClusterRepo ClusterRepoFacts ClusterWrites ClusterInv ClusterHistory ClusterVersions.

(** ** Reading back what was written *)

(** A chunk as the node reports it: both amounts are [u64]. *)
Definition chunk_ok (c : ClusterChunk) : Prop :=
  is_u64 (chunk_fee_sats c) ∧ is_u64 (chunk_weight c).

(** Positions fit [i16]. *)
Definition MAX_CHUNKS : nat := Z.to_nat 32768.

Lemma chunk_row_roundtrip id v n c live now :
  chunk_ok c →
  chunk_of_row (ncc_row now (mkNewClusterChunk id v n (to_i64 (chunk_fee_sats c))
    (to_i64 (chunk_weight c)) (chunk_txids c) live)) = c.
Proof.
  intros [Hf Hw]. unfold chunk_of_row. simpl. rw !u64_i64_roundtrip //. by destruct c.
Qed.

(** Stored rows in the order of their positions are the chunks themselves. *)
Lemma version_chunks_of_rows db id v (now : Z * Z * Z → Z) chunks live :
  (length chunks ≤ MAX_CHUNKS)%nat → Forall chunk_ok chunks →
  version_rows db id v ≡ₚ
    (λ r, (ncc_key r, ncc_row (now (ncc_key r)) r)) <$> chunk_rows id v chunks live →
  version_chunks db id v = chunks.
Proof.
  intros Hlen Hok Hp. set (rows := (λ r, _) <$> _) in Hp.
  assert (∀ i kv, rows !! i = Some kv → kv.1.2 = Z.of_nat i) as Hpos.
  { intros i kv. subst rows. unfold chunk_rows. rw list_lookup_fmap list_lookup_imap.
    intros (r & (c & Hc & ->)%fmap_Some & ->)%fmap_Some. simpl.
    apply lookup_lt_Some in Hc. apply to_i16_id. unfold MAX_CHUNKS in Hlen. Zpow_lia. }
  assert (version_rows db id v = rows) as Heq.
  { unfold version_rows. apply sort_by_unique.
    - intros x y [i Hi]%list_elem_of_lookup [j Hj]%list_elem_of_lookup Hxy.
      rw (Hpos i x Hi) (Hpos j y Hj) in Hxy. assert (i = j) as -> by lia. congruence.
    - rw -Hp. unfold version_rows. by rw sort_by_perm.
    - apply StronglySorted_by_index. intros i j x y Hi Hj Hij. unfold key_le.
      rw (Hpos i x Hi) (Hpos j y Hj). lia. }
  unfold version_chunks. rw Heq. subst rows. unfold chunk_rows. rw -list_fmap_compose fmap_imap.
  apply list_eq. intros i. rw list_lookup_imap.
  destruct (chunks !! i) as [c|] eqn:Hc; [|done]. simpl. f_equal. apply chunk_row_roundtrip.
  by eapply Forall_lookup_1.
Qed.

Lemma replaced_version_chunks update live old db db' D :
  rows_ok D db → replaced update live old db db' →
  (length (cvu_chunks update) ≤ MAX_CHUNKS)%nat → Forall chunk_ok (cvu_chunks update) →
  version_chunks db' (cvu_cluster_id update) (clr_version old + 1) = cvu_chunks update.
Proof.
  intros Hok Hrp Hlen Hch. destruct (replaced_version_rows _ _ _ _ _ Hrp D Hok) as [now Hp].
  by eapply version_chunks_of_rows.
Qed.

Lemma load_one db id row :
  (∀ id row, db_clusters db !! id = Some row → clr_id row = id) →
  db_clusters db !! id = Some row →
  load_clusters (ByIds [id]) db = [from_row row (version_chunks db id (clr_version row))].
Proof.
  intros Hkey Hr. rw load_clusters_spec //.
  assert (sort_by fst (filter (matches (ByIds [id])) (map_to_list (db_clusters db))) = [(id, row)])
    as ->; [|done].
  apply sort_by_unique; [by intros ?? ->%list_elem_of_singleton ->%list_elem_of_singleton| |].
  - apply NoDup_Permutation; [apply NoDup_filter, NoDup_map_to_list|apply NoDup_singleton|].
    intros [i r]. rw list_elem_of_filter elem_of_map_to_list list_elem_of_singleton /=
      list_elem_of_singleton. split; [intros [-> ?]; congruence|intros [= -> ->]; done].
  - repeat constructor.
Qed.

(** ** The two forms of the lookup *)

Section lookups.
Context `{EnumOrder}.

Lemma elem_of_live_ids db txids id :
  rows_ok [] db →
  id ∈ ids_by_live_chunks txids db ↔ ∃ t, t ∈ txids ∧ active_member db id t.
Proof.
  intros Hok. unfold ids_by_live_chunks. rw elem_of_iter_set elem_of_list_to_set list_elem_of_fmap.
  split.
  - intros ([[[i v] p] r] & -> & Hin). rw list_elem_of_filter elem_of_map_to_list in Hin.
    destruct Hin as [[Hl (t & Ht & Hin)%Exists_exists] Hr]. simpl in *.
    destruct (ro_chunk _ _ Hok _ _ _ _ Hr) as (row & Hrow & _ & Hl1 & _).
    destruct (Hl1 Hl) as [Ha ->]. exists t. split; [done|]. exists row. split; [done|].
    split; [done|]. by exists p, r.
  - intros (t & Ht & row & Hrow & Ha & p & r & Hr & Hin). exists (id, clr_version row, p, r).
    split; [done|]. rw list_elem_of_filter elem_of_map_to_list. split; [|done]. simpl.
    destruct (ro_chunk _ _ Hok _ _ _ _ Hr) as (row' & Hrow' & _ & _ & Hl2).
    rw Hrow in Hrow'. simplify_eq. split; [by apply Hl2; [..|apply not_elem_of_nil]|].
    apply Exists_exists. eauto.
Qed.

Lemma elem_of_join_ids db txids id :
  id ∈ ids_by_active_join txids db ↔ ∃ t, t ∈ txids ∧ active_member db id t.
Proof.
  unfold ids_by_active_join. rw elem_of_iter_set elem_of_list_to_set list_elem_of_fmap.
  split.
  - intros ([[[i v] p] r] & -> & Hin). rw list_elem_of_filter elem_of_map_to_list in Hin.
    destruct Hin as [[Hact (t & Ht & Hin)%Exists_exists] Hr]. unfold in_active_version in Hact.
    simpl in *. destruct (db_clusters db !! i) as [row|] eqn:Hrow; [|done].
    destruct Hact as [Ha ->]. exists t. split; [done|]. exists row. split; [done|].
    split; [done|]. by exists p, r.
  - intros (t & Ht & row & Hrow & Ha & p & r & Hr & Hin). exists (id, clr_version row, p, r).
    split; [done|]. rw list_elem_of_filter elem_of_map_to_list. split; [|done]. simpl.
    unfold in_active_version. simpl. rw Hrow. split; [done|]. apply Exists_exists. eauto.
Qed.

(** C31.  The indexed lookup used for few txids and the join used for many return
    the same cluster ids, each once: the ids of the active clusters whose current
    version holds one of the txids. *)
Theorem active_lookup_forms_agree db txids :
  cluster_inv db →
  ids_by_live_chunks txids db ≡ₚ ids_by_active_join txids db ∧
  NoDup (ids_by_live_chunks txids db) ∧
  ∀ id, id ∈ ids_by_live_chunks txids db ↔ ∃ t, t ∈ txids ∧ active_member db id t.
Proof.
  intros [Hok _]. split_and!.
  - apply NoDup_Permutation; [apply NoDup_iter_set..|]. intros id.
    by rw elem_of_live_ids // elem_of_join_ids.
  - apply NoDup_iter_set.
  - intros id. by apply elem_of_live_ids.
Qed.
End lookups.

(** ** Any sequence of writes *)

Section theorems.
Context `{EnumOrder, Env}.

Definition fresh_conn : Conn := mkConn empty_db 0 None.

(** C5.  Whatever sequence of cluster writes (inserting, replacing chunks, evicting, merging,
    confirming, trimming) ran since the tables were created, and whichever statements and
    checkouts failed on the way, the tables are consistent: a chunk row is live exactly when it
    belongs to the current version of an active cluster, chunk rows belong to versions up to the
    current one, stored totals are the sums over the current version, the closing dates agree
    with the status, every member has a transaction row, and a transaction's back-link names a
    cluster that is open or confirmed and whose current version holds it.  When no write named
    an empty list of chunks, versions are contiguous: each one from 1 to the current was
    stored. *)
Theorem cluster_invariant_always ws :
  let db := conn_db (run_writes ws fresh_conn) in
  cluster_inv db ∧ (Forall filling ws → contiguous db).
Proof.
  split; [apply run_writes_advances, cluster_inv_empty|].
  apply run_writes_contiguous; [apply cluster_inv_empty|apply contiguous_empty].
Qed.

(** C20.  The history of the clusters is append-only: between any two points of any
    sequence of writes no cluster or chunk row disappears, a closed cluster never
    changes, versions never go back, chunk rows keep their contents and never become
    live again, and of a transaction row only the back-link changes. *)
Theorem cluster_history_append_only ws ws' :
  history (conn_db (run_writes ws fresh_conn)) (conn_db (run_writes (ws ++ ws') fresh_conn)).
Proof.
  unfold run_writes. rw foldl_app.
  apply run_writes_advances, run_writes_advances, cluster_inv_empty.
Qed.

(** C30.  [replace_chunks] returns what a reader then finds: the stored cluster
    carries the chunks it was given, in their order and with their amounts, under a
    version one higher, unless the cluster is closed or already has these chunks, in
    which case nothing is written; a failed call changes nothing. *)
Theorem replace_chunks_reads_back c update :
  cluster_inv (conn_db c) →
  (length (cvu_chunks update) ≤ MAX_CHUNKS)%nat → Forall chunk_ok (cvu_chunks update) →
  match replace_chunks update c with
  | (Ok cluster, c') =>
      load_clusters (ByIds [cvu_cluster_id update]) (conn_db c') = [cluster] ∧
      (cl_status cluster = Active → cl_chunks cluster = cvu_chunks update) ∧
      ∃ old, load_clusters (ByIds [cvu_cluster_id update]) (conn_db c) = [old] ∧
        if decide (cl_status old ≠ Active ∨ cl_chunks old = cvu_chunks update)
        then conn_db c' = conn_db c
        else cl_version cluster = cl_version old + 1
  | (Err _, c') => untouched (conn_db c) (conn_db c')
  end.
Proof.
  intros Hi Hlen Hch. pose proof Hi as [Hok _].
  pose proof (replace_chunks_spec (conn_db c) update c eq_refl) as Hsp.
  destruct (replace_chunks update c) as [[cl|e] c']; [|done].
  destruct Hsp as (old & Hold & Hcase). simpl in Hcase.
  assert (∀ i r, db_clusters (conn_db c) !! i = Some r → clr_id r = i) as Hkey
    by (intros; by eapply rows_ok_key).
  pose proof (load_one _ _ _ Hkey Hold) as Hload.
  destruct Hcase as [(Hsame & -> & ->)|(Hne & Hrp & ->)].
  - split; [done|]. split; [simpl; naive_solver|]. eexists. split; [done|].
    by rw decide_True.
  - pose proof (advanced_replaced _ _ _ _ Hi Hrp) as [[Hok' _] _].
    rw (load_one _ _ _ (λ i r, rows_ok_key _ _ i r Hok') (replaced_new_row _ _ _ _ _ Hrp)).
    simpl. rw (replaced_version_chunks _ _ _ _ _ _ Hok Hrp) //.
    split; [done|]. split; [done|]. eexists. split; [done|].
    rw decide_False //. simpl. rw (rp_active _ _ _ _ _ Hrp). tauto.
Qed.

(** ** Trimming and confirming *)

Lemma version_chunks_ext db db' id v :
  (∀ p, db_chunks db' !! (id, v, p) = db_chunks db !! (id, v, p)) →
  version_chunks db' id v = version_chunks db id v.
Proof. intros Hext. unfold version_chunks. by rw (version_rows_ext db db'). Qed.

Lemma closed_version_chunks ids st at_ t0 t1 db id v :
  version_chunks (closed (active_among ids db) st at_ t0 t1 db) id v = version_chunks db id v.
Proof.
  unfold version_chunks. rw (version_rows_map _ db _ id v (closed_chunk ids st at_ t0 t1 db id v)).
  by rw -list_fmap_compose.
Qed.

Definition update_ok (u : ClusterVersionUpdate) : Prop :=
  (length (cvu_chunks u) ≤ MAX_CHUNKS)%nat ∧ Forall chunk_ok (cvu_chunks u).

(** After the updates [done], the active clusters among them hold their new chunks
    and the clusters not among them are as they were. *)
Definition trimmed (done : list ClusterVersionUpdate) (db0 db : Db) : Prop :=
  (∀ u old, u ∈ done → db_clusters db0 !! cvu_cluster_id u = Some old →
     clr_status old = Active → ∃ row, db_clusters db !! cvu_cluster_id u = Some row ∧
       clr_status row = Active ∧
       version_chunks db (cvu_cluster_id u) (clr_version row) = cvu_chunks u) ∧
  (∀ u, u ∈ done → ∃ old, db_clusters db0 !! cvu_cluster_id u = Some old ∧
     (clr_status old ≠ Active → db_clusters db !! cvu_cluster_id u = Some old)) ∧
  (∀ id, id ∉ cvu_cluster_id <$> done →
     db_clusters db !! id = db_clusters db0 !! id ∧
     ∀ v p, db_chunks db !! (id, v, p) = db_chunks db0 !! (id, v, p)).

Lemma trimmed_step pre u db0 db db' cl :
  trimmed pre db0 db → (∃ D, rows_ok D db) → update_ok u →
  cvu_cluster_id u ∉ cvu_cluster_id <$> pre →
  (∃ old, db_clusters db !! cvu_cluster_id u = Some old ∧
    let current := version_chunks db (cvu_cluster_id u) (clr_version old) in
    (clr_status old ≠ Active ∨ current = cvu_chunks u) ∧
      cl = from_row old current ∧ db' = db ∨
    current ≠ cvu_chunks u ∧ replaced u false old db db' ∧
      cl = from_row (set_row_version (clr_version old + 1) (totals (cvu_chunks u)) old)
             (cvu_chunks u)) →
  trimmed (pre ++ [u]) db0 db'.
Proof.
  intros (Hact & Hcl & Hrest) [D Hok] [Hlen Hch] Hni (old & Hold & Hcase). simpl in Hcase.
  assert (db_clusters db0 !! cvu_cluster_id u = Some old) as Hold0.
  { by rw -(proj1 (Hrest _ Hni)). }
  assert (∀ id, id ≠ cvu_cluster_id u → db_clusters db' !! id = db_clusters db !! id ∧
    ∀ v p, db_chunks db' !! (id, v, p) = db_chunks db !! (id, v, p)) as Hframe.
  { intros id Hne. destruct Hcase as [(_ & _ & ->)|(_ & Hrp & _)]; [done|].
    split; [by rw (rp_clusters _ _ _ _ _ Hrp) lookup_insert_ne|].
    intros v p. by apply (replaced_chunk_other _ _ _ _ _ Hrp). }
  assert (∀ u', u' ∈ pre → cvu_cluster_id u' ≠ cvu_cluster_id u) as Hne.
  { intros u' Hu' Heq. apply Hni. rw -Heq. apply list_elem_of_fmap. eauto. }
  split; [|split].
  - intros u' o [Hu'| ->%list_elem_of_singleton]%elem_of_app Ho Ha.
    + destruct (Hact u' o Hu' Ho Ha) as (row & Hr & Hs & Hv).
      destruct (Hframe _ (Hne _ Hu')) as [Hc Hk]. exists row.
      rw Hc (version_chunks_ext db) //.
    + assert (o = old) as -> by congruence. destruct Hcase as [(Hor & _ & ->)|(_ & Hrp & _)].
      * exists old. destruct Hor; done.
      * eexists. split; [by eapply replaced_new_row|]. split; [done|].
        by eapply replaced_version_chunks.
  - intros u' [Hu'| ->%list_elem_of_singleton]%elem_of_app.
    + rw (proj1 (Hframe _ (Hne _ Hu'))). by apply Hcl.
    + exists old. split; [done|]. destruct Hcase as [(_ & _ & ->)|(_ & Hrp & _)]; [done|].
      by rw (rp_active _ _ _ _ _ Hrp).
  - intros id Hid. rw fmap_app elem_of_app /= list_elem_of_singleton in Hid.
    apply Decidable.not_or in Hid as [Hid1 Hid2]. destruct (Hframe id Hid2) as [Hc Hk].
    destruct (Hrest id Hid1) as [Hc0 Hk0]. split; [congruence|]. intros v p. by rw Hk.
Qed.

Lemma trimmed_nil db : trimmed [] db db.
Proof.
  by split_and!; [intros ?? ?%not_elem_of_nil|intros ? ?%not_elem_of_nil|].
Qed.

Lemma trimmed_active updates db0 db :
  trimmed updates db0 db →
  active_among (cvu_cluster_id <$> updates) db ≡ₚ active_among (cvu_cluster_id <$> updates) db0.
Proof.
  intros (Hact & Hcl & _). apply NoDup_Permutation; [apply NoDup_active_among..|]. intros id.
  rw !elem_of_active_among. split; intros (Hid & row & Hr & Ha); (split; [done|]);
    apply list_elem_of_fmap in Hid as (u & -> & Hu); destruct (Hcl u Hu) as (old & Hold & Hkeep).
  - exists old. split; [done|]. destruct (decide (clr_status old = Active)); [done|].
    rw Hkeep in Hr; [congruence|done].
  - destruct (Hact u row Hu Hr Ha) as (row' & ? & ? & _). eauto.
Qed.

Lemma trimmed_dom updates db0 db :
  trimmed updates db0 db → dom (db_clusters db) = dom (db_clusters db0).
Proof.
  intros (Hact & Hcl & Hrest). apply set_eq. intros id. rw !elem_of_dom.
  destruct (decide (id ∈ cvu_cluster_id <$> updates)) as [Hin|Hout];
    [|by rw (proj1 (Hrest id Hout))].
  apply list_elem_of_fmap in Hin as (u & -> & Hu). destruct (Hcl u Hu) as (old & Hold & Hkeep).
  split; [by eauto|]. intros _. destruct (decide (clr_status old = Active)) as [Ha|Ha].
  - destruct (Hact u old Hu Hold Ha) as (row & ? & _). eauto.
  - rw Hkeep //.
Qed.

(** What [trim_and_confirm_many] leaves behind when it succeeds. *)
Definition trim_confirmed (updates : list ClusterVersionUpdate) (at_ : Z) (n : nat)
    (db db' : Db) : Prop :=
  n = length (active_among (cvu_cluster_id <$> updates) db) ∧
  (∀ u old, u ∈ updates → db_clusters db !! cvu_cluster_id u = Some old →
     clr_status old = Active → ∃ row, db_clusters db' !! cvu_cluster_id u = Some row ∧
       clr_status row = Confirmed ∧ clr_confirmed_at row = Some at_ ∧
       version_chunks db' (cvu_cluster_id u) (clr_version row) = cvu_chunks u) ∧
  (∀ id row, db_clusters db !! id = Some row →
     id ∉ cvu_cluster_id <$> updates ∨ clr_status row ≠ Active →
     db_clusters db' !! id = Some row) ∧
  (∀ id v, id ∉ cvu_cluster_id <$> updates →
     version_chunks db' id v = version_chunks db id v) ∧
  (∀ u, u ∈ updates → is_Some (db_clusters db !! cvu_cluster_id u)) ∧
  dom (db_clusters db') = dom (db_clusters db).

Lemma trimmed_closed updates at_ t0 t1 db db1 :
  trimmed updates db db1 →
  let gone := active_among (cvu_cluster_id <$> updates) db1 in
  trim_confirmed updates at_ (length gone) db (closed gone Confirmed (Some at_) t0 t1 db1).
Proof.
  intros Htr gone. pose proof Htr as (Hact & Hcl & Hrest).
  pose proof (trimmed_active _ _ _ Htr) as Hp. split_and!.
  - by rw -Hp.
  - intros u old Hu Hold Ha. destruct (Hact u old Hu Hold Ha) as (row & Hr & Hs & Hv).
    exists (set_row_closed Confirmed (Some at_) t0 row). split_and!; [|done|done|].
    + simpl. rw lookup_update_where Hr /= bool_decide_eq_true_2 //.
      apply elem_of_active_among. split; [|by eauto]. apply list_elem_of_fmap. eauto.
    + unfold gone. rw closed_version_chunks. done.
  - intros id row Hr Hor. simpl. rw lookup_update_where.
    assert (id ∉ gone) as Hng.
    { unfold gone. rw Hp elem_of_active_among. intros (Hid & row' & Hr' & Ha).
      destruct Hor; [done|congruence]. }
    assert (db_clusters db1 !! id = Some row) as ->.
    { destruct (decide (id ∈ cvu_cluster_id <$> updates)) as [Hin|Hout].
      - destruct Hor as [?|Hn]; [done|]. apply list_elem_of_fmap in Hin as (u & -> & Hu).
        destruct (Hcl u Hu) as (old & Hold & Hkeep). rw Hr in Hold. simplify_eq. by apply Hkeep.
      - by rw (proj1 (Hrest id Hout)). }
    simpl. by rw bool_decide_eq_false_2.
  - intros id v Hout. unfold gone. rw closed_version_chunks. apply version_chunks_ext.
    intros p. by apply (Hrest id Hout).
  - intros u Hu. destruct (Hcl u Hu) as (old & Hold & _). eauto.
  - simpl. rw dom_update_where. by eapply trimmed_dom.
Qed.

#[global] Instance trim_confirmed_perm :
  Proper ((≡ₚ) ==> (=) ==> (=) ==> (=) ==> (=) ==> iff) trim_confirmed.
Proof.
  assert (∀ us us' at_ n db db', us ≡ₚ us' → trim_confirmed us at_ n db db' →
    trim_confirmed us' at_ n db db') as Hgen;
    [|intros us us' Hp ? at_ -> ? n -> ? db -> ? db' ->; split; by apply Hgen].
  intros us us' at_ n db db' Hp (Hn & Hact & Hrest & Hv & Hex & Hd). split_and!.
  - rw Hn. apply Permutation_length, NoDup_Permutation; [apply NoDup_active_among..|].
    intros id. by rw !elem_of_active_among Hp.
  - intros u old Hu. apply Hact. by rw Hp.
  - intros id row Hr Hor. apply Hrest; [done|]. by rw Hp.
  - intros id v Hout. apply Hv. by rw Hp.
  - intros u. rw -Hp. apply Hex.
  - done.
Qed.

Lemma trim_apply s0 db0 db pre ids u :
  s0 ≤ db_cluster_seq db → trimming ids db0 db → trimmed pre db0 db →
  cvu_cluster_id u ∈ ids → update_ok u → cvu_cluster_id u ∉ cvu_cluster_id <$> pre →
  runs s0 db (_ ← replace_chunks_in u false; mret ())
    (λ _ db', trimming ids db0 db' ∧ trimmed (pre ++ [u]) db0 db').
Proof.
  intros Hs Htg Htd Hin Hu Hni.
  pose proof Htg as (D & Hsub & Hok & Hl & Hh).
  eapply runs_bind; [by apply replace_chunks_in_runs|]. intros cl db' Hr. apply runs_ret.
  split; [|exact (trimmed_step _ _ _ _ _ _ Htd (ex_intro _ D Hok) Hu Hni Hr)].
  destruct Hr as (old & _ & [(_ & _ & ->)|(_ & Hrp & _)]); [done|].
  exists (cvu_cluster_id u :: D). split_and!.
  - set_solver.
  - by eapply (replaced_rows_ok _ false).
  - by eapply replaced_links_ok.
  - etrans; [done|]. by eapply history_replaced.
Qed.

Lemma trim_loop db updates :
  cluster_inv db → NoDup (cvu_cluster_id <$> updates) → Forall update_ok updates →
  runs (db_cluster_seq db) db
    (for_each (λ u, _ ← replace_chunks_in u false; mret ()) updates)
    (λ _ db', trimming (cvu_cluster_id <$> updates) db db' ∧ trimmed updates db db').
Proof.
  intros [Hok Hl] Hnd Hupd.
  apply (runs_for_each _ _ _ _ (λ pre db',
    trimming (cvu_cluster_id <$> updates) db db' ∧ trimmed pre db db')).
  - split; [|apply trimmed_nil]. exists []. by split_and!; [set_solver|..].
  - intros pre u post db' Heq [Htg Htd].
    assert (u ∈ updates) as Hu by (rw Heq; set_solver). apply trim_apply; try done.
    + destruct Htg as (_ & _ & _ & _ & Hh). apply Hh.
    + apply list_elem_of_fmap. eauto.
    + rw Forall_forall in Hupd. by apply Hupd.
    + rw Heq fmap_app fmap_cons in Hnd. apply NoDup_app in Hnd as (_ & Hd & _).
      intros Hin. apply (Hd _ Hin). left.
Qed.

Lemma trim_and_confirm_runs db updates at_ :
  cluster_inv db → NoDup (cvu_cluster_id <$> updates) → Forall update_ok updates →
  repo_triple (λ d, d = db) (trim_and_confirm_many updates at_)
    (λ n db', trim_confirmed updates at_ n db db' ∧ history db db') (untouched db).
Proof.
  intros Hi Hnd Hupd. destruct updates as [|u us].
  { intros c0 Hc0. simpl. rw Hc0. split; [|done]. split_and!; try done.
    - cbn [fmap list_fmap]. by rw active_among_nil.
    - by intros ?? ?%not_elem_of_nil.
    - by intros ? ?%not_elem_of_nil. }
  apply repo_runs_transaction; [|intros n db' [_ Hh]; apply Hh].
  set (sorted := sort_by cvu_cluster_id (u :: us)).
  assert (sorted ≡ₚ u :: us) as Hp by apply sort_by_perm.
  eapply runs_bind; [apply trim_loop; [done|by rw Hp..]|].
  intros [] db1 [(D & _ & _ & _ & Hh) Htd].
  eapply runs_conseq; [apply confirm_many_in_runs, Hh|]. intros n db' [Hn Hcase].
  assert (∃ t0 t1, db' = closed (active_among (cvu_cluster_id <$> sorted) db1)
    Confirmed (Some at_) t0 t1 db1) as (t0 & t1 & ->).
  { destruct Hcase as [[Hz ->]|]; [|done]. exists 0, 0. symmetry in Hn. rw Hz in Hn.
    apply nil_length_inv in Hn as ->. by apply closed_nil. }
  split; [|by etrans; [|apply history_closed]].
  rw -Hp Hn. by apply trimmed_closed.
Qed.

(** C29.  Confirming mined clusters is all or nothing: on success every active
    cluster named ends confirmed at the block's time with exactly its mined members
    as last version, the count is the number of those clusters, and clusters that are
    not named or already closed are untouched, chunks included; on failure nothing
    changes. *)
Theorem trim_and_confirm_effect c updates at_ :
  cluster_inv (conn_db c) → NoDup (cvu_cluster_id <$> updates) → Forall update_ok updates →
  match trim_and_confirm_many updates at_ c with
  | (Ok n, c') => trim_confirmed updates at_ n (conn_db c) (conn_db c')
  | (Err _, c') => untouched (conn_db c) (conn_db c')
  end.
Proof.
  intros Hi Hnd Hupd.
  pose proof (trim_and_confirm_runs (conn_db c) updates at_ Hi Hnd Hupd c eq_refl) as Hx.
  destruct (trim_and_confirm_many updates at_ c) as [[n|e] c']; [apply Hx|done].
Qed.

(** ** The cluster of a transaction *)

Lemma closed_le_total a b : closed_le a b = true ∨ closed_le b a = true.
Proof. destruct a, b; simpl; rw ?Z.leb_le; lia || auto. Qed.

#[global] Instance hit_le_total : Total hit_le.
Proof.
  intros a b. unfold hit_le. rw (bool_decide_ext (hit_closed b = hit_closed a)
    (hit_closed a = hit_closed b)) //.
  destruct (hit_live a), (hit_live b); simpl; auto;
    destruct (bool_decide_reflect (hit_closed a = hit_closed b)); try lia; apply closed_le_total.
Qed.

#[global] Instance hit_le_trans : Transitive hit_le.
Proof.
  intros a b c. unfold hit_le.
  destruct (hit_live a), (hit_live b), (hit_live c); simpl; try done;
    destruct (hit_closed a) as [x|], (hit_closed b) as [y|], (hit_closed c) as [z|];
    simpl; case_guards; simplify_eq; rw ?Z.leb_le;
    repeat match goal with
    | Hne : Some ?x ≠ Some ?y |- _ => assert (x ≠ y) by congruence; clear Hne
    end; first [done|lia].
Qed.

Lemma elem_of_current_hits txid db k r row :
  (k, r, row) ∈ current_hits txid db ↔
  db_chunks db !! k = Some r ∧ db_clusters db !! k.1.1 = Some row ∧
  k.1.2 = clr_version row ∧ txid ∈ chr_txids r.
Proof.
  unfold current_hits. rw list_elem_of_omap. split.
  - intros ([k' r'] & Hin & Hm). apply elem_of_map_to_list in Hin. simpl in *.
    destruct (db_clusters db !! k'.1.1) eqn:E; [|done]. case_guards; [|done].
    simplify_eq. tauto.
  - intros (Hr & Hrow & Hv & Ht). exists (k, r). rw elem_of_map_to_list. split; [done|].
    simpl. rw Hrow. by rw decide_True.
Qed.

(** The first hit in the order of the query. *)
Lemma first_hit txid db h :
  head (merge_sort hit_le (current_hits txid db)) = Some h →
  h ∈ current_hits txid db ∧ ∀ h', h' ∈ current_hits txid db → hit_le h h'.
Proof.
  intros Hh.
  assert (∀ x, x ∈ merge_sort hit_le (current_hits txid db) ↔ x ∈ current_hits txid db) as Hin
    by (intros x; by rw merge_sort_Permutation).
  pose proof (StronglySorted_merge_sort hit_le (current_hits txid db)) as Hs.
  destruct (merge_sort hit_le (current_hits txid db)) as [|h0 rest]; [done|]. simplify_eq/=.
  apply StronglySorted_cons in Hs as [Hall _]. rw Forall_forall in Hall.
  split; [apply Hin; left|]. intros h' [->|?]%Hin%elem_of_cons; [|by apply Hall].
  by destruct (total hit_le h h).
Qed.

(** The current version of cluster [id], whose row is [row], holds [txid]. *)
Definition holds_now (db : Db) (txid : string) (id : Z) (row : ClusterRow) : Prop :=
  db_clusters db !! id = Some row ∧ member db id (clr_version row) txid.

Lemma holds_now_hit db txid id row :
  holds_now db txid id row ↔ ∃ p r, (id, clr_version row, p, r, row) ∈ current_hits txid db.
Proof.
  unfold holds_now, member. setoid_rewrite elem_of_current_hits. simpl. naive_solver.
Qed.

Lemma first_hit_best txid db h id row :
  rows_ok [] db → head (merge_sort hit_le (current_hits txid db)) = Some h →
  holds_now db txid id row →
  (clr_status row = Active → clr_status h.2 = Active) ∧
  (∀ t, clr_closed_at row = Some t →
     clr_status h.2 = Active ∨ ∃ t', clr_closed_at h.2 = Some t' ∧ t ≤ t').
Proof.
  intros Hok [Hh Hmin]%first_hit (p & r & Hin)%holds_now_hit.
  pose proof (Hmin _ Hin) as Hle. destruct h as [[[[i v] q] r'] row'].
  apply elem_of_current_hits in Hh as (Hr' & Hrow' & Hv' & _).
  apply elem_of_current_hits in Hin as (Hr & Hrow & Hv & _). simpl in *.
  destruct (ro_chunk _ _ Hok _ _ _ _ Hr) as (? & ? & _ & Hl1 & Hl2).
  destruct (ro_chunk _ _ Hok _ _ _ _ Hr') as (? & ? & _ & Hl1' & Hl2'). simplify_eq.
  unfold hit_le, hit_live, hit_closed in Hle. simpl in Hle. split.
  - intros Ha. rw (Hl2 Ha eq_refl (not_elem_of_nil _)) in Hle.
    destruct (chr_live r') eqn:El; simpl in Hle; [by apply Hl1'|done].
  - intros t Ht. destruct (chr_live r') eqn:El; [left; by apply Hl1'|]. right.
    destruct (chr_live r) eqn:El2; simpl in Hle; [done|]. rw Ht in Hle.
    destruct (bool_decide_reflect (clr_closed_at row' = Some t)) as [->|Hne].
    + exists t. split; [done|lia].
    + destruct (clr_closed_at row') as [t'|]; simpl in Hle; [|done].
      exists t'. split; [done|]. by apply Z.leb_le.
Qed.

Lemma find_by_txid_reads db txid :
  repo_triple (λ d, d = db) (find_by_txid txid)
    (λ r d, d = db ∧ r = (id ← hit_id <$> head (merge_sort hit_le (current_hits txid db));
                          last (load_clusters (ByIds [id]) db)))
    (λ d, d = db).
Proof.
  apply repo_triple_query; [done|].
  eapply triple_bind; [apply (triple_select _ _ (λ r d, d = db ∧
    r = hit_id <$> head (merge_sort hit_le (current_hits txid db)))); [done|by intros ? ->]|].
  intros [id|]; [|apply triple_ret; by intros ? [-> <-]].
  eapply triple_bind; [apply (triple_select _ _ (λ r d, d = db ∧
    r = load_clusters (ByIds [id]) db ∧
    Some id = hit_id <$> head (merge_sort hit_le (current_hits txid db))));
    [by intros ? [-> _]|by intros ? [-> ?]]|].
  intros cls. apply triple_ret. by intros ? (-> & -> & <-).
Qed.

(** The cluster shown for a transaction holds it in its current version; it is
    an active one if any active cluster does, and otherwise one that closed last;
    no cluster is shown only when none holds it.  The lookup writes nothing. *)
Theorem find_by_txid_prefers_active c txid :
  cluster_inv (conn_db c) →
  match find_by_txid txid c with
  | (Ok (Some cl), c') =>
      load_clusters (ByIds [cl_id cl]) (conn_db c) = [cl] ∧ txid ∈ cl_txids cl ∧
      ∀ id row, holds_now (conn_db c) txid id row →
        (clr_status row = Active → cl_status cl = Active) ∧
        (∀ t, clr_closed_at row = Some t →
           cl_status cl = Active ∨ ∃ t', cl_closed_at cl = Some t' ∧ t ≤ t')
  | (Ok None, _) => ∀ id row, ¬ holds_now (conn_db c) txid id row
  | (Err _, _) => True
  end ∧ conn_db (find_by_txid txid c).2 = conn_db c.
Proof.
  intros [Hok _]. pose proof (find_by_txid_reads (conn_db c) txid c eq_refl) as Hrt.
  destruct (find_by_txid txid c) as [[r|e] c']; [|done].
  destruct Hrt as [Hc ->]. split; [|exact Hc].
  destruct (head _) as [h|] eqn:Hh; simpl.
  - pose proof (λ id row, first_hit_best txid (conn_db c) h id row Hok Hh) as Hbest.
    apply first_hit in Hh as [Hh _]. destruct h as [[[[i v] q] r'] row'].
    apply elem_of_current_hits in Hh as (Hr & Hrow & Hv & Ht). simpl in *.
    unfold hit_id. simpl. assert (∀ i r, db_clusters (conn_db c) !! i = Some r → clr_id r = i)
      as Hkey by (intros; by eapply rows_ok_key).
    rw (load_one _ _ _ Hkey Hrow) /=. split; [|split; [|exact Hbest]].
    + rw (Hkey _ _ Hrow). by apply load_one.
    + unfold cl_txids. simpl. apply elem_of_version_chunks. subst v. by exists q, r'.
  - intros id row (p & r & Hin)%holds_now_hit.
    rw -(merge_sort_Permutation hit_le (current_hits txid (conn_db c))) in Hin.
    destruct (merge_sort _ _); [by apply not_elem_of_nil in Hin|done].
Qed.
End theorems.

(** A database with one active cluster of two chunks, and a connection to it. *)
Definition demo_chunks : list ClusterChunk :=
  [mkClusterChunk ["aa"; "bb"] 300 800; mkClusterChunk ["cc"] 100 400].
Definition demo_conn : Conn :=
  (@insert_with_members stored_order calm_env (mkNewCluster demo_chunks 5) fresh_conn).2.

Lemma demo_conn_inv : cluster_inv (conn_db demo_conn).
Proof.
  apply (@run_write_advances stored_order calm_env (InsertOne (mkNewCluster demo_chunks 5))
           fresh_conn), cluster_inv_empty.
Qed.

Lemma active_lookup_forms_agree_witness :
  cluster_inv (conn_db demo_conn) ∧
  ∀ id, id ∈ @ids_by_live_chunks stored_order ["cc"] (conn_db demo_conn) ↔
        ∃ t, t ∈ ["cc"] ∧ active_member (conn_db demo_conn) id t.
Proof.
  split; [exact demo_conn_inv|].
  apply (@active_lookup_forms_agree stored_order (conn_db demo_conn) ["cc"] demo_conn_inv).
Defined.

Definition demo_update : ClusterVersionUpdate :=
  mkClusterVersionUpdate 1 [mkClusterChunk ["cc"; "dd"] 500 900].

Lemma replace_chunks_reads_back_witness :
  cluster_inv (conn_db demo_conn) ∧
  (length (cvu_chunks demo_update) ≤ MAX_CHUNKS)%nat ∧ Forall chunk_ok (cvu_chunks demo_update) ∧
  match @replace_chunks calm_env demo_update demo_conn with
  | (Ok cluster, _) => cl_chunks cluster = cvu_chunks demo_update
  | (Err _, _) => False
  end.
Proof.
  assert ((length (cvu_chunks demo_update) ≤ MAX_CHUNKS)%nat) as Hl
    by (unfold MAX_CHUNKS; simpl; lia).
  assert (Forall chunk_ok (cvu_chunks demo_update)) as Hc
    by (repeat constructor; simpl; lia).
  split; [exact demo_conn_inv|]. split; [exact Hl|]. split; [exact Hc|].
  pose proof (@replace_chunks_reads_back calm_env demo_conn demo_update demo_conn_inv Hl Hc) as Hx.
  revert Hx. vm_compute. intros (_ & Hx & _). by apply Hx.
Defined.

Definition demo_trim : ClusterVersionUpdate :=
  mkClusterVersionUpdate 1 [mkClusterChunk ["aa"; "bb"] 300 800].

Lemma trim_and_confirm_effect_witness :
  cluster_inv (conn_db demo_conn) ∧ NoDup (cvu_cluster_id <$> [demo_trim]) ∧
  Forall update_ok [demo_trim] ∧
  match @trim_and_confirm_many calm_env [demo_trim] 77 demo_conn with
  | (Ok n, c') => trim_confirmed [demo_trim] 77 n (conn_db demo_conn) (conn_db c')
  | (Err _, _) => False
  end.
Proof.
  assert (NoDup (cvu_cluster_id <$> [demo_trim])) as Hn by apply NoDup_singleton.
  assert (Forall update_ok [demo_trim]) as Hu
    by (apply Forall_singleton; split; [unfold MAX_CHUNKS; simpl; lia|];
        apply Forall_singleton; split; vm_compute; split; congruence).
  split; [exact demo_conn_inv|]. split; [exact Hn|]. split; [exact Hu|].
  pose proof (@trim_and_confirm_effect calm_env demo_conn [demo_trim] 77 demo_conn_inv) as Hx.
  specialize (Hx Hn Hu).
  destruct (@trim_and_confirm_many calm_env [demo_trim] 77 demo_conn) as [[n|e] c'] eqn:E.
  - exact Hx.
  - exfalso. apply (f_equal (λ r, result_ok r.1)) in E. revert E. vm_compute. discriminate.
Defined.

(** A cluster that is inserted, replaced, trimmed and confirmed: three versions. *)
Definition demo_writes : list ClusterWrite :=
  [InsertOne (mkNewCluster demo_chunks 5); ReplaceChunks demo_update; TrimAndConfirm [demo_trim] 77].

Lemma cluster_invariant_always_witness :
  Forall filling demo_writes ∧
  contiguous (conn_db (@run_writes stored_order calm_env demo_writes fresh_conn)) ∧
  clr_version <$> db_clusters (conn_db (@run_writes stored_order calm_env demo_writes fresh_conn)) !! 1
  = Some 3.
Proof.
  assert (Forall filling demo_writes) as Hf by (repeat constructor; discriminate).
  split; [exact Hf|]. split; [|vm_compute; reflexivity].
  apply (@cluster_invariant_always stored_order calm_env demo_writes). exact Hf.
Defined.

Lemma find_by_txid_prefers_active_witness :
  cluster_inv (conn_db demo_conn) ∧
  match @find_by_txid calm_env "cc" demo_conn with
  | (Ok (Some cl), _) => "cc" ∈ cl_txids cl
  | _ => False
  end.
Proof.
  split; [exact demo_conn_inv|].
  pose proof (@find_by_txid_prefers_active calm_env demo_conn "cc" demo_conn_inv) as Hx.
  destruct (@find_by_txid calm_env "cc" demo_conn) as [[[cl|]|e] c'] eqn:E.
  - apply Hx.
  - exfalso. apply (f_equal (λ r, result_ok r.1)) in E. revert E. vm_compute. discriminate.
  - exfalso. apply (f_equal (λ r, result_ok r.1)) in E. revert E. vm_compute. discriminate.
Defined.
End ClusterThms.
