(* ===== verification/MempoolRepo.v ===== *)
(** * Mempool ledger and delta repositories

    [api/src/db/repositories/mempool_ledger.rs] (writing one journal batch) and
    [api/src/db/repositories/mempool_delta.rs] (reading the log back).  A delta row's
    id is its place in the table, so the table is a list in id order. *)

From S2P Require Import Prelude.
From S2P Require Import Models.
From S2P Require Import Database.
From S2P Require Import ClusterRepo.
From S2P Require Import ClusterRepoFacts.
From S2P Require Import ClusterWrites.
From S2P Require Import Ledger.

Open Scope Z_scope.

Module MempoolRepo.
Import Database.
Import ClusterRepo.

Record FlushOutcome := mkFlushOutcome {
  fo_new_txids : list string;
  fo_existing : list (string * StoredTxFill);
  fo_confirmed : list string;
  fo_evicted : list string;
}.

Record Removals := mkRemovals {
  rm_confirmed : list string;
  rm_evicted : list string;
}.

Definition SNAPSHOT_REPLAY_WINDOW : Z := 15 * 24 * 3600 * 1000000000.

Section repository.
Context `{EnumOrder, Env}.
(** The flag the gate raises, as read at each point of the run. *)
Context (preempted : nat → bool).

Definition bail_if : DbM unit := λ c,
  let s := conn_step c in
  let c := mkConn (conn_db c) (S s) (conn_txn c) in
  if preempted s then (Err RollbackTransaction, c) else (Ok (), c).

(** [for chunk in l.chunks(n) { bail_if()?; out.extend(load(chunk)?) }] *)
Fixpoint load_chunks {A B} (load : list A → Db → list B) (chunks : list (list A)) :
    DbM (list B) :=
  match chunks with
  | [] => mret []
  | chunk :: chunks =>
      _ ← bail_if;
      found ← select (load chunk);
      rest ← load_chunks load chunks;
      mret (found ++ rest)
  end.

(** [SELECT txid ... WHERE txid = ANY(chunk) AND confirmed_at IS NOT NULL] *)
Definition select_confirmed (chunk : list string) (db : Db) : list string :=
  shuffle (fst <$> filter (λ kv : string * Transaction,
    kv.1 ∈ chunk ∧ is_Some (tx_confirmed_at kv.2)) (map_to_list (db_txs db))).

Definition entry_reason (confirmed : gset string) (entry : Ledger.JournalEntry) : DeltaReason :=
  match Ledger.je_direction entry with
  | Add => AddMempool
  | Remove => if decide (Ledger.je_txid entry ∈ confirmed) then RemoveConfirmed
              else RemoveEvicted
  end.

Definition classify_step (confirmed : gset string)
    (acc : gset string * list MempoolDelta) (entry : Ledger.JournalEntry) :
    gset string * list MempoolDelta :=
  let '(evicted, rows) := acc in
  let reason := entry_reason confirmed entry in
  let evicted :=
    match reason with
    | RemoveEvicted => {[Ledger.je_txid entry]} ∪ evicted
    | _ => evicted
    end in
  (evicted, rows ++ [mkMempoolDelta (Ledger.je_txid entry) reason (Ledger.je_observed_at entry)]).

Definition insert_deltas (rows : list MempoolDelta) (_ : Z) (db : Db) : Db :=
  set_deltas (db_deltas db ++ rows) db.

Definition write_deltas (entries : list Ledger.JournalEntry) : DbM Removals :=
  let remove_txids := Ledger.distinct_txids entries Remove in
  found ← load_chunks select_confirmed
            (slice_chunks MEMPOOL_DELTA_INSERT_CHUNK_SIZE remove_txids);
  let confirmed := list_to_set found : gset string in
  let '(evicted, rows) := foldl (classify_step confirmed) (∅, []) entries in
  _ ← for_each (λ chunk, _ ← bail_if; execute (insert_deltas chunk))
        (slice_chunks MEMPOOL_DELTA_INSERT_CHUNK_SIZE rows);
  mret (mkRemovals (iter_set confirmed) (iter_set evicted)).

(** The columns of [StoredTxFill] for the stored txids among [chunk]. *)
Definition select_fills (chunk : list string) (db : Db) : list (string * StoredTxFill) :=
  shuffle ((λ kv : string * Transaction, (kv.1, stored_fill kv.2)) <$>
             filter (λ kv : string * Transaction, kv.1 ∈ chunk) (map_to_list (db_txs db))).

Definition insert_hollow_transactions (entries : list Ledger.JournalEntry) :
    DbM (list string * list (string * StoredTxFill)) :=
  let add_txids := Ledger.distinct_txids entries Add in
  existing ← load_chunks select_fills
               (slice_chunks MEMPOOL_DELTA_INSERT_CHUNK_SIZE add_txids);
  let existing_txids := list_to_set (fst <$> existing) : gset string in
  let new_txids := filter (λ txid, txid ∉ existing_txids) add_txids in
  now ← read_clock;
  let rows := imap (λ i txid, hollow (now i) txid) new_txids in
  _ ← for_each (λ chunk, _ ← bail_if; execute (insert_absent_batch chunk))
        (slice_chunks TRANSACTION_INSERT_CHUNK_SIZE (sorted_by_txid rows));
  mret (new_txids, existing).

Definition write_batch_in (entries : list Ledger.JournalEntry) : DbM FlushOutcome :=
  removed ← write_deltas entries;
  '(new_txids, existing) ← insert_hollow_transactions entries;
  _ ← bail_if;
  mret (mkFlushOutcome new_txids existing (rm_confirmed removed) (rm_evicted removed)).

(** [Err(RollbackTransaction) => Ok(None)] *)
Definition rolled_back_is_none {A} (m : DbM A) : DbM (option A) := λ c,
  match m c with
  | (Ok a, c) => (Ok (Some a), c)
  | (Err RollbackTransaction, c) => (Ok None, c)
  | (Err e, c) => (Err e, c)
  end.

Definition write_batch (entries : list Ledger.JournalEntry) : RepoM (option FlushOutcome) :=
  match entries with
  | [] => λ c, (Ok (Some (mkFlushOutcome [] [] [] [])), c)
  | _ => query (rolled_back_is_none (transaction (write_batch_in entries)))
  end.
End repository.

Section deltas.
Context `{Env}.

Fixpoint insert_delta_chunks (chunks : list (list MempoolDelta)) : DbM nat :=
  match chunks with
  | [] => mret 0%nat
  | chunk :: chunks =>
      _ ← execute (insert_deltas chunk);
      rest ← insert_delta_chunks chunks;
      mret (length chunk + rest)%nat
  end.

Definition insert_many (deltas : list MempoolDelta) : RepoM nat :=
  match deltas with
  | [] => λ c, (Ok 0%nat, c)
  | _ => query (insert_delta_chunks (slice_chunks MEMPOOL_DELTA_INSERT_CHUNK_SIZE deltas))
  end.

Definition count : RepoM Z := query (select (λ db, Z.of_nat (length (db_deltas db)))).

Definition count_where (P : MempoolDelta → bool) (db : Db) : Z :=
  Z.of_nat (length (filter (λ d, P d = true) (db_deltas db))).

Definition count_adds_since (cutoff : Z) : RepoM Z :=
  query (select (count_where (λ d, (cutoff <=? md_created_at d) &&
                                   bool_decide (md_reason d ∈ with_direction Add)))).

Definition in_window (from to : Z) (reason : DeltaReason) (d : MempoolDelta) : bool :=
  bool_decide (md_reason d = reason) && (from <? md_created_at d) && (md_created_at d <=? to).

Definition count_deltas_in (from to : Z) : RepoM (Z * Z * Z) :=
  query (select (λ db, (count_where (in_window from to AddMempool) db,
                        count_where (in_window from to RemoveConfirmed) db,
                        count_where (in_window from to RemoveEvicted) db))).

(** The fold over the streamed rows. *)
Definition apply_delta (snapshot : gset string) (d : MempoolDelta) : gset string :=
  match direction (md_reason d) with
  | Add => {[md_txid d]} ∪ snapshot
  | Remove => snapshot ∖ {[md_txid d]}
  end.

Definition replay_deltas (snapshot : gset string) (l : list MempoolDelta) : gset string :=
  foldl apply_delta snapshot l.

Definition residency_since (cutoff : Z) (db : Db) : gset string :=
  replay_deltas ∅ (filter (λ d, cutoff ≤ md_created_at d) (db_deltas db)).

(** The clock is read before the connection is checked out. *)
Definition reconstruct_snapshot : RepoM (gset string) := λ c,
  let cutoff := clock (conn_step c) 0 - SNAPSHOT_REPLAY_WINDOW in
  query (select (residency_since cutoff))
        (mkConn (conn_db c) (S (conn_step c)) (conn_txn c)).
End deltas.

(** ** What a batch writes *)

Import ClusterWrites.

Definition moved (entries : list Ledger.JournalEntry) (d : DeltaDirection) (t : string) : Prop :=
  ∃ e, e ∈ entries ∧ Ledger.je_txid e = t ∧ Ledger.je_direction e = d.

Definition is_confirmed (db : Db) (t : string) : Prop :=
  ∃ tx, db_txs db !! t = Some tx ∧ is_Some (tx_confirmed_at tx).

(** The delta row of an entry, given the set of txids known to be mined. *)
Definition delta_of (confirmed : gset string) (e : Ledger.JournalEntry) : MempoolDelta :=
  mkMempoolDelta (Ledger.je_txid e) (entry_reason confirmed e) (Ledger.je_observed_at e).

(** The whole effect of a flushed batch. *)
Record batch_written (entries : list Ledger.JournalEntry) (out : FlushOutcome)
    (db db' : Db) : Prop := {
  bw_deltas : ∃ confirmed : gset string,
    (∀ t, t ∈ confirmed ↔ moved entries Remove t ∧ is_confirmed db t) ∧
    db_deltas db' = db_deltas db ++ (delta_of confirmed <$> entries);
  bw_txs : ∃ txids, (∀ t, t ∈ txids ↔ moved entries Add t ∧ db_txs db !! t = None) ∧
    hollow_added txids (set_deltas (db_deltas db') db) db';
  bw_new : NoDup (fo_new_txids out) ∧
    ∀ t, t ∈ fo_new_txids out ↔ moved entries Add t ∧ db_txs db !! t = None;
  bw_existing : ∀ t f, (t, f) ∈ fo_existing out ↔
    moved entries Add t ∧ ∃ tx, db_txs db !! t = Some tx ∧ f = stored_fill tx;
  bw_confirmed : ∀ t, t ∈ fo_confirmed out ↔ moved entries Remove t ∧ is_confirmed db t;
  bw_evicted : ∀ t, t ∈ fo_evicted out ↔ moved entries Remove t ∧ ¬ is_confirmed db t;
}.

Lemma classify_fold confirmed entries evicted rows :
  foldl (classify_step confirmed) (evicted, rows) entries =
  (evicted ∪ list_to_set (Ledger.je_txid <$> filter (λ e, entry_reason confirmed e = RemoveEvicted) entries),
   rows ++ (delta_of confirmed <$> entries)).
Proof.
  revert evicted rows. induction entries as [|e es IH]; intros evicted rows.
  - simpl. rw app_nil_r. f_equal. set_solver.
  - cbn [foldl]. unfold classify_step at 2. rw IH. rw filter_cons fmap_cons -app_assoc. f_equal.
    destruct (entry_reason confirmed e) eqn:E; case_guards; try done; set_solver.
Qed.

Section batch.
Context `{EnumOrder, Env} (preempted : nat → bool).

Lemma runs_bail_then {B} s0 db (k : unit → DbM B) R :
  s0 ≤ db_cluster_seq db → runs s0 db (k ()) R → runs s0 db (bail_if preempted ≫= k) R.
Proof.
  intros Hs Hk c Hc. unfold mbind, DbM_bind, bail_if. destruct (preempted _); simpl.
  - by rw Hc.
  - by apply (Hk (mkConn (conn_db c) (S (conn_step c)) (conn_txn c))).
Qed.

Lemma load_chunks_runs {A B} s0 db (load : list A → Db → list B) chunks :
  s0 ≤ db_cluster_seq db →
  runs s0 db (load_chunks preempted load chunks)
    (λ l d, d = db ∧ ∀ x, x ∈ l ↔ ∃ chunk, chunk ∈ chunks ∧ x ∈ load chunk db).
Proof.
  intros Hs. induction chunks as [|chunk chunks IH]; simpl.
  { apply runs_ret. split; [done|]. intros x. split; [by intros ?%not_elem_of_nil|].
    by intros (? & ?%not_elem_of_nil & _). }
  apply runs_bail_then; [done|]. apply runs_select_then; [done|].
  eapply runs_bind; [exact IH|]. intros rest ? [-> Hrest]. apply runs_ret. split; [done|].
  intros x. rw elem_of_app Hrest. setoid_rewrite elem_of_cons. naive_solver.
Qed.

Lemma bailing_for_each {A} s0 db (f : A → Z → Db → Db) l (P : list A → Db → Prop) :
  P [] db → (∀ pre db', P pre db' → s0 ≤ db_cluster_seq db') →
  (∀ pre x now db', P pre db' → P (pre ++ [x]) (f x now db')) →
  runs s0 db (for_each (λ x, _ ← bail_if preempted; execute (f x)) l) (λ _, P l).
Proof.
  intros Hnil Hs Hf. apply runs_for_each; [done|]. intros pre x post db' _ HP.
  apply runs_bail_then; [by eapply Hs|]. apply runs_execute; [by eapply Hs|]. eauto.
Qed.

Lemma elem_of_slices {A} n (l : list A) x :
  (0 < n)%nat → (∃ chunk, chunk ∈ slice_chunks n l ∧ x ∈ chunk) ↔ x ∈ l.
Proof.
  intros Hn. rw -{2}(concat_slice_chunks n l Hn). generalize (slice_chunks n l). intros ls.
  induction ls as [|c ls IH]; simpl.
  - split; [by intros (? & ?%not_elem_of_nil & _)|by intros ?%not_elem_of_nil].
  - rw elem_of_app -IH. setoid_rewrite elem_of_cons. naive_solver.
Qed.

Lemma elem_of_distinct entries d t : t ∈ Ledger.distinct_txids entries d ↔ moved entries d t.
Proof.
  unfold Ledger.distinct_txids, moved. rw elem_of_iter_set elem_of_list_to_set list_elem_of_fmap.
  setoid_rewrite list_elem_of_filter. naive_solver.
Qed.

Lemma elem_of_select_confirmed chunk db t :
  t ∈ select_confirmed chunk db ↔ t ∈ chunk ∧ is_confirmed db t.
Proof.
  unfold select_confirmed, is_confirmed. rw elem_of_shuffle list_elem_of_fmap. split.
  - intros ([t' tx] & -> & Hin). rw list_elem_of_filter elem_of_map_to_list in Hin.
    simpl in *. naive_solver.
  - intros (Ht & tx & Htx & Hc). exists (t, tx). split; [done|].
    by rw list_elem_of_filter elem_of_map_to_list.
Qed.

Lemma elem_of_select_fills chunk db t f :
  (t, f) ∈ select_fills chunk db ↔
  t ∈ chunk ∧ ∃ tx, db_txs db !! t = Some tx ∧ f = stored_fill tx.
Proof.
  unfold select_fills. rw elem_of_shuffle list_elem_of_fmap. split.
  - intros ([t' tx] & [= -> ->] & Hin). rw list_elem_of_filter elem_of_map_to_list in Hin.
    simpl in *. naive_solver.
  - intros (Ht & tx & Htx & ->). exists (t, tx). split; [done|].
    by rw list_elem_of_filter elem_of_map_to_list.
Qed.

Lemma write_deltas_runs s0 db entries :
  s0 ≤ db_cluster_seq db →
  runs s0 db (write_deltas preempted entries) (λ removed db',
    (∃ confirmed : gset string,
      (∀ t, t ∈ confirmed ↔ moved entries Remove t ∧ is_confirmed db t) ∧
      db' = set_deltas (db_deltas db ++ (delta_of confirmed <$> entries)) db) ∧
    (∀ t, t ∈ rm_confirmed removed ↔ moved entries Remove t ∧ is_confirmed db t) ∧
    (∀ t, t ∈ rm_evicted removed ↔ moved entries Remove t ∧ ¬ is_confirmed db t)).
Proof.
  intros Hs. unfold write_deltas. eapply runs_bind; [by apply load_chunks_runs|].
  intros found ? [-> Hfound]. set (confirmed := list_to_set found : gset string).
  assert (∀ t, t ∈ confirmed ↔ moved entries Remove t ∧ is_confirmed db t) as Hconf.
  { intros t. unfold confirmed. rw elem_of_list_to_set Hfound.
    setoid_rewrite elem_of_select_confirmed.
    rw -elem_of_distinct -(elem_of_slices MEMPOOL_DELTA_INSERT_CHUNK_SIZE); [naive_solver|].
    unfold MEMPOOL_DELTA_INSERT_CHUNK_SIZE. lia. }
  rw classify_fold /=. clearbody confirmed.
  eapply runs_bind; [apply (bailing_for_each _ _ _ _ (λ pre d,
    d = set_deltas (db_deltas db ++ concat pre) db))|].
  - rw app_nil_r. by destruct db.
  - by intros pre ? ->.
  - intros pre x now ? ->. unfold insert_deltas. simpl.
    by rw concat_app /= app_nil_r -app_assoc.
  - intros [] ? ->. apply runs_ret. rw concat_slice_chunks;
      [|unfold MEMPOOL_DELTA_INSERT_CHUNK_SIZE; lia].
    split; [by exists confirmed|]. simpl. split; [intros t; by rw elem_of_iter_set Hconf|].
    intros t. rw elem_of_iter_set union_empty_l_L elem_of_list_to_set list_elem_of_fmap.
    setoid_rewrite list_elem_of_filter. unfold entry_reason. split.
    + intros (e & -> & Hr & He). destruct (Ledger.je_direction e) eqn:Ed; [done|].
      case_guards; [done|]. assert (moved entries Remove (Ledger.je_txid e)) as Hm by by exists e.
      split; [done|]. intros Hc. naive_solver.
    + intros [(e & He & <- & Hd) Hn]. exists e. rw Hd decide_False; [|naive_solver]. done.
Qed.

Lemma insert_hollow_transactions_runs s0 db entries :
  s0 ≤ db_cluster_seq db →
  runs s0 db (insert_hollow_transactions preempted entries) (λ '(new_txids, existing) db',
    hollow_added new_txids db db' ∧ NoDup new_txids ∧
    (∀ t, t ∈ new_txids ↔ moved entries Add t ∧ db_txs db !! t = None) ∧
    (∀ t f, (t, f) ∈ existing ↔
       moved entries Add t ∧ ∃ tx, db_txs db !! t = Some tx ∧ f = stored_fill tx)).
Proof.
  intros Hs. unfold insert_hollow_transactions.
  eapply runs_bind; [by apply load_chunks_runs|]. intros existing ? [-> Hex].
  assert (∀ t f, (t, f) ∈ existing ↔
    moved entries Add t ∧ ∃ tx, db_txs db !! t = Some tx ∧ f = stored_fill tx) as Hex'.
  { intros t f. rw Hex. setoid_rewrite elem_of_select_fills.
    rw -elem_of_distinct -(elem_of_slices MEMPOOL_DELTA_INSERT_CHUNK_SIZE); [naive_solver|].
    unfold MEMPOOL_DELTA_INSERT_CHUNK_SIZE. lia. }
  set (new_txids := filter _ _).
  assert (∀ t, t ∈ new_txids ↔ moved entries Add t ∧ db_txs db !! t = None) as Hnew.
  { intros t. unfold new_txids. rw list_elem_of_filter elem_of_distinct elem_of_list_to_set
      list_elem_of_fmap. split.
    - intros [Hn Hm]. split; [done|]. destruct (db_txs db !! t) as [tx|] eqn:E; [|done].
      destruct Hn. exists (t, stored_fill tx). split; [done|]. apply Hex'. eauto.
    - intros [Hm Hnone]. split; [|done].
      intros ([t' f] & -> & (_ & tx & Htx & _)%Hex'). simpl in *. congruence. }
  assert (NoDup new_txids) as Hnd by apply NoDup_filter, NoDup_iter_set. clearbody new_txids.
  eapply runs_bind; [by apply (runs_read_clock _ _ (λ _ d, d = db))|]. intros now ? ->.
  eapply runs_bind; [apply (bailing_for_each _ _ _ _ (λ pre d,
    d = set_txs (db_txs d) db ∧ absent_added (concat pre) (db_txs db) (db_txs d)))|].
  - split; [by destruct db|apply absent_added_nil].
  - intros pre ? [-> _]. done.
  - intros pre x t d [Hr Ha]. unfold insert_absent_batch. simpl. split; [by rw Hr|].
    rw concat_app /= app_nil_r. by apply absent_added_fold.
  - intros [] d [Hr Ha]. apply runs_ret. split; [|done].
    rw concat_slice_chunks in Ha; [|unfold TRANSACTION_INSERT_CHUNK_SIZE; lia].
    unfold sorted_by_txid in Ha. rw merge_sort_Permutation in Ha.
    by apply (hollow_added_absent now).
Qed.

Lemma write_batch_in_runs s0 db entries :
  s0 ≤ db_cluster_seq db →
  runs s0 db (write_batch_in preempted entries) (λ out db',
    batch_written entries out db db' ∧ db_cluster_seq db' = db_cluster_seq db).
Proof.
  intros Hs. unfold write_batch_in. eapply runs_bind; [by apply write_deltas_runs|].
  intros removed db1 ((confirmed & Hconf & ->) & Hrc & Hre).
  eapply runs_bind; [by apply insert_hollow_transactions_runs|].
  intros [new_txids existing] db2 (Hh & Hnd & Hnew & Hex).
  pose proof (ha_rest _ _ _ Hh) as Hr.
  apply runs_bail_then; [by rw Hr|]. apply runs_ret. split; [|by rw Hr].
  assert (db_deltas db2 = db_deltas db ++ (delta_of confirmed <$> entries)) as Hd by (by rw Hr).
  constructor; try done.
  - by exists confirmed.
  - exists new_txids. split; [done|]. rw Hd. done.
Qed.

(** All or nothing. *)
Lemma write_batch_spec db entries :
  repo_triple (λ d, d = db) (write_batch preempted entries)
    (λ r db', match r with
              | Some out => batch_written entries out db db'
              | None => untouched db db'
              end) (untouched db).
Proof.
  destruct entries as [|e es] eqn:He.
  - intros c Hc. simpl. rw Hc. constructor; simpl.
    + exists ∅. split; [|by rw app_nil_r]. intros t. split; [set_solver|].
      by intros [(? & ?%not_elem_of_nil & _) _].
    + exists []. split; [|destruct db; apply hollow_added_nil]. intros t.
      split; [by intros ?%not_elem_of_nil|]. by intros [(? & ?%not_elem_of_nil & _) _].
    + split; [constructor|]. intros t. split; [by intros ?%not_elem_of_nil|].
      by intros [(? & ?%not_elem_of_nil & _) _].
    + intros t f. split; [by intros ?%not_elem_of_nil|].
      by intros [(? & ?%not_elem_of_nil & _) _].
    + intros t. split; [by intros ?%not_elem_of_nil|]. by intros [(? & ?%not_elem_of_nil & _) _].
    + intros t. split; [by intros ?%not_elem_of_nil|]. by intros [(? & ?%not_elem_of_nil & _) _].
  - unfold write_batch. rw -He. apply repo_triple_query; [intros ? ->; apply untouched_refl|].
    assert (triple (λ d, d = db) (transaction (write_batch_in preempted entries))
      (λ out db', batch_written entries out db db' ∧ db_cluster_seq db' = db_cluster_seq db)
      (untouched db)) as Ht.
    { apply runs_transaction; [apply write_batch_in_runs; lia|]. intros out db' [_ Hs]. lia. }
    intros c Hc. specialize (Ht c Hc). unfold rolled_back_is_none.
    destruct (transaction _ c) as [[out|err] c']; [apply Ht|]. by destruct err.
Qed.

(** A journal batch is written whole or not at all.  On success there is one
    delta row per entry in journal order, each removal labelled confirmed exactly when
    the transaction was stored as mined, a placeholder row for every added txid that
    had none, and the outcome lists those txids, the ones already stored with what they
    lack, and the two kinds of removal.  When a block preempts the flush or a statement
    fails, the tables are untouched. *)
Theorem write_batch_all_or_nothing c entries :
  match write_batch preempted entries c with
  | (Ok (Some out), c') => batch_written entries out (conn_db c) (conn_db c')
  | (_, c') => untouched (conn_db c) (conn_db c')
  end.
Proof.
  pose proof (write_batch_spec (conn_db c) entries c eq_refl) as Hw.
  by destruct (write_batch preempted entries c) as [[[out|]|e] c'].
Qed.

(** Reading the log back after a batch replays the batch. *)
Lemma replay_delta_of confirmed s entries :
  replay_deltas s (delta_of confirmed <$> entries) = Ledger.replay s entries.
Proof.
  revert s. induction entries as [|e es IH]; intros s; [done|].
  change (replay_deltas (apply_delta s (delta_of confirmed e)) (delta_of confirmed <$> es)
    = Ledger.replay (Ledger.apply_entry s e) es).
  rw IH. f_equal. unfold apply_delta, delta_of, entry_reason, Ledger.apply_entry. simpl.
  destruct (Ledger.je_direction e); [done|]. by case_guards.
Qed.

Lemma residency_since_written cutoff entries out db db' :
  Forall (λ e, cutoff ≤ Ledger.je_observed_at e) entries →
  batch_written entries out db db' →
  residency_since cutoff db' = Ledger.replay (residency_since cutoff db) entries.
Proof.
  intros Hcut Hbw. destruct (bw_deltas _ _ _ _ Hbw) as (confirmed & _ & Hd).
  unfold residency_since, replay_deltas. rw Hd filter_app foldl_app.
  rw (filter_all _ (delta_of confirmed <$> entries)).
  - apply replay_delta_of.
  - rw Forall_fmap. exact Hcut.
Qed.

Lemma residency_since_untouched cutoff db db' :
  untouched db db' → residency_since cutoff db' = residency_since cutoff db.
Proof. by intros (n & _ & ->). Qed.

(** C7.  The repository implements the flush protocol of the ledger: with the
    database's residency read back from its delta rows, writing a batch that is still
    at the head of the journal is the protocol's successful flush followed by the
    commit of exactly that batch, and a preempted or failed write is the flush that
    was dropped. *)
Theorem write_batch_refines_flush c entries inner cutoff :
  Forall (λ e, cutoff ≤ Ledger.je_observed_at e) entries →
  entries `prefix_of` Ledger.journal inner →
  let before := Ledger.mkSys (residency_since cutoff (conn_db c)) inner (Some entries) in
  match write_batch preempted entries c with
  | (Ok (Some _), c') => ∃ inner', Ledger.commit entries inner = Some inner' ∧
      Ledger.step before (Ledger.mkSys (residency_since cutoff (conn_db c')) inner' None)
  | (_, c') =>
      Ledger.step before (Ledger.mkSys (residency_since cutoff (conn_db c')) inner None)
  end.
Proof.
  intros Hcut Hp before. pose proof (write_batch_spec (conn_db c) entries c eq_refl) as Hw.
  destruct (write_batch preempted entries c) as [[[out|]|e] c'].
  - eexists. split; [by apply Ledger.commit_prefix|].
    rw (residency_since_written _ _ _ _ _ Hcut Hw). apply Ledger.step_written.
    by apply Ledger.commit_prefix.
  - rw (residency_since_untouched _ _ _ Hw). apply Ledger.step_dropped.
  - rw (residency_since_untouched _ _ _ Hw). apply Ledger.step_dropped.
Qed.
End batch.

(** ** Windows *)

Section windows.
Context `{Env}.

Lemma length_filter_split {A} (P Q R : A → bool) (l : list A) :
  (∀ x, P x = Q x || R x) → (∀ x, Q x && R x = false) →
  length (filter (λ x, P x = true) l) =
  (length (filter (λ x, Q x = true) l) + length (filter (λ x, R x = true) l))%nat.
Proof.
  intros HP Hd. induction l as [|x l IH]; [done|]. rw !filter_cons HP. specialize (Hd x).
  destruct (Q x), (R x); simpl in *; try done; case_guards; simpl; try done; lia.
Qed.

Lemma window_split from mid to reason db :
  from ≤ mid ≤ to →
  count_where (in_window from to reason) db =
  count_where (in_window from mid reason) db + count_where (in_window mid to reason) db.
Proof.
  intros Hm. unfold count_where.
  rw (length_filter_split _ (in_window from mid reason) (in_window mid to reason)); [lia|..];
    intros d; unfold in_window; destruct (bool_decide (md_reason d = reason)); simpl; try done;
    destruct (Z.ltb_spec from (md_created_at d)), (Z.leb_spec (md_created_at d) to),
      (Z.leb_spec (md_created_at d) mid), (Z.ltb_spec mid (md_created_at d)); simpl; lia || done.
Qed.

End windows.

(** ** Examples *)

Definition demo_entries : list Ledger.JournalEntry :=
  [Ledger.mkEntry "dd" Add 1700000000; Ledger.mkEntry "aa" Remove 1700000001].

Lemma write_batch_refines_flush_witness :
  let inner := Ledger.mkInner {["dd"]} demo_entries false in
  Forall (λ e, 1690000000 ≤ Ledger.je_observed_at e) demo_entries ∧
  demo_entries `prefix_of` Ledger.journal inner ∧
  (let before := Ledger.mkSys (residency_since 1690000000 empty_db) inner (Some demo_entries) in
   match @write_batch stored_order calm_env (λ _, false) demo_entries (mkConn empty_db 0 None) with
   | (Ok (Some _), c') => ∃ inner', Ledger.commit demo_entries inner = Some inner' ∧
       @Ledger.step stored_order before
         (Ledger.mkSys (residency_since 1690000000 (conn_db c')) inner' None)
   | _ => False
   end).
Proof.
  intros inner.
  assert (Forall (λ e, 1690000000 ≤ Ledger.je_observed_at e) demo_entries) as Hc
    by (repeat constructor; simpl; lia).
  assert (demo_entries `prefix_of` Ledger.journal inner) as Hp by reflexivity.
  split; [exact Hc|]. split; [exact Hp|].
  pose proof (@write_batch_refines_flush stored_order calm_env (λ _, false)
    (mkConn empty_db 0 None) demo_entries inner 1690000000 Hc Hp) as Hx.
  destruct (@write_batch stored_order calm_env (λ _, false) demo_entries (mkConn empty_db 0 None))
    as [[[out|]|e] c'] eqn:E.
  - exact Hx.
  - exfalso. apply (f_equal (λ r, bool_decide (is_Some (result_ok r.1 ≫= λ x, x)))) in E. revert E.
    vm_compute. discriminate.
  - exfalso. apply (f_equal (λ r, bool_decide (is_Some (result_ok r.1 ≫= λ x, x)))) in E. revert E.
    vm_compute. discriminate.
Defined.

End MempoolRepo.
