(* ===== verification/TxRepo.v ===== *)
(** * Transaction and block repositories

    [api/src/db/repositories/transaction.rs] and [api/src/db/repositories/block.rs].
    An upsert is a fold over the rows of one statement: a row the statement itself
    inserted or updated cannot be updated by it again, and a foreign key to a missing
    row fails it. *)

From S2P Require Import Prelude.
From S2P Require Import Models.
From S2P Require Import Database.
From S2P Require Import ClusterRepo.
From S2P Require Import ClusterRepoFacts.
From S2P Require Import ClusterWrites.
From S2P Require Import ClusterInv.
From S2P Require Import ClusterHistory.

Open Scope Z_scope.

Module TxRepo.
Import Database.
Import ClusterRepo.

(** ** Upserts *)

(** The foreign keys of a [transactions] row. *)
Definition references_ok (db : Db) (tx : Transaction) : Prop :=
  (∀ hash, tx_confirmed_at_block tx = Some hash → is_Some (db_blocks db !! hash)) ∧
  (∀ id, tx_cluster_id tx = Some id → is_Some (db_clusters db !! id)).
#[global] Instance references_ok_dec db tx : Decision (references_ok db tx).
Proof.
  unfold references_ok.
  destruct (tx_confirmed_at_block tx) as [hash|], (tx_cluster_id tx) as [id|].
  - destruct (decide (is_Some (db_blocks db !! hash) ∧ is_Some (db_clusters db !! id)));
      [left|right]; naive_solver.
  - destruct (decide (is_Some (db_blocks db !! hash))); [left|right]; naive_solver.
  - destruct (decide (is_Some (db_clusters db !! id))); [left|right]; naive_solver.
  - left. naive_solver.
Defined.

Section upsert.
(** The row a conflict leaves, or [None] when the [WHERE] of [DO UPDATE] excludes it. *)
Context (update : Transaction → Transaction → option Transaction).

Record UpsertState := mkUpsertState {
  us_txs : gmap string Transaction;
  us_touched : gset string;
  us_written : nat;
}.

Definition upsert_row (db : Db) (acc : result DieselError UpsertState) (tx : Transaction) :
    result DieselError UpsertState :=
  match acc with
  | Err e => Err e
  | Ok st =>
      let store row :=
        if decide (references_ok db row) then
          Ok (mkUpsertState (<[tx_txid tx := row]> (us_txs st))
                ({[tx_txid tx]} ∪ us_touched st) (S (us_written st)))
        else Err (DatabaseError "foreign key") in
      match us_txs st !! tx_txid tx with
      | None => store tx
      | Some old =>
          if decide (tx_txid tx ∈ us_touched st)
          then Err (DatabaseError "cannot affect row a second time")
          else match update old tx with
               | Some row => store row
               | None => Ok st
               end
      end
  end.

Definition upsert_batch (batch : list Transaction) (_ : Z) (db : Db) :
    result DieselError (nat * Db) :=
  match foldl (upsert_row db) (Ok (mkUpsertState (db_txs db) ∅ 0)) batch with
  | Ok st => Ok (us_written st, set_txs (us_txs st) db)
  | Err e => Err e
  end.
End upsert.

(** [SET fee = excluded.fee WHERE fee IS NULL AND excluded.fee IS NOT NULL] *)
Definition set_tx_fee (fee : option Z) (tx : Transaction) : Transaction :=
  mkTransaction (tx_txid tx) fee (tx_weight tx) (tx_first_seen_at tx) (tx_confirmed_at tx)
    (tx_cluster_id tx) (tx_confirmed_at_block tx) (tx_input_txids tx).
Definition fill_fee (old new : Transaction) : option Transaction :=
  match tx_fee old, tx_fee new with
  | None, Some fee => Some (set_tx_fee (Some fee) old)
  | _, _ => None
  end.

(** [SET confirmed_at, fee, weight, confirmed_at_block, input_txids = excluded.*] *)
Definition confirm_tx (old new : Transaction) : option Transaction :=
  Some (mkTransaction (tx_txid old) (tx_fee new) (tx_weight new) (tx_first_seen_at old)
          (tx_confirmed_at new) (tx_cluster_id old) (tx_confirmed_at_block new)
          (tx_input_txids new)).

Section repository.
Context `{EnumOrder, Env}.

Definition stored_among (txids : list string) (db : Db) : list Transaction :=
  snd <$> filter (λ kv : string * Transaction, kv.1 ∈ txids) (map_to_list (db_txs db)).

Definition existing_txids (ids : list string) : RepoM (list string) :=
  query (select (λ db, shuffle (tx_txid <$> stored_among ids db))).

Definition find_by_txids (txids : list string) : RepoM (list Transaction) :=
  query (select (λ db, shuffle (stored_among txids db))).

Definition find_fills_by_txids (txids : list string) : RepoM (list (string * StoredTxFill)) :=
  query (select (λ db, shuffle ((λ tx, (tx_txid tx, stored_fill tx)) <$> stored_among txids db))).

(** [transactions INNER JOIN blocks ON confirmed_at_block = hash] *)
Definition mined_among (txids : list string) (db : Db) : list (Transaction * Z * Z) :=
  omap (λ tx, hash ← tx_confirmed_at_block tx; block ← db_blocks db !! hash;
              Some (tx, blk_height block, blk_mined_at block)) (stored_among txids db).

Definition find_mined_by_txids (txids : list string) : RepoM (list (Transaction * Z * Z)) :=
  query (select (λ db, shuffle (mined_among txids db))).

(** [INSERT ... ON CONFLICT (txid) DO NOTHING] *)
Definition insert_tx (tx : Transaction) (_ : Z) (db : Db) : result DieselError (nat * Db) :=
  match db_txs db !! tx_txid tx with
  | Some _ => Ok (0%nat, db)
  | None =>
      if decide (references_ok db tx)
      then Ok (1%nat, set_txs (<[tx_txid tx := tx]> (db_txs db)) db)
      else Err (DatabaseError "foreign key")
  end.

Definition insert (tx : Transaction) : RepoM nat := query (statement (insert_tx tx)).

Fixpoint upsert_batches (update : Transaction → Transaction → option Transaction)
    (batches : list (list Transaction)) : DbM nat :=
  match batches with
  | [] => mret 0%nat
  | batch :: batches =>
      written ← statement (upsert_batch update batch);
      rest ← upsert_batches update batches;
      mret (written + rest)%nat
  end.

Definition insert_many (txs : list Transaction) : RepoM nat :=
  match txs with
  | [] => λ c, (Ok 0%nat, c)
  | _ => query (transaction (upsert_batches fill_fee
           (slice_chunks TRANSACTION_INSERT_CHUNK_SIZE (sorted_by_txid txs))))
  end.

Definition linked_ids (txids : list string) (db : Db) : list Z :=
  iter_set (list_to_set (omap tx_cluster_id (stored_among txids db)) : gset Z).

Definition get_cluster_ids_by_txids (txids : list string) : RepoM (list Z) :=
  query (select (linked_ids txids)).

(** [UPDATE ... WHERE txid = $1 AND cond RETURNING fill], at most one row. *)
Definition update_one (cond : Transaction → bool) (f : Transaction → Transaction)
    (txid : string) (_ : Z) (db : Db) : result DieselError (option StoredTxFill * Db) :=
  match db_txs db !! txid with
  | Some tx =>
      if cond tx then Ok (Some (stored_fill (f tx)), set_txs (<[txid := f tx]> (db_txs db)) db)
      else Ok (None, db)
  | None => Ok (None, db)
  end.

Definition set_tx_raw (input_txids : list string) (weight : Z) (tx : Transaction) : Transaction :=
  mkTransaction (tx_txid tx) (tx_fee tx) weight (tx_first_seen_at tx) (tx_confirmed_at tx)
    (tx_cluster_id tx) (tx_confirmed_at_block tx) (Some input_txids).

Definition lacks_raw (tx : Transaction) : bool :=
  bool_decide (tx_input_txids tx = None) || (tx_weight tx =? 0).

Definition backfill_raw (txid : string) (input_txids : list string) (weight : Z) :
    RepoM (option StoredTxFill) :=
  query (statement (update_one lacks_raw (set_tx_raw input_txids weight) txid)).

Definition backfill_fee (txid : string) (fee : Z) : RepoM (option StoredTxFill) :=
  query (statement (update_one (λ tx, bool_decide (tx_fee tx = None))
                               (set_tx_fee (Some fee)) txid)).

(** ** Blocks *)

Definition insert_block_row (block : Block) (_ : Z) (db : Db) : result DieselError (nat * Db) :=
  match db_blocks db !! blk_hash block with
  | Some _ => Ok (0%nat, db)
  | None => Ok (1%nat, set_blocks (<[blk_hash block := block]> (db_blocks db)) db)
  end.

Definition insert_block (block : Block) : RepoM nat := query (statement (insert_block_row block)).

Definition insert_or_confirm_many (txs : list Transaction) : DbM nat :=
  upsert_batches confirm_tx (slice_chunks TRANSACTION_INSERT_CHUNK_SIZE (sorted_by_txid txs)).

Definition insert_with_transactions (block : Block) (txs : list Transaction) : RepoM unit :=
  query (transaction (
    _ ← statement (insert_block_row block);
    _ ← insert_or_confirm_many txs;
    mret ())).

Definition max_Z (l : list Z) : option Z :=
  match l with [] => None | x :: l => Some (foldl Z.max x l) end.
Definition min_Z (l : list Z) : option Z :=
  match l with [] => None | x :: l => Some (foldl Z.min x l) end.

Definition heights (db : Db) : list Z :=
  (λ kv : string * Block, blk_height kv.2) <$> map_to_list (db_blocks db).

Definition latest_height : RepoM (option Z) := query (select (λ db, max_Z (heights db))).

Definition missing_heights : RepoM Z := λ c,
  match query (select (λ db, (min_Z (heights db), max_Z (heights db), length (heights db)))) c with
  | (Ok (min, max, count), c) =>
      (Ok (match min, max with
           | Some min, Some max => max - min + 1 - Z.of_nat count
           | _, _ => 0
           end), c)
  | (Err e, c) => (Err e, c)
  end.

(** [ORDER BY height DESC LIMIT 1]; of blocks at one height the server picks. *)
Definition latest : RepoM (option (Z * Z)) :=
  query (select (λ db,
    (λ b, (blk_height b, blk_mined_at b)) <$>
      head (sort_by (λ b, - blk_height b)
              (shuffle (snd <$> map_to_list (db_blocks db)))))).
End repository.

Lemma max_Z_spec l :
  match max_Z l with
  | None => l = []
  | Some m => m ∈ l ∧ ∀ x, x ∈ l → x ≤ m
  end.
Proof.
  destruct l as [|y l]; [done|]. simpl. revert y. induction l as [|x l IH]; intros y; simpl.
  - split; [left|]. by intros x ->%list_elem_of_singleton.
  - destruct (IH (y `max` x)) as [Hin Hmax]. split.
    + apply elem_of_cons in Hin as [->|?]; [|by do 2 right].
      destruct (Z.max_spec y x) as [[_ ->]|[_ ->]]; [right; left|left].
    + intros z [->|[->|Hz]%elem_of_cons]%elem_of_cons.
      * specialize (Hmax (y `max` x) (list_elem_of_here _ _)). lia.
      * specialize (Hmax (y `max` x) (list_elem_of_here _ _)). lia.
      * apply Hmax. by right.
Qed.

(** ** What an upsert leaves *)

Import ClusterWrites ClusterInv ClusterHistory.

Section upserted.
Context (update : Transaction → Transaction → option Transaction).

(** What a row of [txs] becomes: itself, or what the conflict leaves. *)
Definition upsert_result (m : gmap string Transaction) (tx : Transaction) : Transaction :=
  match m !! tx_txid tx with
  | None => tx
  | Some old => default old (update old tx)
  end.

Definition upserted (txs : list Transaction) (m m' : gmap string Transaction) : Prop :=
  (∀ tx, tx ∈ txs → m' !! tx_txid tx = Some (upsert_result m tx)) ∧
  (∀ t, t ∉ tx_txid <$> txs → m' !! t = m !! t).

Lemma upserted_nil m : upserted [] m m.
Proof. split; [by intros ? ?%not_elem_of_nil|done]. Qed.

#[global] Instance upserted_perm : Proper ((≡ₚ) ==> (=) ==> (=) ==> iff) upserted.
Proof.
  assert (∀ l l' m m', l ≡ₚ l' → upserted l m m' → upserted l' m m') as Hgen
    by (intros l l' m m' Hp [H1 H2]; split; [intros tx|intros t]; rw -Hp; auto).
  intros l l' Hp ? m -> ? m' ->. split; by apply Hgen.
Qed.

Lemma upsert_row_step db pre m st st' tx :
  upserted pre m (us_txs st) → tx_txid tx ∉ tx_txid <$> pre →
  upsert_row update db (Ok st) tx = Ok st' → upserted (pre ++ [tx]) m (us_txs st').
Proof.
  intros [H1 H2] Hni Hrow.
  assert (us_txs st !! tx_txid tx = m !! tx_txid tx) as Hm by (by apply H2).
  assert (∀ tx', tx' ∈ pre → tx_txid tx' ≠ tx_txid tx) as Hne.
  { intros tx' Hin Heq. apply Hni. rw -Heq. apply list_elem_of_fmap. eauto. }
  assert ((us_txs st' = <[tx_txid tx := upsert_result m tx]> (us_txs st)) ∨
          us_txs st' = us_txs st ∧ m !! tx_txid tx = Some (upsert_result m tx)) as Hcase.
  { revert Hrow. simpl. unfold upsert_result. rw Hm.
    destruct (m !! tx_txid tx) as [old|] eqn:E; simpl.
    - destruct (decide (tx_txid tx ∈ us_touched st)); [done|].
      destruct (update old tx) as [row|]; simpl; [|intros [= <-]; by right].
      destruct (decide (references_ok db row)); [|done]. intros [= <-]. by left.
    - destruct (decide (references_ok db tx)); [|done]. intros [= <-]. by left. }
  split.
  - intros tx' [Hin| ->%list_elem_of_singleton]%elem_of_app.
    + destruct Hcase as [->|[-> _]]; [rw lookup_insert_ne; [|by apply not_eq_sym, Hne]|]; by apply H1.
    + destruct Hcase as [->|[-> Hc]]; [by rw lookup_insert_eq|by rw Hm].
  - intros t Ht. rw fmap_app elem_of_app /= list_elem_of_singleton in Ht.
    apply Decidable.not_or in Ht as [Ht1 Ht2].
    destruct Hcase as [->|[-> _]]; [rw lookup_insert_ne; [|done]|]; by apply H2.
Qed.

Lemma upsert_fold_err db e batch : foldl (upsert_row update db) (Err e) batch = Err e.
Proof. by induction batch. Qed.

Lemma upsert_fold db pre batch m st st' :
  upserted pre m (us_txs st) → NoDup (tx_txid <$> pre ++ batch) →
  foldl (upsert_row update db) (Ok st) batch = Ok st' → upserted (pre ++ batch) m (us_txs st').
Proof.
  revert pre st. induction batch as [|tx batch IH]; intros pre st Hu Hnd Hf.
  { rw app_nil_r. by simplify_eq/=. }
  cbn [foldl] in Hf. destruct (upsert_row update db (Ok st) tx) as [st1|e] eqn:E;
    [|by rw upsert_fold_err in Hf].
  change (tx :: batch) with ([tx] ++ batch) in *. rw app_assoc in Hnd. rw app_assoc.
  eapply IH; [|done|done]. eapply upsert_row_step; [done| |done].
  rw -app_assoc fmap_app in Hnd. apply NoDup_app in Hnd as (_ & Hd & _).
  intros Hin. apply (Hd _ Hin). left.
Qed.

(** A row no conflict would change stays as it is, whatever is offered. *)
Lemma upsert_row_keeps db st st' tx t old :
  us_txs st !! t = Some old → (∀ new, update old new = None) →
  upsert_row update db (Ok st) tx = Ok st' → us_txs st' !! t = Some old.
Proof.
  intros Ho Hkeep. simpl. destruct (us_txs st !! tx_txid tx) as [o|] eqn:E.
  - destruct (decide (tx_txid tx ∈ us_touched st)); [done|].
    destruct (update o tx) as [row|] eqn:Eu; [|by intros [= <-]].
    destruct (decide (references_ok db row)); [|done]. intros [= <-]. simpl.
    rw lookup_insert_ne //. intros Heq. subst. rw Ho in E. simplify_eq. by rw Hkeep in Eu.
  - destruct (decide (references_ok db tx)); [|done]. intros [= <-]. simpl.
    rw lookup_insert_ne //. intros Heq. subst. congruence.
Qed.

Lemma upsert_fold_keeps db batch st st' t old :
  us_txs st !! t = Some old → (∀ new, update old new = None) →
  foldl (upsert_row update db) (Ok st) batch = Ok st' → us_txs st' !! t = Some old.
Proof.
  intros Ho Hk. revert st Ho. induction batch as [|tx batch IH]; intros st Ho Hf.
  { by simplify_eq/=. }
  cbn [foldl] in Hf. destruct (upsert_row update db (Ok st) tx) as [st1|e] eqn:E;
    [|by rw upsert_fold_err in Hf].
  eapply IH; [by eapply upsert_row_keeps|done].
Qed.
End upserted.

Section runs.
Context `{EnumOrder, Env}.

Lemma upsert_batches_runs update s0 db0 db pre batches :
  s0 ≤ db_cluster_seq db → db = set_txs (db_txs db) db0 →
  upserted update pre (db_txs db0) (db_txs db) → NoDup (tx_txid <$> pre ++ concat batches) →
  runs s0 db (upsert_batches update batches) (λ _ db',
    db' = set_txs (db_txs db') db0 ∧
    upserted update (pre ++ concat batches) (db_txs db0) (db_txs db')).
Proof.
  revert pre db. induction batches as [|b bs IH]; intros pre db Hs Hr Hu Hnd; simpl.
  { apply runs_ret. by rw app_nil_r. }
  apply runs_statement_then; [done|]. intros ?. unfold upsert_batch.
  destruct (foldl _ _ _) as [st|e] eqn:E; [|done].
  rw app_assoc in Hnd.
  eapply runs_bind; [apply (IH (pre ++ b) (set_txs (us_txs st) db))|].
  - done.
  - by rw {1}Hr.
  - assert (NoDup (tx_txid <$> pre ++ b)) as Hnd'.
    { rw fmap_app in Hnd. by apply NoDup_app in Hnd as [? _]. }
    exact (upsert_fold update db pre b _ (mkUpsertState (db_txs db) ∅ 0) st Hu Hnd' E).
  - done.
  - intros n db' [Hr' Hu']. apply runs_ret. by rw app_assoc.
Qed.

Lemma upsert_batches_keeps update s0 db batches t old :
  s0 ≤ db_cluster_seq db → db_txs db !! t = Some old → (∀ new, update old new = None) →
  runs s0 db (upsert_batches update batches) (λ _ db',
    db_txs db' !! t = Some old ∧ db_cluster_seq db' = db_cluster_seq db).
Proof.
  revert db. induction batches as [|b bs IH]; intros db Hs Ho Hk; simpl; [by apply runs_ret|].
  apply runs_statement_then; [done|]. intros ?. unfold upsert_batch.
  destruct (foldl _ _ _) as [st|e] eqn:E; [|done].
  eapply runs_bind; [apply IH; [done| |done]|].
  { by apply (upsert_fold_keeps update db b (mkUpsertState (db_txs db) ∅ 0)). }
  intros n db' Hd. by apply runs_ret.
Qed.

(** An upsert of many rows, all or none. *)
Lemma insert_many_runs db txs :
  NoDup (tx_txid <$> txs) →
  repo_triple (λ d, d = db) (insert_many txs)
    (λ _ db', db' = set_txs (db_txs db') db ∧ upserted fill_fee txs (db_txs db) (db_txs db'))
    (untouched db).
Proof.
  intros Hnd. unfold insert_many. destruct txs as [|tx txs'] eqn:Etxs.
  { intros c ->. split; [by destruct db|apply upserted_nil]. }
  rw -Etxs in Hnd |- *.
  apply repo_runs_transaction; [|intros n db' [-> _]; simpl; lia].
  eapply runs_conseq; [apply (upsert_batches_runs _ _ db db [])|].
  - lia.
  - by destruct db.
  - apply upserted_nil.
  - simpl. rw concat_slice_chunks; [|unfold TRANSACTION_INSERT_CHUNK_SIZE; lia].
    unfold sorted_by_txid. by rw merge_sort_Permutation.
  - simpl. intros n db' [Hr Hu]. split; [done|].
    rw concat_slice_chunks in Hu; [|unfold TRANSACTION_INSERT_CHUNK_SIZE; lia].
    unfold sorted_by_txid in Hu. by rw merge_sort_Permutation in Hu.
Qed.

(** ** Storing a block *)

(** [block] and its transactions are stored. *)
Record block_stored (block : Block) (txs : list Transaction) (db db' : Db) : Prop := {
  bs_block : db_blocks db' !! blk_hash block
             = Some (default block (db_blocks db !! blk_hash block));
  bs_blocks : ∀ h, h ≠ blk_hash block → db_blocks db' !! h = db_blocks db !! h;
  bs_txs : upserted confirm_tx txs (db_txs db) (db_txs db');
  bs_rest : db' = set_blocks (db_blocks db') (set_txs (db_txs db') db);
}.

Lemma insert_with_transactions_runs db block txs :
  NoDup (tx_txid <$> txs) →
  repo_triple (λ d, d = db) (insert_with_transactions block txs)
    (λ _ db', block_stored block txs db db') (untouched db).
Proof.
  intros Hnd.
  apply repo_runs_transaction; [|intros [] db' Hb; rw (bs_rest _ _ _ _ Hb); simpl; lia].
  apply runs_statement_then; [lia|]. intros ?.
  set (blocks := match db_blocks db !! blk_hash block with
                 | Some _ => db_blocks db
                 | None => <[blk_hash block := block]> (db_blocks db) end).
  assert (∃ n, insert_block_row block now db = Ok (n, set_blocks blocks db)) as [n ->].
  { unfold insert_block_row, blocks. destruct (db_blocks db !! blk_hash block); [|by eauto].
    exists 0%nat. by destruct db. }
  eapply runs_bind; [apply (upsert_batches_runs _ _ (set_blocks blocks db) _ [])|].
  - simpl. lia.
  - by destruct db.
  - apply upserted_nil.
  - simpl. rw concat_slice_chunks; [|unfold TRANSACTION_INSERT_CHUNK_SIZE; lia].
    unfold sorted_by_txid. by rw merge_sort_Permutation.
  - intros k db' [Hr Hu]. apply runs_ret. simpl in Hu.
    rw concat_slice_chunks in Hu; [|unfold TRANSACTION_INSERT_CHUNK_SIZE; lia].
    unfold sorted_by_txid in Hu. rw merge_sort_Permutation in Hu.
    assert (db_blocks db' = blocks) as Hb by (by rw Hr). unfold blocks in Hb.
    constructor.
    + rw Hb. destruct (db_blocks db !! blk_hash block) eqn:E; [done|]. by rw lookup_insert_eq.
    + intros h Hh. rw Hb. destruct (db_blocks db !! blk_hash block); [done|].
      by rw lookup_insert_ne.
    + done.
    + rw Hr. done.
Qed.

(** Storing a block does not disturb the clusters. *)
Lemma block_stored_inv block txs db db' :
  Forall (λ tx, tx_cluster_id tx = None) txs → cluster_inv db → block_stored block txs db db' →
  cluster_inv db'.
Proof.
  intros Hnone Hi Hb. destruct (bs_txs _ _ _ _ Hb) as [H1 H2].
  apply (cluster_inv_txs db); [by rw (bs_rest _ _ _ _ Hb)..| | |done].
  - intros t Ht. destruct (decide (t ∈ tx_txid <$> txs)) as [Hin|Hout]; [|by rw H2].
    apply list_elem_of_fmap in Hin as (tx & -> & Hin). rw H1 //.
  - intros t tx id Htx Hid.
    destruct (decide (t ∈ tx_txid <$> txs)) as [Hin|Hout]; [|rw H2 in Htx; eauto].
    apply list_elem_of_fmap in Hin as (new & -> & Hin). rw H1 // in Htx.
    unfold upsert_result in Htx. rw Forall_forall in Hnone.
    destruct (db_txs db !! tx_txid new) as [old|]; simplify_eq/=; [by eauto|].
    by rw Hnone in Hid.
Qed.

(** C32.  A mined block is stored with all its transactions or not at all.  On success
    the block row exists (a block already stored is kept as it was), every transaction
    of the block carries the block's confirmation and body, a transaction already
    stored keeps the time it was first seen and its cluster, no other transaction or
    block changes, and the cluster tables stay consistent. *)
Theorem block_write_effect c block txs :
  NoDup (tx_txid <$> txs) → Forall (λ tx, tx_cluster_id tx = None) txs →
  cluster_inv (conn_db c) →
  match insert_with_transactions block txs c with
  | (Ok _, c') =>
      cluster_inv (conn_db c') ∧
      db_blocks (conn_db c') !! blk_hash block
        = Some (default block (db_blocks (conn_db c) !! blk_hash block)) ∧
      (∀ tx, tx ∈ txs → ∃ row, db_txs (conn_db c') !! tx_txid tx = Some row ∧
         tx_confirmed_at row = tx_confirmed_at tx ∧
         tx_confirmed_at_block row = tx_confirmed_at_block tx ∧
         tx_fee row = tx_fee tx ∧ tx_weight row = tx_weight tx ∧
         tx_input_txids row = tx_input_txids tx ∧
         ∀ old, db_txs (conn_db c) !! tx_txid tx = Some old →
           tx_first_seen_at row = tx_first_seen_at old ∧ tx_cluster_id row = tx_cluster_id old) ∧
      (∀ t, t ∉ tx_txid <$> txs → db_txs (conn_db c') !! t = db_txs (conn_db c) !! t) ∧
      (∀ h, h ≠ blk_hash block → db_blocks (conn_db c') !! h = db_blocks (conn_db c) !! h)
  | (Err _, c') => untouched (conn_db c) (conn_db c')
  end.
Proof.
  intros Hnd Hnone Hi.
  pose proof (insert_with_transactions_runs (conn_db c) block txs Hnd c eq_refl) as Hx.
  destruct (insert_with_transactions block txs c) as [[[]|e] c']; [|done].
  split; [by eapply block_stored_inv|]. split; [by apply Hx|].
  destruct (bs_txs _ _ _ _ Hx) as [H1 H2]. split; [|split; [done|apply Hx]].
  intros tx Hin. eexists. split; [by apply H1|]. unfold upsert_result.
  destruct (db_txs (conn_db c) !! tx_txid tx) as [old|]; simpl; [|done].
  split_and!; try done. by intros ? [= <-].
Qed.

(** ** Complete rows *)

Inductive TxWrite :=
| TxInsert (tx : Transaction)
| TxInsertMany (txs : list Transaction)
| TxBackfillRaw (txid : string) (input_txids : list string) (weight : Z)
| TxBackfillFee (txid : string) (fee : Z).

Definition run_tx_write (w : TxWrite) (c : Conn) : Conn :=
  match w with
  | TxInsert tx => (insert tx c).2
  | TxInsertMany txs => (insert_many txs c).2
  | TxBackfillRaw txid inputs weight => (backfill_raw txid inputs weight c).2
  | TxBackfillFee txid fee => (backfill_fee txid fee c).2
  end.

Lemma complete_fields tx :
  is_complete tx = true →
  is_Some (tx_input_txids tx) ∧ tx_weight tx ≠ 0 ∧ is_Some (tx_fee tx).
Proof.
  unfold is_complete, backfill_stage, stored_fill. simpl. rw bool_decide_eq_true.
  destruct (tx_input_txids tx), (tx_fee tx); simpl; rw ?bool_decide_eq_true_2 //=;
    destruct (Z.eqb_spec (tx_weight tx) 0); naive_solver.
Qed.

Lemma update_one_other cond f txid now db r db' t :
  update_one cond f txid now db = Ok (r, db') →
  (t = txid → ∀ tx, db_txs db !! t = Some tx → cond tx = false) →
  db_txs db' !! t = db_txs db !! t.
Proof.
  unfold update_one. intros Hu Hc.
  destruct (db_txs db !! txid) as [tx|] eqn:E; [|by simplify_eq].
  destruct (cond tx) eqn:Ec; simplify_eq/=; [|done].
  rw lookup_insert_ne; [done|]. intros <-. rw (Hc eq_refl tx E) in Ec. done.
Qed.

(** A single statement that leaves row [t] alone, run through the pool. *)
Lemma statement_keeps {A} (f : Z → Db → result DieselError (A * Db)) t tx c :
  db_txs (conn_db c) !! t = Some tx →
  (∀ now a db', f now (conn_db c) = Ok (a, db') → db_txs db' !! t = Some tx) →
  db_txs (conn_db (query (statement f) c).2) !! t = Some tx.
Proof.
  intros Ht Hf. unfold query. destruct (pool_fault _); [done|]. unfold statement. simpl.
  destruct (stmt_fault _); [done|]. simpl. destruct (f _ _) as [[a db']|e] eqn:E; [|done].
  simpl. by eapply Hf.
Qed.

(** Once a transaction row has its parents, weight and fee, neither inserts nor
    backfills change it, so a late answer of the node never overwrites data. *)
Theorem complete_row_is_final w c t tx :
  db_txs (conn_db c) !! t = Some tx → is_complete tx = true →
  db_txs (conn_db (run_tx_write w c)) !! t = Some tx.
Proof.
  intros Ht Hc. destruct (complete_fields tx Hc) as ([ins Hins] & Hw & [fee Hfee]).
  destruct w as [new|new|txid inputs weight|txid fee']; simpl.
  - apply statement_keeps; [done|]. intros now n db'. unfold insert_tx.
    destruct (db_txs (conn_db c) !! tx_txid new) eqn:E; [by intros [= _ <-]|].
    destruct (decide (references_ok (conn_db c) new)); [|done]. intros [= _ <-]. simpl.
    rw lookup_insert_ne //. congruence.
  - destruct new as [|n new]; [done|].
    assert (∀ x, fill_fee tx x = None) as Hff by (intros x; unfold fill_fee; by rw Hfee).
    assert (runs (db_cluster_seq (conn_db c)) (conn_db c) (upsert_batches fill_fee
      (slice_chunks TRANSACTION_INSERT_CHUNK_SIZE (sorted_by_txid (n :: new))))
      (λ _ db', db_txs db' !! t = Some tx ∧
         db_cluster_seq db' = db_cluster_seq (conn_db c))) as Hr
      by (apply upsert_batches_keeps; [lia|done..]).
    assert (∀ (a : nat) db', db_txs db' !! t = Some tx ∧
      db_cluster_seq db' = db_cluster_seq (conn_db c) →
      db_cluster_seq (conn_db c) ≤ db_cluster_seq db') as Hs by (intros a db' [_ ?]; lia).
    pose proof (repo_runs_transaction _ _ _ Hr Hs c eq_refl) as Hx.
    unfold insert_many. destruct (query _ c) as [[?|?] c']; [apply Hx|].
    destruct Hx as (k & _ & Hk). simpl. by rw Hk.
  - apply statement_keeps; [done|]. intros now a db' Hu.
    rw (update_one_other _ _ _ _ _ _ _ t Hu) //. intros _ tx' Htx'.
    rw Ht in Htx'. simplify_eq. unfold lacks_raw. rw Hins. simpl. by apply Z.eqb_neq.
  - apply statement_keeps; [done|]. intros now a db' Hu.
    rw (update_one_other _ _ _ _ _ _ _ t Hu) //. intros _ tx' Htx'.
    rw Ht in Htx'. simplify_eq. by rw Hfee.
Qed.
End runs.

(** ** Examples *)

Definition demo_block : Block := mkBlock "blk" 100 50 2 900 10 1 60.
Definition demo_tx (t : string) : Transaction :=
  mkTransaction t (Some 10) 400 50 (Some 50) None (Some "blk") (Some []).

Lemma block_write_effect_witness :
  NoDup (tx_txid <$> [demo_tx "aa"; demo_tx "bb"]) ∧
  Forall (λ tx, tx_cluster_id tx = None) [demo_tx "aa"; demo_tx "bb"] ∧
  cluster_inv empty_db ∧
  match @insert_with_transactions calm_env demo_block [demo_tx "aa"; demo_tx "bb"]
          (mkConn empty_db 0 None) with
  | (Ok _, c') => cluster_inv (conn_db c')
  | (Err _, _) => False
  end.
Proof.
  assert (NoDup (tx_txid <$> [demo_tx "aa"; demo_tx "bb"])) as Hn
    by (apply (bool_decide_unpack _); vm_compute; exact I).
  assert (Forall (λ tx, tx_cluster_id tx = None) [demo_tx "aa"; demo_tx "bb"]) as Hf
    by (repeat constructor).
  split; [exact Hn|]. split; [exact Hf|]. split; [exact cluster_inv_empty|].
  pose proof (@block_write_effect calm_env (mkConn empty_db 0 None) demo_block
    [demo_tx "aa"; demo_tx "bb"] Hn Hf cluster_inv_empty) as Hx.
  destruct (@insert_with_transactions calm_env demo_block [demo_tx "aa"; demo_tx "bb"]
    (mkConn empty_db 0 None)) as [[[]|e] c'] eqn:E; [apply Hx|].
  exfalso. apply (f_equal (λ r, result_ok r.1)) in E. revert E. vm_compute. discriminate.
Defined.

Definition demo_tx_conn : Conn := mkConn (set_txs {["aa" := demo_tx "aa"]} empty_db) 0 None.

Lemma complete_row_is_final_witness :
  db_txs (conn_db demo_tx_conn) !! "aa" = Some (demo_tx "aa") ∧ is_complete (demo_tx "aa") = true ∧
  db_txs (conn_db (@run_tx_write calm_env (TxBackfillFee "aa" 99) demo_tx_conn)) !! "aa"
    = Some (demo_tx "aa").
Proof.
  split; [vm_compute; reflexivity|]. split; [vm_compute; reflexivity|].
  apply (@complete_row_is_final calm_env); vm_compute; reflexivity.
Defined.

End TxRepo.
