(* ===== verification/TxLookup.v ===== *)
(** * Looking transactions up

    [api/src/controllers/transactions.rs] and [api/src/services/transaction.rs]: a request
    names transactions as a comma-separated list; the answer has the stored ones in the order
    requested and names the others. *)

From stdpp Require Import pretty.
From S2P Require Import Prelude.
From S2P Require Import Models.
From S2P Require Import Database.
From S2P Require Import TxRepo.

Open Scope Z_scope.

Module TxLookup.
Import Database.

(** ** The request *)

Definition MAX_TXIDS : nat := 128.

Definition COMMA : Ascii.ascii := Ascii.ascii_of_nat 44.

(** [raw.split(c)]: always at least one segment. *)
Fixpoint split_on (c : Ascii.ascii) (s : string) : list string :=
  match s with
  | EmptyString => [EmptyString]
  | String a s =>
      if decide (a = c) then EmptyString :: split_on c s
      else match split_on c s with
           | segment :: segments => String a segment :: segments
           | [] => [String a EmptyString]
           end
  end.

Definition is_hex (a : Ascii.ascii) : bool :=
  let n := Ascii.nat_of_ascii a in
  bool_decide (48 ≤ n ≤ 57)%nat || bool_decide (97 ≤ n ≤ 102)%nat.

Fixpoint all_bytes (p : Ascii.ascii → bool) (s : string) : bool :=
  match s with EmptyString => true | String a s => p a && all_bytes p s end.

Definition is_valid_txid (s : string) : bool :=
  bool_decide (String.length s = 64%nat) && all_bytes is_hex s.

(** The loop over [seen]: the first occurrence of each segment. *)
Fixpoint distinct (seen : gset string) (segments : list string) : list string :=
  match segments with
  | [] => []
  | segment :: segments =>
      if decide (segment ∈ seen) then distinct seen segments
      else segment :: distinct ({[segment]} ∪ seen) segments
  end.

Definition parse_txids (raw : string) : result ApiError (list string) :=
  if bool_decide (raw = "") then Err (BadRequest "`txids` must not be empty")
  else
    let segments := split_on COMMA raw in
    if bool_decide (MAX_TXIDS < length segments)%nat then
      Err (BadRequest ("at most 128 txids allowed, got " +:+ pretty (length segments)))
    else
      match list_find (λ segment, is_valid_txid segment = false) segments with
      | Some (_, segment) => Err (BadRequest ("invalid txid: `" +:+ segment +:+ "`"))
      | None => Ok (distinct ∅ segments)
      end.

(** ** The answer *)

Record TransactionRef := mkTransactionRef {
  tr_txid : string;
  tr_fee : option Z;
  tr_vsize : Z;
  tr_first_seen_at : Z;
  tr_cluster_id : option Z;
  tr_input_txids : option (list string);
  tr_complete : bool;
}.

Record TransactionLookup := mkTransactionLookup {
  tl_found : list TransactionRef;
  tl_missing : list string;
}.

Section lookup.
Context `{Env} `{EnumOrder} `{BitcoinUnits}.

(** [TransactionRef::from] *)
Definition ref_of_row (row : Transaction) : TransactionRef :=
  mkTransactionRef (tx_txid row) (tx_fee row) (vsize_from_weight (tx_weight row))
    (tx_first_seen_at row) (tx_cluster_id row) (tx_input_txids row) (is_complete row).

(** The map the rows are collected into. *)
Definition index_rows (rows : list Transaction) : gmap string Transaction :=
  foldl (λ m row, <[tx_txid row := row]> m) ∅ rows.

(** The loop over the requested txids; a row is taken out of the map when it is used. *)
Fixpoint partition_txids (by_txid : gmap string Transaction) (txids : list string) :
    list TransactionRef * list string :=
  match txids with
  | [] => ([], [])
  | txid :: txids =>
      let '(found, missing) := partition_txids (delete txid by_txid) txids in
      match by_txid !! txid with
      | Some row => (ref_of_row row :: found, missing)
      | None => (found, txid :: missing)
      end
  end.

Definition lookup_txids (txids : list string) : Conn → result ApiError TransactionLookup * Conn :=
  λ c,
  match TxRepo.find_by_txids txids c with
  | (Err e, c) => (Err (Internal e), c)
  | (Ok rows, c) =>
      let '(found, missing) := partition_txids (index_rows rows) txids in
      (Ok (mkTransactionLookup found missing), c)
  end.

(** The route: parse, then look up. *)
Definition transactions (raw : string) : Conn → result ApiError TransactionLookup * Conn := λ c,
  match parse_txids raw with
  | Err e => (Err e, c)
  | Ok txids => lookup_txids txids c
  end.
End lookup.

(** ** Parsing *)

Lemma split_on_cons c s : ∃ segment segments, split_on c s = segment :: segments.
Proof.
  induction s as [|a s IH]; simpl; [by eexists _, _|]. case_decide; [by eexists _, _|].
  destruct (split_on c s) as [|w ws]; by eexists _, _.
Qed.

Lemma split_on_free c s : all_bytes (λ a, negb (bool_decide (a = c))) s = true → split_on c s = [s].
Proof.
  induction s as [|a s IH]; simpl; [done|]. intros [Ha Hs]%andb_true_iff.
  apply negb_true_iff, bool_decide_eq_false in Ha. rw decide_False //. by rw IH.
Qed.

Lemma split_on_app c s rest :
  all_bytes (λ a, negb (bool_decide (a = c))) s = true →
  split_on c (s +:+ String c rest) = s :: split_on c rest.
Proof.
  induction s as [|a s IH]; simpl; [by rw decide_True|]. intros [Ha Hs]%andb_true_iff.
  apply negb_true_iff, bool_decide_eq_false in Ha. rw decide_False //. by rw IH.
Qed.

(** [txids.join(",")] *)
Fixpoint join (txids : list string) : string :=
  match txids with
  | [] => EmptyString
  | [txid] => txid
  | txid :: txids => txid +:+ String COMMA (join txids)
  end.

Lemma hex_no_comma s :
  all_bytes is_hex s = true → all_bytes (λ a, negb (bool_decide (a = COMMA))) s = true.
Proof.
  induction s as [|a s IH]; simpl; [done|]. intros [Ha Hs]%andb_true_iff.
  apply andb_true_iff. split; [|by apply IH]. apply negb_true_iff, bool_decide_eq_false.
  intros ->. by vm_compute in Ha.
Qed.

Lemma valid_no_comma s :
  is_valid_txid s = true → all_bytes (λ a, negb (bool_decide (a = COMMA))) s = true.
Proof. intros [_ Hs]%andb_true_iff. by apply hex_no_comma. Qed.

Lemma split_join txids :
  txids ≠ [] → Forall (λ t, is_valid_txid t = true) txids → split_on COMMA (join txids) = txids.
Proof.
  intros Hne Hall. induction Hall as [|t txids Ht Hall IH]; [done|].
  apply valid_no_comma in Ht. destruct txids as [|t' txids]; [by apply split_on_free|].
  change (join (t :: t' :: txids)) with (t +:+ String COMMA (join (t' :: txids))).
  rw split_on_app //. by rw IH.
Qed.

Lemma distinct_spec seen segments :
  NoDup (distinct seen segments) ∧
  ∀ t, t ∈ distinct seen segments ↔ t ∈ segments ∧ t ∉ seen.
Proof.
  revert seen. induction segments as [|s segments IH]; intros seen; simpl.
  { split; [constructor|]. intros t. rw !elem_of_nil. naive_solver. }
  case_decide as Hs.
  - destruct (IH seen) as [Hn He]. split; [done|]. intros t. rw He elem_of_cons. naive_solver.
  - destruct (IH ({[s]} ∪ seen)) as [Hn He]. split.
    + apply NoDup_cons. split; [|done]. rw He. set_solver.
    + intros t. rw !elem_of_cons He. destruct (decide (t = s)); set_solver.
Qed.

Lemma distinct_id seen segments :
  NoDup segments → (∀ t, t ∈ segments → t ∉ seen) → distinct seen segments = segments.
Proof.
  revert seen. induction segments as [|s segments IH]; intros seen Hn Hs; simpl; [done|].
  apply NoDup_cons in Hn as [Hni Hn]. rw decide_False; [|apply Hs; left].
  f_equal. apply IH; [done|]. intros t Ht. specialize (Hs t). set_solver.
Qed.

Lemma distinct_length seen segments : (length (distinct seen segments) ≤ length segments)%nat.
Proof.
  revert seen. induction segments as [|s segments IH]; intros seen; simpl; [lia|].
  case_decide; simpl; [etrans; [apply IH|lia]|]. specialize (IH ({[s]} ∪ seen)). lia.
Qed.

Lemma parse_txids_sound raw txids :
  parse_txids raw = Ok txids →
  txids ≠ [] ∧ NoDup txids ∧ (length txids ≤ MAX_TXIDS)%nat ∧
  Forall (λ t, is_valid_txid t = true) txids ∧
  ∀ t, t ∈ txids ↔ t ∈ split_on COMMA raw.
Proof.
  unfold parse_txids. case_bool_decide; [done|]. case_bool_decide as Hlen; [done|].
  destruct (list_find _ _) as [[i t]|] eqn:E; [done|]. intros [= <-].
  apply list_find_None in E. destruct (distinct_spec ∅ (split_on COMMA raw)) as [Hn He].
  assert (∀ t, t ∈ distinct ∅ (split_on COMMA raw) ↔ t ∈ split_on COMMA raw) as He'.
  { intros t. rw He. set_solver. }
  split_and!; [|done| | |done].
  - destruct (split_on_cons COMMA raw) as (w & ws & Hw). intros Hnil.
    specialize (He' w). rw Hnil Hw elem_of_nil elem_of_cons in He'. naive_solver.
  - pose proof (distinct_length ∅ (split_on COMMA raw)). lia.
  - apply Forall_forall. intros t Ht%He'. rw Forall_forall in E. specialize (E t Ht).
    by destruct (is_valid_txid t).
Qed.

(** The list of a request survives the query string: between one and 128 distinct
    valid txids joined by commas parse back to themselves.  Whatever is accepted is such a
    list, holding every segment of the request once. *)
Theorem parse_txids_round_trip txids raw :
  (txids ≠ [] → NoDup txids → (length txids ≤ MAX_TXIDS)%nat →
   Forall (λ t, is_valid_txid t = true) txids → parse_txids (join txids) = Ok txids) ∧
  (parse_txids raw = Ok txids →
   txids ≠ [] ∧ NoDup txids ∧ (length txids ≤ MAX_TXIDS)%nat ∧
   Forall (λ t, is_valid_txid t = true) txids ∧
   ∀ t, t ∈ txids ↔ t ∈ split_on COMMA raw).
Proof.
  split; [|apply parse_txids_sound]. intros Hne Hn Hlen Hall.
  unfold parse_txids. rw split_join //. rw bool_decide_eq_false_2.
  2:{ intros Hj. apply (f_equal (split_on COMMA)) in Hj. rw split_join // in Hj. subst.
      by apply Forall_cons in Hall as [? _]. }
  rw bool_decide_eq_false_2; [|lia].
  destruct (list_find _ txids) as [[i t]|] eqn:E.
  { apply list_find_Some in E as (Hi & Hv & _). rw Forall_lookup in Hall.
    specialize (Hall i t Hi). simpl in *. congruence. }
  f_equal. apply distinct_id; [done|]. set_solver.
Qed.

(** ** Looking up *)

(** The table is keyed by txid. *)
Definition rows_keyed (db : Db) : Prop := ∀ t row, db_txs db !! t = Some row → tx_txid row = t.

Lemma filter_none_ext (m1 m2 : gmap string Transaction) (txids : list string) :
  (∀ t, t ∈ txids → m1 !! t = m2 !! t) →
  filter (λ t, m1 !! t = None) txids = filter (λ t, m2 !! t = None) txids.
Proof.
  induction txids as [|t txids IH]; intros Ht; [done|]. rw !filter_cons Ht; [|left].
  rw IH; [done|]. intros t' Ht'. apply Ht. by right.
Qed.

(** Every txid is on one of the two sides. *)
Lemma length_found_missing (m : gmap string Transaction) (txids : list string) :
  (length (omap (λ t, m !! t) txids) + length (filter (λ t, m !! t = None) txids)
   = length txids)%nat.
Proof.
  induction txids as [|t txids IH]; [done|]. rw omap_cons filter_cons length_app.
  destruct (m !! t); case_decide; simplify_eq; simpl; lia.
Qed.

Section lookup_facts.
Context `{Env} `{EnumOrder} `{BitcoinUnits}.

Lemma index_rows_lookup rows t row :
  (∀ r1 r2, r1 ∈ rows → r2 ∈ rows → tx_txid r1 = tx_txid r2 → r1 = r2) →
  index_rows rows !! t = Some row ↔ row ∈ rows ∧ tx_txid row = t.
Proof.
  unfold index_rows. induction rows as [|r rows IH] using rev_ind; intros Huniq; simpl.
  { rw lookup_empty elem_of_nil. naive_solver. }
  rw foldl_app /= lookup_insert_Some IH; [|set_solver].
  rw elem_of_app list_elem_of_singleton. split.
  - intros [[<- <-]|[Hne [Hin Ht]]]; [by auto|by auto].
  - intros [[Hin| ->] Ht]; [|by left]. destruct (decide (tx_txid r = t)) as [Hr|Hr]; [|by right].
    left. split; [done|]. apply Huniq; [set_solver..|congruence].
Qed.

(** The rows of a query, indexed, are the table restricted to what was asked for. *)
Lemma index_stored txids db t :
  rows_keyed db → t ∈ txids →
  index_rows (shuffle (TxRepo.stored_among txids db)) !! t = db_txs db !! t.
Proof.
  intros Hk Ht.
  assert (∀ r, r ∈ shuffle (TxRepo.stored_among txids db) ↔
               tx_txid r ∈ txids ∧ db_txs db !! tx_txid r = Some r) as Hin.
  { intros r. rw elem_of_shuffle. unfold TxRepo.stored_among. rw list_elem_of_fmap. split.
    - intros ([k r'] & -> & [Hkt Hm%elem_of_map_to_list]%list_elem_of_filter). simpl in *.
      by rw (Hk _ _ Hm).
    - intros [Hr Hm]. exists (tx_txid r, r). split; [done|]. rw list_elem_of_filter.
      split; [done|]. by apply elem_of_map_to_list. }
  apply option_eq. intros row. rw index_rows_lookup.
  - rw Hin. split; [by intros [[_ ?] <-]|]. intros Hm. pose proof (Hk _ _ Hm) as <-. done.
  - intros r1 r2 [_ H3]%Hin [_ H4]%Hin Heq. congruence.
Qed.

Lemma partition_txids_spec m txids :
  NoDup txids →
  partition_txids m txids =
  (ref_of_row <$> omap (λ t, m !! t) txids, filter (λ t, m !! t = None) txids).
Proof.
  intros Hn. revert m. induction Hn as [|t txids Hni Hn IH]; intros m; [done|].
  cbn [partition_txids]. rw IH omap_cons filter_cons fmap_app.
  assert (omap (λ t', delete t m !! t') txids = omap (λ t', m !! t') txids) as ->.
  { apply list_omap_ext. apply Forall_Forall2_diag, Forall_forall. intros t' Ht'.
    apply lookup_delete_ne. by intros ->. }
  rw (filter_none_ext (delete t m) m).
  2:{ intros t' Ht'. apply lookup_delete_ne. by intros ->. }
  destruct (m !! t) as [row|] eqn:E; by case_decide; simplify_eq.
Qed.

(** The route answers a well-formed request with the stored transactions in the order
    they were asked for and the others by name, in that order too, each requested txid on
    exactly one side; a malformed request is answered 400 without touching the database, a
    failing database 500 without its error text; nothing is ever written. *)
Theorem transactions_partitions_request raw c :
  rows_keyed (conn_db c) →
  let db := conn_db c in
  match transactions raw c with
  | (Ok l, c') =>
      conn_db c' = db ∧
      ∃ txids, parse_txids raw = Ok txids ∧
        tl_found l = ref_of_row <$> omap (λ t, db_txs db !! t) txids ∧
        tl_missing l = filter (λ t, db_txs db !! t = None) txids ∧
        (length (tl_found l) + length (tl_missing l) = length txids)%nat
  | (Err e, c') =>
      (parse_txids raw = Err e ∧ c' = c) ∨
      (conn_db c' = db ∧ (∃ txids, parse_txids raw = Ok txids) ∧
       into_response e = (500, "internal error"))
  end.
Proof.
  intros Hk. cbv zeta. unfold transactions.
  destruct (parse_txids raw) as [txids|e] eqn:Ep; [|by left].
  unfold lookup_txids, TxRepo.find_by_txids. set (f := λ db, shuffle _).
  pose proof (query_select_keeps f c) as [Hdb Hq].
  destruct (query (select f) c) as [[rows|e] c']; simpl in Hdb, Hq; [|by right; eauto].
  subst rows. rw partition_txids_spec.
  2:{ by apply parse_txids_sound in Ep as (_ & ? & _). }
  split; [done|]. exists txids. split; [done|]. simpl. unfold f.
  assert (omap (λ t, index_rows (shuffle (TxRepo.stored_among txids (conn_db c))) !! t) txids
          = omap (λ t, db_txs (conn_db c) !! t) txids) as ->.
  { apply list_omap_ext, Forall_Forall2_diag, Forall_forall. intros t Ht. by apply index_stored. }
  rw (filter_none_ext _ (db_txs (conn_db c))); [|intros t Ht; by apply index_stored].
  split_and!; [done..|]. rw length_fmap. apply length_found_missing.
Qed.
End lookup_facts.

(** ** Witnesses *)

Fixpoint repeat_char (n : nat) (a : Ascii.ascii) : string :=
  match n with O => EmptyString | S n => String a (repeat_char n a) end.
Definition txid_a : string := repeat_char 64 (Ascii.ascii_of_nat 97).
Definition txid_b : string := repeat_char 64 (Ascii.ascii_of_nat 98).

Lemma parse_txids_round_trip_witness :
  parse_txids (join [txid_b; txid_a]) = Ok [txid_b; txid_a].
Proof.
  apply (proj1 (parse_txids_round_trip [txid_b; txid_a] "")).
  - discriminate.
  - apply (bool_decide_unpack _). vm_compute. reflexivity.
  - apply (bool_decide_unpack _). vm_compute. reflexivity.
  - repeat constructor.
Defined.

Definition lookup_db : Db :=
  set_txs {[txid_a := mkTransaction txid_a (Some 500) 561 7 None None None (Some [])]} empty_db.

Lemma lookup_db_keyed : rows_keyed lookup_db.
Proof. intros t row. unfold lookup_db. simpl. rw lookup_singleton_Some. by intros [<- <-]. Qed.

Definition lookup_answer : result ApiError TransactionLookup * Conn :=
  transactions (H := calm_env) (H0 := stored_order) (H1 := ceil_units)
    (join [txid_b; txid_a]) (mkConn lookup_db 0 None).

Lemma transactions_partitions_request_witness :
  match lookup_answer.1 with
  | Ok l => (tr_txid <$> tl_found l, tl_missing l) = ([txid_a], [txid_b])
  | Err _ => False
  end ∧
  match lookup_answer with
  | (Ok l, c') =>
      conn_db c' = lookup_db ∧
      ∃ txids, parse_txids (join [txid_b; txid_a]) = Ok txids ∧
        tl_found l = ref_of_row (H1 := ceil_units) <$> omap (λ t, db_txs lookup_db !! t) txids ∧
        tl_missing l = filter (λ t, db_txs lookup_db !! t = None) txids ∧
        (length (tl_found l) + length (tl_missing l) = length txids)%nat
  | (Err e, c') =>
      (parse_txids (join [txid_b; txid_a]) = Err e ∧ c' = mkConn lookup_db 0 None) ∨
      (conn_db c' = lookup_db ∧ (∃ txids, parse_txids (join [txid_b; txid_a]) = Ok txids) ∧
       into_response e = (500, "internal error"))
  end.
Proof.
  split; [vm_compute; reflexivity|].
  exact (transactions_partitions_request (H := calm_env) (H0 := stored_order)
    (H1 := ceil_units) (join [txid_b; txid_a]) (mkConn lookup_db 0 None) lookup_db_keyed).
Defined.

End TxLookup.
