(* ===== verification/ClusterService.v ===== *)
(** * The cluster service

    [api/src/services/cluster.rs]: keeps the stored clusters in step with the node's
    grouping of the mempool.  A service call is a function on the [World]: the database
    connection, the mempool ledger, the in-memory cluster snapshot, the events published,
    the node, and the errors logged.  Metrics are left out.

    The node's answers and the clock are functions of the number of calls made so far,
    so they may change between any two calls. *)

From S2P Require Import Prelude.
From S2P Require Import Models.
From S2P Require Import Database.
From S2P Require Import ClusterRepo.
From S2P Require Import TxRepo.
From S2P Require Import Ledger.
From S2P Require Import ClusterSnapshot.
From S2P Require Import MempoolRepo.

Open Scope Z_scope.

Module ClusterService.
Import Database.

(** [impl From<Cluster> for ActiveCluster] ([api/src/db/adapters.rs]) *)
Definition active_cluster (c : Cluster) : Snapshot.ActiveCluster :=
  Snapshot.mkActiveCluster (cl_id c) (cl_chunks c) (cl_total_weight c) (cl_total_fee c)
    (cl_first_seen_at c).

(** ** The world *)

(** The error and warning lines of the service. *)
Inductive LogLine :=
| SeedFailed | FetchFailed | LookupFailed | InsertManyFailed (clusters : nat) | InsertFailed
| LoadFailed | MergeFailed | UpdateFailed | ConfirmFailed | TrimFailed | EvictFailed.

Record World := mkWorld {
  w_conn : Conn;
  w_ledger : Ledger.Inner;
  w_snapshot : gmap Z Snapshot.ClusterState;
  w_bus : list BusEvent;
  w_calls : nat;
  w_log : list LogLine;
}.

Definition w_db (w : World) : Db := conn_db (w_conn w).

Definition Svc (A : Type) : Type := World → A * World.
#[global] Instance Svc_ret : MRet Svc := λ A a w, (a, w).
#[global] Instance Svc_bind : MBind Svc := λ A B f m w, let '(a, w) := m w in f a w.

(** A call with a loop in it: [None] when the fuel ran out. *)
Definition Run (A : Type) : Type := World → option (A * World).
#[global] Instance Run_ret : MRet Run := λ A a w, Some (a, w).
#[global] Instance Run_bind : MBind Run := λ A B f m w,
  match m w with Some (a, w) => f a w | None => None end.
Definition lift {A} (m : Svc A) : Run A := λ w, Some (m w).

Definition log (l : LogLine) : Svc unit := λ w,
  ((), mkWorld (w_conn w) (w_ledger w) (w_snapshot w) (w_bus w) (w_calls w) (w_log w ++ [l])).

Definition call {A} (m : RepoM A) : Svc (result RepoError A) := λ w,
  let '(r, c) := m (w_conn w) in
  (r, mkWorld c (w_ledger w) (w_snapshot w) (w_bus w) (w_calls w) (w_log w)).

(** ** Clusters touched in one round *)

Record ClusterDeltaSet := mkClusterDeltaSet {
  cd_upserted : gmap Z Snapshot.ActiveCluster;
  cd_removed : gset Z;
}.

Definition no_changes : ClusterDeltaSet := mkClusterDeltaSet ∅ ∅.

Definition mark_removed (id : Z) (d : ClusterDeltaSet) : ClusterDeltaSet :=
  mkClusterDeltaSet (delete id (cd_upserted d)) ({[id]} ∪ cd_removed d).

Definition mark_upserted (cluster : Cluster) (d : ClusterDeltaSet) : ClusterDeltaSet :=
  if decide (cl_status cluster ≠ Active) then mark_removed (cl_id cluster) d
  else mkClusterDeltaSet (<[cl_id cluster := active_cluster cluster]> (cd_upserted d))
         (cd_removed d ∖ {[cl_id cluster]}).

Definition is_empty (d : ClusterDeltaSet) : bool :=
  bool_decide (cd_upserted d = ∅) && bool_decide (cd_removed d = ∅).

Definition mark_all_removed (ids : list Z) (d : ClusterDeltaSet) : ClusterDeltaSet :=
  foldl (λ d id, mark_removed id d) d ids.

Record UpsertOutcome := mkUpsertOutcome {
  uo_changes : ClusterDeltaSet;
  uo_detached : list string;
}.

Definition uo_untouched (changes : ClusterDeltaSet) : UpsertOutcome := mkUpsertOutcome changes [].

(** ** Mined blocks *)

Record MinedBlock := mkMinedBlock {
  mb_txids : list string;
  mb_txid_set : gset string;
  mb_fees : gmap string Z;
  mb_weights : gmap string Z;
  mb_confirmed_at : Z;
}.

Definition new_mined_block (txids : list string) (fees weights : gmap string Z)
    (confirmed_at : Z) : MinedBlock :=
  mkMinedBlock txids (list_to_set txids) fees weights confirmed_at.

Definition contains (block : MinedBlock) (txid : string) : bool :=
  bool_decide (txid ∈ mb_txid_set block).

Definition split_chunk (block : MinedBlock) (txids : list string) : ClusterChunk :=
  let fee := sum_i64 (omap (λ txid, mb_fees block !! txid) txids) in
  let weight := sum_i64 (omap (λ txid, mb_weights block !! txid) txids) in
  mkClusterChunk txids (to_u64 fee) (to_u64 weight).

Record MinedTrim := mkMinedTrim {
  mt_cluster_id : Z;
  mt_mined : list ClusterChunk;
  mt_pending : list string;
}.

Definition trim_chunk (block : MinedBlock) (acc : list ClusterChunk * list string)
    (chunk : ClusterChunk) : list ClusterChunk * list string :=
  let '(mined, pending) := acc in
  let in_block := filter (λ txid, contains block txid = true) (chunk_txids chunk) in
  let left := filter (λ txid, contains block txid = false) (chunk_txids chunk) in
  let mined :=
    match left, in_block with
    | [], _ => mined ++ [chunk]
    | _, [] => mined
    | _, _ => mined ++ [split_chunk block in_block]
    end in
  (mined, pending ++ left).

Definition new_mined_trim (cluster : Cluster) (block : MinedBlock) : MinedTrim :=
  let '(mined, pending) := foldl (trim_chunk block) ([], []) (cl_chunks cluster) in
  mkMinedTrim (cl_id cluster) mined pending.

Definition as_update (trim : MinedTrim) : ClusterRepo.ClusterVersionUpdate :=
  ClusterRepo.mkClusterVersionUpdate (mt_cluster_id trim) (mt_mined trim).

Record MinedTxs := mkMinedTxs {
  mx_txids : list string;
  mx_fees : gmap string Z;
  mx_weights : gmap string Z;
  mx_confirmed_at : Z;
}.

Definition by_block_step (blocks : gmap (Z * string) MinedTxs) (row : Transaction * Z * Z) :
    gmap (Z * string) MinedTxs :=
  let '(tx, height, mined_at) := row in
  match tx_confirmed_at_block tx with
  | None => blocks
  | Some hash =>
      let block := default (mkMinedTxs [] ∅ ∅ mined_at) (blocks !! (height, hash)) in
      let fees := match tx_fee tx with
                  | Some fee => <[tx_txid tx := fee]> (mx_fees block)
                  | None => mx_fees block
                  end in
      <[(height, hash) := mkMinedTxs (mx_txids block ++ [tx_txid tx]) fees
                            (<[tx_txid tx := tx_weight tx]> (mx_weights block))
                            (mx_confirmed_at block)]> blocks
  end.

(** The order of [BTreeMap<(i64, String), _>]. *)
Definition block_key_le (a b : Z * string) : bool :=
  (a.1 <? b.1) || ((a.1 =? b.1) && String.leb a.2 b.2).
Definition block_entry_le (a b : (Z * string) * MinedTxs) : Prop := block_key_le a.1 b.1 = true.
#[global] Instance block_entry_le_dec : RelDecision block_entry_le.
Proof. intros a b. unfold block_entry_le. apply _. Defined.

Definition by_block (rows : list (Transaction * Z * Z)) : list MinedTxs :=
  snd <$> merge_sort block_entry_le (map_to_list (foldl by_block_step ∅ rows)).

Definition as_mined_block (m : MinedTxs) : MinedBlock :=
  new_mined_block (mx_txids m) (mx_fees m) (mx_weights m) (mx_confirmed_at m).

(** [iter().min_by_key(|c| c.first_seen_at)]: the first of the smallest. *)
Fixpoint min_first_seen (l : list Cluster) : option Cluster :=
  match l with
  | [] => None
  | c :: l =>
      match min_first_seen l with
      | None => Some c
      | Some best => if cl_first_seen_at best <? cl_first_seen_at c then Some best else Some c
      end
  end.

Record LoopState := mkLoopState {
  ls_changes : ClusterDeltaSet;
  ls_pending : list string;
  ls_out_of_mempool : gset string;
  ls_fresh : gmap string NewCluster;
}.

Section service.
Context `{EnumOrder, BitcoinUnits, Env}.
(** [ClusterRetriever::get_mempool_cluster], the node's answer to the [n]-th call. *)
Context (get_mempool_cluster : nat → string → result ObserverError GetMempoolClusterModel).

Definition merge (d other : ClusterDeltaSet) : ClusterDeltaSet :=
  let d := foldl (λ d kv, mkClusterDeltaSet (<[kv.1 := kv.2]> (cd_upserted d))
                            (cd_removed d ∖ {[kv.1]})) d (iter_map (cd_upserted other)) in
  mark_all_removed (iter_set (cd_removed other)) d.

Definition fetch (txid : string) : Svc (result ObserverError GetMempoolClusterModel) := λ w,
  (get_mempool_cluster (w_calls w) txid,
   mkWorld (w_conn w) (w_ledger w) (w_snapshot w) (w_bus w) (S (w_calls w)) (w_log w)).

Definition assert_absent (txids : list string) : Svc unit := λ w,
  ((), mkWorld (w_conn w) (Ledger.assert_absent (clock (w_calls w)) txids (w_ledger w))
         (w_snapshot w) (w_bus w) (S (w_calls w)) (w_log w)).
Definition assert_present (txids : list string) : Svc unit := λ w,
  ((), mkWorld (w_conn w) (Ledger.assert_present (clock (w_calls w)) txids (w_ledger w))
         (w_snapshot w) (w_bus w) (S (w_calls w)) (w_log w)).
Definition with_live {A} (f : gset string → A) : Svc A := λ w, (f (Ledger.live (w_ledger w)), w).
Definition now_utc : Svc Z := λ w,
  (clock (w_calls w) 0,
   mkWorld (w_conn w) (w_ledger w) (w_snapshot w) (w_bus w) (S (w_calls w)) (w_log w)).

(** [NewCluster { chunks, first_seen_at: now_utc() }] *)
Definition new_cluster (cluster : GetMempoolClusterModel) : Svc NewCluster :=
  now ← now_utc; mret (mkNewCluster (gmc_chunks cluster) now).

Definition publish_delta (changes : ClusterDeltaSet) : Svc unit := λ w,
  let '(event, m) := Snapshot.publish (snd <$> iter_map (cd_upserted changes))
                       (iter_set (cd_removed changes)) (w_snapshot w) in
  ((), mkWorld (w_conn w) (w_ledger w) m
         (match event with Some e => w_bus w ++ [OnClusterDelta e] | None => w_bus w end)
         (w_calls w) (w_log w)).

Definition seed (clusters : list Snapshot.ActiveCluster) : Svc unit := λ w,
  ((), mkWorld (w_conn w) (w_ledger w) (Snapshot.seed clusters) (w_bus w) (w_calls w) (w_log w)).

Definition seed_snapshot : Svc unit :=
  r ← call ClusterRepo.find_active;
  match r with
  | Ok rows => seed (active_cluster <$> rows)
  | Err _ => log SeedFailed
  end.

(** ** Upserting one group *)

Definition upsert (cluster : GetMempoolClusterModel) (existing_ids : list Z) :
    Svc UpsertOutcome :=
  let txids := gmc_txids cluster in
  match existing_ids with
  | [] =>
      new ← new_cluster cluster;
      r ← call (ClusterRepo.insert_with_members new);
      match r with
      | Ok row => mret (mkUpsertOutcome (mark_upserted row no_changes) [])
      | Err _ => _ ← log InsertFailed; mret (uo_untouched no_changes)
      end
  | _ =>
      r ← call (ClusterRepo.find_by_ids existing_ids);
      match r with
      | Err _ => _ ← log LoadFailed; mret (uo_untouched no_changes)
      | Ok existing =>
          match min_first_seen existing with
          | None => mret (uo_untouched no_changes)
          | Some keep =>
              let members := list_to_set txids : gset string in
              let detached := filter (λ txid, txid ∉ members) (existing ≫= cl_txids) in
              let keep_id := cl_id keep in
              let clusters_to_remove := filter (λ id, id ≠ keep_id) (cl_id <$> existing) in
              merged ← match clusters_to_remove with
                       | [] => mret (Some no_changes)
                       | _ =>
                           r ← call (ClusterRepo.mark_merged clusters_to_remove);
                           match r with
                           | Err _ => _ ← log MergeFailed; mret None
                           | Ok _ => mret (Some (mark_all_removed clusters_to_remove no_changes))
                           end
                       end;
              match merged with
              | None => mret (uo_untouched no_changes)
              | Some changes =>
                  r ← call (ClusterRepo.replace_chunks
                        (ClusterRepo.mkClusterVersionUpdate keep_id (gmc_chunks cluster)));
                  match r with
                  | Err _ => _ ← log UpdateFailed; mret (mkUpsertOutcome changes detached)
                  | Ok row => mret (mkUpsertOutcome (mark_upserted row changes) detached)
                  end
              end
          end
      end
  end.

(** ** The work queue *)

(** The part of a turn after the node answered with a group, whose first member is
    [first] and whose members are already covered. *)
Definition place_group (cluster : GetMempoolClusterModel) (first : string) (ls : LoopState) :
    Svc LoopState :=
  let '(mkLoopState changes pending out_of_mempool fresh) := ls in
  let txids := gmc_txids cluster in
  r ← call (ClusterRepo.find_active_ids_by_txids txids);
  match r with
  | Err _ => _ ← log LookupFailed; mret ls
  | Ok existing_ids =>
      if decide (existing_ids = [] ∧ length txids = 1%nat) then
        new ← new_cluster cluster;
        mret (mkLoopState changes pending out_of_mempool (<[first := new]> fresh))
      else
        let fresh := foldl (λ m txid, delete txid m) fresh txids in
        outcome ← upsert cluster existing_ids;
        mret (mkLoopState (merge changes (uo_changes outcome))
                (pending ++ filter (λ t, t ∉ out_of_mempool) (uo_detached outcome))
                out_of_mempool fresh)
  end.

(** One turn of the loop for the txid popped off [ls_pending]. *)
Definition candidate_step (txid : string) (ls : LoopState) : Svc LoopState :=
  let '(mkLoopState changes pending out_of_mempool fresh) := ls in
  if decide (txid ∈ out_of_mempool) then mret ls
  else
    r ← fetch txid;
    match r with
    | Err (TxNotFoundInMempool _) =>
        _ ← assert_absent [txid];
        mret (mkLoopState changes pending ({[txid]} ∪ out_of_mempool) fresh)
    | Err _ => _ ← log FetchFailed; mret ls
    | Ok cluster =>
        let txids := gmc_txids cluster in
        match txids with
        | [] =>
            _ ← assert_absent [txid];
            mret (mkLoopState changes pending ({[txid]} ∪ out_of_mempool) fresh)
        | first :: _ =>
            _ ← assert_present txids;
            place_group cluster first
              (mkLoopState changes pending (out_of_mempool ∪ list_to_set txids) fresh)
        end
    end.

Fixpoint candidates_loop (fuel : nat) (ls : LoopState) : Run LoopState :=
  match ls_pending ls with
  | [] => mret ls
  | txid :: pending =>
      match fuel with
      | O => λ _, None
      | S fuel =>
          ls ← lift (candidate_step txid (mkLoopState (ls_changes ls) pending
                       (ls_out_of_mempool ls) (ls_fresh ls)));
          candidates_loop fuel ls
      end
  end.

(** The batched insert of the singletons nobody else claimed. *)
Definition insert_fresh (ls : LoopState) : Svc ClusterDeltaSet :=
  if decide (ls_fresh ls = ∅) then mret (ls_changes ls)
  else
    let batch := snd <$> iter_map (ls_fresh ls) in
    r ← call (ClusterRepo.insert_many_with_members batch);
    match r with
    | Ok rows => mret (foldl (λ d row, mark_upserted row d) (ls_changes ls) rows)
    | Err _ => _ ← log (InsertManyFailed (length batch)); mret (ls_changes ls)
    end.

Definition handle_candidates_covering (fuel : nat) (candidate_txids : list string)
    (out_of_mempool : gset string) : Run ClusterDeltaSet :=
  ls ← candidates_loop fuel (mkLoopState no_changes candidate_txids out_of_mempool ∅);
  lift (insert_fresh ls).

Definition handle_candidates (fuel : nat) (candidate_txids : list string) : Run ClusterDeltaSet :=
  handle_candidates_covering fuel candidate_txids ∅.

(** ** Mined clusters *)

Definition find_active_clusters_containing (txids : list string) : Svc (list Cluster) :=
  r ← call (ClusterRepo.find_active_ids_by_txids txids);
  match r with
  | Err _ => _ ← log LookupFailed; mret []
  | Ok [] => mret []
  | Ok cluster_ids =>
      r ← call (ClusterRepo.find_by_ids cluster_ids);
      match r with
      | Ok rows => mret rows
      | Err _ => _ ← log LoadFailed; mret []
      end
  end.

Definition fully_mined (block : MinedBlock) (c : Cluster) : bool :=
  forallb (contains block) (cl_txids c).

(** Confirming the clusters the block mined whole. *)
Definition confirm_full (block : MinedBlock) (full : list Cluster) (changes : ClusterDeltaSet) :
    Svc ClusterDeltaSet :=
  match cl_id <$> full with
  | [] => mret changes
  | full_ids =>
      r ← call (ClusterRepo.confirm_many full_ids (mb_confirmed_at block));
      match r with
      | Ok _ => mret (mark_all_removed full_ids changes)
      | Err _ => _ ← log ConfirmFailed; mret changes
      end
  end.

(** Trimming and confirming the rest; [Some pending] are the members to place anew. *)
Definition confirm_partial (block : MinedBlock) (partial : list Cluster)
    (changes : ClusterDeltaSet) : Svc (ClusterDeltaSet * option (list string)) :=
  match partial with
  | [] => mret (changes, None)
  | _ =>
      let trims := (λ cluster, new_mined_trim cluster block) <$> partial in
      r ← call (ClusterRepo.trim_and_confirm_many (as_update <$> trims) (mb_confirmed_at block));
      match r with
      | Ok _ => mret (mark_all_removed (mt_cluster_id <$> trims) changes,
                      Some (trims ≫= mt_pending))
      | Err _ => _ ← log TrimFailed; mret (changes, None)
      end
  end.

Definition confirm_mined_inner (fuel : nat) (block : MinedBlock) : Run ClusterDeltaSet :=
  clusters ← lift (find_active_clusters_containing (mb_txids block));
  let full := filter (λ c, fully_mined block c = true) clusters in
  let partial := filter (λ c, fully_mined block c = false) clusters in
  changes ← lift (confirm_full block full no_changes);
  '(changes, pending) ← lift (confirm_partial block partial changes);
  match pending with
  | None => mret changes
  | Some pending =>
      sync_changes ← handle_candidates fuel pending;
      mret (merge changes sync_changes)
  end.

Definition confirm_mined (fuel : nat) (txids : list string) (fees weights : gmap string Z)
    (confirmed_at : Z) : Run unit :=
  changes ← confirm_mined_inner fuel (new_mined_block txids fees weights confirmed_at);
  lift (publish_delta changes).

Fixpoint confirm_blocks (fuel : nat) (blocks : list MinedTxs) (changes : ClusterDeltaSet) :
    Run ClusterDeltaSet :=
  match blocks with
  | [] => mret changes
  | block :: blocks =>
      more ← confirm_mined_inner fuel (as_mined_block block);
      confirm_blocks fuel blocks (merge changes more)
  end.

(** The mined transactions of the clusters the confirmed txids are still active in. *)
Definition mined_members (confirmed_txids : list string) :
    Svc (option (list (Transaction * Z * Z))) :=
  r ← call (ClusterRepo.find_active_ids_by_txids confirmed_txids);
  match r with
  | Err _ => _ ← log LookupFailed; mret None
  | Ok [] => mret None
  | Ok ids =>
      r ← call (ClusterRepo.find_by_ids ids);
      match r with
      | Err _ => _ ← log LoadFailed; mret None
      | Ok clusters =>
          r ← call (TxRepo.find_mined_by_txids (clusters ≫= cl_txids));
          match r with
          | Err _ => _ ← log LoadFailed; mret None
          | Ok rows => mret (Some rows)
          end
      end
  end.

Definition handle_confirmed (fuel : nat) (confirmed_txids : list string) : Run ClusterDeltaSet :=
  rows ← lift (mined_members confirmed_txids);
  match rows with
  | None => mret no_changes
  | Some rows => confirm_blocks fuel (by_block rows) no_changes
  end.

(** ** Evictions *)

Definition evicted_step (evicted live : gset string) (acc : list Z * list string)
    (cluster : Cluster) : list Z * list string :=
  let '(emptied, survivors) := acc in
  if decide (cl_status cluster ≠ Active) then acc
  else if decide (Exists (λ txid, txid ∈ evicted) (cl_txids cluster)) then
    match filter (λ txid, (txid ∉ evicted) ∧ txid ∈ live) (cl_txids cluster) with
    | [] => (emptied ++ [cl_id cluster], survivors)
    | remaining => (emptied, survivors ++ remaining)
    end
  else acc.

Definition load_evicted (evicted_txids : list string) : Svc (option (list Cluster)) :=
  r ← call (ClusterRepo.find_active_ids_by_txids evicted_txids);
  match r with
  | Err _ => _ ← log LookupFailed; mret None
  | Ok [] => mret None
  | Ok cluster_ids =>
      r ← call (ClusterRepo.find_by_ids cluster_ids);
      match r with
      | Err _ => _ ← log LoadFailed; mret None
      | Ok clusters => mret (Some clusters)
      end
  end.

Definition close_emptied (emptied : list Z) : Svc ClusterDeltaSet :=
  match emptied with
  | [] => mret no_changes
  | _ =>
      r ← call (ClusterRepo.mark_evicted emptied);
      match r with
      | Ok _ => mret (mark_all_removed emptied no_changes)
      | Err _ => _ ← log EvictFailed; mret no_changes
      end
  end.

Definition handle_evicted (fuel : nat) (evicted_txids : list string) : Run ClusterDeltaSet :=
  match evicted_txids with
  | [] => mret no_changes
  | _ =>
      clusters ← lift (load_evicted evicted_txids);
      match clusters with
      | None => mret no_changes
      | Some clusters =>
          let evicted := list_to_set evicted_txids : gset string in
          '(emptied, survivors) ← lift (with_live (λ live,
             foldl (evicted_step evicted live) ([], []) clusters));
          changes ← lift (close_emptied emptied);
          match survivors with
          | [] => mret changes
          | _ =>
              more ← handle_candidates_covering fuel survivors evicted;
              mret (merge changes more)
          end
      end
  end.

(** ** One resync round *)

Definition when_nonempty (txids : list string) (changes : ClusterDeltaSet)
    (stage : list string → Run ClusterDeltaSet) : Run ClusterDeltaSet :=
  match txids with
  | [] => mret changes
  | _ => more ← stage txids; mret (merge changes more)
  end.

Definition sync_clusters (fuel : nat) (candidate_txids confirmed_txids evicted_txids : list string) :
    Run unit :=
  changes ← when_nonempty confirmed_txids no_changes (handle_confirmed fuel);
  changes ← when_nonempty evicted_txids changes (handle_evicted fuel);
  changes ← when_nonempty candidate_txids changes (handle_candidates fuel);
  if is_empty changes then mret () else lift (publish_delta changes).

Definition sync_clusters_for (fuel : nat) (candidate_txids evicted_txids : list string) : Run unit :=
  sync_clusters fuel candidate_txids [] evicted_txids.

Definition sync_clusters_after_flush (fuel : nat) (added_txids : list string)
    (outcome : MempoolRepo.FlushOutcome) : Run unit :=
  sync_clusters fuel added_txids (MempoolRepo.fo_confirmed outcome)
    (MempoolRepo.fo_evicted outcome).
End service.

End ClusterService.
