(* ===== verification/ClusterActive.v ===== *)
(** * The active clusters as a map

    The abstract view of the cluster tables: a map from the id of each active cluster
    to its chunks and totals, the same data the in-memory snapshot keeps.  Every
    repository call is an update of this map ([inserted_active], [replaced_active], ...);
    the cluster service is verified against these updates. *)

From S2P Require Import Prelude.
From S2P Require Import Models.
From S2P Require Import Database.
From S2P Require Import ClusterRepo.
From S2P Require Import ClusterRepoFacts.
From S2P Require Import ClusterWrites.
From S2P Require Import ClusterInv.
From S2P Require Import ClusterHistory.
From S2P Require Import ClusterThms.
From S2P Require Import ClusterSnapshot.
From S2P Require Import ClusterService.

Open Scope Z_scope.

Module ClusterActive.
Import Database ClusterRepo ClusterRepoFacts ClusterWrites ClusterInv ClusterHistory ClusterThms.
Import ClusterService.

Definition cluster_state (c : Cluster) : Snapshot.ClusterState :=
  Snapshot.state (active_cluster c).

Definition state_of (db : Db) (id : Z) (row : ClusterRow) : Snapshot.ClusterState :=
  cluster_state (from_row row (version_chunks db id (clr_version row))).

Definition actives (db : Db) : gmap Z Snapshot.ClusterState :=
  map_imap (λ id row, if decide (clr_status row = Active) then Some (state_of db id row) else None)
           (db_clusters db).

Lemma lookup_actives db id :
  actives db !! id =
    row ← db_clusters db !! id;
    if decide (clr_status row = Active) then Some (state_of db id row) else None.
Proof. unfold actives. by rw map_lookup_imap. Qed.

Lemma lookup_actives_Some db id s :
  actives db !! id = Some s ↔
  ∃ row, db_clusters db !! id = Some row ∧ clr_status row = Active ∧ s = state_of db id row.
Proof.
  rw lookup_actives. destruct (db_clusters db !! id) as [row|]; simpl; [|naive_solver].
  case_guards; naive_solver.
Qed.

(** Members of an active cluster, in both views. *)
Lemma active_member_state db id t :
  active_member db id t ↔ ∃ s, actives db !! id = Some s ∧ t ∈ Snapshot.cs_txids s.
Proof.
  setoid_rewrite lookup_actives_Some. unfold active_member. split.
  - intros (row & Hr & Ha & Hm). eexists. split; [by eauto|].
    by apply elem_of_version_chunks.
  - intros (s & (row & Hr & Ha & ->) & Ht). exists row. split; [done|]. split; [done|].
    by apply elem_of_version_chunks.
Qed.

(** No transaction is in two clusters. *)
Definition disjoint_clusters (m : gmap Z Snapshot.ClusterState) : Prop :=
  ∀ id1 id2 s1 s2 t, m !! id1 = Some s1 → m !! id2 = Some s2 →
    t ∈ Snapshot.cs_txids s1 → t ∈ Snapshot.cs_txids s2 → id1 = id2.

(** [t] is in no cluster of [m]. *)
Definition unclustered (m : gmap Z Snapshot.ClusterState) (t : string) : Prop :=
  ∀ id s, m !! id = Some s → t ∉ Snapshot.cs_txids s.

Lemma disjoint_empty : disjoint_clusters ∅.
Proof. intros id1 id2 s1 s2 t H1. by rw lookup_empty in H1. Qed.

Lemma disjoint_subseteq m m' : m' ⊆ m → disjoint_clusters m → disjoint_clusters m'.
Proof.
  intros Hsub Hd id1 id2 s1 s2 t H1 H2. eapply Hd; by eapply lookup_weaken.
Qed.

Lemma unclustered_subseteq m m' t : m' ⊆ m → unclustered m t → unclustered m' t.
Proof. intros Hsub Hu id s Hs. eapply Hu. by eapply lookup_weaken. Qed.

(** A cluster whose members are in no other cluster may be put in. *)
Lemma disjoint_insert m id s :
  disjoint_clusters m →
  (∀ t id' s', t ∈ Snapshot.cs_txids s → m !! id' = Some s' → t ∈ Snapshot.cs_txids s' → id' = id) →
  disjoint_clusters (<[id := s]> m).
Proof.
  intros Hd Hs id1 id2 s1 s2 t.
  intros [[<- <-]|[Hn1 H1]]%lookup_insert_Some [[<- <-]|[Hn2 H2]]%lookup_insert_Some Ht1 Ht2.
  - done.
  - symmetry. by eapply Hs.
  - by eapply Hs.
  - by eapply (Hd id1 id2 s1 s2).
Qed.

Lemma unclustered_insert m id s t :
  unclustered m t → t ∉ Snapshot.cs_txids s → unclustered (<[id := s]> m) t.
Proof. intros Hu Hs id' s' [[_ <-]|[_ ?]]%lookup_insert_Some; [done|by eapply Hu]. Qed.

(** ** Updates of the map *)

Lemma actives_untouched db db' : untouched db db' → actives db' = actives db.
Proof. by intros (n & _ & ->). Qed.

Lemma actives_ext db db' :
  (∀ id, actives db' !! id = actives db !! id) → actives db' = actives db.
Proof. intros. by apply map_eq. Qed.

Lemma replaced_active update old db db' :
  cluster_inv db → replaced update true old db db' → update_ok update →
  actives db' = <[cvu_cluster_id update :=
    cluster_state (from_row (set_row_version (clr_version old + 1) (totals (cvu_chunks update)) old)
                     (cvu_chunks update))]> (actives db).
Proof.
  intros [Hok _] Hrp [Hlen Hch]. apply map_eq. intros id.
  destruct (decide (id = cvu_cluster_id update)) as [->|Hne].
  - rw lookup_insert_eq lookup_actives (replaced_new_row _ _ _ _ _ Hrp) /=.
    rw decide_True; [|by rw (rp_active _ _ _ _ _ Hrp)]. f_equal. unfold state_of. simpl.
    by rw (replaced_version_chunks _ _ _ _ _ _ Hok Hrp).
  - rw lookup_insert_ne // !lookup_actives (rp_clusters _ _ _ _ _ Hrp) lookup_insert_ne //.
    destruct (db_clusters db !! id) as [row|]; [|done]. simpl. unfold state_of.
    rw (version_chunks_ext db); [done|]. intros p. by apply (replaced_chunk_other _ _ _ _ _ Hrp).
Qed.

(** The map without [ids]. *)
Definition without (ids : list Z) (m : gmap Z Snapshot.ClusterState) :
    gmap Z Snapshot.ClusterState :=
  filter (λ kv, kv.1 ∉ ids) m.

Lemma lookup_without ids m id : without ids m !! id = if decide (id ∈ ids) then None else m !! id.
Proof.
  unfold without. case_guards.
  - apply map_lookup_filter_None. right. intros x _. simpl. tauto.
  - destruct (m !! id) as [s|] eqn:E.
    + by apply map_lookup_filter_Some.
    + apply map_lookup_filter_None. by left.
Qed.

Lemma without_subseteq ids m : without ids m ⊆ m.
Proof. apply map_filter_subseteq. Qed.

Lemma closed_active ids status at_ t0 t1 db :
  status ≠ Active →
  actives (closed (active_among ids db) status at_ t0 t1 db) = without ids (actives db).
Proof.
  intros Hst. apply map_eq. intros id. rw lookup_without !lookup_actives.
  simpl. rw lookup_update_where. destruct (db_clusters db !! id) as [row|] eqn:E;
    [|by simpl; case_guards]. simpl.
  destruct (bool_decide_reflect (id ∈ active_among ids db)) as [Hin|Hout].
  - apply elem_of_active_among in Hin as [Hin _]. simpl.
    rw (decide_False (P := status = Active)) //. by rw decide_True.
  - destruct (decide (clr_status row = Active)) as [Ha|Ha]; [|by case_guards].
    rw decide_False.
    + unfold state_of. by rw closed_version_chunks.
    + intros Hin. apply Hout, elem_of_active_among. eauto.
Qed.

Lemma detached_active ids t db : actives (detach_clusters ids t db) = actives db.
Proof. done. Qed.

(** Closing what is not there. *)
Lemma without_inactive ids db : active_among ids db = [] → without ids (actives db) = actives db.
Proof.
  intros Hnil. apply map_eq. intros id. rw lookup_without. case_guards; [|done].
  destruct (actives db !! id) as [s|] eqn:Es; [|done].
  apply lookup_actives_Some in Es as (row & Hr & Ha & _).
  assert (id ∈ active_among ids db) as Hin by (apply elem_of_active_among; eauto).
  rw Hnil in Hin. by apply not_elem_of_nil in Hin.
Qed.

Lemma trimmed_active_map updates at_ n db db' :
  trim_confirmed updates at_ n db db' →
  actives db' = without (cvu_cluster_id <$> updates) (actives db).
Proof.
  intros (_ & Hact & Hrest & Hv & Hex & Hdom). apply map_eq. intros id.
  rw lookup_without !lookup_actives.
  destruct (decide (id ∈ cvu_cluster_id <$> updates)) as [Hin|Hout].
  - apply list_elem_of_fmap in Hin as (u & -> & Hu). destruct (Hex u Hu) as [old Ho].
    destruct (decide (clr_status old = Active)) as [Ha|Ha].
    + destruct (Hact u old Hu Ho Ha) as (row & -> & Hs & _). simpl.
      rw decide_False //. by rw Hs.
    + rw (Hrest _ old Ho (or_intror Ha)). simpl. by rw decide_False.
  - destruct (db_clusters db !! id) as [row|] eqn:E.
    + rw (Hrest id row E (or_introl Hout)). simpl. unfold state_of. by rw Hv.
    + destruct (db_clusters db' !! id) as [row|] eqn:E'; [|done].
      apply elem_of_dom_2 in E'. rw Hdom in E'. by apply not_elem_of_dom in E.
Qed.

(** ** Inserting *)

Definition new_ok (c : NewCluster) : Prop :=
  (length (nc_chunks c) ≤ MAX_CHUNKS)%nat ∧ Forall chunk_ok (nc_chunks c).

(** The rows [cls], as returned by an insert, laid over [m]. *)
Definition with_rows (cls : list Cluster) (m : gmap Z Snapshot.ClusterState) :
    gmap Z Snapshot.ClusterState :=
  list_to_map ((λ c, (cl_id c, cluster_state c)) <$> cls) ∪ m.

Definition inserted_clusters (db : Db) (new : list NewCluster) : list Cluster :=
  zip_with (λ id c, from_row (new_cluster_row id c) (nc_chunks c)) (new_ids db (length new)) new.

Lemma inserted_clusters_ids db new :
  cl_id <$> inserted_clusters db new = new_ids db (length new).
Proof.
  unfold inserted_clusters. apply list_eq. intros i. rw list_lookup_fmap lookup_zip_with.
  destruct (new_ids db (length new) !! i) as [id|] eqn:E; [|done]. simpl.
  apply lookup_lt_Some in E as Hl. rw new_ids_length in Hl.
  by destruct (lookup_lt_is_Some_2 new i Hl) as [c ->].
Qed.

Lemma elem_of_inserted_clusters db new cl :
  cl ∈ inserted_clusters db new ↔
  ∃ id c, (id, c) ∈ zip (new_ids db (length new)) new ∧
          cl = from_row (new_cluster_row id c) (nc_chunks c).
Proof.
  unfold inserted_clusters. split.
  - intros [i Hi]%list_elem_of_lookup.
    apply lookup_zip_with_Some in Hi as (id & c & -> & H1 & H2). exists id, c. split; [|done].
    apply (list_elem_of_lookup_2 _ i), lookup_zip_with_Some. eauto.
  - intros (id & c & [i Hi]%list_elem_of_lookup & ->).
    apply lookup_zip_with_Some in Hi as (? & ? & [= <- <-] & H1 & H2).
    apply (list_elem_of_lookup_2 _ i), lookup_zip_with_Some. eauto.
Qed.

Lemma inserted_version_chunks new db db' id c :
  rows_ok [] db → inserted new db db' → (id, c) ∈ zip (new_ids db (length new)) new → new_ok c →
  version_chunks db' id 1 = nc_chunks c.
Proof.
  intros Hok Hins Hz [Hlen Hch].
  destruct (inserted_version_rows new db db' Hins Hok id c Hz) as [now Hp].
  by eapply version_chunks_of_rows.
Qed.

Lemma inserted_active new db db' cls :
  cluster_inv db → inserted new db db' → Forall new_ok new → cls ≡ₚ inserted_clusters db new →
  actives db' = with_rows cls (actives db).
Proof.
  intros [Hok _] Hins Hnew Hp. apply map_eq. intros id. unfold with_rows.
  assert (NoDup (cl_id <$> cls)) as Hnd by (rw Hp inserted_clusters_ids; apply new_ids_NoDup).
  destruct (decide (id ∈ cl_id <$> cls)) as [Hin|Hout].
  - apply list_elem_of_fmap in Hin as (cl & -> & Hcl).
    rw (lookup_union_Some_l _ _ _ (cluster_state cl)).
    + rw Hp elem_of_inserted_clusters in Hcl. destruct Hcl as (i & c & Hz & ->).
      rw lookup_actives. simpl. rw (inserted_row_new new db db' Hins i c Hz) /=. f_equal.
      unfold state_of. simpl. rw (inserted_version_chunks new db db' i c) //.
      rw Forall_forall in Hnew. apply Hnew. by eapply elem_of_zip_r.
    + apply elem_of_list_to_map_1; [by rw -list_fmap_compose|].
      apply list_elem_of_fmap. eauto.
  - rw lookup_union_r.
    + rw !lookup_actives. rw Hp inserted_clusters_ids in Hout.
      assert (db_clusters db' !! id = db_clusters db !! id) as ->.
      { destruct (db_clusters db !! id) as [row|] eqn:E.
        - by eapply inserted_row_old.
        - destruct (db_clusters db' !! id) as [row|] eqn:E'; [|done].
          apply (in_clusters _ _ _ Hins) in E' as [?|(c & Hz & _)]; [congruence|].
          apply elem_of_zip_l in Hz. done. }
      destruct (db_clusters db !! id) as [row|] eqn:E; [|done]. simpl. unfold state_of.
      rw (version_chunks_ext db); [done|]. intros p.
      destruct (db_chunks db !! (id, clr_version row, p)) as [r|] eqn:Ec;
        [by eapply inserted_chunk_old|].
      destruct (db_chunks db' !! (id, clr_version row, p)) as [r|] eqn:Ec'; [|done].
      apply (inserted_chunk_inv new db db' Hins Hok) in Ec'
        as [[? _]|(i & c & ? & ? & ? & Hz & _ & Hk & _)]; [congruence|]. simplify_eq.
      apply elem_of_zip_l in Hz. done.
    + apply not_elem_of_list_to_map_1. by rw -list_fmap_compose.
Qed.

(** ** The repository calls as updates of the map *)

Section calls.
Context `{EnumOrder, Env}.

(** A call whose failure leaves the map alone. *)
Definition updates {A} (db : Db) (m : RepoM A) (Q : A → Db → Prop) : Prop :=
  repo_triple (λ d, d = db) m (λ a db', cluster_inv db' ∧ Q a db')
    (λ db', cluster_inv db' ∧ actives db' = actives db).

Lemma updates_intro {A} db (m : RepoM A) Q0 Q :
  cluster_inv db → repo_triple (λ d, d = db) m Q0 (untouched db) →
  (∀ a db', Q0 a db' → cluster_inv db' ∧ Q a db') → updates db m Q.
Proof.
  intros Hi Hm HQ c Hc. specialize (Hm c Hc). destruct (m c) as [[a|e] c']; [by apply HQ|].
  split; [by eapply cluster_inv_untouched|by apply actives_untouched].
Qed.

Lemma reads_intro {A} db (m : RepoM A) (Q : A → Prop) :
  cluster_inv db → repo_triple (λ d, d = db) m (λ a d, d = db ∧ Q a) (λ d, d = db) →
  updates db m (λ a db', db' = db ∧ Q a).
Proof.
  intros Hi Hm c Hc. specialize (Hm c Hc).
  destruct (m c) as [[a|e] c']; [destruct Hm as [-> ?]; by split|by rw Hm].
Qed.

Lemma find_active_ids_updates db txids :
  cluster_inv db →
  updates db (find_active_ids_by_txids txids) (λ ids db', db' = db ∧
    ∀ id, id ∈ ids ↔ ∃ t s, t ∈ txids ∧ actives db !! id = Some s ∧ t ∈ Snapshot.cs_txids s).
Proof.
  intros Hi. apply reads_intro; [done|].
  assert (∀ id, (∃ t, t ∈ txids ∧ active_member db id t) ↔
    ∃ t s, t ∈ txids ∧ actives db !! id = Some s ∧ t ∈ Snapshot.cs_txids s) as Heq
    by (intros id; setoid_rewrite active_member_state; naive_solver).
  unfold find_active_ids_by_txids. destruct txids as [|t0 ts] eqn:Et.
  { intros c Hc. split; [done|]. intros id. split; [by intros ?%not_elem_of_nil|].
    by intros (? & ? & ?%not_elem_of_nil & _). }
  rw -Et in Heq |- *. apply repo_triple_query; [done|].
  case_guards; apply triple_select; [done| |done|]; intros ? ->; (split; [done|]); intros id;
    rw -Heq; [by apply elem_of_live_ids, Hi|apply elem_of_join_ids].
Qed.

Lemma find_by_ids_updates db ids :
  cluster_inv db →
  updates db (find_by_ids ids) (λ cls db', db' = db ∧ cls = load_clusters (ByIds ids) db).
Proof.
  intros Hi. apply reads_intro; [done|]. apply repo_triple_query; [done|].
  apply triple_select; [done|]. by intros ? ->.
Qed.

Lemma find_active_updates db :
  cluster_inv db →
  updates db find_active (λ cls db', db' = db ∧ cls = load_clusters ByActive db).
Proof.
  intros Hi. apply reads_intro; [done|]. apply repo_triple_query; [done|].
  apply triple_select; [done|]. by intros ? ->.
Qed.

(** An active cluster as [find_by_ids] loads it. *)
Lemma loaded_active db ids cl :
  cluster_inv db → cl ∈ load_clusters (ByIds ids) db → cl_status cl = Active →
  cl_id cl ∈ ids ∧ actives db !! cl_id cl = Some (cluster_state cl).
Proof.
  intros [Hok _] Hin Ha. apply elem_of_load_clusters in Hin as (row & Hr & Hm & Hc);
    [|intros; by eapply rows_ok_key].
  split; [done|]. apply lookup_actives_Some. exists row. split; [done|].
  assert (clr_status row = Active) as Hs by (by rw Hc in Ha). split; [done|].
  unfold state_of. by rw -Hc.
Qed.

Lemma loaded_of_active db ids id s :
  cluster_inv db → id ∈ ids → actives db !! id = Some s →
  ∃ cl, cl ∈ load_clusters (ByIds ids) db ∧ cl_id cl = id ∧ cl_status cl = Active ∧
        s = cluster_state cl.
Proof.
  intros [Hok _] Hin (row & Hr & Ha & ->)%lookup_actives_Some.
  pose proof (rows_ok_key _ _ _ _ Hok Hr) as Hk.
  exists (from_row row (version_chunks db id (clr_version row))). split_and!; [|done|done|done].
  apply elem_of_load_clusters; [intros; by eapply rows_ok_key|]. exists row. simpl.
  by rw Hk.
Qed.

Lemma insert_with_members_updates db new :
  cluster_inv db → new_ok new →
  updates db (insert_with_members new) (λ cl db',
    db_clusters db !! cl_id cl = None ∧ cl_status cl = Active ∧ cl_chunks cl = nc_chunks new ∧
    actives db' = <[cl_id cl := cluster_state cl]> (actives db)).
Proof.
  intros Hi Hn. eapply updates_intro; [done|apply insert_with_members_spec|].
  { by eapply rows_ok_owned, Hi. }
  intros cl db' [Hins ->]. split; [by apply (advanced_inserted _ _ _ Hi Hins)|].
  assert (inserted_clusters db [new] =
    [from_row (new_cluster_row (db_cluster_seq db + 1) new) (nc_chunks new)]) as Hc.
  { unfold inserted_clusters. simpl. by rw Z.add_0_r. }
  split_and!; [|done|done|].
  - simpl. apply (in_fresh _ _ _ Hins). unfold new_ids. simpl. rw Z.add_0_r. left.
  - rw (inserted_active _ _ _ _ Hi Hins (proj2 (Forall_singleton _ _) Hn) (reflexive_eq _ _ (eq_sym Hc))).
    unfold with_rows. simpl. by rw insert_empty -insert_union_singleton_l.
Qed.

Lemma replace_chunks_updates db update :
  cluster_inv db → update_ok update → is_Some (actives db !! cvu_cluster_id update) →
  updates db (replace_chunks update) (λ cl db',
    cl_id cl = cvu_cluster_id update ∧ cl_status cl = Active ∧
    cl_chunks cl = cvu_chunks update ∧
    actives db' = <[cl_id cl := cluster_state cl]> (actives db)).
Proof.
  intros Hi Hu [s Hs]. eapply updates_intro; [done|apply replace_chunks_spec|].
  intros cl db' (old & Hold & Hcase). simpl in Hcase.
  apply lookup_actives_Some in Hs as Ha. destruct Ha as (row & Hr & Ha & ->).
  assert (row = old) as -> by congruence. pose proof Hi as [Hok _].
  pose proof (rows_ok_key _ _ _ _ Hok Hold) as Hk.
  destruct Hcase as [([?|Hsame] & -> & ->)|(_ & Hrp & ->)]; [done|..].
  - split; [done|]. simpl. split_and!; [done..|]. rw Hk. symmetry. apply insert_id.
    exact Hs.
  - split; [by apply (advanced_replaced _ _ _ _ Hi Hrp)|]. simpl. split_and!; [done..|].
    rw Hk. by apply replaced_active.
Qed.

Lemma close_many_updates db ids closing :
  cluster_inv db →
  updates db (close_many ids closing) (λ _ db', actives db' = without ids (actives db)).
Proof.
  intros Hi. eapply updates_intro; [done|apply close_many_runs|].
  intros n db' [Hn Hcase]. split.
  - destruct Hcase as [[_ ->]|(t0 & t1 & t2 & ->)]; [done|].
    by apply closed_detached_inv.
  - destruct Hcase as [[-> ->]|(t0 & t1 & t2 & ->)].
    + symmetry. apply without_inactive. by apply nil_length_inv.
    + rw detached_active closed_active //. by destruct closing.
Qed.

Lemma confirm_many_updates db ids at_ :
  cluster_inv db →
  updates db (confirm_many ids at_) (λ _ db', actives db' = without ids (actives db)).
Proof.
  intros Hi. eapply updates_intro; [done|apply confirm_many_spec|].
  intros n db' [Hn Hcase]. split.
  - destruct Hcase as [[_ ->]|(t0 & t1 & ->)]; [done|]. destruct Hi as [Hok Hl]. split.
    + eapply closed_rows_ok; [done|set_solver|done|done].
    + by apply confirmed_links_ok.
  - destruct Hcase as [[-> ->]|(t0 & t1 & ->)].
    + symmetry. apply without_inactive. by apply nil_length_inv.
    + by apply closed_active.
Qed.

Lemma trim_and_confirm_updates db us at_ :
  cluster_inv db → NoDup (cvu_cluster_id <$> us) → Forall update_ok us →
  updates db (trim_and_confirm_many us at_)
    (λ _ db', actives db' = without (cvu_cluster_id <$> us) (actives db)).
Proof.
  intros Hi Hnd Hok c Hc.
  pose proof (trim_and_confirm_runs db us at_ Hi Hnd Hok c Hc) as H1.
  pose proof (trim_and_confirm_advances db us at_ Hi c Hc) as H2.
  destruct (trim_and_confirm_many us at_ c) as [[n|e] c'].
  - split; [apply H2|]. by apply (trimmed_active_map us at_ n), H1.
  - split; [by eapply cluster_inv_untouched|by apply actives_untouched].
Qed.

(** [rows] are new active clusters of [db']. *)
Record added (rows : list Cluster) (db db' : Db) : Prop := {
  ad_active : actives db' = with_rows rows (actives db);
  ad_nodup : NoDup (cl_id <$> rows);
  ad_status : Forall (λ c, cl_status c = Active) rows;
  ad_fresh : ∀ id, id ∈ cl_id <$> rows → db_clusters db !! id = None;
  ad_dom : ∀ id, is_Some (db_clusters db' !! id) ↔
    is_Some (db_clusters db !! id) ∨ id ∈ cl_id <$> rows;
}.

Lemma added_nil db db' :
  actives db' = actives db → db_clusters db' = db_clusters db → added [] db db'.
Proof.
  intros Ha Hc. constructor; [|constructor|constructor|by intros ? ?%not_elem_of_nil|].
  - unfold with_rows. simpl. by rw left_id_L.
  - intros id. rw Hc. split; [by left|]. intros [?|?%not_elem_of_nil]; done.
Qed.

Lemma added_app r1 r2 db db1 db2 :
  added r1 db db1 → added r2 db1 db2 → added (r1 ++ r2) db db2.
Proof.
  intros H1 H2.
  assert (∀ id, id ∈ cl_id <$> r1 → id ∉ cl_id <$> r2) as Hdis.
  { intros id Hi1 Hi2. apply (ad_fresh _ _ _ H2) in Hi2.
    assert (is_Some (db_clusters db1 !! id)) as [? ?]
      by (apply (ad_dom _ _ _ H1); by right). congruence. }
  constructor.
  - rw (ad_active _ _ _ H2) (ad_active _ _ _ H1). unfold with_rows. rw assoc_L.
    f_equal. rw fmap_app list_to_map_app. apply map_union_comm, map_disjoint_list_to_map_l.
    apply Forall_forall. intros [id s] Hin. simpl.
    apply not_elem_of_list_to_map_1. rw -list_fmap_compose. intros Hi1.
    apply (Hdis id Hi1). apply list_elem_of_fmap in Hin as (c & [= -> ->] & Hc).
    apply list_elem_of_fmap. eauto.
  - rw fmap_app. apply NoDup_app. split; [apply H1|]. split; [done|apply H2].
  - apply Forall_app. split; [apply H1|apply H2].
  - intros id. rw fmap_app elem_of_app. intros [?|Hi2]; [by apply H1|].
    destruct (db_clusters db !! id) eqn:E; [|done]. apply (ad_fresh _ _ _ H2) in Hi2.
    assert (is_Some (db_clusters db1 !! id)) as [? ?]
      by (apply (ad_dom _ _ _ H1); left; by eauto). congruence.
  - intros id. rw (ad_dom _ _ _ H2) (ad_dom _ _ _ H1) fmap_app elem_of_app. tauto.
Qed.

Lemma inserted_added new db db' cls :
  cluster_inv db → inserted new db db' → Forall new_ok new → cls ≡ₚ inserted_clusters db new →
  added cls db db'.
Proof.
  intros Hi Hins Hn Hp. constructor.
  - by eapply inserted_active.
  - rw Hp inserted_clusters_ids. apply new_ids_NoDup.
  - rw Hp. apply Forall_forall. by intros cl (id & c & _ & ->)%elem_of_inserted_clusters.
  - intros id. rw Hp inserted_clusters_ids. apply (in_fresh _ _ _ Hins).
  - intros id. rw Hp inserted_clusters_ids. split.
    + intros [row [?|(c & Hz & _)]%(in_clusters _ _ _ Hins)]; [by eauto|].
      right. by eapply elem_of_zip_l.
    + intros [[row Hr]|Hin]; [exists row; by eapply inserted_row_old|].
      rw -inserted_clusters_ids in Hin. apply list_elem_of_fmap in Hin as (cl & -> & Hcl).
      apply elem_of_inserted_clusters in Hcl as (i & c & Hz & ->). eexists.
      by eapply inserted_row_new.
Qed.

Lemma inserted_clusters_chunks db new :
  cl_chunks <$> inserted_clusters db new = nc_chunks <$> new.
Proof.
  unfold inserted_clusters. apply list_eq. intros i. rw !list_lookup_fmap lookup_zip_with.
  destruct (new !! i) as [c|] eqn:E; [|by destruct (new_ids db (length new) !! i)].
  apply lookup_lt_Some in E as Hl. rw -(new_ids_length db (length new)) in Hl.
  by destruct (lookup_lt_is_Some_2 _ i Hl) as [id ->].
Qed.

(** The batches before [rest] were committed, the others were not. *)
Definition committed (batches : list (list NewCluster)) (db db' : Db) : Prop :=
  ∃ done batch rest rows, batches = done ++ batch :: rest ∧ added rows db db' ∧
    cl_chunks <$> rows ≡ₚ nc_chunks <$> concat done.

Lemma committed_none batch batches db db' : added [] db db' → committed (batch :: batches) db db'.
Proof. intros Ha. by exists [], batch, batches, []. Qed.

(** Batches commit one by one: a failure leaves the earlier ones in place. *)
Lemma insert_batches_added batches db :
  cluster_inv db → Forall (Forall new_ok) batches →
  triple (λ d, d = db) (insert_batches batches)
    (λ rows db', cluster_inv db' ∧ added rows db db' ∧
       cl_chunks <$> rows ≡ₚ nc_chunks <$> concat batches)
    (λ db', cluster_inv db' ∧ committed batches db db').
Proof.
  revert db. induction batches as [|b bs IH]; intros db Hi Hn; simpl.
  { apply triple_ret. intros ? ->. split; [done|]. split; [by apply added_nil|done]. }
  apply Forall_cons in Hn as [Hb Hbs].
  eapply triple_bind.
  - eapply (triple_conseq _ _ _ _ (λ cls db1, cluster_inv db1 ∧ added cls db db1 ∧
      cl_chunks <$> cls ≡ₚ nc_chunks <$> b)).
    + apply runs_transaction; [apply insert_in_runs; [lia|by eapply rows_ok_owned, Hi]|].
      intros cls db' [Hins _]. rw (in_seq _ _ _ Hins). lia.
    + done.
    + intros cls db' [Hins Hp]. split; [by apply (advanced_inserted _ _ _ Hi Hins)|].
      split; [by eapply inserted_added|]. by rw Hp inserted_clusters_chunks.
    + intros db' Hu. split; [by eapply cluster_inv_untouched|]. apply committed_none, added_nil.
      * by apply actives_untouched.
      * by destruct Hu as (n & _ & ->).
  - intros cls c (Hi1 & Had & Hch).
    specialize (IH (conn_db c) Hi1 Hbs c eq_refl). unfold mbind, DbM_bind.
    rw fmap_app. destruct (insert_batches bs c) as [[rest|e] c'].
    + destruct IH as (Hi2 & Had2 & Hch2). simpl. split; [done|].
      split; [by eapply added_app|]. by rw fmap_app Hch Hch2.
    + destruct IH as (Hi2 & done & batch & rest & rows & -> & Had2 & Hch2). split; [done|].
      exists (b :: done), batch, rest, (cls ++ rows). split; [done|].
      split; [by eapply added_app|]. by rw /= !fmap_app Hch Hch2.
Qed.

Lemma insert_many_updates db new :
  cluster_inv db → Forall new_ok new →
  repo_triple (λ d, d = db) (insert_many_with_members new)
    (λ rows db', cluster_inv db' ∧ added rows db db' ∧
       cl_chunks <$> rows ≡ₚ nc_chunks <$> new)
    (λ db', cluster_inv db' ∧ committed (slice_chunks MEMPOOL_DELTA_INSERT_CHUNK_SIZE new) db db').
Proof.
  intros Hi Hn. destruct new as [|n0 ns] eqn:En.
  { intros c Hc. simpl. rw Hc. split; [done|]. split; [by apply added_nil|done]. }
  rw -En in Hn |- *. unfold insert_many_with_members. rw {1}En.
  assert (concat (slice_chunks MEMPOOL_DELTA_INSERT_CHUNK_SIZE new) = new) as Hcat
    by (apply concat_slice_chunks; unfold MEMPOOL_DELTA_INSERT_CHUNK_SIZE; lia).
  apply repo_triple_query.
  - intros ? ->. split; [done|]. destruct (slice_chunks _ new) as [|b bs]; [by subst new|].
    by apply committed_none, added_nil.
  - pose proof (insert_batches_added
      (slice_chunks MEMPOOL_DELTA_INSERT_CHUNK_SIZE new) db Hi) as Hb.
    rw Hcat in Hb. apply Hb. apply Forall_forall. intros b Hbin. apply Forall_forall.
    intros c Hc. rw Forall_forall in Hn. apply Hn. rw -Hcat.
    clear -Hbin Hc. induction (slice_chunks _ _) as [|x l IH]; [by apply not_elem_of_nil in Hbin|].
    simpl. apply elem_of_app. apply elem_of_cons in Hbin as [->|?]; auto.
Qed.

(** What was committed is part of what was to be inserted; of a single batch it is nothing. *)
Lemma committed_part new db db' :
  committed (slice_chunks MEMPOOL_DELTA_INSERT_CHUNK_SIZE new) db db' →
  ∃ rows, added rows db db' ∧ cl_chunks <$> rows ⊆+ nc_chunks <$> new ∧
    (length new ≤ MEMPOOL_DELTA_INSERT_CHUNK_SIZE → rows = [])%nat.
Proof.
  intros (done & batch & rest & rows & Hsl & Ha & Hp). exists rows. split; [done|].
  assert (concat (slice_chunks MEMPOOL_DELTA_INSERT_CHUNK_SIZE new) = new) as Hcat
    by (apply concat_slice_chunks; unfold MEMPOOL_DELTA_INSERT_CHUNK_SIZE; lia).
  split.
  - rw Hp -{1}Hcat Hsl concat_app fmap_app. by apply submseteq_inserts_r.
  - intros Hl. destruct new as [|x l]; [by destruct done|].
    rw slice_chunks_single // in Hsl. destruct done as [|b done]; [|by destruct done].
    simpl in Hp. by apply Permutation_nil_r, fmap_nil_inv in Hp.
Qed.
End calls.

End ClusterActive.
