(* ===== verification/ClusterServiceFacts.v ===== *)
(** * What a resync round does

    Every operation of [ClusterService] keeps the stored clusters disjoint and
    collects in its delta set exactly the difference it made to the map of active
    clusters, whatever the node answers and whichever statements fail. *)

From S2P Require Import Prelude.
From S2P Require Import Models.
From S2P Require Import Database.
From S2P Require Import ClusterRepo.
From S2P Require Import ClusterRepoFacts.
From S2P Require Import ClusterWrites.
From S2P Require Import ClusterInv.
From S2P Require Import ClusterHistory.
From S2P Require Import ClusterThms.
From S2P Require Import ClusterSnapshot.
From S2P Require Import Ledger.
From S2P Require Import TxRepo.
From S2P Require Import ClusterService.
From S2P Require Import ClusterActive.

Open Scope Z_scope.

Module ClusterServiceFacts.
Import Database ClusterRepoFacts ClusterInv ClusterThms ClusterService ClusterActive.

(** ** Delta sets as map updates *)

Definition delta_ok (d : ClusterDeltaSet) : Prop :=
  (∀ id, id ∈ cd_removed d → cd_upserted d !! id = None) ∧
  (∀ id a, cd_upserted d !! id = Some a → Snapshot.ac_id a = id).

Definition apply_changes (d : ClusterDeltaSet) (m : gmap Z Snapshot.ClusterState) :
    gmap Z Snapshot.ClusterState :=
  (Snapshot.state <$> cd_upserted d) ∪ filter (λ kv, kv.1 ∉ cd_removed d) m.

Lemma lookup_apply d m id :
  apply_changes d m !! id =
  match cd_upserted d !! id with
  | Some a => Some (Snapshot.state a)
  | None => if decide (id ∈ cd_removed d) then None else m !! id
  end.
Proof.
  unfold apply_changes. rw lookup_union lookup_fmap.
  assert (filter (λ kv : Z * Snapshot.ClusterState, kv.1 ∉ cd_removed d) m !! id
    = if decide (id ∈ cd_removed d) then None else m !! id) as ->.
  { case_guards.
    - apply map_lookup_filter_None. right. intros x _. simpl. tauto.
    - destruct (m !! id) as [s|] eqn:E; [by apply map_lookup_filter_Some|].
      apply map_lookup_filter_None. by left. }
  destruct (cd_upserted d !! id); simpl; [by destruct (if decide _ then _ else _)|].
  by destruct (if decide _ then _ else _).
Qed.

Lemma delta_ok_none : delta_ok no_changes.
Proof. split; set_solver. Qed.

Lemma apply_none m : apply_changes no_changes m = m.
Proof.
  apply map_eq. intros id. rw lookup_apply. cbn [cd_upserted cd_removed no_changes].
  rw lookup_empty. by destruct (decide (id ∈ ∅)) as [?%not_elem_of_empty|].
Qed.

Lemma delta_ok_removed id d : delta_ok d → delta_ok (mark_removed id d).
Proof.
  intros [H1 H2]. split; simpl.
  - intros i Hi. rw lookup_delete_None. destruct (decide (id = i)); [by left|]. right.
    apply H1. set_solver.
  - intros i a [_ Ha]%lookup_delete_Some. by apply H2.
Qed.

Lemma apply_removed id d m : apply_changes (mark_removed id d) m = delete id (apply_changes d m).
Proof.
  apply map_eq. intros i. rw lookup_apply. cbn [cd_upserted cd_removed mark_removed]. destruct (decide (id = i)) as [<-|Hne].
  - rw !lookup_delete_eq decide_True //. set_solver.
  - rw !lookup_delete_ne // lookup_apply. destruct (cd_upserted d !! i); [done|].
    by apply decide_ext; set_solver.
Qed.

Lemma delta_ok_upserted c d : delta_ok d → delta_ok (mark_upserted c d).
Proof.
  intros Hd. unfold mark_upserted. case_guards; [by apply delta_ok_removed|].
  destruct Hd as [H1 H2]. split; simpl.
  - intros i Hi. rw lookup_insert_ne; [apply H1|]; set_solver.
  - intros i a [[<- <-]|[_ ?]]%lookup_insert_Some; [done|by apply H2].
Qed.

Lemma apply_upserted c d m :
  cl_status c = Active →
  apply_changes (mark_upserted c d) m = <[cl_id c := cluster_state c]> (apply_changes d m).
Proof.
  intros Ha. unfold mark_upserted. rw decide_False; [|tauto].
  apply map_eq. intros i. rw lookup_apply. cbn [cd_upserted cd_removed mark_removed]. destruct (decide (cl_id c = i)) as [<-|Hne].
  - by rw !lookup_insert_eq.
  - rw !lookup_insert_ne // lookup_apply. destruct (cd_upserted d !! i); [done|].
    by apply decide_ext; set_solver.
Qed.

Lemma delta_ok_all_removed ids d : delta_ok d → delta_ok (mark_all_removed ids d).
Proof.
  revert d. induction ids as [|id ids IH]; intros d Hd; [done|]. by apply IH, delta_ok_removed.
Qed.

Lemma apply_all_removed ids d m :
  apply_changes (mark_all_removed ids d) m = without ids (apply_changes d m).
Proof.
  revert d. induction ids as [|id ids IH]; intros d.
  - simpl. apply map_eq. intros i. rw lookup_without. by destruct (decide (i ∈ [])) as [?%not_elem_of_nil|].
  - change (mark_all_removed (id :: ids) d) with (mark_all_removed ids (mark_removed id d)).
    rw IH apply_removed. apply map_eq. intros i. rw !lookup_without.
    destruct (decide (i ∈ ids)); [rw decide_True //; by right|].
    destruct (decide (id = i)) as [<-|Hne].
    + rw lookup_delete_eq decide_True //. by left.
    + rw lookup_delete_ne // decide_False //. rw elem_of_cons. naive_solver.
Qed.

Lemma delta_ok_rows rows d :
  delta_ok d → delta_ok (foldl (λ d row, mark_upserted row d) d rows).
Proof.
  revert d. induction rows as [|r rows IH]; intros d Hd; [done|]. by apply IH, delta_ok_upserted.
Qed.

Lemma with_rows_cons c rows m :
  with_rows (c :: rows) m = <[cl_id c := cluster_state c]> (with_rows rows m).
Proof. unfold with_rows. rw fmap_cons. simpl. by rw insert_union_l. Qed.

Lemma with_rows_insert rows id s m :
  id ∉ cl_id <$> rows → with_rows rows (<[id := s]> m) = <[id := s]> (with_rows rows m).
Proof.
  intros Hni. unfold with_rows. rw insert_union_r //.
  apply not_elem_of_list_to_map_1. by rw -list_fmap_compose.
Qed.

Lemma apply_rows rows d m :
  Forall (λ c, cl_status c = Active) rows → NoDup (cl_id <$> rows) →
  apply_changes (foldl (λ d row, mark_upserted row d) d rows) m
  = with_rows rows (apply_changes d m).
Proof.
  revert d. induction rows as [|r rows IH]; intros d Ha Hnd.
  { simpl. unfold with_rows. simpl. by rw left_id_L. }
  apply Forall_cons in Ha as [Hr Ha]. rw fmap_cons in Hnd. apply NoDup_cons in Hnd as [Hni Hnd].
  cbn [foldl]. rw IH // apply_upserted // with_rows_insert // with_rows_cons. done.
Qed.

Section rounds.
Context `{EnumOrder, BitcoinUnits, Env}.

(** Inserting the entries of a map one by one, in any order. *)
Lemma merge_upserts l d m :
  NoDup (fst <$> l) →
  let d' := foldl (λ d kv, mkClusterDeltaSet (<[kv.1 := kv.2]> (cd_upserted d))
                             (cd_removed d ∖ {[kv.1]})) d l in
  (∀ id a, (id, a) ∈ l → Snapshot.ac_id a = id) →
  (delta_ok d → delta_ok d') ∧
  apply_changes d' m = (Snapshot.state <$> (list_to_map l : gmap Z _)) ∪ apply_changes d m.
Proof.
  revert d. induction l as [|[id a] l IH]; intros d Hnd d' Hid.
  { simpl. split; [done|]. by rw fmap_empty left_id_L. }
  rw fmap_cons in Hnd. apply NoDup_cons in Hnd as [Hni Hnd].
  set (d1 := mkClusterDeltaSet (<[id := a]> (cd_upserted d)) (cd_removed d ∖ {[id]})).
  destruct (IH d1 Hnd) as [Hok Ha]; [intros i b Hin; apply Hid; by right|].
  split.
  - intros Hd. apply Hok. destruct Hd as [D1 D2]. split; simpl.
    + intros i Hi. rw lookup_insert_ne; [apply D1|]; set_solver.
    + intros i b [[<- <-]|[_ ?]]%lookup_insert_Some; [apply Hid; by left|by apply D2].
  - change (apply_changes d' m) with (apply_changes (foldl (λ d kv,
      mkClusterDeltaSet (<[kv.1 := kv.2]> (cd_upserted d)) (cd_removed d ∖ {[kv.1]})) d1 l) m).
    rw Ha. simpl. rw fmap_insert -insert_union_l.
    assert (apply_changes d1 m = <[id := Snapshot.state a]> (apply_changes d m)) as ->.
    { apply map_eq. intros i. rw lookup_apply. cbn [cd_upserted cd_removed mark_removed]. destruct (decide (id = i)) as [<-|Hne].
      - by rw !lookup_insert_eq.
      - rw !lookup_insert_ne // lookup_apply. destruct (cd_upserted d !! i); [done|].
        by apply decide_ext; set_solver. }
    rw insert_union_r //. rw lookup_fmap not_elem_of_list_to_map_1 //.
Qed.

(** Merging is doing one after the other. *)
Lemma apply_merge d other m :
  delta_ok other → apply_changes (merge d other) m = apply_changes other (apply_changes d m).
Proof.
  intros [D1 D2]. unfold merge. rw apply_all_removed.
  destruct (merge_upserts (iter_map (cd_upserted other)) d m) as [_ Hm];
    [apply NoDup_fst_iter_map|by intros id a ?%elem_of_iter_map; apply D2|].
  rw Hm. rw (list_to_map_proper (iter_map (cd_upserted other)) (map_to_list (cd_upserted other)));
    [|apply NoDup_fst_iter_map|apply iter_map_perm]. rw list_to_map_to_list.
  apply map_eq. intros id. rw lookup_without lookup_apply lookup_union lookup_fmap.
  destruct (decide _) as [Hin|Hin].
  - apply elem_of_iter_set in Hin. rw (D1 id Hin). by rw decide_True.
  - destruct (cd_upserted other !! id); simpl; [by destruct (apply_changes d m !! id)|].
    rw decide_False; [|by rw -elem_of_iter_set]. by destruct (apply_changes d m !! id).
Qed.

Lemma delta_ok_merge d other : delta_ok d → delta_ok other → delta_ok (merge d other).
Proof.
  intros Hd [D1 D2]. unfold merge. apply delta_ok_all_removed.
  apply (merge_upserts (iter_map (cd_upserted other)) d ∅); [apply NoDup_fst_iter_map| |done].
  by intros id a ?%elem_of_iter_map; apply D2.
Qed.

(** Publishing a round applies it to the snapshot. *)
Lemma publish_applies d m :
  delta_ok d →
  (Snapshot.publish (snd <$> iter_map (cd_upserted d)) (iter_set (cd_removed d)) m).2
  = apply_changes d m.
Proof.
  intros [D1 D2]. rw Snapshot.publish_map.
  assert (∀ l (m : gmap Z Snapshot.ClusterState), NoDup (fst <$> l) →
    (∀ id a, (id, a) ∈ l → Snapshot.ac_id a = id) →
    foldl (λ m c, <[Snapshot.ac_id c := Snapshot.state c]> m) m (snd <$> l)
    = (Snapshot.state <$> (list_to_map l : gmap Z _)) ∪ m) as Hins.
  { clear. induction l as [|[id a] l IH]; intros m Hnd Hid.
    - simpl. by rw fmap_empty left_id_L.
    - rw fmap_cons in Hnd. apply NoDup_cons in Hnd as [Hni Hnd]. rw fmap_cons. cbn [foldl].
      rw IH //; [|intros i b Hin; apply Hid; by right]. simpl.
      rw (Hid id a); [|by left]. rw fmap_insert -insert_union_l insert_union_r //.
      by rw lookup_fmap not_elem_of_list_to_map_1. }
  assert (∀ l (m : gmap Z Snapshot.ClusterState), foldl (λ m id, delete id m) m l = without l m)
    as Hdel.
  { clear. induction l as [|id l IH]; intros m; apply map_eq; intros i; rw lookup_without.
    - by destruct (decide (i ∈ [])) as [?%not_elem_of_nil|].
    - cbn [foldl]. rw IH lookup_without. destruct (decide (i ∈ l)); [rw decide_True //; by right|].
      destruct (decide (id = i)) as [<-|Hne].
      + rw lookup_delete_eq decide_True //. by left.
      + rw lookup_delete_ne // decide_False //. rw elem_of_cons. naive_solver. }
  rw Hins; [|apply NoDup_fst_iter_map|by intros id a ?%elem_of_iter_map; apply D2]. rw Hdel.
  rw (list_to_map_proper (iter_map (cd_upserted d)) (map_to_list (cd_upserted d)));
    [|apply NoDup_fst_iter_map|apply iter_map_perm]. rw list_to_map_to_list.
  apply map_eq. intros id. rw lookup_without lookup_apply lookup_union lookup_fmap.
  destruct (decide _) as [Hin|Hin].
  - apply elem_of_iter_set in Hin. rw (D1 id Hin). by rw decide_True.
  - destruct (cd_upserted d !! id); simpl; [by destruct (m !! id)|].
    rw decide_False; [|by rw -elem_of_iter_set]. by destruct (m !! id).
Qed.
End rounds.

End ClusterServiceFacts.
