(* ===== verification/ClusterRounds.v ===== *)
(** * Resync rounds keep the clusters disjoint and the delta exact

    [yields w0 d w]: from world [w0] the service reached [w] having collected the
    changes [d].  Each operation of [ClusterService] is shown to extend it. *)

From S2P Require Import Prelude.
From S2P Require Import Models.
From S2P Require Import Database.
From S2P Require Import ClusterRepo.
From S2P Require Import ClusterRepoFacts.
From S2P Require Import ClusterWrites.
From S2P Require Import ClusterInv.
From S2P Require Import ClusterHistory.
From S2P Require Import ClusterThms.
From S2P Require Import ClusterSnapshot.
From S2P Require Import Ledger.
From S2P Require Import TxRepo.
From S2P Require Import ClusterService.
From S2P Require Import ClusterActive.
From S2P Require Import ClusterServiceFacts.

Open Scope Z_scope.

Module ClusterRounds.
Import Database ClusterRepoFacts ClusterInv ClusterThms ClusterService ClusterActive
  ClusterServiceFacts.

Definition w_actives (w : World) : gmap Z Snapshot.ClusterState := actives (w_db w).

(** Chunk positions fit. *)
Definition sized (m : gmap Z Snapshot.ClusterState) : Prop :=
  ∀ id s, m !! id = Some s → (length (Snapshot.cs_chunks s) ≤ MAX_CHUNKS)%nat.

(** No transaction is in two active clusters. *)
Definition clusters_ok (m : gmap Z Snapshot.ClusterState) : Prop :=
  disjoint_clusters m ∧ sized m.

Lemma clusters_ok_subseteq m m' : m' ⊆ m → clusters_ok m → clusters_ok m'.
Proof.
  intros Hsub [Hd Hs]. split; [by eapply disjoint_subseteq|].
  intros id s Hid. eapply Hs. by eapply lookup_weaken.
Qed.

Definition store_ok (w : World) : Prop :=
  cluster_inv (w_db w) ∧ clusters_ok (w_actives w).

(** The batched insert is the only call that may fail half way, and only when it has more
    clusters to insert than one batch holds. *)
Definition unbroken (w : World) : Prop :=
  Forall (λ l, match l with
               | InsertManyFailed clusters => (clusters ≤ ClusterRepo.MEMPOOL_DELTA_INSERT_CHUNK_SIZE)%nat
               | _ => True
               end) (w_log w).

(** What the rest of the program sees of a round in progress. *)
Definition w_out (w : World) : gmap Z Snapshot.ClusterState * list BusEvent :=
  (w_snapshot w, w_bus w).

Record yields (w0 : World) (d : ClusterDeltaSet) (w : World) : Prop := {
  y_ok : store_ok w;
  y_delta : delta_ok d;
  y_snapshot : w_out w = w_out w0;
  y_log : unbroken w → unbroken w0;
  y_mirror : unbroken w → w_actives w = apply_changes d (w_actives w0);
}.

(** Nothing but the node, the clock, the ledger and the harmless part of the log moved. *)
Record quiet (w w' : World) : Prop := {
  q_db : w_db w' = w_db w;
  q_snapshot : w_out w' = w_out w;
  q_log : unbroken w' ↔ unbroken w;
}.

Lemma quiet_refl w : quiet w w.
Proof. by split. Qed.

Lemma quiet_trans w1 w2 w3 : quiet w1 w2 → quiet w2 w3 → quiet w1 w3.
Proof.
  intros [Q1 Q2 Q3] [R1 R2 R3]. split; [congruence|congruence|by rw R3].
Qed.

(** Lines that say nothing about the batched insert. *)
Definition harmless (l : LogLine) : Prop :=
  match l with InsertManyFailed _ => False | _ => True end.

Lemma unbroken_log l w : harmless l → unbroken (log l w).2 ↔ unbroken w.
Proof.
  intros Hl. unfold unbroken. simpl. rw Forall_app Forall_singleton. destruct l; naive_solver.
Qed.

Lemma quiet_log l w : harmless l → quiet w (log l w).2.
Proof. intros Hl. split; [done|done|]. by apply unbroken_log. Qed.

Lemma yields_refl w : store_ok w → yields w no_changes w.
Proof. intros Hok. split; [done|apply delta_ok_none|done|done|]. intros _. by rw apply_none. Qed.

Lemma yields_quiet w0 d w w' : yields w0 d w → quiet w w' → yields w0 d w'.
Proof.
  intros [Y1 Y2 Y3 Y4 Y5] [Q1 Q2 Q3].
  assert (w_actives w' = w_actives w) as Qa by (unfold w_actives; by rw Q1). split.
  - unfold store_ok. by rw Qa Q1.
  - done.
  - congruence.
  - rw Q3. done.
  - rw Q3 Qa. done.
Qed.

(** A call that replaces the map of active clusters by [m], logging nothing. *)
Lemma yields_step w0 d w d' w' :
  yields w0 d w → store_ok w' → delta_ok d' → w_out w' = w_out w →
  (unbroken w' → unbroken w) →
  (unbroken w' → apply_changes d (w_actives w0) = w_actives w →
     w_actives w' = apply_changes d' (w_actives w0)) →
  yields w0 d' w'.
Proof.
  intros [Y1 Y2 Y3 Y4 Y5] Hok Hd Hs Hl Hm. split; [done|done|congruence|tauto|].
  intros Hu. apply Hm; [done|]. symmetry. tauto.
Qed.

(** [t] is a member of some active cluster. *)
Definition clustered (m : gmap Z Snapshot.ClusterState) (t : string) : Prop :=
  ∃ id s, m !! id = Some s ∧ t ∈ Snapshot.cs_txids s.

Lemma unclustered_not m t : unclustered m t ↔ ¬ clustered m t.
Proof. unfold unclustered, clustered. naive_solver. Qed.

(** Every fuel gives [r] or runs out, and enough fuel gives [r]. *)
Definition converges {A} (m : nat → Run A) (w : World) (r : A * World) : Prop :=
  (∀ fuel, m fuel w = None ∨ m fuel w = Some r) ∧
  ∃ fuel0, ∀ fuel, (fuel0 ≤ fuel)%nat → m fuel w = Some r.

(** [m] returns, and its result is in [Q]. *)
Definition settles {A} (m : nat → Run A) (w : World) (Q : A → World → Prop) : Prop :=
  ∃ a w', converges m w (a, w') ∧ Q a w'.

Lemma converges_always {A} (m : nat → Run A) w r : (∀ fuel, m fuel w = Some r) → converges m w r.
Proof. intros Hm. split; [by right|]. by exists 0%nat. Qed.

Lemma settles_result {A} (m : nat → Run A) w Q fuel a w' :
  settles m w Q → m fuel w = Some (a, w') → Q a w'.
Proof. intros (a0 & w0 & [Hu _] & HQ) Hm. destruct (Hu fuel); congruence. Qed.

Section rounds.
Context `{EnumOrder, BitcoinUnits, Env}.

Lemma yields_merge w0 d1 w1 d2 w2 :
  yields w0 d1 w1 → yields w1 d2 w2 → yields w0 (merge d1 d2) w2.
Proof.
  intros [Y1 Y2 Y3 Y4 Y5] [Z1 Z2 Z3 Z4 Z5]. split.
  - done.
  - by apply delta_ok_merge.
  - congruence.
  - tauto.
  - intros Hu. rw apply_merge // (Z5 Hu) (Y5 (Z4 Hu)). done.
Qed.

(** What every repository call leaves alone, and what [updates] says of the rest. *)
Lemma call_updates {A} (m : RepoM A) Q w :
  updates (w_db w) m Q →
  let '(r, w') := call m w in
  w_out w' = w_out w ∧ w_log w' = w_log w ∧ w_ledger w' = w_ledger w ∧
  w_calls w' = w_calls w ∧ cluster_inv (w_db w') ∧
  match r with Ok a => Q a (w_db w') | Err _ => w_actives w' = w_actives w end.
Proof.
  intros Hu. specialize (Hu (w_conn w) eq_refl). unfold call.
  destruct (m (w_conn w)) as [[a|e] c]; by destruct Hu.
Qed.

(** A failed call leaves an accumulated round as it is. *)
Lemma yields_failed w0 d w w' :
  yields w0 d w → cluster_inv (w_db w') → w_actives w' = w_actives w →
  w_out w' = w_out w → w_log w' = w_log w → yields w0 d w'.
Proof.
  intros Hy Hi Ha Hs Hl. eapply yields_step; [exact Hy|split; [done|]|apply Hy|done|..].
  - rw Ha. apply Hy.
  - unfold unbroken. by rw Hl.
  - intros _ Hm. by rw Hm Ha.
Qed.

(** Closing clusters within a round. *)
Lemma yields_without w0 d w w' ids :
  yields w0 d w → cluster_inv (w_db w') → w_actives w' = without ids (w_actives w) →
  w_out w' = w_out w → w_log w' = w_log w →
  yields w0 (mark_all_removed ids d) w'.
Proof.
  intros Hy Hi Ha Hs Hl. eapply yields_step; [exact Hy|split; [done|]| |done|..].
  - rw Ha. eapply clusters_ok_subseteq; [apply without_subseteq|apply Hy].
  - apply delta_ok_all_removed, Hy.
  - unfold unbroken. by rw Hl.
  - intros _ Hm. by rw apply_all_removed Hm.
Qed.

(** Storing an active cluster within a round. *)
Lemma yields_upserted w0 d w w' cl :
  yields w0 d w → cluster_inv (w_db w') → cl_status cl = Active →
  (length (cl_chunks cl) ≤ MAX_CHUNKS)%nat →
  w_actives w' = <[cl_id cl := cluster_state cl]> (w_actives w) →
  (∀ t id s, t ∈ cl_txids cl → w_actives w !! id = Some s → t ∈ Snapshot.cs_txids s →
     id = cl_id cl) →
  w_out w' = w_out w → w_log w' = w_log w →
  yields w0 (mark_upserted cl d) w'.
Proof.
  intros Hy Hi Hst Hlen Ha Hdis Hs Hl. eapply yields_step; [exact Hy|split; [done|]| |done|..].
  - rw Ha. split; [apply disjoint_insert; [apply Hy|exact Hdis]|].
    intros id s [[_ <-]|[_ Hid]]%lookup_insert_Some; [done|]. by eapply (y_ok _ _ _ Hy).
  - apply delta_ok_upserted, Hy.
  - unfold unbroken. by rw Hl.
  - intros _ Hm. by rw apply_upserted // Hm.
Qed.

(** ** Upserting one group *)

(** An answer of the node within the limits of the tables: amounts are [u64] and the
    chunk positions fit. *)
Definition answer_ok (m : GetMempoolClusterModel) : Prop :=
  (length (gmc_chunks m) ≤ MAX_CHUNKS)%nat ∧ Forall chunk_ok (gmc_chunks m).

(** [ids] are the active clusters that share a member with [txids]. *)
Definition overlapping (txids : list string) (ids : list Z) (w : World) : Prop :=
  ∀ id, id ∈ ids ↔
    ∃ t s, t ∈ txids ∧ w_actives w !! id = Some s ∧ t ∈ Snapshot.cs_txids s.

Lemma min_first_seen_in l c : min_first_seen l = Some c → c ∈ l.
Proof.
  revert c. induction l as [|x l IH]; intros c; simpl; [done|].
  destruct (min_first_seen l) as [best|].
  - destruct (_ <? _); intros [= <-]; [right; by apply IH|left].
  - intros [= <-]. left.
Qed.

(** What [find_by_ids] returns for active ids. *)
Lemma loaded_clusters w ids cl :
  cluster_inv (w_db w) → (∀ id, id ∈ ids → is_Some (w_actives w !! id)) →
  cl ∈ ClusterRepo.load_clusters (ClusterRepo.ByIds ids) (w_db w) →
  cl_status cl = Active ∧ cl_id cl ∈ ids ∧ w_actives w !! cl_id cl = Some (cluster_state cl).
Proof.
  intros Hi Hids Hin. assert (cl_status cl = Active ∧ cl_id cl ∈ ids) as [Ha Hid].
  { pose proof Hi as [Hok _].
    apply elem_of_load_clusters in Hin as (row & Hr & Hm & ->); [|intros; by eapply rows_ok_key].
    simpl in *. rw (rows_ok_key _ _ _ _ Hok Hr) in Hm |- *. split; [|done].
    destruct (Hids _ Hm) as [s (row' & Hr' & Ha & _)%lookup_actives_Some].
    congruence. }
  split; [done|]. split; [done|]. by apply (loaded_active (w_db w) ids).
Qed.

Definition grows_by (txids : list string) (w w' : World) : Prop :=
  ∀ t, clustered (w_actives w') t → clustered (w_actives w) t ∨ t ∈ txids.

Lemma grows_refl txids w w' : w_actives w' = w_actives w → grows_by txids w w'.
Proof. intros Ha t. rw Ha. by left. Qed.

Lemma grows_subseteq txids w w' : w_actives w' ⊆ w_actives w → grows_by txids w w'.
Proof.
  intros Hs t (id & s & Hid & Ht). left. exists id, s. split; [|done]. by eapply lookup_weaken.
Qed.

(** Storing [cl] over [w1], which is [w] with clusters removed. *)
Lemma grows_insert txids cl w w1 w' :
  w_actives w1 ⊆ w_actives w → cl_txids cl = txids →
  w_actives w' = <[cl_id cl := cluster_state cl]> (w_actives w1) → grows_by txids w w'.
Proof.
  intros Hsub <- Ha t (id & s & Hid & Ht). rw Ha in Hid.
  apply lookup_insert_Some in Hid as [[_ <-]|[_ Hid]]; [by right|].
  left. exists id, s. split; [|done]. by eapply lookup_weaken.
Qed.

(** The insert of a group that overlaps nothing. *)
Lemma insert_group_yields w cluster new :
  store_ok w → answer_ok cluster → nc_chunks new = gmc_chunks cluster →
  overlapping (gmc_txids cluster) [] w →
  let '(r, w') := call (ClusterRepo.insert_with_members new) w in
  grows_by (gmc_txids cluster) w w' ∧
  match r with
  | Ok row => yields w (mark_upserted row no_changes) w'
  | Err _ => yields w no_changes w'
  end.
Proof.
  intros Hok Hans Hch Hov.
  assert (new_ok new) as Hnew by (unfold new_ok; by rw Hch).
  pose proof (call_updates _ _ w (insert_with_members_updates (w_db w) new (proj1 Hok) Hnew)) as Hc.
  destruct (call _ w) as [[row|e] w']; destruct Hc as (Hs & Hl & _ & _ & Hi & Hq).
  - destruct Hq as (Hfresh & Hst & Hcl & Ha). split.
    + apply (grows_insert _ row w w); [done| |done]. unfold cl_txids. by rw Hcl Hch.
    + eapply yields_upserted; [by apply yields_refl|done|done| |exact Ha| |done|done].
      { rw Hcl Hch. apply Hans. }
      intros t id s Ht Hid Hin. exfalso. apply (not_elem_of_nil id), Hov. exists t, s.
      unfold cl_txids in Ht. by rw Hcl Hch in Ht.
  - split; [by apply grows_refl|]. by apply (yields_failed _ _ w); [apply yields_refl|..].
Qed.

(** Merging the overlapping clusters but [keep]. *)
Lemma merge_others_yields w keep others :
  store_ok w →
  let '(merged, w') :=
    (match others with
     | [] => mret (Some no_changes)
     | _ =>
         r ← call (ClusterRepo.mark_merged others);
         match r with
         | Err _ => _ ← log MergeFailed; mret None
         | Ok _ => mret (Some (mark_all_removed others no_changes))
         end
     end : Svc (option ClusterDeltaSet)) w in
  match merged with
  | None => yields w no_changes w' ∧ w_actives w' = w_actives w
  | Some d => yields w d w' ∧ w_actives w' = without (others : list Z) (w_actives w)
  end ∧ (keep ∉ others → w_actives w' !! keep = w_actives w !! keep).
Proof.
  intros Hok. destruct others as [|o os] eqn:Eo.
  { simpl. split; [|done]. split; [by apply yields_refl|].
    apply map_eq. intros i. rw lookup_without.
    by destruct (decide (i ∈ [])) as [?%not_elem_of_nil|]. }
  rw -Eo. unfold mbind, Svc_bind.
  pose proof (call_updates _ _ w (close_many_updates (w_db w) others ClusterRepo.ClosingMerged
    (proj1 Hok))) as Hc. unfold ClusterRepo.mark_merged.
  destruct (call _ w) as [[n|e] w']; destruct Hc as (Hs & Hl & _ & _ & Hi & Hq); simpl.
  - split; [split; [|done]|].
    + eapply yields_without; [by apply yields_refl|done..].
    + intros Hk. unfold w_actives. rw Hq lookup_without decide_False //.
  - assert (quiet w' (log MergeFailed w').2) as Hquiet by by apply quiet_log.
    split; [split; [|done]|].
    + eapply yields_quiet; [|exact Hquiet]. by apply (yields_failed _ _ w); [apply yields_refl|..].
    + intros _. change (w_actives w' !! keep = w_actives w !! keep). by rw Hq.
Qed.

(** The update of [keep] once every other overlapping cluster is gone. *)
Lemma replace_group_yields w w1 d cluster keep ids :
  yields w d w1 → answer_ok cluster → overlapping (gmc_txids cluster) ids w →
  is_Some (w_actives w1 !! keep) → w_actives w1 ⊆ w_actives w →
  (∀ id, id ∈ ids → id ≠ keep → w_actives w1 !! id = None) →
  let '(r, w2) := call (ClusterRepo.replace_chunks
                    (ClusterRepo.mkClusterVersionUpdate keep (gmc_chunks cluster))) w1 in
  grows_by (gmc_txids cluster) w w2 ∧
  match r with
  | Ok row => yields w (mark_upserted row d) w2
  | Err _ => yields w d w2
  end.
Proof.
  intros Hy [Hlen Hch] Hov Hkeep Hsub Hgone.
  pose proof (call_updates _ _ w1 (replace_chunks_updates (w_db w1)
    (ClusterRepo.mkClusterVersionUpdate keep (gmc_chunks cluster))
    (proj1 (y_ok _ _ _ Hy)) (conj Hlen Hch) Hkeep)) as Hc.
  destruct (call _ w1) as [[row|e] w2]; destruct Hc as (Hs & Hl & _ & _ & Hi & Hq).
  - destruct Hq as (Hid & Hst & Hcc & Ha). simpl in Hid, Hcc. split.
    + apply (grows_insert _ row w w1); [done| |done]. unfold cl_txids. by rw Hcc.
    + eapply yields_upserted; [exact Hy|done|done|by rw Hcc|exact Ha| |done|done].
      intros t id s Ht Hidl Hin. rw Hid. destruct (decide (id = keep)) as [|Hne]; [done|].
      exfalso. assert (id ∈ ids) as Hids.
      { apply Hov. exists t, s. unfold cl_txids in Ht. rw Hcc in Ht. split; [done|].
        split; [by eapply lookup_weaken|done]. }
      by rw (Hgone id Hids Hne) in Hidl.
  - split; [|by eapply yields_failed]. apply grows_subseteq. by rw Hq.
Qed.

Lemma upsert_new_yields w cluster :
  store_ok w → answer_ok cluster → overlapping (gmc_txids cluster) [] w →
  let '(uo, w') := upsert cluster [] w in
  yields w (uo_changes uo) w' ∧ grows_by (gmc_txids cluster) w w' ∧
  (∀ t, t ∈ uo_detached uo → clustered (w_actives w) t).
Proof.
  intros Hok Hans Hov. unfold upsert.
  unfold mbind, Svc_bind, new_cluster, now_utc. simpl.
  set (w1 := mkWorld _ _ _ _ _ _).
  assert (quiet w w1) as Hq by by split.
  assert (store_ok w1) as Hok1 by exact Hok.
  pose proof (insert_group_yields w1 cluster (mkNewCluster (gmc_chunks cluster)
    (clock (w_calls w) 0)) Hok1 Hans eq_refl Hov) as Hx.
  destruct (call _ w1) as [[row|e] w2]; destruct Hx as [Hg Hy]; simpl.
  + split; [|by split; [|intros t ?%not_elem_of_nil]].
    destruct Hy as [Y1 Y2 Y3 Y4 Y5]. by split.
  + split; [|by split; [|intros t ?%not_elem_of_nil]].
    eapply yields_quiet; [|by apply quiet_log]. destruct Hy as [Y1 Y2 Y3 Y4 Y5]. by split.
Qed.

Lemma upsert_known_yields w cluster ids :
  store_ok w → answer_ok cluster → overlapping (gmc_txids cluster) ids w → ids ≠ [] →
  let '(uo, w') := upsert cluster ids w in
  yields w (uo_changes uo) w' ∧ grows_by (gmc_txids cluster) w w' ∧
  (∀ t, t ∈ uo_detached uo → clustered (w_actives w) t).
Proof.
  intros Hok Hans Hov Hnil. unfold upsert. destruct ids as [|i0 is_] eqn:Ei; [done|].
  rw -Ei in Hov |- *.
  unfold mbind, Svc_bind.
  pose proof (call_updates _ _ w (find_by_ids_updates (w_db w) ids (proj1 Hok))) as Hc.
  destruct (call _ w) as [[existing|e] w1]; destruct Hc as (Hs & Hl & _ & _ & Hi & Hq).
  2:{ simpl. split; [|split].
    - eapply yields_quiet; [|by apply quiet_log].
      by apply (yields_failed _ _ w); [apply yields_refl|..].
    - by apply grows_refl.
    - by intros t ?%not_elem_of_nil. }
  destruct Hq as [Hdb Hex].
  assert (quiet w w1) as Hq1 by (split; [done|done|unfold unbroken; by rw Hl]).
  assert (w_actives w1 = w_actives w) as Ha1 by (unfold w_actives; by rw Hdb).
  assert (∀ id, id ∈ ids → is_Some (w_actives w !! id)) as Hids
    by (intros id Hid; apply Hov in Hid as (t & s & _ & ? & _); eauto).
  assert (∀ cl, cl ∈ existing → cl_id cl ∈ ids ∧
    w_actives w !! cl_id cl = Some (cluster_state cl)) as Hld.
  { intros cl Hcl. rw Hex in Hcl. by apply (loaded_clusters w ids cl (proj1 Hok) Hids) in Hcl as (_ & ? & ?). }
  assert (yields w no_changes w1) as Hy1 by (eapply yields_quiet; [by apply yields_refl|done]).
  destruct (min_first_seen existing) as [keep|] eqn:Ek.
  2:{ simpl. split; [done|]. split; [by apply grows_refl|by intros t ?%not_elem_of_nil]. }
  apply min_first_seen_in in Ek as Hkin. destruct (Hld keep Hkin) as [Hkid Hka].
  set (others := filter (λ id, id ≠ cl_id keep) (cl_id <$> existing)).
  pose proof (merge_others_yields w1 (cl_id keep) others (y_ok _ _ _ Hy1)) as Hm.
  set (mm := match others with [] => _ | _ => _ end) in Hm |- *.
  destruct (mm w1) as [[d|] w2]; destruct Hm as [[Hy2 Ha2] Hkeep].
  2:{ simpl. split; [|split].
    - destruct (yields_merge _ _ _ _ _ Hy1 Hy2) as [Y1 Y2 Y3 Y4 Y5].
      split; [done|apply delta_ok_none|done|done|]. intros Hu. rw apply_none.
      rw Ha2. by rw Ha1.
    - apply grows_refl. by rw Ha2.
    - by intros t ?%not_elem_of_nil. }
  assert (cl_id keep ∉ others) as Hkn by (subst others; rw list_elem_of_filter; tauto).
  assert (yields w d w2) as Hy2'.
  { destruct Hy2 as [Y1 Y2 Y3 Y4 Y5]. split; [done|done|congruence| |].
    - intros Hu. apply Hq1. tauto.
    - intros Hu. by rw (Y5 Hu) Ha1. }
  pose proof (replace_group_yields w w2 d cluster (cl_id keep) ids Hy2' Hans Hov) as Hr.
  destruct (call _ w2) as [r w3]. destruct Hr as [Hg Hres].
  + rw Hkeep // Ha1 Hka. eauto.
  + rw Ha2 Ha1. apply without_subseteq.
  + intros id Hid Hne. rw Ha2 lookup_without decide_True //. subst others.
    rw list_elem_of_filter. split; [done|]. destruct (Hids id Hid) as [s Hsid].
    destruct (loaded_of_active (w_db w) ids id s (proj1 Hok) Hid Hsid) as (cl & Hcl & <- & _).
    apply list_elem_of_fmap. exists cl. split; [done|]. by rw Hex.
  + assert (∀ t, t ∈ filter (λ txid, txid ∉ (list_to_set (gmc_txids cluster) : gset string))
      (existing ≫= cl_txids) → clustered (w_actives w) t) as Hdet.
    { intros t [_ (cl & Ht & Hcl)%list_elem_of_bind]%list_elem_of_filter.
      exists (cl_id cl), (cluster_state cl). split; [by apply Hld|done]. }
    destruct r as [row|e]; simpl.
    * done.
    * split; [eapply yields_quiet; [exact Hres|by apply quiet_log]|]. done.
Qed.

Lemma upsert_yields w cluster ids :
  store_ok w → answer_ok cluster → overlapping (gmc_txids cluster) ids w →
  let '(uo, w') := upsert cluster ids w in
  yields w (uo_changes uo) w' ∧ grows_by (gmc_txids cluster) w w' ∧
  (∀ t, t ∈ uo_detached uo → clustered (w_actives w) t).
Proof.
  intros Hok Hans Hov. destruct ids; [by apply upsert_new_yields|by apply upsert_known_yields].
Qed.
End rounds.

(** ** The work queue *)

(** Buffered singletons are well formed and still in no cluster. *)
Definition fresh_ok (fresh : gmap string NewCluster) (m : gmap Z Snapshot.ClusterState) : Prop :=
  ∀ t c, fresh !! t = Some c →
    chunks_txids (nc_chunks c) = [t] ∧ new_ok c ∧ unclustered m t.

Definition loop_inv (w0 : World) (ls : LoopState) (w : World) : Prop :=
  yields w0 (ls_changes ls) w ∧ fresh_ok (ls_fresh ls) (w_actives w).

Lemma lookup_delete_all {A} (ts : list string) (m : gmap string A) t a :
  foldl (λ m t, delete t m) m ts !! t = Some a → m !! t = Some a ∧ t ∉ ts.
Proof.
  revert m. induction ts as [|x ts IH]; intros m; simpl.
  - intros Ht. split; [done|apply not_elem_of_nil].
  - intros [[Hne Ht]%lookup_delete_Some Hni]%IH. split; [done|]. rw elem_of_cons. naive_solver.
Qed.

Section queue.
Context `{EnumOrder, BitcoinUnits, Env}.
Context (get_mempool_cluster : nat → string → result ObserverError GetMempoolClusterModel).
Context (node_ok : ∀ n t m, get_mempool_cluster n t = Ok m → answer_ok m).
Local Abbreviation candidate_step := (candidate_step get_mempool_cluster).
Local Abbreviation candidates_loop := (candidates_loop get_mempool_cluster).

(** What one turn does to the queue: nothing is forgotten, whatever is queued was a
    member of an active cluster, and only covered txids enter clusters. *)
Definition turn (ls ls' : LoopState) (w w' : World) : Prop :=
  ls_out_of_mempool ls ⊆ ls_out_of_mempool ls' ∧
  (∃ extra, ls_pending ls' = ls_pending ls ++ extra ∧
     ∀ t, t ∈ extra → clustered (w_actives w) t ∧ t ∉ ls_out_of_mempool ls') ∧
  (∀ t, clustered (w_actives w') t → clustered (w_actives w) t ∨ t ∈ ls_out_of_mempool ls').

Lemma turn_quiet changes pending out out' fresh fresh' changes' w w' :
  out ⊆ out' → w_actives w' = w_actives w →
  turn (mkLoopState changes pending out fresh) (mkLoopState changes' pending out' fresh') w w'.
Proof.
  intros Hsub Ha. split; [done|]. split.
  - exists []. simpl. rw app_nil_r. split; [done|]. by intros ? ?%not_elem_of_nil.
  - intros t. rw Ha. by left.
Qed.

Lemma loop_inv_quiet w0 changes pending pending' out out' fresh w w' :
  loop_inv w0 (mkLoopState changes pending out fresh) w → quiet w w' →
  loop_inv w0 (mkLoopState changes pending' out' fresh) w'.
Proof.
  intros [Hy Hf] Hq. split; [by eapply yields_quiet|]. unfold w_actives.
  by rw (q_db _ _ Hq).
Qed.

Lemma quiet_actives w w' : quiet w w' → w_actives w' = w_actives w.
Proof. intros Hq. unfold w_actives. by rw (q_db _ _ Hq). Qed.

(** The turn of a txid the node placed in a group. *)
Lemma place_group_turn w0 changes pending out fresh cluster first rest w1 :
  loop_inv w0 (mkLoopState changes pending out fresh) w1 → answer_ok cluster →
  gmc_txids cluster = first :: rest →
  let out' := out ∪ list_to_set (gmc_txids cluster) in
  let '(ls', w') := place_group cluster first (mkLoopState changes pending out' fresh) w1 in
  loop_inv w0 ls' w' ∧ turn (mkLoopState changes pending out fresh) ls' w1 w' ∧
  ls_out_of_mempool ls' = out'.
Proof.
  intros [Hy Hf] Hans Hfirst out'. unfold place_group, mbind, Svc_bind.
  set (txids := gmc_txids cluster) in *.
  assert (out ⊆ out') as Hsub by (unfold out'; set_solver).
  pose proof (call_updates _ _ w1 (find_active_ids_updates (w_db w1) txids
    (proj1 (y_ok _ _ _ Hy)))) as Hc.
  destruct (call _ w1) as [[ids|e] w2]; destruct Hc as (Hs & Hl & _ & _ & Hi & Hq).
  2:{ simpl. assert (yields w0 changes w2) as Hy2 by by eapply yields_failed.
    split; [|split; [by apply turn_quiet|done]]. split; [|simpl; unfold w_actives in *; by rw Hq].
    eapply yields_quiet; [exact Hy2|by apply quiet_log]. }
  destruct Hq as [Hdb Hov].
  assert (quiet w1 w2) as Hq by (split; [done|done|unfold unbroken; by rw Hl]).
  assert (w_actives w2 = w_actives w1) as Ha by by apply quiet_actives.
  assert (yields w0 changes w2) as Hy2 by by eapply yields_quiet.
  assert (overlapping txids ids w2) as Hov2 by (intros id; rw Ha; apply Hov).
  destruct (decide _) as [[-> Hone]|Hmany].
  - unfold new_cluster, now_utc, mbind, Svc_bind. simpl.
    split; [split|split; [|done]].
    + destruct Hy2 as [Y1 Y2 Y3 Y4 Y5]. by split.
    + simpl. change (fresh_ok (<[first := mkNewCluster (gmc_chunks cluster)
        (clock (w_calls w2) 0)]> fresh) (w_actives w2)). rw Ha.
      assert (txids = [first]) as Hsingle by (rw Hfirst in Hone |- *; by destruct rest).
      intros t' c [[<- <-]|[_ ?]]%lookup_insert_Some; [|by apply Hf].
      split; [exact Hsingle|]. split; [exact Hans|]. intros id s Hid Hin.
      apply (not_elem_of_nil id), Hov. exists first, s. rw Hsingle. split; [left|done].
    + by apply turn_quiet.
  - pose proof (upsert_yields w2 cluster ids (y_ok _ _ _ Hy2) Hans Hov2) as Hu.
    destruct (upsert cluster ids w2) as [uo w3]. destruct Hu as (Hy3 & Hg & Hdet). simpl.
    split; [split|split; [|done]].
    + by eapply yields_merge.
    + simpl. intros t c [Hfr Hni]%lookup_delete_all. destruct (Hf t c Hfr) as (? & ? & Hun).
      split; [done|]. split; [done|]. rw unclustered_not. intros Hcl.
      destruct (Hg t Hcl) as [Hcl2|?]; [|done]. rw Ha in Hcl2. by apply unclustered_not in Hun.
    + split; [done|]. split.
      * eexists. split; [done|]. intros t [Hout Hin]%list_elem_of_filter. split; [|done].
        rw -Ha. by apply Hdet.
      * intros t Hcl. destruct (Hg t Hcl) as [?|Hin]; [rw Ha in H2; by left|].
        right. simpl. unfold out'. set_solver.
Qed.

Lemma place_group_covered cluster first changes pending out fresh w :
  ls_out_of_mempool (place_group cluster first (mkLoopState changes pending out fresh) w).1 = out.
Proof.
  unfold place_group, mbind, Svc_bind. destruct (call _ w) as [[ids|e] w1]; [|done].
  destruct (decide _); [done|]. by destruct (upsert cluster ids w1).
Qed.

#[local] Opaque place_group.

Lemma candidate_step_turn w0 txid ls w :
  loop_inv w0 ls w →
  let '(ls', w') := candidate_step txid ls w in
  loop_inv w0 ls' w' ∧ turn ls ls' w w'.
Proof.
  destruct ls as [changes pending out fresh]. intros Hinv. unfold candidate_step.
  destruct (decide (txid ∈ out)) as [Hin|Hout]; [split; [done|by apply turn_quiet]|].
  unfold mbind, Svc_bind, fetch. set (w1 := mkWorld _ _ _ _ (S _) _).
  assert (quiet w w1) as Hq1 by by split.
  assert (∀ ledger calls, quiet w (mkWorld (w_conn w) ledger (w_snapshot w) (w_bus w) calls (w_log w)))
    as Hled by (intros; by split).
  destruct (get_mempool_cluster (w_calls w) txid) as [cluster|e] eqn:Eans.
  - destruct (gmc_txids cluster) as [|first rest] eqn:Et.
    + simpl. split; [by eapply loop_inv_quiet|]. apply turn_quiet; [set_solver|done].
    + pose proof (place_group_turn w0 changes pending out fresh cluster first rest
        (assert_present (first :: rest) w1).2) as Hp.
      simpl in Hp. rw Et in Hp. simpl.
      destruct (place_group _ _ _ _) as [ls' w'].
      destruct Hp as (Hl & Ht & _); [by eapply loop_inv_quiet|by eapply node_ok|done|].
      split; [exact Hl|exact Ht].
  - assert (loop_inv w0 (mkLoopState changes pending out fresh) (log FetchFailed w1).2 ∧
      turn (mkLoopState changes pending out fresh) (mkLoopState changes pending out fresh)
        w (log FetchFailed w1).2) as Hfail.
    { split; [|by apply turn_quiet]. eapply loop_inv_quiet; [exact Hinv|].
      eapply quiet_trans; [exact Hq1|by apply quiet_log]. }
    destruct e; try exact Hfail. simpl.
    split; [by eapply loop_inv_quiet|]. apply turn_quiet; [set_solver|done].
Qed.

(** Every turn either drops the popped txid or covers it. *)
Context (node_answers_about :
  ∀ n t m, get_mempool_cluster n t = Ok m → gmc_txids m = [] ∨ t ∈ gmc_txids m).

Lemma candidate_step_progress txid ls w :
  let '(ls', _) := candidate_step txid ls w in
  txid ∈ ls_out_of_mempool ls' ∨
  ls_pending ls' = ls_pending ls ∧ ls_out_of_mempool ls' = ls_out_of_mempool ls.
Proof.
  destruct ls as [changes pending out fresh]. unfold candidate_step.
  destruct (decide (txid ∈ out)) as [Hin|Hout]; [by right|].
  unfold mbind, Svc_bind, fetch. set (w1 := mkWorld _ _ _ _ (S _) _).
  destruct (get_mempool_cluster (w_calls w) txid) as [cluster|e] eqn:Eans.
  - destruct (gmc_txids cluster) as [|first rest] eqn:Et; simpl; [left; set_solver|].
    pose proof (place_group_covered cluster first changes pending
      (out ∪ list_to_set (first :: rest)) fresh (assert_present (first :: rest) w1).2) as Hp.
    destruct (node_answers_about _ _ _ Eans) as [Hn|Hin]; [congruence|].
    simpl in Hp. destruct (place_group _ _ _ _) as [ls' w']. simpl in Hp. left. rw Hp.
    rw Et in Hin. set_solver.
  - destruct e; simpl; first [by right|left; set_solver].
Qed.

(** The universe of a queue: whatever may still have to be asked about. *)
Definition within (T : gset string) (ls : LoopState) (w : World) : Prop :=
  (∀ t, t ∈ ls_pending ls → t ∈ T ∪ ls_out_of_mempool ls) ∧
  (∀ t, clustered (w_actives w) t → t ∈ T ∪ ls_out_of_mempool ls).

Lemma within_turn T ls ls' w w' : within T ls w → turn ls ls' w w' → within T ls' w'.
Proof.
  intros [Hp Hc] (Hsub & (extra & Heq & Hex) & Hgrow). split.
  - intros t. rw Heq. intros [Ht|Ht]%elem_of_app; [apply Hp in Ht; set_solver|].
    destruct (Hex t Ht) as [Hcl _]. apply Hc in Hcl. set_solver.
  - intros t Hcl. destruct (Hgrow t Hcl) as [Hcl'|]; [apply Hc in Hcl'|]; set_solver.
Qed.

Lemma candidates_loop_cons fuel changes txid pending out fresh w :
  candidates_loop (S fuel) (mkLoopState changes (txid :: pending) out fresh) w =
  let '(ls', w') := candidate_step txid (mkLoopState changes pending out fresh) w in
  candidates_loop fuel ls' w'.
Proof.
  change (candidates_loop (S fuel) (mkLoopState changes (txid :: pending) out fresh))
    with (ls ← lift (candidate_step txid (mkLoopState changes pending out fresh));
          candidates_loop fuel ls).
  unfold mbind, Run_bind, lift. by destruct (candidate_step _ _ w).
Qed.

Lemma candidates_loop_nil fuel changes out fresh w :
  candidates_loop fuel (mkLoopState changes [] out fresh) w
  = Some (mkLoopState changes [] out fresh, w).
Proof. by destruct fuel. Qed.

Lemma candidates_loop_total T w0 k n ls w :
  loop_inv w0 ls w → within T ls w →
  (size (T ∖ ls_out_of_mempool ls) ≤ k)%nat → (length (ls_pending ls) ≤ n)%nat →
  settles (λ fuel, candidates_loop fuel ls) w (loop_inv w0).
Proof.
  revert n ls w. induction k as [k IHk] using lt_wf_ind. intros n.
  induction n as [n IHn] using lt_wf_ind. intros ls w Hinv Hwi Hk Hn.
  destruct ls as [changes [|txid pending] out fresh]; simpl in Hk, Hn.
  { eexists _, w. split; [|exact Hinv]. apply converges_always. intros. apply candidates_loop_nil. }
  set (ls0 := mkLoopState changes pending out fresh).
  pose proof (candidate_step_turn w0 txid ls0 w Hinv) as Ht.
  pose proof (candidate_step_progress txid ls0 w) as Hpr.
  assert (within T ls0 w) as Hwi0.
  { destruct Hwi as [Hp Hc]. split; [|done]. intros t Hin. apply Hp. by right. }
  destruct (candidate_step txid ls0 w) as [ls' w'] eqn:Est. destruct Ht as [Hinv' Hturn].
  pose proof (within_turn _ _ _ _ _ Hwi0 Hturn) as Hwi'.
  assert (settles (λ fuel, candidates_loop fuel ls') w' (loop_inv w0))
    as (ls2 & w2 & [Hu [f0 Hf0]] & Hinv2).
  { destruct Hpr as [Hcov|[Hsame Hout]].
    - destruct (decide (txid ∈ out)) as [Hin|Hnin].
      + (* the txid was already covered: the turn changed nothing *)
        assert (ls' = ls0) as ->.
        { unfold candidate_step in Est. simpl in Est. rw decide_True // in Est.
          unfold mret, Svc_ret in Est. by simplify_eq. }
        eapply (IHn (length pending)); [lia|done..].
      + assert (txid ∈ T) as HT.
        { destruct Hwi as [Hp _]. specialize (Hp txid (list_elem_of_here _ _)). set_solver. }
        eapply (IHk (size (T ∖ ls_out_of_mempool ls'))); [|done|done|done|done].
        eapply Nat.lt_le_trans; [|exact Hk]. apply subset_size.
        destruct Hturn as (Hsub & _). split; [set_solver|].
        intros Hs. assert (txid ∈ T ∖ out) as Hd by set_solver.
        apply Hs in Hd. set_solver.
    - eapply (IHn (length (ls_pending ls'))); [rw Hsame; simpl; lia|done|done| |done].
      rw Hout. done. }
  assert (∀ fuel, candidates_loop (S fuel) (mkLoopState changes (txid :: pending) out fresh) w
    = candidates_loop fuel ls' w') as Hcons
    by (intros fuel; rw candidates_loop_cons; fold ls0; by rw Est).
  exists ls2, w2. split; [split|done].
  - intros [|fuel]; [by left|]. rw Hcons. apply Hu.
  - exists (S f0). intros [|fuel] Hle; [lia|]. rw Hcons. apply Hf0. lia.
Qed.

(** ** The batched insert *)

Lemma lookup_with_rows rows m id s :
  with_rows rows m !! id = Some s →
  (∃ cl, cl ∈ rows ∧ cl_id cl = id ∧ s = cluster_state cl) ∨ m !! id = Some s.
Proof.
  unfold with_rows. intros [Hl|[_ ?]]%lookup_union_Some_raw; [|by right]. left.
  apply elem_of_list_to_map_2 in Hl. apply list_elem_of_fmap in Hl as (cl & [= -> ->] & ?).
  eauto.
Qed.

Lemma disjoint_with_rows rows m :
  disjoint_clusters m → NoDup (rows ≫= cl_txids) →
  (∀ t, t ∈ rows ≫= cl_txids → unclustered m t) → disjoint_clusters (with_rows rows m).
Proof.
  intros Hd. induction rows as [|c rows IH]; intros Hnd Hun.
  { unfold with_rows. simpl. by rw left_id_L. }
  rw bind_cons in Hnd Hun. apply NoDup_app in Hnd as (_ & Hdis & Hnd).
  rw with_rows_cons. apply disjoint_insert.
  - apply IH; [done|]. intros t Ht. apply Hun, elem_of_app. by right.
  - intros t id s Ht [(cl & Hcl & _ & ->)|Hid]%lookup_with_rows Hin; exfalso.
    + apply (Hdis t Ht). apply list_elem_of_bind. by exists cl.
    + apply (Hun t) in Hid; [done|]. apply elem_of_app. by left.
Qed.

(** The singletons to insert, one txid each. *)
Lemma fresh_txids fresh m :
  fresh_ok fresh m →
  Forall new_ok (snd <$> iter_map fresh) ∧
  ((nc_chunks <$> (snd <$> iter_map fresh)) ≫= chunks_txids) = fst <$> iter_map fresh.
Proof.
  intros Hf. assert (∀ t c, (t, c) ∈ iter_map fresh → chunks_txids (nc_chunks c) = [t] ∧ new_ok c)
    as Hall by (intros t c Hin%elem_of_iter_map; by destruct (Hf t c Hin) as (? & ? & _)).
  induction (iter_map fresh) as [|[t c] l IH]; [done|].
  destruct IH as [IH1 IH2]; [intros t' c' Hin; apply Hall; by right|].
  destruct (Hall t c) as [Ht Hc]; [left|]. rw !fmap_cons bind_cons IH2 /= Ht. split; [|done].
  by constructor.
Qed.

Lemma rows_txids (rows : list Cluster) :
  rows ≫= cl_txids = (cl_chunks <$> rows) ≫= chunks_txids.
Proof. induction rows as [|r rows IH]; [done|]. rw fmap_cons !bind_cons IH. done. Qed.

(** The rows of a (possibly partial) batch are disjoint singletons. *)
Lemma added_clusters_ok fresh w w' rows :
  fresh_ok fresh (w_actives w) → clusters_ok (w_actives w) →
  added rows (w_db w) (w_db w') →
  cl_chunks <$> rows ⊆+ nc_chunks <$> (snd <$> iter_map fresh) →
  clusters_ok (w_actives w').
Proof.
  intros Hf [Hd Hsz] Had Hsub. unfold w_actives. rw (ad_active _ _ _ Had).
  destruct (fresh_txids _ _ Hf) as [Hnew Hkeys]. split.
  2:{ intros id s [(cl & Hcl & _ & ->)|Hid]%lookup_with_rows; [|by eapply Hsz].
    assert (cl_chunks cl ∈ nc_chunks <$> (snd <$> iter_map fresh)) as Hin.
    { eapply elem_of_submseteq; [|exact Hsub]. apply list_elem_of_fmap. eauto. }
    apply list_elem_of_fmap in Hin as (c & Heq & Hc). rw Forall_forall in Hnew.
    simpl. rw Heq. by apply Hnew. }
  assert (rows ≫= cl_txids ⊆+ fst <$> iter_map fresh) as Hsubt.
  { rw rows_txids -Hkeys. apply submseteq_Permutation in Hsub as [k Hk].
    rw Hk bind_app. by apply submseteq_inserts_r. }
  apply disjoint_with_rows; [done|..].
  - apply submseteq_Permutation in Hsubt as [k Hk]. pose proof (NoDup_fst_iter_map fresh) as Hnd.
    rw Hk in Hnd. by apply NoDup_app in Hnd as [? _].
  - intros t Ht. eapply elem_of_submseteq in Ht; [|exact Hsubt].
    apply list_elem_of_fmap in Ht as ([t' c] & -> & Hin%elem_of_iter_map).
    by destruct (Hf t' c Hin) as (_ & _ & ?).
Qed.

Lemma insert_fresh_yields w0 ls w :
  loop_inv w0 ls w → let '(d, w') := insert_fresh ls w in yields w0 d w'.
Proof.
  intros [Hy Hf]. unfold insert_fresh. destruct (decide _); [done|].
  unfold mbind, Svc_bind, call.
  destruct (fresh_txids _ _ Hf) as [Hnew _].
  pose proof (insert_many_updates (w_db w) (snd <$> iter_map (ls_fresh ls))
    (proj1 (y_ok _ _ _ Hy)) Hnew (w_conn w) eq_refl) as Hc.
  destruct (ClusterRepo.insert_many_with_members _ (w_conn w)) as [[rows|e] c]; simpl.
  - destruct Hc as (Hi & Had & Hch). set (w' := mkWorld _ _ _ _ _ _).
    eapply (yields_step w0 _ w); [exact Hy|split; [exact Hi|]| |done|done|].
    + eapply (added_clusters_ok _ w w'); [exact Hf|apply Hy|exact Had|by rw Hch].
    + apply delta_ok_rows, Hy.
    + intros _ Hm. rw apply_rows; [|apply Had|apply Had]. rw Hm. apply (ad_active _ _ _ Had).
  - destruct Hc as (Hi & (rows & Had & Hch & Hone)%committed_part).
    set (w' := mkWorld c _ _ _ _ (w_log w ++ _)).
    eapply (yields_step w0 _ w); [exact Hy|split; [exact Hi|]|apply Hy|done|..].
    + eapply (added_clusters_ok _ w w'); [exact Hf|apply Hy|exact Had|exact Hch].
    + unfold unbroken. simpl. intros Hu. by apply Forall_app in Hu as [? _].
    + unfold unbroken at 1. simpl. intros Hu Hm. apply Forall_app in Hu as [_ Hl].
      apply Forall_cons in Hl as [Hl _].
      rw (Hone Hl) in Had. transitivity (w_actives w); [|by rw Hm].
      rw /w_actives (ad_active _ _ _ Had). unfold with_rows. simpl. by rw left_id_L.
Qed.
End queue.

End ClusterRounds.
