(* ===== verification/ClusterSync.v ===== *)
(** * Whole resync rounds

    The entry points of the cluster service, [sync_clusters] and [confirm_mined]:
    they return, keep the stored clusters disjoint and leave the snapshot (and with it
    every client) equal to the active clusters of the database. *)

From S2P Require Import Prelude.
From S2P Require Import Models.
From S2P Require Import Database.
From S2P Require Import ClusterRepo.
From S2P Require Import ClusterRepoFacts.
From S2P Require Import ClusterWrites.
From S2P Require Import ClusterInv.
From S2P Require Import ClusterHistory.
From S2P Require Import ClusterThms.
From S2P Require Import ClusterSnapshot.
From S2P Require Import Ledger.
From S2P Require Import MempoolRepo.
From S2P Require Import TxRepo.
From S2P Require Import ClusterService.
From S2P Require Import ClusterActive.
From S2P Require Import ClusterServiceFacts.
From S2P Require Import ClusterRounds.

Open Scope Z_scope.

Module ClusterSync.
Import Database ClusterRepoFacts ClusterInv ClusterThms ClusterService ClusterActive
  ClusterServiceFacts ClusterRounds.

(** ** Calls that change no cluster *)

Record calm (w w' : World) : Prop := {
  k_ok : store_ok w → store_ok w';
  k_actives : w_actives w' = w_actives w;
  k_snapshot : w_out w' = w_out w;
  k_log : unbroken w' ↔ unbroken w;
}.

Lemma calm_refl w : calm w w.
Proof. by split. Qed.

Lemma calm_trans w1 w2 w3 : calm w1 w2 → calm w2 w3 → calm w1 w3.
Proof.
  intros [A1 A2 A3 A4] [B1 B2 B3 B4]. split; [tauto|congruence|congruence|by rw B4].
Qed.

Lemma calm_log l w : harmless l → calm w (log l w).2.
Proof. intros Hl. destruct (quiet_log l w Hl) as [Q1 Q2 Q3]. by split. Qed.

Lemma yields_calm w0 d w w' : yields w0 d w → calm w w' → yields w0 d w'.
Proof.
  intros Hy [C1 C2 C3 C4]. eapply yields_step; [exact Hy|apply C1, Hy|apply Hy|done|tauto|].
  intros _ Hm. by rw C2 Hm.
Qed.

Lemma calm_yields w w' : store_ok w → calm w w' → yields w no_changes w'.
Proof. intros Hok. by apply yields_calm, yields_refl. Qed.

Lemma calm_then w w1 d w2 : calm w w1 → yields w1 d w2 → yields w d w2.
Proof.
  intros [C1 C2 C3 C4] [Y1 Y2 Y3 Y4 Y5]. split; [done|done|congruence|tauto|].
  intros Hu. by rw (Y5 Hu) C2.
Qed.

(** ** Total correctness of calls with a loop *)

Lemma settles_ret {A} (a : A) w (Q : A → World → Prop) : Q a w → settles (λ _, mret a) w Q.
Proof. intros HQ. exists a, w. split; [|done]. by apply converges_always. Qed.

Lemma settles_lift {A B} (m : Svc A) (k : nat → A → Run B) w (Q : B → World → Prop) :
  (let '(a, w') := m w in settles (λ fuel, k fuel a) w' Q) →
  settles (λ fuel, a ← lift m; k fuel a) w Q.
Proof.
  unfold settles, converges, mbind, Run_bind, lift. by destruct (m w).
Qed.

Lemma settles_lift_ret {A} (m : Svc A) w (Q : A → World → Prop) :
  (let '(a, w') := m w in Q a w') → settles (λ _, lift m) w Q.
Proof.
  unfold lift. destruct (m w) as [a w'] eqn:E. intros HQ. exists a, w'.
  split; [|done]. apply converges_always. by rw E.
Qed.

Lemma settles_bind {A B} (m : nat → Run A) (k : nat → A → Run B) w Q R :
  settles m w Q → (∀ a w', Q a w' → settles (λ fuel, k fuel a) w' R) →
  settles (λ fuel, a ← m fuel; k fuel a) w R.
Proof.
  intros (a & w1 & [Hu1 [f1 Hf1]] & HQ) Hk.
  destruct (Hk a w1 HQ) as (b & w2 & [Hu2 [f2 Hf2]] & HR).
  exists b, w2. split; [split|done]; unfold mbind, Run_bind.
  - intros fuel. destruct (Hu1 fuel) as [-> | ->]; [by left|apply Hu2].
  - exists (f1 `max` f2)%nat. intros fuel Hle. rw Hf1; [|lia]. apply Hf2. lia.
Qed.

Lemma settles_conseq {A} (m : nat → Run A) w (Q R : A → World → Prop) :
  settles m w Q → (∀ a w', Q a w' → R a w') → settles m w R.
Proof. intros (a & w' & Hf & HQ) HR. exists a, w'. split; [done|by apply HR]. Qed.

(** Every member of an active cluster. *)
Definition members (m : gmap Z Snapshot.ClusterState) : gset string :=
  list_to_set (map_to_list m ≫= λ kv, Snapshot.cs_txids kv.2).

Lemma elem_of_members m t : t ∈ members m ↔ clustered m t.
Proof.
  unfold members, clustered. rw elem_of_list_to_set list_elem_of_bind. split.
  - intros ([id s] & Ht & Hin%elem_of_map_to_list). eauto.
  - intros (id & s & Hid & Ht). exists (id, s). split; [done|]. by apply elem_of_map_to_list.
Qed.

(** ** Trimming a cluster by a block *)

(** What the block leaves of one chunk: all of it, nothing, or its mined members. *)
Definition mined_part (block : MinedBlock) (c : ClusterChunk) : option ClusterChunk :=
  let mined := filter (λ t, contains block t = true) (chunk_txids c) in
  if decide (Forall (λ t, contains block t = true) (chunk_txids c)) then Some c
  else match mined with [] => None | _ => Some (split_chunk block mined) end.

Lemma trim_chunk_part block mined pending c :
  trim_chunk block (mined, pending) c
  = (mined ++ option_list (mined_part block c),
     pending ++ filter (λ t, contains block t = false) (chunk_txids c)).
Proof.
  unfold trim_chunk, mined_part. f_equal. destruct (decide _) as [Hall|Hall].
  - rw (proj2 (filter_nil_iff (λ t, contains block t = false) _)); [done|].
    rw Forall_forall in Hall. intros t Ht. by rw Hall.
  - destruct (filter (λ t, contains block t = false) (chunk_txids c)) as [|x xs] eqn:El.
    + exfalso. apply Hall, Forall_forall. intros t Ht.
      apply (proj1 (filter_nil_iff _ _) El) in Ht. by destruct (contains block t).
    + destruct (filter (λ t, contains block t = true) _); [by rw app_nil_r|done].
Qed.

Lemma trim_fold block chunks mined pending :
  foldl (trim_chunk block) (mined, pending) chunks
  = (mined ++ omap (mined_part block) chunks,
     pending ++ filter (λ t, contains block t = false) (chunks_txids chunks)).
Proof.
  revert mined pending. induction chunks as [|c chunks IH]; intros mined pending.
  { simpl. by rw !app_nil_r. }
  cbn [foldl]. rw trim_chunk_part IH -!app_assoc. unfold chunks_txids. rw bind_cons filter_app.
  by rw omap_cons.
Qed.

Lemma new_mined_trim_eq cluster block :
  new_mined_trim cluster block
  = mkMinedTrim (cl_id cluster) (omap (mined_part block) (cl_chunks cluster))
      (filter (λ t, contains block t = false) (cl_txids cluster)).
Proof. unfold new_mined_trim. by rw trim_fold. Qed.

Lemma mined_part_txids block c :
  chunks_txids (option_list (mined_part block c))
  = filter (λ t, contains block t = true) (chunk_txids c).
Proof.
  unfold mined_part, chunks_txids. destruct (decide _) as [Hall|Hall].
  - simpl. rw app_nil_r filter_all //.
  - destruct (filter _ _); [done|]. simpl. by rw app_nil_r.
Qed.

Lemma mined_txids block chunks :
  chunks_txids (omap (mined_part block) chunks)
  = filter (λ t, contains block t = true) (chunks_txids chunks).
Proof.
  induction chunks as [|c chunks IH]; [done|]. rw omap_cons. unfold chunks_txids at 2.
  rw bind_cons filter_app -mined_part_txids. change (chunks ≫= chunk_txids) with (chunks_txids chunks).
  by rw -IH chunks_txids_app.
Qed.

Lemma split_chunk_ok block txids : chunk_ok (split_chunk block txids).
Proof. split; apply to_u64_range. Qed.

Lemma mined_parts_ok block chunks :
  Forall chunk_ok chunks → Forall chunk_ok (omap (mined_part block) chunks).
Proof.
  rw !Forall_forall. intros Hok c (c0 & Hin & Hc)%list_elem_of_omap. unfold mined_part in Hc.
  case_guards; [simplify_eq; by apply Hok|].
  destruct (filter _ _); simplify_eq. apply split_chunk_ok.
Qed.

Lemma trim_update_ok cluster block :
  (length (cl_chunks cluster) ≤ MAX_CHUNKS)%nat → Forall chunk_ok (cl_chunks cluster) →
  update_ok (as_update (new_mined_trim cluster block)).
Proof.
  intros Hlen Hch. rw new_mined_trim_eq. split; [|by apply mined_parts_ok]. simpl.
  etrans; [|exact Hlen]. clear. induction (cl_chunks cluster) as [|c l IH]; [done|].
  rw omap_cons length_app. destruct (mined_part block c); simpl; lia.
Qed.

Section sync.
Context `{EnumOrder, BitcoinUnits, Env}.
Context (get_mempool_cluster : nat → string → result ObserverError GetMempoolClusterModel).

Lemma call_reads {A} (m : RepoM A) (Q : A → Prop) w :
  updates (w_db w) m (λ a db', db' = w_db w ∧ Q a) → store_ok w →
  let '(r, w') := call m w in
  calm w w' ∧ match r with Ok a => w_db w' = w_db w ∧ Q a | Err _ => True end.
Proof.
  intros Hu [Hi Hok]. pose proof (call_updates m _ w Hu) as Hc.
  destruct (call m w) as [r w']. destruct Hc as (Hs & Hl & _ & _ & Hi' & Hr).
  assert (w_actives w' = w_actives w) as Ha
    by (destruct r; [unfold w_actives; by rw (proj1 Hr)|done]).
  split; [|by destruct r]. split; [|done|done|unfold unbroken; by rw Hl].
  intros _. split; [done|by rw Ha].
Qed.

(** The clusters a lookup returns: active ones, each once. *)
Definition loaded (cls : list Cluster) (w : World) : Prop :=
  NoDup (cl_id <$> cls) ∧
  ∀ cl, cl ∈ cls → cl_status cl = Active ∧ Forall chunk_ok (cl_chunks cl) ∧
    w_actives w !! cl_id cl = Some (cluster_state cl).

Lemma loaded_nil w : loaded [] w.
Proof. split; [constructor|by intros ? ?%not_elem_of_nil]. Qed.

Lemma loaded_calm cls w w' : calm w w' → loaded cls w → loaded cls w'.
Proof. intros Hc [Hnd Hl]. split; [done|]. by rw (k_actives _ _ Hc). Qed.

Lemma version_chunks_ok db id v : Forall chunk_ok (ClusterRepo.version_chunks db id v).
Proof.
  apply Forall_forall. intros c (kv & -> & _)%list_elem_of_fmap.
  split; apply to_u64_range.
Qed.

Lemma load_by_ids_loaded w ids :
  store_ok w → (∀ id, id ∈ ids → is_Some (w_actives w !! id)) →
  loaded (ClusterRepo.load_clusters (ClusterRepo.ByIds ids) (w_db w)) w.
Proof.
  intros [Hi _] Hids. pose proof Hi as [Hok _]. split.
  - apply load_clusters_NoDup. intros; by eapply rows_ok_key.
  - intros cl Hcl. destruct (loaded_clusters w ids cl Hi Hids Hcl) as (Ha & _ & Hl).
    split; [done|]. split; [|done].
    apply elem_of_load_clusters in Hcl as (row & _ & _ & ->); [|intros; by eapply rows_ok_key].
    apply version_chunks_ok.
Qed.

(** Looking up the active clusters that contain one of [txids]. *)
Lemma find_ids_calm w txids :
  store_ok w →
  let '(r, w') := call (ClusterRepo.find_active_ids_by_txids txids) w in
  calm w w' ∧ match r with Ok ids => w_db w' = w_db w ∧ overlapping txids ids w | Err _ => True end.
Proof. intros Hok. apply call_reads; [|done]. apply find_active_ids_updates, Hok. Qed.

Lemma find_by_ids_calm w txids ids :
  store_ok w → overlapping txids ids w →
  let '(r, w') := call (ClusterRepo.find_by_ids ids) w in
  calm w w' ∧ match r with Ok cls => loaded cls w' | Err _ => True end.
Proof.
  intros Hok Hov.
  pose proof (call_reads _ _ w (find_by_ids_updates (w_db w) ids (proj1 Hok)) Hok) as Hc.
  destruct (call _ w) as [r w']. destruct Hc as [Hc Hr]. split; [done|].
  destruct r as [cls|]; [|done]. destruct Hr as [_ ->]. apply (loaded_calm _ _ _ Hc).
  apply load_by_ids_loaded; [done|]. intros id (t & s & _ & Hs & _)%Hov. eauto.
Qed.

Lemma calm_overlapping w w' txids ids :
  calm w w' → overlapping txids ids w → overlapping txids ids w'.
Proof. intros Hc Hov id. by rw (k_actives _ _ Hc). Qed.

Lemma find_active_clusters_calm w txids :
  store_ok w →
  let '(cls, w') := find_active_clusters_containing txids w in calm w w' ∧ loaded cls w'.
Proof.
  intros Hok. unfold find_active_clusters_containing. unfold mbind, Svc_bind.
  pose proof (find_ids_calm w txids Hok) as Hc.
  destruct (call _ w) as [[ids|e] w1]; destruct Hc as [Hc Hr].
  2:{ split; [|apply loaded_nil]. eapply calm_trans; [exact Hc|by apply calm_log]. }
  destruct ids as [|i ids]; [by split; [|apply loaded_nil]|].
  destruct Hr as [_ Hov].
  pose proof (find_by_ids_calm w1 txids (i :: ids) (k_ok _ _ Hc Hok)
    (calm_overlapping _ _ _ _ Hc Hov)) as Hf.
  destruct (call _ w1) as [[cls|e] w2]; destruct Hf as [Hf Hl].
  - split; [by eapply calm_trans|done].
  - split; [|apply loaded_nil]. eapply calm_trans; [exact Hc|].
    eapply calm_trans; [exact Hf|by apply calm_log].
Qed.

(** ** Confirming *)

Lemma loaded_filter (P : Cluster → Prop) `{∀ c, Decision (P c)} cls w :
  loaded cls w → loaded (filter P cls) w.
Proof.
  intros [Hnd Hl]. split.
  - eapply sublist_NoDup; [exact Hnd|]. apply fmap_sublist, sublist_filter.
  - intros cl [_ Hcl]%list_elem_of_filter. by apply Hl.
Qed.

Lemma confirm_full_yields w0 block full changes w :
  yields w0 changes w → 
  let '(d, w') := confirm_full block full changes w in
  yields w0 d w' ∧ 
  (∀ id, id ∉ cl_id <$> full → w_actives w' !! id = w_actives w !! id) ∧
  w_actives w' ⊆ w_actives w.
Proof.
  intros Hy. unfold confirm_full. destruct (cl_id <$> full) as [|i ids] eqn:Ei; [done|].
  unfold mbind, Svc_bind.
  pose proof (call_updates _ _ w (confirm_many_updates (w_db w) (i :: ids) (mb_confirmed_at block)
    (proj1 (y_ok _ _ _ Hy)))) as Hc.
  destruct (call _ w) as [[n|e] w']; destruct Hc as (Hs & Hl & _ & _ & Hi & Hq); cbv iota.
  - split; [by eapply yields_without|]. unfold w_actives. rw Hq. split; [|apply without_subseteq].
    intros id Hid. by rw lookup_without decide_False.
  - assert (yields w0 changes w') as Hy' by by eapply yields_failed.
    assert (calm w' (log ConfirmFailed w').2) as Hk by by apply calm_log.
    split; [by eapply yields_calm|]. cbn [mret Svc_ret]. rw (k_actives _ _ Hk) Hq. done.
Qed.

Lemma confirm_partial_yields w0 block partial changes w :
  yields w0 changes w → loaded partial w →
  let '(r, w') := confirm_partial block partial changes w in yields w0 r.1 w'.
Proof.
  intros Hy Hl. unfold confirm_partial. destruct partial as [|c cs] eqn:Ec; [done|].
  rw -Ec in Hl |- *. unfold mbind, Svc_bind. set (trims := _ <$> partial).
  assert (∀ cl, mt_cluster_id (new_mined_trim cl block) = cl_id cl) as Hid
    by (intros cl; by rw new_mined_trim_eq).
  assert (mt_cluster_id <$> trims = cl_id <$> partial) as Hids.
  { subst trims. rw -list_fmap_compose. apply list_fmap_ext. intros ? cl _. apply Hid. }
  assert (ClusterRepo.cvu_cluster_id <$> (as_update <$> trims) = cl_id <$> partial) as Hids'.
  { rw -Hids -list_fmap_compose. done. }
  assert (NoDup (ClusterRepo.cvu_cluster_id <$> (as_update <$> trims))) as Hnd
    by (rw Hids'; apply Hl).
  assert (Forall update_ok (as_update <$> trims)) as Hup.
  { apply Forall_forall.
    intros u (x & -> & (cl & -> & Hcl)%list_elem_of_fmap)%list_elem_of_fmap.
    destruct (proj2 Hl cl Hcl) as (_ & Hch & Ha). apply trim_update_ok; [|done].
    by apply (proj2 (proj2 (y_ok _ _ _ Hy)) _ _ Ha). }
  pose proof (call_updates _ _ w (trim_and_confirm_updates (w_db w) (as_update <$> trims)
    (mb_confirmed_at block) (proj1 (y_ok _ _ _ Hy)) Hnd Hup)) as Hc.
  destruct (call _ w) as [[n|e] w']; destruct Hc as (Hs & Hlog & _ & _ & Hi & Hq).
  - cbn. rw Hids. eapply yields_without; [exact Hy|done| |done|done]. by rw -Hids'.
  - eapply yields_calm; [by eapply yields_failed|by apply calm_log].
Qed.

(** ** Placing candidates *)

Context (node_ok : ∀ n t m, get_mempool_cluster n t = Ok m → answer_ok m).
Context (node_answers_about :
  ∀ n t m, get_mempool_cluster n t = Ok m → gmc_txids m = [] ∨ t ∈ gmc_txids m).

(** From [w0], a round that reached [w] with [d] collected. *)
Local Abbreviation round w0 := (λ (d : ClusterDeltaSet) (w : World), yields w0 d w).

Lemma handle_candidates_covering_settles txids out w :
  store_ok w →
  settles (λ fuel, handle_candidates_covering get_mempool_cluster fuel txids out) w (round w).
Proof.
  intros Hok. unfold handle_candidates_covering.
  set (ls := mkLoopState no_changes txids out ∅). set (T := list_to_set txids ∪ members (w_actives w)).
  eapply settles_bind.
  - eapply (candidates_loop_total get_mempool_cluster node_ok node_answers_about T w).
    + split; [by apply yields_refl|]. intros t c. simpl. by rw lookup_empty.
    + split; simpl; intros t; [set_solver|]. rw -elem_of_members. set_solver.
    + done.
    + done.
  - intros ls' w' Hinv. apply settles_lift_ret. by apply insert_fresh_yields.
Qed.

Lemma confirm_mined_inner_settles block w :
  store_ok w →
  settles (λ fuel, confirm_mined_inner get_mempool_cluster fuel block) w (round w).
Proof.
  intros Hok. apply settles_lift.
  pose proof (find_active_clusters_calm w (mb_txids block) Hok) as Hf.
  destruct (find_active_clusters_containing _ w) as [cls w1]. destruct Hf as [Hc Hl].
  set (full := filter (λ c, fully_mined block c = true) cls).
  set (partial := filter (λ c, fully_mined block c = false) cls).
  assert (store_ok w1) as Hok1 by by apply (k_ok _ _ Hc).
  apply settles_lift.
  pose proof (confirm_full_yields w1 block full no_changes w1 (yields_refl _ Hok1)) as Hfull.
  destruct (confirm_full _ _ _ w1) as [d2 w2]. destruct Hfull as (Hy2 & Hkeep & _).
  assert (loaded partial w2) as Hl2.
  { destruct (loaded_filter (λ c, fully_mined block c = false) cls w1 Hl) as [Hnd Hp].
    split; [done|]. intros cl Hcl. destruct (Hp cl Hcl) as (Ha & Hch & Hs).
    split; [done|]. split; [done|]. rw Hkeep //.
    intros (cl' & Heq & [Hm' Hin']%list_elem_of_filter)%list_elem_of_fmap.
    apply list_elem_of_filter in Hcl as [Hm Hin].
    assert (cl = cl') as -> by (by eapply (NoDup_key_eq cl_id); [apply Hl|..]). congruence. }
  apply settles_lift.
  pose proof (confirm_partial_yields w1 block partial d2 w2 Hy2 Hl2) as Hpart.
  destruct (confirm_partial _ _ _ w2) as [[d3 [pending|]] w3]; simpl in Hpart.
  - eapply settles_bind; [apply handle_candidates_covering_settles, Hpart|].
    intros d4 w4 Hy4. apply settles_ret. eapply calm_then; [exact Hc|]. by eapply yields_merge.
  - apply settles_ret. by eapply calm_then.
Qed.

Lemma confirm_blocks_settles blocks w0 d w :
  yields w0 d w →
  settles (λ fuel, confirm_blocks get_mempool_cluster fuel blocks d) w (round w0).
Proof.
  revert d w. induction blocks as [|b blocks IH]; intros d w Hy; [by apply settles_ret|].
  cbn [confirm_blocks]. eapply settles_bind; [by apply confirm_mined_inner_settles, Hy|].
  intros more w' Hy'. apply IH. by eapply yields_merge.
Qed.

Lemma mined_members_calm w txids :
  store_ok w → calm w (mined_members txids w).2.
Proof.
  intros Hok. unfold mined_members, mbind, Svc_bind.
  pose proof (find_ids_calm w txids Hok) as Hc.
  destruct (call _ w) as [[ids|e] w1]; destruct Hc as [Hc Hr];
    [|eapply calm_trans; [exact Hc|by apply calm_log]].
  destruct ids as [|i ids]; [done|]. destruct Hr as [_ Hov].
  pose proof (find_by_ids_calm w1 txids (i :: ids) (k_ok _ _ Hc Hok)
    (calm_overlapping _ _ _ _ Hc Hov)) as Hf.
  destruct (call _ w1) as [[cls|e] w2]; destruct Hf as [Hf Hl];
    eapply (calm_trans _ _ _ Hc); [|eapply calm_trans; [exact Hf|by apply calm_log]].
  assert (store_ok w2) as Hok2 by by apply (k_ok _ _ Hf), (k_ok _ _ Hc).
  pose proof (call_reads (TxRepo.find_mined_by_txids (cls ≫= cl_txids)) (λ _, True) w2) as Ht.
  destruct (call _ w2) as [[rows|e] w3]; destruct Ht as [Ht _]; try done;
    [|by eapply calm_trans|..|eapply calm_trans; [exact Hf|eapply calm_trans; [exact Ht|by apply calm_log]]];
    (apply reads_intro; [apply Hok2|]; apply repo_triple_query; [done|];
     apply triple_select; [done|]; by intros ? ->).
Qed.

Lemma handle_confirmed_settles txids w :
  store_ok w → settles (λ fuel, handle_confirmed get_mempool_cluster fuel txids) w (round w).
Proof.
  intros Hok. apply settles_lift. pose proof (mined_members_calm w txids Hok) as Hc.
  destruct (mined_members txids w) as [[rows|] w1]; simpl in Hc.
  - apply confirm_blocks_settles. by apply calm_yields.
  - apply settles_ret. by apply calm_yields.
Qed.

(** ** Evictions *)

Lemma load_evicted_calm w txids :
  store_ok w → calm w (load_evicted txids w).2.
Proof.
  intros Hok. unfold load_evicted, mbind, Svc_bind.
  pose proof (find_ids_calm w txids Hok) as Hc.
  destruct (call _ w) as [[ids|e] w1]; destruct Hc as [Hc Hr];
    [|eapply calm_trans; [exact Hc|by apply calm_log]].
  destruct ids as [|i ids]; [done|]. destruct Hr as [_ Hov].
  pose proof (find_by_ids_calm w1 txids (i :: ids) (k_ok _ _ Hc Hok)
    (calm_overlapping _ _ _ _ Hc Hov)) as Hf.
  destruct (call _ w1) as [[cls|e] w2]; destruct Hf as [Hf Hl]; [by eapply calm_trans|].
  eapply calm_trans; [exact Hc|]. eapply calm_trans; [exact Hf|by apply calm_log].
Qed.

Lemma close_emptied_yields w ids :
  store_ok w → let '(d, w') := close_emptied ids w in yields w d w'.
Proof.
  intros Hok. unfold close_emptied. destruct ids as [|i ids]; [by apply yields_refl|].
  unfold mbind, Svc_bind, ClusterRepo.mark_evicted.
  pose proof (call_updates _ _ w (close_many_updates (w_db w) (i :: ids)
    ClusterRepo.ClosingEvicted (proj1 Hok))) as Hc.
  destruct (call _ w) as [[n|e] w']; destruct Hc as (Hs & Hl & _ & _ & Hi & Hq).
  - eapply yields_without; [by apply yields_refl|done..].
  - eapply yields_calm; [|by apply calm_log].
    eapply yields_failed; [by apply yields_refl|done..].
Qed.

Lemma handle_evicted_settles txids w :
  store_ok w → settles (λ fuel, handle_evicted get_mempool_cluster fuel txids) w (round w).
Proof.
  intros Hok. destruct txids as [|t ts]; [by apply settles_ret, yields_refl|].
  apply settles_lift. pose proof (load_evicted_calm w (t :: ts) Hok) as Hc.
  destruct (load_evicted (t :: ts) w) as [[cls|] w1]; simpl in Hc;
    [|by apply settles_ret, calm_yields].
  apply settles_lift. unfold with_live.
  destruct (foldl _ _ cls) as [emptied survivors].
  apply settles_lift. pose proof (close_emptied_yields w1 emptied (k_ok _ _ Hc Hok)) as He.
  destruct (close_emptied emptied w1) as [d w2]. apply (calm_then _ _ _ _ Hc) in He.
  destruct survivors as [|x xs]; [by apply settles_ret|].
  eapply settles_bind; [apply handle_candidates_covering_settles, He|].
  intros d' w' Hy'. apply settles_ret. by eapply yields_merge.
Qed.

(** ** Rounds *)

Lemma when_nonempty_settles txids w0 d w stage :
  yields w0 d w → (∀ w, store_ok w → settles (λ fuel, stage fuel txids) w (round w)) →
  settles (λ fuel, when_nonempty txids d (stage fuel)) w (round w0).
Proof.
  intros Hy Hst. unfold when_nonempty. destruct txids as [|t ts] eqn:Et; [by apply settles_ret|].
  eapply settles_bind; [apply Hst, Hy|]. intros d' w' Hy'. apply settles_ret.
  by eapply yields_merge.
Qed.

(** The snapshot is the map of active clusters. *)
Definition mirrored (w : World) : Prop := w_snapshot w = w_actives w.

(** What a websocket client holds after the events [bus]. *)
Definition client_after (bus : list BusEvent) (v : gmap Z ClusterRef) : gmap Z ClusterRef :=
  foldl (λ v e, match e with OnClusterDelta d => Snapshot.apply_delta v d | _ => v end) v bus.

Lemma client_after_app b1 b2 v : client_after (b1 ++ b2) v = client_after b2 (client_after b1 v).
Proof. apply foldl_app. Qed.

(** From [w] to [w'] the clusters stayed disjoint, the snapshot followed the database
    and the published events carry a client from the old snapshot to the new one. *)
Record round_done (w w' : World) : Prop := {
  rd_ok : store_ok w';
  rd_log : unbroken w' → unbroken w;
  rd_mirror : unbroken w' → mirrored w → mirrored w';
  rd_clients : ∃ events, w_bus w' = w_bus w ++ events ∧
    Snapshot.client_view (w_snapshot w')
    = client_after events (Snapshot.client_view (w_snapshot w));
}.

Lemma publish_delta_done w0 d w :
  yields w0 d w → round_done w0 (publish_delta d w).2.
Proof.
  intros [Y1 Y2 Y Y4 Y5]. injection Y as Y3 Hb. unfold publish_delta.
  pose proof (publish_applies d (w_snapshot w) Y2) as Hp.
  pose proof (Snapshot.publish_view (snd <$> iter_map (cd_upserted d)) (iter_set (cd_removed d))
    (w_snapshot w)) as Hv.
  destruct (Snapshot.publish _ _ _) as [event m]. simpl in Hp. simpl. split.
  - exact Y1.
  - exact Y4.
  - intros Hu Hm. unfold mirrored in *. simpl. rw Hp Y3 Hm. symmetry. exact (Y5 Hu).
  - simpl. destruct event as [e|].
    + exists [OnClusterDelta e]. rw Hb. split; [done|]. by rw Hv Y3.
    + exists []. rw app_nil_r Hb. split; [done|]. by rw Hv Y3.
Qed.

Lemma is_empty_no_changes d : is_empty d = true → d = no_changes.
Proof.
  unfold is_empty. rw andb_true_iff !bool_decide_eq_true. destruct d as [u r]. simpl.
  by intros [-> ->].
Qed.

Lemma round_done_calm w w' : yields w no_changes w' → round_done w w'.
Proof.
  intros [Y1 Y2 Y Y4 Y5]. injection Y as Y3 Hb. split; [done|done| |].
  - intros Hu Hm. unfold mirrored. by rw Y3 Hm (Y5 Hu) apply_none.
  - exists []. by rw app_nil_r Y3.
Qed.

Lemma sync_clusters_settles candidates confirmed evicted w :
  store_ok w →
  settles (λ fuel, sync_clusters get_mempool_cluster fuel candidates confirmed evicted) w
    (λ _ w', round_done w w').
Proof.
  intros Hok. unfold sync_clusters.
  eapply settles_bind.
  { apply (when_nonempty_settles confirmed w no_changes w); [by apply yields_refl|].
    intros. by apply handle_confirmed_settles. }
  intros d1 w1 Hy1. eapply settles_bind.
  { apply (when_nonempty_settles evicted w d1 w1); [done|]. intros. by apply handle_evicted_settles. }
  intros d2 w2 Hy2. eapply settles_bind.
  { apply (when_nonempty_settles candidates w d2 w2); [done|].
    intros. by apply handle_candidates_covering_settles. }
  intros d3 w3 Hy3. destruct (is_empty d3) eqn:Ed.
  - apply is_empty_no_changes in Ed as ->. by apply settles_ret, round_done_calm.
  - apply settles_lift_ret. pose proof (publish_delta_done w d3 w3 Hy3) as Hp.
    by destruct (publish_delta d3 w3).
Qed.

Lemma confirm_mined_settles txids fees weights at_ w :
  store_ok w →
  settles (λ fuel, confirm_mined get_mempool_cluster fuel txids fees weights at_) w
    (λ _ w', round_done w w').
Proof.
  intros Hok. unfold confirm_mined.
  eapply settles_bind; [by apply confirm_mined_inner_settles|].
  intros d w' Hy. apply settles_lift_ret. pose proof (publish_delta_done w d w' Hy) as Hp.
  by destruct (publish_delta d w').
Qed.

(** ** Histories

    The service between start-up and shutdown: resync rounds, mined blocks, and
    whatever the other components do to the rest of the world. *)

Inductive step : World → World → Prop :=
| step_sync candidates confirmed evicted fuel w w' :
    sync_clusters get_mempool_cluster fuel candidates confirmed evicted w = Some ((), w') →
    step w w'
| step_confirm txids fees weights at_ fuel w w' :
    confirm_mined get_mempool_cluster fuel txids fees weights at_ w = Some ((), w') →
    step w w'
| step_other events w w' :
    calm w (mkWorld (w_conn w') (w_ledger w') (w_snapshot w') (w_bus w) (w_calls w') (w_log w')) →
    w_bus w' = w_bus w ++ events → (∀ d, OnClusterDelta d ∉ events) →
    step w w'.

Lemma round_done_trans w1 w2 w3 : round_done w1 w2 → round_done w2 w3 → round_done w1 w3.
Proof.
  intros [A1 A2 A3 (e1 & Hb1 & Hv1)] [B1 B2 B3 (e2 & Hb2 & Hv2)].
  split; [done|tauto|tauto|]. exists (e1 ++ e2). rw Hb2 Hb1 app_assoc. split; [done|].
  by rw client_after_app -Hv1.
Qed.

Lemma client_after_other events v : (∀ d, OnClusterDelta d ∉ events) → client_after events v = v.
Proof.
  revert v. induction events as [|e events IH]; intros v Hn; [done|]. simpl.
  rw IH; [|intros d Hd; apply (Hn d); by right].
  destruct e as [|d|]; [done| |done]. exfalso. apply (Hn d). by left.
Qed.

Lemma step_done w w' : step w w' → store_ok w → round_done w w'.
Proof.
  intros Hst Hok. destruct Hst as [? ? ? ? ? ? Hs|? ? ? ? ? ? ? Hs|events w w' Hc Hb Hn].
  - apply (settles_result _ _ _ _ _ _ (sync_clusters_settles _ _ _ w Hok) Hs).
  - apply (settles_result _ _ _ _ _ _ (confirm_mined_settles _ _ _ _ w Hok) Hs).
  - destruct Hc as [C1 C2 C3 C4]. injection C3 as C3. split.
    + by apply C1.
    + apply C4.
    + intros _ Hm. unfold mirrored in *. rw C3 Hm. symmetry. exact C2.
    + exists events. split; [done|]. by rw client_after_other // C3.
Qed.

Lemma steps_done w w' : rtc step w w' → store_ok w → round_done w w'.
Proof.
  induction 1 as [w|w1 w2 w3 Hst _ IH]; intros Hok.
  - apply round_done_calm, yields_refl, Hok.
  - pose proof (step_done _ _ Hst Hok) as Hd.
    eapply round_done_trans; [exact Hd|]. apply IH, Hd.
Qed.

(** ** Seeding *)

Lemma seed_actives db :
  cluster_inv db →
  Snapshot.seed (active_cluster <$> ClusterRepo.load_clusters ClusterRepo.ByActive db) = actives db.
Proof.
  intros Hi. pose proof Hi as [Hok _].
  set (cls := ClusterRepo.load_clusters _ db).
  assert (NoDup (cl_id <$> cls)) as Hnd
    by (apply load_clusters_NoDup; intros; by eapply rows_ok_key).
  assert (∀ id s, (∃ cl, cl ∈ cls ∧ cl_id cl = id ∧ s = cluster_state cl) ↔
    actives db !! id = Some s) as Hin.
  { intros id s. rw lookup_actives_Some. split.
    - intros (cl & Hcl & <- & ->).
      apply elem_of_load_clusters in Hcl as (row & Hr & Ha & Heq); [|intros; by eapply rows_ok_key].
      exists row. split; [done|]. split; [done|]. unfold state_of. by rw -Heq.
    - intros (row & Hr & Ha & ->). pose proof (rows_ok_key _ _ _ _ Hok Hr) as Hk.
      exists (from_row row (ClusterRepo.version_chunks db id (clr_version row))).
      split; [|done]. apply elem_of_load_clusters; [intros; by eapply rows_ok_key|].
      exists row. simpl. by rw Hk. }
  assert (∀ cls (m : gmap Z Snapshot.ClusterState), NoDup (cl_id <$> cls) →
    foldl (λ m c, <[Snapshot.ac_id c := Snapshot.state c]> m) m (active_cluster <$> cls)
    = with_rows cls m) as Hfold.
  { clear. induction cls as [|c cls IH]; intros m Hnd.
    - unfold with_rows. simpl. by rw left_id_L.
    - rw fmap_cons in Hnd. apply NoDup_cons in Hnd as [Hni Hnd]. rw fmap_cons. cbn [foldl].
      rw IH // with_rows_cons. by apply with_rows_insert. }
  unfold Snapshot.seed. rw Hfold //. apply map_eq. intros id. apply option_eq. intros s.
  rw -Hin. unfold with_rows. rw right_id_L -elem_of_list_to_map.
  - rw list_elem_of_fmap. naive_solver.
  - by rw -list_fmap_compose.
Qed.
End sync.

End ClusterSync.
