(* ===== verification/ClusterPlacement.v ===== *)
(** * A resync round reaches the node's grouping

    Against a node whose answers do not change and a round that logged no error, every
    candidate ends in a stored cluster equal to the node's, and no transaction that is
    still in the mempool loses its cluster. *)

From S2P Require Import Prelude.
From S2P Require Import Models.
From S2P Require Import Database.
From S2P Require Import ClusterRepo.
From S2P Require Import ClusterRepoFacts.
From S2P Require Import ClusterWrites.
From S2P Require Import ClusterInv.
From S2P Require Import ClusterHistory.
From S2P Require Import ClusterThms.
From S2P Require Import ClusterSnapshot.
From S2P Require Import Ledger.
From S2P Require Import TxRepo.
From S2P Require Import ClusterService.
From S2P Require Import ClusterActive.
From S2P Require Import ClusterServiceFacts.
From S2P Require Import ClusterRounds.
From S2P Require Import ClusterSync.

Open Scope Z_scope.

Module ClusterPlacement.
Import Database ClusterRepoFacts ClusterInv ClusterThms ClusterService ClusterActive
  ClusterServiceFacts ClusterRounds ClusterSync.

(** The node's group is stored. *)
Definition grouped (m : gmap Z Snapshot.ClusterState) (g : GetMempoolClusterModel) : Prop :=
  ∃ id s, m !! id = Some s ∧ Snapshot.cs_chunks s = gmc_chunks g.

Lemma log_grows l w : w_log (log l w).2 ≠ w_log w.
Proof. simpl. intros Heq%(f_equal length). rw length_app in Heq. simpl in Heq. lia. Qed.

(** ** The log only grows *)

Definition grows {A} (m : Svc A) : Prop := ∀ w, w_log w `prefix_of` w_log (m w).2.

Lemma grows_ret {A} (a : A) : grows (mret a).
Proof. intros w. done. Qed.

Lemma grows_bind {A B} (m : Svc A) (f : A → Svc B) :
  grows m → (∀ a, grows (f a)) → grows (m ≫= f).
Proof.
  intros Hm Hf w. specialize (Hm w). unfold mbind, Svc_bind. destruct (m w) as [a w1].
  etrans; [exact Hm|apply Hf].
Qed.

Lemma grows_call {A} (m : RepoM A) : grows (call m).
Proof. intros w. unfold call. by destruct (m (w_conn w)). Qed.

Lemma grows_log l : grows (log l).
Proof. intros w. by eexists. Qed.

(** Between two equal logs nothing was logged. *)
Lemma log_between {A} (l1 l2 l3 : list A) :
  l1 `prefix_of` l2 → l2 `prefix_of` l3 → l3 = l1 → l2 = l1.
Proof. intros Ha Hb ->. by apply (anti_symm prefix). Qed.

Ltac grows_tac :=
  repeat first
    [ apply grows_ret | apply grows_call | apply grows_log
    | apply grows_bind; [|intros ?]
    | match goal with |- grows (match ?x with _ => _ end) => destruct x end ];
  try (intros ?; done).

Section placement.
Context `{EnumOrder, BitcoinUnits, Env}.

(** What [upsert] promises when it logs nothing. *)
Record placed (cluster : GetMempoolClusterModel) (ids : list Z) (w : World)
    (detached : list string) (w' : World) : Prop := {
  pl_group : grouped (w_actives w') cluster;
  pl_others : ∀ id s, w_actives w !! id = Some s → id ∉ ids → w_actives w' !! id = Some s;
  pl_members : ∀ id s t, w_actives w !! id = Some s → id ∈ ids → t ∈ Snapshot.cs_txids s →
    t ∈ gmc_txids cluster ∨ t ∈ detached;
}.

Lemma placed_insert cluster ids w detached w1 w' cl :
  (∀ id s, w_actives w !! id = Some s → id ∉ ids → w_actives w1 !! id = Some s ∧ id ≠ cl_id cl) →
  cl_chunks cl = gmc_chunks cluster →
  w_actives w' = <[cl_id cl := cluster_state cl]> (w_actives w1) →
  (∀ id s t, w_actives w !! id = Some s → id ∈ ids → t ∈ Snapshot.cs_txids s →
    t ∈ gmc_txids cluster ∨ t ∈ detached) →
  placed cluster ids w detached w'.
Proof.
  intros Hkeep Hch Ha Hm. split; [| |done].
  - exists (cl_id cl), (cluster_state cl). rw Ha lookup_insert_eq. done.
  - intros id s Hid Hni. destruct (Hkeep id s Hid Hni) as [Hid1 Hne]. by rw Ha lookup_insert_ne.
Qed.

Lemma upsert_new_places w cluster :
  store_ok w → answer_ok cluster → 
  let '(uo, w') := upsert cluster [] w in
  w_log w' = w_log w → placed cluster [] w (uo_detached uo) w'.
Proof.
  intros Hok Hans. unfold upsert, mbind, Svc_bind, new_cluster, now_utc. simpl.
  set (w1 := mkWorld _ _ _ _ _ _). set (new := mkNewCluster _ _).
  assert (new_ok new) as Hnew by exact Hans.
  pose proof (call_updates _ _ w1 (insert_with_members_updates (w_db w1) new (proj1 Hok) Hnew)) as Hc.
  destruct (call _ w1) as [[row|e] w2]; destruct Hc as (Hs & Hl & _ & _ & Hi & Hq); cbv iota.
  - intros _. destruct Hq as (Hfresh & Hst & Hcl & Ha). simpl.
    apply (placed_insert _ _ _ _ w1 _ row); [|done|done|by intros ? ? ? _ ?%not_elem_of_nil].
    intros id s Hid _. split; [done|]. intros ->.
    apply lookup_actives_Some in Hid as (r & Hr & _).
    change (w_db w1) with (w_db w) in Hfresh. congruence.
  - intros Heq. exfalso. apply (log_grows InsertFailed w2). by rw Heq Hl.
Qed.

Lemma min_first_seen_none l : min_first_seen l = None → l = [].
Proof.
  destruct l as [|c l]; [done|]. simpl. destruct (min_first_seen l); [by destruct (_ <? _)|done].
Qed.

(** Merging logs exactly when it fails. *)
Lemma merge_others_log w others :
  let '(merged, w') :=
    (match others with
     | [] => mret (Some no_changes)
     | _ =>
         r ← call (ClusterRepo.mark_merged others);
         match r with
         | Err _ => _ ← log MergeFailed; mret None
         | Ok _ => mret (Some (mark_all_removed others no_changes))
         end
     end : Svc (option ClusterDeltaSet)) w in
  match merged with Some _ => w_log w' = w_log w | None => w_log w' ≠ w_log w end.
Proof.
  destruct others as [|o os]; [done|]. unfold mbind, Svc_bind, call.
  destruct (ClusterRepo.mark_merged _ _) as [[n|e] c]; [done|].
  apply (log_grows MergeFailed (mkWorld c _ _ _ _ (w_log w))).
Qed.

Lemma upsert_known_places w cluster ids :
  store_ok w → answer_ok cluster → overlapping (gmc_txids cluster) ids w → ids ≠ [] →
  let '(uo, w') := upsert cluster ids w in
  w_log w' = w_log w → placed cluster ids w (uo_detached uo) w'.
Proof.
  intros Hok Hans Hov Hnil. unfold upsert. destruct ids as [|i0 is_] eqn:Ei; [done|].
  rw -Ei in Hov |- *. unfold mbind, Svc_bind.
  pose proof (call_updates _ _ w (find_by_ids_updates (w_db w) ids (proj1 Hok))) as Hc.
  destruct (call _ w) as [[existing|e] w1]; destruct Hc as (Hs & Hl & _ & _ & Hi & Hq); cbv iota.
  2:{ intros Heq. exfalso. apply (log_grows LoadFailed w1). by rw Heq Hl. }
  destruct Hq as [Hdb Hex].
  assert (w_actives w1 = w_actives w) as Ha1 by (unfold w_actives; by rw Hdb).
  assert (∀ id, id ∈ ids → is_Some (w_actives w !! id)) as Hids
    by (intros id Hid; apply Hov in Hid as (t & s & _ & ? & _); eauto).
  assert (∀ id s, w_actives w !! id = Some s → id ∈ ids →
    ∃ cl, cl ∈ existing ∧ cl_id cl = id ∧ s = cluster_state cl) as Hall.
  { intros id s Hid Hin.
    destruct (loaded_of_active (w_db w) ids id s (proj1 Hok) Hin Hid) as (cl & ? & ? & _ & ?).
    rw Hex. eauto. }
  destruct (min_first_seen existing) as [keep|] eqn:Ek.
  2:{ exfalso. destruct (Hids i0) as [s Hi0]; [rw Ei; left|].
    destruct (Hall i0 s Hi0) as (cl & Hcl & _); [rw Ei; left|].
    apply min_first_seen_none in Ek as ->. by apply not_elem_of_nil in Hcl. }
  apply min_first_seen_in in Ek as Hkin.
  destruct (loaded_clusters w ids keep (proj1 Hok) Hids) as (_ & Hkid & Hka); [by rw -Hex|].
  set (others := filter (λ id, id ≠ cl_id keep) (cl_id <$> existing)).
  pose proof (merge_others_yields w1 (cl_id keep) others) as Hm.
  assert (store_ok w1) as Hok1 by (split; [rw Hdb|rw Ha1]; apply Hok). specialize (Hm Hok1).
  pose proof (merge_others_log w1 others) as Hlog2.
  set (mm := match others with [] => _ | _ => _ end) in Hm, Hlog2 |- *.
  destruct (mm w1) as [[d|] w2]; destruct Hm as [[Hy2 Ha2] Hkeep]; cbv iota.
  2:{ simpl. intros Heq. exfalso. by rw Heq Hl in Hlog2. }
  assert (cl_id keep ∉ others) as Hkn by (subst others; rw list_elem_of_filter; tauto).
  assert (is_Some (w_actives w2 !! cl_id keep)) as Hk2 by (rw Hkeep // Ha1 Hka; eauto).
  pose proof (call_updates _ _ w2 (replace_chunks_updates (w_db w2)
    (ClusterRepo.mkClusterVersionUpdate (cl_id keep) (gmc_chunks cluster))
    (proj1 (y_ok _ _ _ Hy2)) Hans Hk2)) as Hc.
  destruct (call _ w2) as [[row|e] w3]; destruct Hc as (Hs3 & Hl3 & _ & _ & Hi3 & Hq); cbv iota.
  2:{ simpl. intros Heq. exfalso. apply (log_grows UpdateFailed w3). simpl.
      by rw Heq Hl3 Hlog2 Hl. }
  intros _. destruct Hq as (Hid & Hst & Hcc & Ha). simpl in Hid, Hcc |- *.
  apply (placed_insert _ _ _ _ w2 _ row); [|done|done|].
  - intros id s Hs0 Hni. rw Hid. split; [|congruence]. rw Ha2 Ha1 lookup_without decide_False //.
    intros [_ (cl & -> & Hcl)%list_elem_of_fmap]%list_elem_of_filter. apply Hni.
    rw Hex in Hcl. by apply (loaded_clusters w ids cl (proj1 Hok) Hids) in Hcl as (_ & ? & _).
  - intros id s t Hs0 Hin Ht. destruct (Hall id s Hs0 Hin) as (cl & Hcl & <- & ->).
    destruct (decide (t ∈ gmc_txids cluster)); [by left|right].
    apply list_elem_of_filter. split; [by rw elem_of_list_to_set|].
    apply list_elem_of_bind. by exists cl.
Qed.

Lemma upsert_places w cluster ids :
  store_ok w → answer_ok cluster → overlapping (gmc_txids cluster) ids w →
  let '(uo, w') := upsert cluster ids w in
  w_log w' = w_log w → placed cluster ids w (uo_detached uo) w'.
Proof.
  intros Hok Hans Hov. destruct ids; [by apply upsert_new_places|by apply upsert_known_places].
Qed.

Lemma upsert_grows cluster ids : grows (upsert cluster ids).
Proof. unfold upsert, new_cluster. grows_tac. Qed.

#[local] Opaque upsert.
Lemma place_group_grows cluster first ls : grows (place_group cluster first ls).
Proof. unfold place_group, new_cluster. grows_tac; apply upsert_grows. Qed.

#[local] Opaque place_group.
Lemma candidate_step_grows gmc txid ls : grows (candidate_step gmc txid ls).
Proof. unfold candidate_step. grows_tac; apply place_group_grows. Qed.

#[local] Transparent upsert place_group.

Lemma candidates_loop_grows gmc fuel ls w ls' w' :
  candidates_loop gmc fuel ls w = Some (ls', w') → w_log w `prefix_of` w_log w'.
Proof.
  revert ls w. induction fuel as [|fuel IH]; intros [changes [|t pending] out fresh] w.
  - intros [= <- <-]. done.
  - done.
  - intros [= <- <-]. done.
  - rw candidates_loop_cons.
    pose proof (candidate_step_grows gmc t (mkLoopState changes pending out fresh) w) as Hg.
    destruct (candidate_step _ _ _ w) as [ls1 w1]. intros Hrun. etrans; [exact Hg|by eapply IH].
Qed.
End placement.

(** ** A stable node *)

Section stable.
Context `{EnumOrder, BitcoinUnits, Env}.
Context (answer : string → result ObserverError GetMempoolClusterModel).
Local Abbreviation get_mempool_cluster := (λ _ : nat, answer).

(** The node's clusters partition its mempool. *)
Record stable_node : Prop := {
  sn_ok : ∀ t g, answer t = Ok g → answer_ok g;
  sn_self : ∀ t g, answer t = Ok g → gmc_txids g = [] ∨ t ∈ gmc_txids g;
  sn_group : ∀ t g t', answer t = Ok g → t' ∈ gmc_txids g → answer t' = Ok g;
}.
Context (node : stable_node).

(** [t] is not in the mempool. *)
Definition absent (t : string) : Prop :=
  (∃ msg, answer t = Err (TxNotFoundInMempool msg)) ∨ (∃ g, answer t = Ok g ∧ gmc_txids g = []).

(** [t] is dealt with: absent, stored in its group, or about to be. *)
Definition handled (t : string) (fresh : gmap string NewCluster) (w : World) : Prop :=
  absent t ∨ ∃ g, answer t = Ok g ∧
    (grouped (w_actives w) g ∨ ∃ c, fresh !! t = Some c ∧ nc_chunks c = gmc_chunks g).

(** [t] will not be forgotten. *)
Definition tracked (t : string) (ls : LoopState) : Prop :=
  t ∈ ls_out_of_mempool ls ∨ t ∈ ls_pending ls.

Record progress (candidates : list string) (w0 : World) (ls : LoopState) (w : World) : Prop := {
  pg_handled : ∀ t, t ∈ ls_out_of_mempool ls → handled t (ls_fresh ls) w;
  pg_candidates : ∀ t, t ∈ candidates → tracked t ls;
  pg_members : ∀ t, clustered (w_actives w0) t → tracked t ls ∨ clustered (w_actives w) t;
}.

(** Two groups of the node that share a member are the same. *)
Lemma groups_disjoint t1 t2 g1 g2 t :
  answer t1 = Ok g1 → answer t2 = Ok g2 → t ∈ gmc_txids g1 → t ∈ gmc_txids g2 → g1 = g2.
Proof.
  intros H1' H2' Ht1 Ht2. pose proof (sn_group node _ _ _ H1' Ht1).
  pose proof (sn_group node _ _ _ H2' Ht2). congruence.
Qed.

Lemma handled_actives t fresh w w' :
  w_actives w' = w_actives w → handled t fresh w → handled t fresh w'.
Proof. intros Ha. unfold handled. by rw Ha. Qed.

Lemma tracked_more t changes pending out fresh out' changes' fresh' pending' :
  tracked t (mkLoopState changes pending out fresh) → out ⊆ out' →
  tracked t (mkLoopState changes' (pending ++ pending') out' fresh').
Proof. intros [?|?] Hs; [left; set_solver|right]. simpl. apply elem_of_app. by left. Qed.

Lemma lookup_delete_all_ne {A} (ts : list string) (m : gmap string A) t :
  t ∉ ts → foldl (λ m t, delete t m) m ts !! t = m !! t.
Proof.
  revert m. induction ts as [|x ts IH]; intros m Hni; [done|]. simpl.
  rw not_elem_of_cons in Hni. destruct Hni as [Hx Hni]. rw IH // lookup_delete_ne //.
Qed.

(** The invariant after covering [extra], with the clusters as they were. *)
Lemma progress_cover cands w0 changes pending out fresh txid extra fresh' w w' :
  progress cands w0 (mkLoopState changes (txid :: pending) out fresh) w →
  w_actives w' = w_actives w → txid ∈ extra →
  (∀ t, t ∈ extra → handled t fresh' w') →
  (∀ t, t ∈ out → handled t fresh w → t ∉ extra → handled t fresh' w') →
  progress cands w0 (mkLoopState changes pending (out ∪ extra) fresh') w'.
Proof.
  intros [P1 P2 P3] Ha Hin Hex Hold.
  assert (∀ t, tracked t (mkLoopState changes (txid :: pending) out fresh) →
    tracked t (mkLoopState changes pending (out ∪ extra) fresh')) as Htr.
  { intros t [Ht|[->|Ht]%elem_of_cons]; [left|left|right]; simpl in *; set_solver. }
  split; simpl.
  - intros t Ht. destruct (decide (t ∈ extra)); [by apply Hex|].
    assert (t ∈ out) as Ho by set_solver. by apply Hold; [|apply P1|].
  - intros t Ht. by apply Htr, P2.
  - intros t Ht. rw Ha. destruct (P3 t Ht); [left; by apply Htr|by right].
Qed.

(** Storing the group of [txid]: the other groups stay, nobody is forgotten. *)
Lemma progress_placed cands w0 changes pending out fresh txid cluster ids uo w w' changes' :
  progress cands w0 (mkLoopState changes (txid :: pending) out fresh) w →
  answer txid = Ok cluster → gmc_txids cluster ≠ [] →
  overlapping (gmc_txids cluster) ids w → placed cluster ids w (uo_detached uo) w' →
  let out' := out ∪ list_to_set (gmc_txids cluster) in
  progress cands w0 (mkLoopState changes'
    (pending ++ filter (λ t, t ∉ out') (uo_detached uo)) out'
    (foldl (λ m t, delete t m) fresh (gmc_txids cluster))) w'.
Proof.
  intros [P1 P2 P3] Hans Hne Hov [G1 G2 G3] out'.
  assert (txid ∈ gmc_txids cluster) as Hself by (by destruct (sn_self node _ _ Hans)).
  assert (∀ t, tracked t (mkLoopState changes (txid :: pending) out fresh) →
    tracked t (mkLoopState changes' (pending ++ filter (λ t, t ∉ out') (uo_detached uo)) out'
      (foldl (λ m t, delete t m) fresh (gmc_txids cluster)))) as Htr.
  { intros t [Ht|[->|Ht]%elem_of_cons]; [left|left|right]; simpl in *.
    - subst out'. set_solver.
    - subst out'. set_solver.
    - apply elem_of_app. by left. }
  split; cbn [ls_out_of_mempool ls_fresh].
  - intros t Ht. destruct (decide (t ∈ gmc_txids cluster)) as [Hin|Hni].
    { right. exists cluster. split; [by apply (sn_group node txid)|by left]. }
    assert (t ∈ out) as Ho by (subst out'; set_solver).
    destruct (P1 t Ho) as [Habs|(g & Hg & Hst)]; [by left|]. right. exists g. split; [done|].
    destruct Hst as [(id & s & Hid & Hs)|(c & Hc & Hch)].
    + left. exists id, s. split; [|done]. apply G2; [done|].
      intros (x & s' & Hx & Hs' & Hxs)%Hov. assert (s' = s) as -> by congruence.
      unfold Snapshot.cs_txids in Hxs. rw Hs in Hxs.
      assert (g = cluster) as -> by by eapply groups_disjoint.
      destruct (sn_self node _ _ Hg) as [?|?]; done.
    + right. exists c. split; [|done]. by rw lookup_delete_all_ne.
  - intros t Ht. by apply Htr, P2.
  - intros t Ht. destruct (P3 t Ht) as [?|(id & s & Hid & Hin)]; [left; by apply Htr|].
    destruct (decide (id ∈ ids)) as [Hids|Hids]; [|right; exists id, s; split; [by apply G2|done]].
    left. destruct (decide (t ∈ out')); [by left|]. right. simpl. apply elem_of_app. right.
    apply list_elem_of_filter. split; [done|].
    destruct (G3 id s t Hid Hids Hin) as [?|?]; [subst out'; set_solver|done].
Qed.

Lemma place_group_progress cands w0 changes pending out fresh txid cluster first rest w0' w :
  progress cands w0 (mkLoopState changes (txid :: pending) out fresh) w →
  loop_inv w0' (mkLoopState changes pending out fresh) w →
  answer txid = Ok cluster → gmc_txids cluster = first :: rest →
  let '(ls', w') := place_group cluster first
    (mkLoopState changes pending (out ∪ list_to_set (gmc_txids cluster)) fresh) w in
  w_log w' = w_log w → progress cands w0 ls' w'.
Proof.
  intros Hp [Hy Hf] Hans Hfirst. pose proof (sn_ok node _ _ Hans) as Haok.
  assert (gmc_txids cluster ≠ []) as Hne by by rw Hfirst.
  assert (txid ∈ gmc_txids cluster) as Hself by (by destruct (sn_self node _ _ Hans)).
  unfold place_group, mbind, Svc_bind.
  pose proof (find_ids_calm w (gmc_txids cluster) (y_ok _ _ _ Hy)) as Hc.
  assert (w_log (call (ClusterRepo.find_active_ids_by_txids (gmc_txids cluster)) w).2 = w_log w)
    as Hl by (unfold call; by destruct (ClusterRepo.find_active_ids_by_txids _ _)).
  destruct (call _ w) as [[ids|e] w1]; destruct Hc as [Hc Hr]; simpl in Hl; cbv iota.
  2:{ intros Heq. exfalso. apply (log_grows LookupFailed w1). by rw Heq Hl. }
  destruct Hr as [_ Hov]. pose proof (k_actives _ _ Hc) as Ha.
  destruct (decide _) as [[-> Hone]|Hmany].
  - unfold new_cluster, now_utc, mbind, Svc_bind. simpl. intros _.
    assert (gmc_txids cluster = [first]) as Hsingle by (rw Hfirst in Hone |- *; by destruct rest).
    eapply progress_cover; [exact Hp|exact Ha|set_solver|..].
    + intros t Ht. right. exists cluster. rw Hsingle in Ht.
      assert (t = first) as -> by set_solver.
      split; [apply (sn_group node txid); [done|rw Hsingle; left]|]. right. eexists.
      by rw lookup_insert_eq.
    + intros t _ Hh Hni. apply (handled_actives _ _ _ w1) in Hh; [|done].
      destruct Hh as [?|(g & Hg & [?|(c & Hc' & Hch)])]; [by left|right; exists g..].
      * split; [done|by left].
      * split; [done|right]. exists c. rw lookup_insert_ne //. intros ->. apply Hni.
        rw Hsingle. set_solver.
  - pose proof (upsert_places w1 cluster ids (k_ok _ _ Hc (y_ok _ _ _ Hy)) Haok
      (calm_overlapping _ _ _ _ Hc Hov)) as Hu.
    destruct (upsert cluster ids w1) as [uo w2]. simpl. intros Heq.
    eapply (progress_placed _ _ _ _ _ _ _ _ ids _ w1); [|done|done|by eapply calm_overlapping|].
    + destruct Hp as [P1 P2 P3]. split; [|done|by rw Ha].
      intros t Ht. by apply (handled_actives _ _ w), P1.
    + apply Hu. by rw Heq Hl.
Qed.

Lemma stable_answer_ok : ∀ (n : nat) t m, get_mempool_cluster n t = Ok m → answer_ok m.
Proof. intros n t m. apply node. Qed.

#[local] Opaque place_group.
Lemma candidate_step_handles cands w0 changes pending out fresh txid w0' w :
  progress cands w0 (mkLoopState changes (txid :: pending) out fresh) w →
  loop_inv w0' (mkLoopState changes pending out fresh) w →
  let '(ls', w') := candidate_step get_mempool_cluster txid (mkLoopState changes pending out fresh) w in
  w_log w' = w_log w → progress cands w0 ls' w'.
Proof.
  intros Hp Hinv. unfold candidate_step. destruct (decide (txid ∈ out)) as [Hin|Hout].
  { intros _. assert (out ∪ {[txid]} = out) as <- by set_solver.
    eapply progress_cover; [exact Hp|done|set_solver| |done].
    intros t ->%elem_of_singleton. by apply Hp. }
  unfold mbind, Svc_bind, fetch. set (w1 := mkWorld _ _ _ _ (S _) _).
  assert (absent txid → progress cands w0
    (mkLoopState changes pending ({[txid]} ∪ out) fresh) (assert_absent [txid] w1).2) as Habs.
  { intros Ha. rw (comm_L (∪)). eapply progress_cover; [exact Hp|done|set_solver| |done].
    intros t ->%elem_of_singleton. by left. }
  destruct (answer txid) as [cluster|e] eqn:Eans.
  - destruct (gmc_txids cluster) as [|first rest] eqn:Et.
    + intros _. apply Habs. right. eauto.
    + pose proof (place_group_progress cands w0 changes pending out fresh txid cluster first rest w0'
        (assert_present (first :: rest) w1).2) as Hg. rw Et in Hg. simpl.
      simpl in Hg. destruct (place_group _ _ _ _) as [ls' w']. intros Heq.
      apply Hg; [|by eapply loop_inv_quiet|done|done|done].
      destruct Hp as [P1 P2 P3]. by split.
  - assert (w_log (log FetchFailed w1).2 ≠ w_log w) as Hl by apply (log_grows FetchFailed w1).
    destruct e; simpl; try (intros Heq; exfalso; by apply Hl). intros _. apply Habs. left. eauto.
Qed.

Lemma candidates_loop_handles cands w0 w0' fuel ls w ls' w' :
  progress cands w0 ls w → loop_inv w0' ls w →
  candidates_loop get_mempool_cluster fuel ls w = Some (ls', w') → w_log w' = w_log w →
  progress cands w0 ls' w' ∧ loop_inv w0' ls' w' ∧ ls_pending ls' = [].
Proof.
  revert ls w. induction fuel as [|fuel IH]; intros [changes [|t pending] out fresh] w Hp Hinv.
  - by intros [= <- <-].
  - done.
  - by intros [= <- <-].
  - rw candidates_loop_cons.
    pose proof (candidate_step_handles _ _ _ _ _ _ _ w0' _ Hp Hinv) as Hst.
    pose proof (candidate_step_turn _ stable_answer_ok w0' t (mkLoopState changes pending out fresh) w Hinv) as Ht.
    pose proof (candidate_step_grows get_mempool_cluster t (mkLoopState changes pending out fresh) w) as Hg.
    destruct (candidate_step _ _ _ w) as [ls1 w1]. destruct Ht as [Hinv1 _]. simpl in Hg.
    intros Hrun Heq. pose proof (candidates_loop_grows _ _ _ _ _ _ Hrun) as Hg2.
    assert (w_log w1 = w_log w) as Hl1 by (by eapply log_between).
    apply (IH ls1 w1); [by apply Hst|done|done|congruence].
Qed.

(** The batched insert stores the buffered singletons and touches nothing else. *)
Lemma insert_fresh_handles w0 ls w :
  loop_inv w0 ls w →
  let '(_, w') := insert_fresh ls w in
  w_log w' = w_log w →
  (∀ id s, w_actives w !! id = Some s → w_actives w' !! id = Some s) ∧
  (∀ t c, ls_fresh ls !! t = Some c →
     ∃ id s, w_actives w' !! id = Some s ∧ Snapshot.cs_chunks s = nc_chunks c).
Proof.
  intros [Hy Hf]. unfold insert_fresh. destruct (decide _) as [Hemp|].
  { simpl. intros _. split; [done|]. intros t c. by rw Hemp lookup_empty. }
  unfold mbind, Svc_bind, call. destruct (fresh_txids _ _ Hf) as [Hnew _].
  pose proof (insert_many_updates (w_db w) (snd <$> iter_map (ls_fresh ls))
    (proj1 (y_ok _ _ _ Hy)) Hnew (w_conn w) eq_refl) as Hc.
  destruct (ClusterRepo.insert_many_with_members _ (w_conn w)) as [[rows|e] c]; cbv iota.
  2:{ intros Heq. exfalso. revert Heq.
    apply (log_grows (InsertManyFailed (length (snd <$> iter_map (ls_fresh ls))))
      (mkWorld c (w_ledger w) (w_snapshot w) (w_bus w) (w_calls w) (w_log w))). }
  destruct Hc as (Hi & Had & Hch). intros _. cbn [mret Svc_ret].
  set (w' := mkWorld _ _ _ _ _ _).
  assert (w_actives w' = with_rows rows (w_actives w)) as Ha by apply (ad_active _ _ _ Had).
  split.
  - intros id s Hid. rw Ha. unfold with_rows.
    rw lookup_union_r //. apply not_elem_of_list_to_map_1. rw -list_fmap_compose.
    intros Hin%(ad_fresh _ _ _ Had). apply lookup_actives_Some in Hid as (r & Hr & _). congruence.
  - intros t nc Hfr. assert (nc_chunks nc ∈ cl_chunks <$> rows) as Hin.
    { rw Hch. apply list_elem_of_fmap. exists nc. split; [done|]. apply list_elem_of_fmap.
      exists (t, nc). split; [done|]. by apply elem_of_iter_map. }
    apply list_elem_of_fmap in Hin as (cl & -> & Hcl). exists (cl_id cl), (cluster_state cl).
    split; [|done]. rw Ha.
    apply lookup_union_Some_l, elem_of_list_to_map_1.
    + rw -list_fmap_compose. apply Had.
    + apply list_elem_of_fmap. eauto.
Qed.

(** Every candidate and every former member is where the node says. *)
Record synced (cands : list string) (w w' : World) : Prop := {
  sy_candidates : ∀ t, t ∈ cands → absent t ∨ ∃ g, answer t = Ok g ∧ grouped (w_actives w') g;
  sy_members : ∀ t, clustered (w_actives w) t → absent t ∨ clustered (w_actives w') t;
}.

Lemma handle_candidates_syncs cands fuel w d w' :
  store_ok w → handle_candidates get_mempool_cluster fuel cands w = Some (d, w') →
  w_log w' = w_log w → synced cands w w'.
Proof.
  intros Hok. unfold handle_candidates, handle_candidates_covering, mbind, Run_bind.
  set (ls0 := mkLoopState no_changes cands ∅ ∅).
  destruct (candidates_loop _ fuel ls0 w) as [[ls1 w1]|] eqn:El; [|done].
  unfold lift. intros Hfin Heq.
  assert (loop_inv w ls0 w) as Hinv0.
  { split; [by apply yields_refl|]. intros t c. simpl. by rw lookup_empty. }
  assert (w_log w1 `prefix_of` w_log w') as Hg.
  { injection Hfin as Hfin. assert (grows (insert_fresh ls1)) as Hgr by (unfold insert_fresh; grows_tac).
    specialize (Hgr w1). by rw Hfin in Hgr. }
  assert (w_log w1 = w_log w) as Hl1.
  { eapply log_between; [by eapply candidates_loop_grows|exact Hg|done]. }
  destruct (candidates_loop_handles cands w w fuel ls0 w ls1 w1) as ([P1 P2 P3] & Hinv1 & Hnil);
    [|done|done|done|].
  { split; simpl; [set_solver|by right|by right]. }
  pose proof (insert_fresh_handles w ls1 w1 Hinv1) as Hins. injection Hfin as Hfin.
  rw Hfin in Hins. destruct Hins as [Hkeep Hnew]; [congruence|].
  assert (∀ t, tracked t ls1 → absent t ∨ ∃ g, answer t = Ok g ∧ grouped (w_actives w') g) as Hh.
  { intros t [Ht|Ht]; [|rw Hnil in Ht; by apply not_elem_of_nil in Ht].
    destruct (P1 t Ht) as [?|(g & Hans & [(id & s & Hid & Hs)|(c & Hc & Hch)])]; [by left|right..];
      exists g; (split; [done|]).
    - exists id, s. split; [by apply Hkeep|done].
    - destruct (Hnew t c Hc) as (id & s & Hid & Hs). exists id, s. split; [done|congruence]. }
  split; [intros t Ht; by apply Hh, P2|].
  intros t Ht. destruct (P3 t Ht) as [Htr|(id & s & Hid & Hin)].
  - destruct (Hh t Htr) as [?|(g & Hans & id & s & Hid & Hs)]; [by left|].
    destruct (sn_self node _ _ Hans) as [Hemp|Hin]; [left; right; eauto|right].
    exists id, s. split; [done|]. unfold Snapshot.cs_txids. by rw Hs.
  - right. exists id, s. split; [by apply Hkeep|done].
Qed.
End stable.

End ClusterPlacement.
