(* ===== verification/ClusterServiceThms.v ===== *)
(** * Theorems about the cluster service

    Rounds return, keep the snapshot in step with the database and reach the node's
    grouping; the building blocks do what they mean to. *)

From S2P Require Import Prelude.
From S2P Require Import Models.
From S2P Require Import Database.
From S2P Require Import ClusterRepo.
From S2P Require Import ClusterRepoFacts.
From S2P Require Import ClusterWrites.
From S2P Require Import ClusterInv.
From S2P Require Import ClusterHistory.
From S2P Require Import ClusterThms.
From S2P Require Import ClusterSnapshot.
From S2P Require Import Ledger.
From S2P Require Import MempoolRepo.
From S2P Require Import TxRepo.
From S2P Require Import ClusterService.
From S2P Require Import ClusterActive.
From S2P Require Import ClusterServiceFacts.
From S2P Require Import ClusterRounds.
From S2P Require Import ClusterSync.
From S2P Require Import ClusterPlacement.

Open Scope Z_scope.

Module ClusterServiceThms.
Import Database ClusterRepoFacts ClusterInv ClusterThms ClusterService ClusterActive
  ClusterServiceFacts ClusterRounds ClusterSync ClusterPlacement.

Section theorems.
Context `{EnumOrder, BitcoinUnits, Env}.

(** C17.  A resync round returns, against a node each of whose answers about a txid is an
    error, is empty, or contains that txid, and fits the tables: whatever the candidates, the
    confirmed and the evicted txids and whichever statements fail, enough turns of the work
    queue empty it, and the stored clusters are still well formed and disjoint. *)
Theorem sync_clusters_returns get_mempool_cluster candidates confirmed evicted w :
  (∀ n t m, get_mempool_cluster n t = Ok m → answer_ok m) →
  (∀ n t m, get_mempool_cluster n t = Ok m → gmc_txids m = [] ∨ t ∈ gmc_txids m) →
  store_ok w →
  ∃ fuel0 w', store_ok w' ∧ ∀ fuel, (fuel0 ≤ fuel)%nat →
    sync_clusters get_mempool_cluster fuel candidates confirmed evicted w = Some ((), w').
Proof.
  intros Hn Ha Hok.
  destruct (sync_clusters_settles _ Hn Ha candidates confirmed evicted w Hok)
    as ([] & w' & [_ [fuel0 Hf]] & Hd).
  exists fuel0, w'. split; [apply Hd|done].
Qed.

(** C3.  Against a node each of whose answers about a txid is an error, is empty, or
    contains that txid, and fits the tables: over any history of resync rounds and mined
    blocks, interleaved with what the other components do, the stored clusters stay well
    formed and disjoint; the in-memory snapshot equals the active clusters of the database
    unless an insert of more clusters than one batch holds (10,000) failed; and a client that
    applies the published events holds the snapshot. *)
Theorem service_stays_in_step get_mempool_cluster w w' :
  (∀ n t m, get_mempool_cluster n t = Ok m → answer_ok m) →
  (∀ n t m, get_mempool_cluster n t = Ok m → gmc_txids m = [] ∨ t ∈ gmc_txids m) →
  rtc (step get_mempool_cluster) w w' → store_ok w → mirrored w →
  store_ok w' ∧ (unbroken w' → mirrored w') ∧
  ∃ events, w_bus w' = w_bus w ++ events ∧
    Snapshot.client_view (w_snapshot w')
    = client_after events (Snapshot.client_view (w_snapshot w)).
Proof.
  intros Hn Ha Hst Hok Hm. destruct (steps_done _ Hn Ha w w' Hst Hok) as [D1 D2 D3 D4].
  split; [done|]. split; [|done]. intros Hu. by apply D3.
Qed.

(** The published snapshot after a round over candidates alone. *)
Lemma sync_candidates_split get_mempool_cluster fuel candidates w w' :
  candidates ≠ [] →
  sync_clusters get_mempool_cluster fuel candidates [] [] w = Some ((), w') →
  ∃ d w1, handle_candidates get_mempool_cluster fuel candidates w = Some (d, w1) ∧
    w_db w' = w_db w1 ∧ w_log w' = w_log w1.
Proof.
  intros Hne. unfold sync_clusters, when_nonempty. destruct candidates as [|c cs]; [done|].
  unfold mbind, Run_bind, mret, Run_ret.
  destruct (handle_candidates _ fuel (c :: cs) w) as [[d w1]|]; [|done].
  intros Hs. exists d, w1. split; [done|]. destruct (is_empty _); [by simplify_eq|].
  unfold lift, publish_delta in Hs. destruct (Snapshot.publish _ _ _). by simplify_eq.
Qed.

(** C4.  Against a node whose clusters partition the mempool and do not change during
    the round, a round over [candidates] that logs no error reaches the node's grouping:
    every candidate still in the mempool has its whole cluster, chunk by chunk, in the
    snapshot, and no transaction still in the mempool lost its cluster on the way. *)
Theorem resync_reaches_node_grouping answer fuel candidates w w' :
  stable_node answer → store_ok w → mirrored w → unbroken w →
  sync_clusters (λ _, answer) fuel candidates [] [] w = Some ((), w') → w_log w' = w_log w →
  (∀ t g, t ∈ candidates → answer t = Ok g → gmc_txids g ≠ [] →
     ∃ id s, w_snapshot w' !! id = Some s ∧ Snapshot.cs_chunks s = gmc_chunks g) ∧
  (∀ t, clustered (w_snapshot w) t → absent answer t ∨ clustered (w_snapshot w') t).
Proof.
  intros Hnode Hok Hm Hu Hs Hl.
  assert (round_done w w') as [D1 D2 D3 D4].
  { eapply (settles_result _ _ _ _ _ _ (sync_clusters_settles (λ _, answer) _ _ _ _ _ w Hok) Hs).
    Unshelve. all: intros n t m; apply Hnode. }
  assert (mirrored w') as Hm' by (apply D3; [unfold unbroken; by rw Hl|done]).
  rw Hm Hm'. destruct candidates as [|c cs] eqn:Ec.
  { split; [by intros ? ? ?%not_elem_of_nil|]. intros t Ht. right.
    change (Some ((), w) = Some ((), w')) in Hs. by simplify_eq. }
  destruct (sync_candidates_split _ _ (c :: cs) _ _ ltac:(done) Hs) as (d & w1 & Hh & Hdb & Hl1).
  destruct (handle_candidates_syncs answer Hnode (c :: cs) fuel w d w1) as [S1 S2];
    [done|done|congruence|].
  assert (w_actives w' = w_actives w1) as -> by (unfold w_actives; by rw Hdb). split; [|done].
  intros t g Ht Hans Hne. destruct (S1 t Ht) as [[[msg Hmsg]|(g' & Hg' & Hemp)]|(g' & Hg' & Hgr)].
  - congruence.
  - congruence.
  - by assert (g' = g) as -> by congruence.
Qed.

(** C39.  Splitting a cluster by a block loses and invents no member: the mined part
    holds exactly the members the block contains, the pending part exactly the others,
    both in the order of the cluster; a chunk the block took whole keeps its amounts, and
    if the amounts of the cluster are [u64]s, so are those of the mined part. *)
Theorem mined_trim_splits_cluster cluster block :
  let trim := new_mined_trim cluster block in
  chunks_txids (mt_mined trim) = filter (λ t, t ∈ mb_txid_set block) (cl_txids cluster) ∧
  mt_pending trim = filter (λ t, t ∉ mb_txid_set block) (cl_txids cluster) ∧
  (∀ c, c ∈ cl_chunks cluster → Forall (λ t, t ∈ mb_txid_set block) (chunk_txids c) →
     c ∈ mt_mined trim) ∧
  (Forall chunk_ok (cl_chunks cluster) → Forall chunk_ok (mt_mined trim)).
Proof.
  assert (∀ t, contains block t = true ↔ t ∈ mb_txid_set block) as Hin
    by (intros t; apply bool_decide_eq_true).
  assert (∀ t, contains block t = false ↔ t ∉ mb_txid_set block) as Hout
    by (intros t; apply bool_decide_eq_false).
  rw new_mined_trim_eq. simpl. split_and!.
  - rw mined_txids. by apply list_filter_iff.
  - by apply list_filter_iff.
  - intros c Hc Hall. apply list_elem_of_omap. exists c. split; [done|]. unfold mined_part.
    rw decide_True //. eapply Forall_impl; [exact Hall|]. apply Hin.
  - apply mined_parts_ok.
Qed.

(** Folding the changes of a later stage into an earlier one's is doing the two
    one after the other, in whatever order the two maps are walked. *)
Theorem merge_is_composition d other m :
  delta_ok other →
  apply_changes (merge d other) m = apply_changes other (apply_changes d m) ∧
  (delta_ok d → delta_ok (merge d other)).
Proof. intros Ho. split; [by apply apply_merge|]. intros Hd. by apply delta_ok_merge. Qed.

(** Seeding at start-up: unless the query fails, which is logged, the snapshot
    becomes the active clusters of the database; the database is not written. *)
Theorem seed_snapshot_mirrors w :
  cluster_inv (w_db w) →
  let w' := (seed_snapshot w).2 in
  w_db w' = w_db w ∧ (w_log w' = w_log w → mirrored w') ∧
  (w_log w' ≠ w_log w → w_log w' = w_log w ++ [SeedFailed] ∧ w_snapshot w' = w_snapshot w).
Proof.
  intros Hi. unfold seed_snapshot, mbind, Svc_bind.
  assert (repo_triple (λ d, d = w_db w) ClusterRepo.find_active
    (λ rows d, d = w_db w ∧ rows = ClusterRepo.load_clusters ClusterRepo.ByActive (w_db w))
    (λ d, d = w_db w)) as Hr.
  { apply repo_triple_query; [done|]. apply triple_select; [done|]. by intros ? ->. }
  specialize (Hr (w_conn w) eq_refl). unfold call.
  destruct (ClusterRepo.find_active (w_conn w)) as [[rows|e] c].
  - destruct Hr as [Hdb ->]. simpl. split; [exact Hdb|]. split; [|done].
    intros _. unfold mirrored, w_actives, w_db. simpl. rw Hdb. by apply seed_actives.
  - simpl. split; [exact Hr|]. split; [|done]. intros Heq. exfalso.
    by apply (log_grows SeedFailed w).
Qed.

(** C33.  New clusters are committed batch by batch: when inserting batches fails, the table
    is still well formed and holds, beside what it held, exactly the clusters of the batches
    before some batch, none of that batch or of those after it, and each of them is active.
    The service, told of the error alone, logs it with the number of clusters it meant to
    insert and marks none of them, the committed ones included. *)
Theorem failed_batch_keeps_earlier_ones batches c e c' :
  cluster_inv (conn_db c) → Forall (Forall new_ok) batches →
  ClusterRepo.insert_batches batches c = (Err e, c') →
  cluster_inv (conn_db c') ∧ committed batches (conn_db c) (conn_db c') ∧
  ∀ ls w d w', let new := snd <$> iter_map (ls_fresh ls) in
    cluster_inv (w_db w) → Forall new_ok new → insert_fresh ls w = (d, w') → w_log w' ≠ w_log w →
    d = ls_changes ls ∧ w_log w' = w_log w ++ [InsertManyFailed (size (ls_fresh ls))] ∧
    committed (slice_chunks ClusterRepo.MEMPOOL_DELTA_INSERT_CHUNK_SIZE new) (w_db w) (w_db w').
Proof.
  intros Hi Hn Hb. pose proof (insert_batches_added batches _ Hi Hn c eq_refl) as Hc.
  rw Hb in Hc. split; [apply Hc|]. split; [apply Hc|]. clear.
  intros ls w d w' new Hi Hn. unfold insert_fresh. case_decide; [by intros [= <- <-]|].
  fold new. pose proof (insert_many_updates (w_db w) new Hi Hn (w_conn w) eq_refl) as Hc.
  unfold mbind, Svc_bind, call.
  destruct (ClusterRepo.insert_many_with_members new (w_conn w)) as [[rows|e] c].
  - by intros [= <- <-].
  - intros [= <- <-] _. split; [done|]. split; [|apply Hc]. cbn [w_log].
    unfold new. by rw length_fmap (Permutation_length (iter_map_perm _)) length_map_to_list.
Qed.
End theorems.

(** ** Witnesses *)

(** A node with one cluster of two transactions, every other one alone. *)
Definition demo_answer (t : string) : result ObserverError GetMempoolClusterModel :=
  if decide (t ∈ ["aa"; "bb"])
  then Ok (mkGetMempoolClusterModel 800 2 [mkClusterChunk ["aa"; "bb"] 300 800])
  else Ok (mkGetMempoolClusterModel 400 1 [mkClusterChunk [t] 100 400]).

Lemma demo_answer_stable : stable_node demo_answer.
Proof.
  split.
  - intros t g. unfold demo_answer. case_guards; intros [= <-];
      (split; [unfold MAX_CHUNKS; simpl; lia|]); apply Forall_singleton; split; vm_compute;
      split; congruence.
  - intros t g. unfold demo_answer. case_guards; intros [= <-]; right; [done|]. simpl. left.
  - intros t g t'. unfold demo_answer. destruct (decide (t ∈ _)) as [Ht|Ht]; intros [= <-] Ht'.
    + by rw decide_True.
    + apply list_elem_of_singleton in Ht' as ->. by rw decide_False.
Qed.

Definition demo_world : World := mkWorld (mkConn empty_db 0 None) Ledger.default ∅ [] 0 [].

Lemma demo_world_ok : store_ok demo_world ∧ mirrored demo_world ∧ unbroken demo_world.
Proof.
  assert (w_actives demo_world = ∅) as Ha by done. split; [split|split].
  - apply cluster_inv_empty.
  - rw Ha. split; [apply disjoint_empty|]. intros id s. by rw lookup_empty.
  - done.
  - constructor.
Qed.

Definition demo_sync : Run unit :=
  @sync_clusters stored_order ceil_units calm_env (λ _, demo_answer) 10 ["bb"; "cc"] [] [].

Definition demo_synced : World := default demo_world (snd <$> demo_sync demo_world).

Lemma demo_sync_returns : demo_sync demo_world = Some ((), demo_synced).
Proof. by vm_compute. Qed.

Lemma sync_clusters_returns_witness :
  store_ok demo_world ∧
  ∃ fuel0 w', store_ok w' ∧ ∀ fuel, (fuel0 ≤ fuel)%nat →
    @sync_clusters stored_order ceil_units calm_env (λ _, demo_answer) fuel ["bb"; "cc"] [] ["dd"]
      demo_world = Some ((), w').
Proof.
  split; [apply demo_world_ok|].
  apply (@sync_clusters_returns stored_order ceil_units calm_env (λ _, demo_answer));
    [intros _; apply demo_answer_stable|intros _; apply demo_answer_stable|apply demo_world_ok].
Defined.

Lemma service_stays_in_step_witness :
  rtc (@step stored_order ceil_units calm_env (λ _, demo_answer)) demo_world demo_synced ∧
  store_ok demo_synced ∧ (unbroken demo_synced → mirrored demo_synced).
Proof.
  assert (rtc (@step stored_order ceil_units calm_env (λ _, demo_answer)) demo_world demo_synced)
    as Hst by (eapply rtc_once, step_sync, demo_sync_returns).
  split; [exact Hst|].
  destruct (@service_stays_in_step stored_order ceil_units calm_env (λ _, demo_answer)
    demo_world demo_synced) as (Hok & Hm & _).
  - intros _. apply demo_answer_stable.
  - intros _. apply demo_answer_stable.
  - exact Hst.
  - apply demo_world_ok.
  - apply demo_world_ok.
  - exact (conj Hok Hm).
Defined.

Lemma resync_reaches_node_grouping_witness :
  ∃ id s, w_snapshot demo_synced !! id = Some s ∧
    Snapshot.cs_chunks s = [mkClusterChunk ["aa"; "bb"] 300 800].
Proof.
  destruct (@resync_reaches_node_grouping stored_order ceil_units calm_env demo_answer 10 ["bb"; "cc"]
    demo_world demo_synced) as [Hc _].
  - apply demo_answer_stable.
  - apply demo_world_ok.
  - apply demo_world_ok.
  - apply demo_world_ok.
  - exact demo_sync_returns.
  - by vm_compute.
  - apply (Hc "bb" (mkGetMempoolClusterModel 800 2 [mkClusterChunk ["aa"; "bb"] 300 800]));
      [left|reflexivity|discriminate].
Defined.

Definition demo_changes : ClusterDeltaSet := mkClusterDeltaSet ∅ {[1]}.

Lemma merge_is_composition_witness :
  delta_ok demo_changes ∧
  @apply_changes (@merge stored_order no_changes demo_changes) ∅
  = apply_changes demo_changes (apply_changes no_changes ∅).
Proof.
  assert (delta_ok demo_changes) as Hd by (split; intros ? ?; set_solver).
  split; [exact Hd|]. apply (@merge_is_composition stored_order no_changes demo_changes ∅ Hd).
Defined.

Lemma seed_snapshot_mirrors_witness :
  cluster_inv (w_db demo_synced) ∧
  w_db (@seed_snapshot calm_env demo_synced).2 = w_db demo_synced.
Proof.
  assert (cluster_inv (w_db demo_synced)) as Hi.
  { destruct (@steps_done stored_order ceil_units calm_env (λ _, demo_answer)) with (w := demo_world) (w' := demo_synced)
      as [Hok _ _ _]; [intros _; apply demo_answer_stable..| | |apply Hok].
    - eapply rtc_once, step_sync, demo_sync_returns.
    - apply demo_world_ok. }
  split; [exact Hi|]. apply (@seed_snapshot_mirrors calm_env demo_synced Hi).
Defined.

(** ** A batched insert that fails half way *)

Definition second_batch_fails : Env :=
  {| clock := λ _ _, 1700000000; pool_fault := λ _, None;
     stmt_fault := λ s, if decide (s = 8%nat) then Some "connection lost"%string else None |}.

Definition demo_single (t : string) : NewCluster := mkNewCluster [mkClusterChunk [t] 100 400] 5.

Lemma demo_single_ok t : new_ok (demo_single t).
Proof.
  split; [unfold MAX_CHUNKS; simpl; lia|]. apply Forall_singleton. split; vm_compute; split; congruence.
Qed.

Definition demo_batches : list (list NewCluster) := [[demo_single "aa"]; [demo_single "bb"]].

Definition demo_inserted : result DieselError (list Cluster) * Conn :=
  @ClusterRepo.insert_batches stored_order second_batch_fails demo_batches (mkConn empty_db 0 None).

Lemma demo_inserted_fails :
  demo_inserted = (Err (DatabaseError "connection lost"), demo_inserted.2).
Proof. by vm_compute. Qed.

Lemma failed_batch_keeps_earlier_ones_witness :
  committed demo_batches empty_db (conn_db demo_inserted.2) ∧
  dom (actives (conn_db demo_inserted.2)) = {[1]}.
Proof.
  split; [|vm_compute; reflexivity].
  apply (@failed_batch_keeps_earlier_ones stored_order second_batch_fails demo_batches
    (mkConn empty_db 0 None) (DatabaseError "connection lost") demo_inserted.2).
  - apply cluster_inv_empty.
  - apply Forall_cons. split; [|apply Forall_singleton]; apply Forall_singleton, demo_single_ok.
  - exact demo_inserted_fails.
Defined.

End ClusterServiceThms.
