(* ===== verification/Frame.v ===== *)
(** * What the cluster service leaves alone

    No operation of the cluster service writes the tables of blocks and mempool deltas,
    and its only effect on the mempool ledger is to log transitions. *)

From S2P Require Import Prelude.
From S2P Require Import Models.
From S2P Require Import Database.
From S2P Require Import ClusterRepo.
From S2P Require Import TxRepo.
From S2P Require Import Ledger.
From S2P Require Import ClusterSnapshot.
From S2P Require Import MempoolRepo.
From S2P Require Import ClusterService.

Open Scope Z_scope.

Module Frame.
Import Database ClusterService.

(** The tables other components own. *)
Definition aside (db : Db) : gmap string Block * list MempoolDelta := (db_blocks db, db_deltas db).

(** ** Statements and transactions *)

Definition keeps {A} (m : Conn → A * Conn) : Prop :=
  ∀ c, aside (conn_db (m c).2) = aside (conn_db c).

Section database.
Context `{Env}.

Lemma keeps_ret {A} (a : A) : keeps (mret a : DbM A).
Proof. by intros c. Qed.

Lemma keeps_fail {A} e : keeps (fail e : DbM A).
Proof. by intros c. Qed.

Lemma keeps_bind {A B} (m : DbM A) (f : A → DbM B) :
  keeps m → (∀ a, keeps (f a)) → keeps (m ≫= f).
Proof.
  intros Hm Hf c. specialize (Hm c). unfold mbind, DbM_bind.
  destruct (m c) as [[a|e] c1]; [|done]. by rw (Hf a c1).
Qed.

Lemma keeps_statement {A} (f : Z → Db → result DieselError (A * Db)) :
  (∀ now db a db', f now db = Ok (a, db') → aside db' = aside db) → keeps (statement f).
Proof.
  intros Hf c. unfold statement. destruct (stmt_fault _); [done|].
  destruct (f _ _) as [[a db]|e] eqn:E; [|done]. by eapply Hf.
Qed.

Lemma keeps_select {A} (f : Db → A) : keeps (select f).
Proof. apply keeps_statement. by intros now db a db' [= _ <-]. Qed.

Lemma keeps_execute f : (∀ now db, aside (f now db) = aside db) → keeps (execute f).
Proof. intros Hf. apply keeps_statement. by intros now db a db' [= _ <-]. Qed.

Lemma keeps_read_clock : keeps read_clock.
Proof. by intros c. Qed.

Lemma keeps_transaction {A} (m : DbM A) : keeps m → keeps (transaction m).
Proof.
  intros Hm c. unfold transaction. destruct (stmt_fault _); [done|].
  specialize (Hm (mkConn (conn_db c) (S (conn_step c)) (Some (clock (conn_step c) 0)))).
  destruct (m _) as [[a|e] c1]; [|done]. by destruct (stmt_fault _).
Qed.

Lemma keeps_query {A} (m : DbM A) : keeps m → keeps (query m).
Proof.
  intros Hm c. unfold query. destruct (pool_fault _); [done|].
  specialize (Hm (mkConn (conn_db c) (S (conn_step c)) None)). by destruct (m _).
Qed.

Lemma keeps_for_each {A} (f : A → DbM unit) l : (∀ x, keeps (f x)) → keeps (for_each f l).
Proof.
  intros Hf. induction l as [|x l IH]; simpl; [apply keeps_ret|]. by apply keeps_bind.
Qed.
End database.

Create HintDb keeps.
#[local] Hint Resolve keeps_ret keeps_fail keeps_select keeps_read_clock : keeps.

Ltac keeps_tac :=
  repeat first
    [ progress auto with keeps
    | apply keeps_query | apply keeps_transaction | apply keeps_for_each; intros ?
    | apply keeps_execute; by intros ? ?
    | apply keeps_bind; [|intros ?]
    | match goal with
      | |- keeps (match ?x with _ => _ end) => destruct x
      | |- keeps (λ c, (_, c)) => by intros ?
      end ].

Section calls.
Context `{EnumOrder, Env}.

(** An insert of several rows that stops at the first bad one. *)
Lemma fold_keeps {A} (f : result DieselError Db → A → result DieselError Db) l db db' :
  (∀ e x, f (Err e) x = Err e) → (∀ db x db', f (Ok db) x = Ok db' → aside db' = aside db) →
  foldl f (Ok db) l = Ok db' → aside db' = aside db.
Proof.
  intros He Hf. assert (∀ e l, foldl f (Err e) l = Err e) as Herr.
  { intros e l0. induction l0 as [|x l0 IH]; [done|]. simpl. by rw He. }
  revert db. induction l as [|x l IH]; intros db; simpl; [by intros [= <-]|].
  destruct (f (Ok db) x) as [db1|e] eqn:E; [|by rw Herr].
  intros Hl. by rw (IH _ Hl) (Hf _ _ _ E).
Qed.

Lemma keeps_insert_chunks rows : keeps (ClusterRepo.insert_chunks rows).
Proof.
  unfold ClusterRepo.insert_chunks. apply keeps_for_each. intros batch. apply keeps_statement.
  intros now db [] db'. unfold ClusterRepo.insert_chunk_batch.
  destruct (foldl _ _ _) as [db1|] eqn:E; [|done]. intros [= <-].
  eapply fold_keeps; [| |exact E]; [done|]. clear. intros db x db'. simpl.
  repeat case_match; intros; by simplify_eq.
Qed.

Lemma keeps_insert_hollow_members txids : keeps (ClusterRepo.insert_hollow_members txids).
Proof. unfold ClusterRepo.insert_hollow_members. keeps_tac. Qed.

Lemma keeps_insert_in new : keeps (ClusterRepo.insert_in new).
Proof.
  unfold ClusterRepo.insert_in.
  apply keeps_bind; [apply keeps_statement; by intros ? ? ? ? [= _ <-]|intros ids].
  apply keeps_bind; [|intros rows].
  - apply keeps_statement. intros now db a db'. unfold ClusterRepo.insert_cluster_rows.
    destruct (foldl _ _ _) as [db1|] eqn:E; [|done]. intros [= _ <-].
    eapply fold_keeps; [| |exact E]; [done|]. clear. intros db x db'. simpl.
    destruct (db_clusters db !! _); [done|]. by intros [= <-].
  - apply keeps_bind; [apply keeps_insert_chunks|intros _].
    apply keeps_bind; [apply keeps_insert_hollow_members|intros _]. keeps_tac.
Qed.

Lemma keeps_insert_with_members new : keeps (ClusterRepo.insert_with_members new).
Proof.
  unfold ClusterRepo.insert_with_members. apply keeps_query, keeps_transaction.
  apply keeps_bind; [apply keeps_insert_in|intros []]; keeps_tac.
Qed.

Lemma keeps_insert_many new : keeps (ClusterRepo.insert_many_with_members new).
Proof.
  unfold ClusterRepo.insert_many_with_members. destruct new as [|c cs]; [by intros ?|].
  apply keeps_query. induction (slice_chunks _ _) as [|b bs IH]; simpl; [apply keeps_ret|].
  apply keeps_bind; [apply keeps_transaction, keeps_insert_in|intros rows].
  apply keeps_bind; [done|intros rest; apply keeps_ret].
Qed.

Lemma keeps_replace_chunks_in update live : keeps (ClusterRepo.replace_chunks_in update live).
Proof.
  unfold ClusterRepo.replace_chunks_in.
  apply keeps_bind; [apply keeps_statement|intros old].
  { intros now db row db'. unfold ClusterRepo.find_cluster_row.
    destruct (db_clusters db !! _); [by intros [= _ <-]|done]. }
  apply keeps_bind; [apply keeps_select|intros current].
  destruct (decide _); [apply keeps_ret|].
  apply keeps_bind; [by apply keeps_execute|intros _].
  apply keeps_bind; [apply keeps_insert_chunks|intros _].
  apply keeps_bind; [apply keeps_statement|intros row].
  { intros now db row db'. unfold ClusterRepo.update_cluster_version.
    destruct (db_clusters db !! _); [by intros [= _ <-]|done]. }
  apply keeps_bind; [by apply keeps_execute|intros _].
  apply keeps_bind; [apply keeps_insert_hollow_members|intros _].
  apply keeps_bind; [by apply keeps_execute|intros _]. apply keeps_ret.
Qed.

Lemma keeps_replace_chunks update : keeps (ClusterRepo.replace_chunks update).
Proof. apply keeps_query, keeps_transaction, keeps_replace_chunks_in. Qed.

Lemma keeps_close_many ids closing : keeps (ClusterRepo.close_many ids closing).
Proof. unfold ClusterRepo.close_many, ClusterRepo.retire_chunks. keeps_tac. Qed.

Lemma keeps_confirm_many ids at_ : keeps (ClusterRepo.confirm_many ids at_).
Proof.
  unfold ClusterRepo.confirm_many, ClusterRepo.confirm_many_in, ClusterRepo.retire_chunks. keeps_tac.
Qed.

Lemma keeps_trim_and_confirm us at_ : keeps (ClusterRepo.trim_and_confirm_many us at_).
Proof.
  unfold ClusterRepo.trim_and_confirm_many. destruct us; [by intros ?|].
  apply keeps_query, keeps_transaction. apply keeps_bind; [|intros _].
  - apply keeps_for_each. intros u. apply keeps_bind; [apply keeps_replace_chunks_in|keeps_tac].
  - unfold ClusterRepo.confirm_many_in, ClusterRepo.retire_chunks. keeps_tac.
Qed.

Lemma keeps_find_active_ids txids : keeps (ClusterRepo.find_active_ids_by_txids txids).
Proof. unfold ClusterRepo.find_active_ids_by_txids. keeps_tac. Qed.

Lemma keeps_find_by_ids ids : keeps (ClusterRepo.find_by_ids ids).
Proof. unfold ClusterRepo.find_by_ids. keeps_tac. Qed.

Lemma keeps_find_mined txids : keeps (TxRepo.find_mined_by_txids txids).
Proof. unfold TxRepo.find_mined_by_txids. keeps_tac. Qed.
End calls.

#[export] Hint Resolve keeps_insert_with_members keeps_insert_many keeps_replace_chunks
  keeps_close_many keeps_confirm_many keeps_trim_and_confirm keeps_find_active_ids
  keeps_find_by_ids keeps_find_mined : keeps.

(** ** The service *)

Record framed (w w' : World) : Prop := {
  fr_aside : aside (w_db w') = aside (w_db w);
  fr_ledger : Ledger.logs (w_ledger w) (w_ledger w');
  fr_bus : w_bus w `prefix_of` w_bus w';
}.

Lemma framed_refl w : framed w w.
Proof. split; [done|apply Ledger.logs_refl|done]. Qed.

Lemma framed_trans w1 w2 w3 : framed w1 w2 → framed w2 w3 → framed w1 w3.
Proof. intros [A1 A2 A3] [B1 B2 B3]. split; [congruence|by eapply Ledger.logs_trans|by etrans]. Qed.

(** Nothing but the snapshot, the bus, the counter and the log moved. *)
Lemma framed_same w w' :
  w_db w' = w_db w → w_ledger w' = w_ledger w → w_bus w `prefix_of` w_bus w' → framed w w'.
Proof. intros Hd Hl Hb. split; [by rw Hd|rw Hl; apply Ledger.logs_refl|done]. Qed.

Definition svc_framed {A} (m : Svc A) : Prop := ∀ w, framed w (m w).2.
Definition run_framed {A} (m : Run A) : Prop := ∀ w a w', m w = Some (a, w') → framed w w'.

Lemma svc_framed_ret {A} (a : A) : svc_framed (mret a).
Proof. intros w. apply framed_refl. Qed.

Lemma svc_framed_bind {A B} (m : Svc A) (f : A → Svc B) :
  svc_framed m → (∀ a, svc_framed (f a)) → svc_framed (m ≫= f).
Proof.
  intros Hm Hf w. specialize (Hm w). unfold mbind, Svc_bind. destruct (m w) as [a w1].
  eapply framed_trans; [exact Hm|apply Hf].
Qed.

Lemma svc_framed_call {A} (m : RepoM A) : keeps m → svc_framed (call m).
Proof.
  intros Hm w. specialize (Hm (w_conn w)). unfold call. destruct (m (w_conn w)) as [r c].
  split; [exact Hm|apply Ledger.logs_refl|done].
Qed.

Lemma svc_framed_log l : svc_framed (log l).
Proof. intros w. by apply framed_same. Qed.

Lemma run_framed_ret {A} (a : A) : run_framed (mret a).
Proof. intros w b w' [= <- <-]. apply framed_refl. Qed.

Lemma run_framed_lift {A} (m : Svc A) : svc_framed m → run_framed (lift m).
Proof. intros Hm w a w' [= Heq]. specialize (Hm w). by rw Heq in Hm. Qed.

Lemma run_framed_bind {A B} (m : Run A) (f : A → Run B) :
  run_framed m → (∀ a, run_framed (f a)) → run_framed (m ≫= f).
Proof.
  intros Hm Hf w b w'. unfold mbind, Run_bind. destruct (m w) as [[a w1]|] eqn:E; [|done].
  intros Hb. eapply framed_trans; [by eapply Hm|by eapply Hf].
Qed.

Ltac framed_tac :=
  repeat first
    [ apply svc_framed_ret | apply svc_framed_log
    | apply svc_framed_call; solve [auto with keeps]
    | apply svc_framed_bind; [|intros ?]
    | apply run_framed_ret | apply run_framed_lift
    | apply run_framed_bind; [|intros ?]
    | solve [auto with framed]
    | match goal with
      | |- svc_framed (match ?x with _ => _ end) => destruct x
      | |- run_framed (match ?x with _ => _ end) => destruct x
      end ].

Create HintDb framed.

Section service.
Context `{EnumOrder, BitcoinUnits, Env}.
Context (get_mempool_cluster : nat → string → result ObserverError GetMempoolClusterModel).

Lemma fetch_framed txid : svc_framed (fetch get_mempool_cluster txid).
Proof. intros w. by apply framed_same. Qed.

Lemma assert_absent_framed txids : svc_framed (assert_absent txids).
Proof. intros w. split; [done|apply Ledger.assert_absent_logs|done]. Qed.

Lemma assert_present_framed txids : svc_framed (assert_present txids).
Proof. intros w. split; [done|apply Ledger.assert_present_logs|done]. Qed.

Lemma now_utc_framed : svc_framed now_utc.
Proof. intros w. by apply framed_same. Qed.

Lemma with_live_framed {A} (f : gset string → A) : svc_framed (with_live f).
Proof. intros w. apply framed_refl. Qed.

Lemma publish_delta_framed d : svc_framed (publish_delta d).
Proof.
  intros w. unfold publish_delta. destruct (Snapshot.publish _ _ _) as [[e|] m];
    apply framed_same; [done|done|by eexists|done..].
Qed.

#[local] Hint Resolve fetch_framed assert_absent_framed assert_present_framed now_utc_framed
  with_live_framed publish_delta_framed : framed.

Lemma new_cluster_framed cluster : svc_framed (new_cluster cluster).
Proof. unfold new_cluster. framed_tac. Qed.
#[local] Hint Resolve new_cluster_framed : framed.

Lemma upsert_framed cluster ids : svc_framed (upsert cluster ids).
Proof. unfold upsert, ClusterRepo.mark_merged. framed_tac. Qed.
#[local] Hint Resolve upsert_framed : framed.
#[local] Opaque upsert.

Lemma place_group_framed cluster first ls : svc_framed (place_group cluster first ls).
Proof. unfold place_group. framed_tac. Qed.
#[local] Hint Resolve place_group_framed : framed.
#[local] Opaque place_group.

Lemma candidate_step_framed txid ls : svc_framed (candidate_step get_mempool_cluster txid ls).
Proof. unfold candidate_step. framed_tac. Qed.
#[local] Hint Resolve candidate_step_framed : framed.

Lemma candidates_loop_framed fuel ls : run_framed (candidates_loop get_mempool_cluster fuel ls).
Proof.
  revert ls. induction fuel as [|fuel IH]; intros ls; simpl; destruct (ls_pending ls);
    [framed_tac|done|framed_tac|framed_tac].
Qed.
#[local] Hint Resolve candidates_loop_framed : framed.

Lemma handle_candidates_covering_framed fuel txids out :
  run_framed (handle_candidates_covering get_mempool_cluster fuel txids out).
Proof. unfold handle_candidates_covering, insert_fresh. framed_tac. Qed.
#[local] Hint Resolve handle_candidates_covering_framed : framed.
#[local] Opaque handle_candidates_covering.

Lemma confirm_mined_inner_framed fuel block :
  run_framed (confirm_mined_inner get_mempool_cluster fuel block).
Proof.
  unfold confirm_mined_inner, find_active_clusters_containing, confirm_full, confirm_partial,
    handle_candidates. framed_tac.
Qed.
#[local] Hint Resolve confirm_mined_inner_framed : framed.
#[local] Opaque confirm_mined_inner.

Lemma confirm_mined_framed fuel txids fees weights at_ :
  run_framed (confirm_mined get_mempool_cluster fuel txids fees weights at_).
Proof. unfold confirm_mined. framed_tac. Qed.

Lemma confirm_blocks_framed fuel blocks d :
  run_framed (confirm_blocks get_mempool_cluster fuel blocks d).
Proof.
  revert d. induction blocks as [|b blocks IH]; intros d; simpl; framed_tac.
Qed.
#[local] Hint Resolve confirm_blocks_framed : framed.
#[local] Opaque confirm_blocks.

Lemma handle_confirmed_framed fuel txids :
  run_framed (handle_confirmed get_mempool_cluster fuel txids).
Proof. unfold handle_confirmed, mined_members. framed_tac. Qed.

Lemma handle_evicted_framed fuel txids :
  run_framed (handle_evicted get_mempool_cluster fuel txids).
Proof.
  unfold handle_evicted, load_evicted, close_emptied, ClusterRepo.mark_evicted. framed_tac.
Qed.
#[local] Hint Resolve handle_confirmed_framed handle_evicted_framed : framed.
#[local] Opaque handle_confirmed handle_evicted.

Lemma sync_clusters_framed fuel candidates confirmed evicted :
  run_framed (sync_clusters get_mempool_cluster fuel candidates confirmed evicted).
Proof. unfold sync_clusters, when_nonempty, handle_candidates. framed_tac. Qed.
End service.

End Frame.
