(* ===== verification/Gate.v ===== *)
(** * The block gate

    [api/src/infra/block_gate.rs]: keeps a mempool flush and the application of a block
    from writing side by side.  The gate is two shared cells, the instant a block shut it
    and the lease a running tick holds.  The operations are functions on the cells; since
    the two actors run concurrently, the system is a step relation in which every access
    to a cell is a step of its own.  Instants are in milliseconds. *)

From S2P Require Import Prelude.

Open Scope Z_scope.

Module Gate.

Definition MAX_HOLD : Z := 300000.

Record BlockGate := mkBlockGate {
  held_since : option Z;
  in_flight : bool;
}.

Definition new_gate : BlockGate := mkBlockGate None false.

(** ** Operations *)

(** [BlockGate::is_held] *)
Definition is_held (now : Z) (g : BlockGate) : bool * BlockGate :=
  match held_since g with
  | Some acquired_at =>
      if now - acquired_at <? MAX_HOLD then (true, g)
      else (false, mkBlockGate None (in_flight g))
  | None => (false, g)
  end.

(** [try_lock_owned] on the lease *)
Definition try_lease (g : BlockGate) : option BlockGate :=
  if in_flight g then None else Some (mkBlockGate (held_since g) true).

(** [Drop for FlushLease] *)
Definition drop_lease (g : BlockGate) : BlockGate := mkBlockGate (held_since g) false.

(** [BlockGate::try_begin_flush] run without interruption: whether the tick got its lease *)
Definition try_begin_flush (now : Z) (g : BlockGate) : bool * BlockGate :=
  match try_lease g with
  | None => (false, g)
  | Some g =>
      let '(held, g) := is_held now g in
      if held then (false, drop_lease g) else (true, g)
  end.

(** [BlockGate::acquire] up to the wait *)
Definition shut (now : Z) (g : BlockGate) : BlockGate := mkBlockGate (Some now) (in_flight g).

(** [BlockGate::acquire], the end of the wait: the lease is taken and dropped at once. *)
Definition lease_free (g : BlockGate) : bool := negb (in_flight g).

(** [Drop for BlockGateGuard] *)
Definition reopen (g : BlockGate) : BlockGate := mkBlockGate None (in_flight g).

(** ** The two actors *)

(** The block side; the instant is the one [acquire] wrote. *)
Inductive BlockPc := BIdle | BWaiting (t0 : Z) | BApplying (t0 : Z).

(** The tick: before, between taking the lease and checking the gate, and running. *)
Inductive TickPc := TIdle | TLeased | TRunning.

#[global] Instance TickPc_eq_dec : EqDecision TickPc.
Proof. solve_decision. Defined.

Record Sys := mkSys {
  now : Z;
  gate : BlockGate;
  block : BlockPc;
  tick : TickPc;
}.

Definition boot (t : Z) : Sys := mkSys t new_gate BIdle TIdle.

Inductive step : Sys → Sys → Prop :=
| step_time t t' g b k : t ≤ t' → step (mkSys t g b k) (mkSys t' g b k)
| step_acquire t g k : step (mkSys t g BIdle k) (mkSys t (shut t g) (BWaiting t) k)
| step_enter t g t0 k :
    lease_free g = true → step (mkSys t g (BWaiting t0) k) (mkSys t g (BApplying t0) k)
| step_cancel t g t0 k : step (mkSys t g (BWaiting t0) k) (mkSys t (reopen g) BIdle k)
| step_release t g t0 k : step (mkSys t g (BApplying t0) k) (mkSys t (reopen g) BIdle k)
| step_lease t g g' b : try_lease g = Some g' → step (mkSys t g b TIdle) (mkSys t g' b TLeased)
| step_begin t g g' b : is_held t g = (false, g') → step (mkSys t g b TLeased) (mkSys t g' b TRunning)
| step_gated t g g' b :
    is_held t g = (true, g') → step (mkSys t g b TLeased) (mkSys t (drop_lease g') b TIdle)
| step_poll t g r g' b : is_held t g = (r, g') → step (mkSys t g b TRunning) (mkSys t g' b TRunning)
| step_end t g b : step (mkSys t g b TRunning) (mkSys t (drop_lease g) b TIdle).

(** When the block side shut the gate, while it holds it. *)
Definition shut_at (b : BlockPc) : option Z :=
  match b with BIdle => None | BWaiting t0 | BApplying t0 => Some t0 end.

(** ** Invariant *)

Record ok (s : Sys) : Prop := {
  ok_lease : in_flight (gate s) = bool_decide (tick s ≠ TIdle);
  (** The gate is shut exactly while the block side holds it, unless it expired. *)
  ok_shut : match shut_at (block s) with
            | None => held_since (gate s) = None
            | Some t0 => t0 ≤ now s ∧ (held_since (gate s) = Some t0 ∨
                           held_since (gate s) = None ∧ t0 + MAX_HOLD ≤ now s)
            end;
  ok_apart : ∀ t0, block s = BApplying t0 → tick s = TRunning → t0 + MAX_HOLD ≤ now s;
}.

Lemma ok_boot t : ok (boot t).
Proof. by split. Qed.

Lemma is_held_spec t g :
  let '(r, g') := is_held t g in
  in_flight g' = in_flight g ∧
  (held_since g' = held_since g ∨
   held_since g' = None ∧ ∃ t0, held_since g = Some t0 ∧ t0 + MAX_HOLD ≤ t) ∧
  (r = false → held_since g' = None) ∧ (r = true → g' = g).
Proof.
  unfold is_held. destruct (held_since g) as [t0|] eqn:E.
  - destruct (Z.ltb_spec (t - t0) MAX_HOLD); simpl.
    + split_and!; [done|by left|done|done].
    + split_and!; [done| |done|done]. right. split; [done|]. exists t0. split; [done|lia].
  - split_and!; [done|by left|done|done].
Qed.

(** Polling the gate keeps what is known of it. *)
Lemma ok_shut_held t g b r g' :
  is_held t g = (r, g') →
  match shut_at b with
  | None => held_since g = None
  | Some t0 => t0 ≤ t ∧ (held_since g = Some t0 ∨ held_since g = None ∧ t0 + MAX_HOLD ≤ t)
  end →
  match shut_at b with
  | None => held_since g' = None
  | Some t0 => t0 ≤ t ∧ (held_since g' = Some t0 ∨ held_since g' = None ∧ t0 + MAX_HOLD ≤ t)
  end ∧ (r = false → ∀ t0, shut_at b = Some t0 → t0 + MAX_HOLD ≤ t).
Proof.
  intros Heq Hb. pose proof (is_held_spec t g) as Hs. rw Heq in Hs.
  destruct Hs as (_ & Hh & Hf & _). destruct (shut_at b) as [t0|].
  - destruct Hb as [Hle Hb]. split.
    + split; [done|]. destruct Hh as [->|(Hn & t1 & Ht1 & Hexp)]; [done|]. right.
      split; [done|]. destruct Hb as [Hb|[_ ?]]; [|done]. assert (t1 = t0) as -> by congruence. done.
    + intros Hr ? [= <-]. specialize (Hf Hr).
      destruct Hh as [Hsame|(_ & t1 & Ht1 & Hexp)]; destruct Hb as [Hb|[? ?]]; try done.
      * rw Hsame Hb in Hf. done.
      * by assert (t1 = t0) as -> by congruence.
  - split; [|done]. destruct Hh as [->|[? _]]; done.
Qed.

Lemma step_ok s s' : step s s' → ok s → ok s'.
Proof.
  destruct 1 as [t t' g b k Hle|t g k|t g t0 k Hf|t g t0 k|t g t0 k|t g g' b Hl|t g g' b Hh
    |t g g' b Hh|t g r g' b Hh|t g b]; intros [O1 O2 O3]; simpl in *.
  - split; [done| |].
    + simpl. destruct (shut_at b) as [t0|]; [|done]. destruct O2 as [? [?|[? ?]]]; split; try lia.
      * by left.
      * right. split; [done|lia].
    + simpl. intros t0 Hb Hk. specialize (O3 t0 Hb Hk). lia.
  - split; [done| |done]. simpl. split; [lia|by left].
  - split; [done|done|]. simpl. intros t1 _ ->. unfold lease_free in Hf. by rw O1 in Hf.
  - by split.
  - by split.
  - unfold try_lease in Hl. destruct (in_flight g); [done|]. injection Hl as <-. by split.
  - pose proof (is_held_spec t g) as Hs. rw Hh in Hs. destruct Hs as (Hi & _).
    destruct (ok_shut_held _ _ _ _ _ Hh O2) as [Hsh Hexp].
    split; simpl; [by rw Hi|done|]. intros t0 Hb _. apply Hexp; [done|by rw Hb].
  - pose proof (is_held_spec t g) as Hs. rw Hh in Hs. destruct Hs as (Hi & _ & _ & He).
    specialize (He eq_refl) as ->. by split.
  - pose proof (is_held_spec t g) as Hs. rw Hh in Hs. destruct Hs as (Hi & _).
    destruct (ok_shut_held _ _ _ _ _ Hh O2) as [Hsh _]. split; simpl; [by rw Hi|done|done].
  - by split.
Qed.

Lemma reachable_ok t s : rtc step (boot t) s → ok s.
Proof.
  intros Hr. assert (∀ a b, rtc step a b → ok a → ok b) as Hgen.
  { induction 1 as [|a b c Hab _ IH]; [done|]. intros Ha. by apply IH, (step_ok a). }
  eapply Hgen; [exact Hr|apply ok_boot].
Qed.

(** C9.  Mutual exclusion: in every interleaving, a flush and a block are in progress at
    the same time only once the gate has been held past its ceiling of five minutes. *)
Theorem gate_excludes t s t0 :
  rtc step (boot t) s → block s = BApplying t0 → tick s = TRunning → t0 + MAX_HOLD ≤ now s.
Proof. intros Hr. apply (ok_apart s), (reachable_ok t), Hr. Qed.

(** While a block waits or is applied and the ceiling has not passed, the gate
    reports held and stays shut, so a flush in progress preempts itself and no new one
    starts; and a waiting block is never stuck: the tick ends by itself and lets it in. *)
Theorem gate_preempts_and_admits t s t0 :
  rtc step (boot t) s → shut_at (block s) = Some t0 →
  (now s < t0 + MAX_HOLD → is_held (now s) (gate s) = (true, gate s)) ∧
  (now s < t0 + MAX_HOLD → (try_begin_flush (now s) (gate s)).1 = false) ∧
  ∃ s', rtc step s s' ∧ block s' = BApplying t0.
Proof.
  intros Hr Hb. pose proof (reachable_ok _ _ Hr) as [O1 O2 O3].
  destruct s as [tm g b k]. simpl in *. rw Hb in O2. destruct O2 as [Hle Hheld].
  assert (tm < t0 + MAX_HOLD → held_since g = Some t0) as Hs by (intros; destruct Hheld as [?|[_ ?]]; [done|lia]).
  split_and!.
  - intros Hlt. unfold is_held. rw (Hs Hlt). destruct (Z.ltb_spec (tm - t0) MAX_HOLD); [done|lia].
  - intros Hlt. unfold try_begin_flush, try_lease. destruct (in_flight g); [done|].
    unfold is_held. simpl. rw (Hs Hlt). destruct (Z.ltb_spec (tm - t0) MAX_HOLD); [done|lia].
  - assert (∃ g', rtc step (mkSys tm g b k) (mkSys tm g' b TIdle) ∧ in_flight g' = false) as (g' & Hst & Hf).
    { destruct k.
      - exists g. split; [done|by rw O1].
      - destruct (is_held tm g) as [[] g1] eqn:E.
        + exists (drop_lease g1). split; [by eapply rtc_once, step_gated|done].
        + exists (drop_lease g1). split; [|done]. eapply rtc_l; [by eapply step_begin|].
          apply rtc_once, step_end.
      - exists (drop_lease g). split; [apply rtc_once, step_end|done]. }
    destruct b as [|t1|t1]; [done|..]; injection Hb as ->.
    + exists (mkSys tm g' (BApplying t0) TIdle). split; [|done].
      eapply rtc_r; [exact Hst|]. apply step_enter. unfold lease_free. by rw Hf.
    + by exists (mkSys tm g (BApplying t0) k).
Qed.

(** ** Witnesses *)

(** A hung block: after five minutes a tick runs beside it. *)
Definition hung : Sys := mkSys MAX_HOLD (mkBlockGate None true) (BApplying 0) TRunning.

Lemma hung_reachable : rtc step (boot 0) hung.
Proof.
  eapply rtc_l; [apply step_acquire|]. eapply rtc_l; [by apply step_enter|].
  eapply rtc_l; [apply (step_time _ MAX_HOLD); unfold MAX_HOLD; lia|].
  eapply rtc_l; [by apply step_lease|]. eapply rtc_l; [by eapply step_begin|]. done.
Qed.

Lemma gate_excludes_witness : rtc step (boot 0) hung ∧ 0 + MAX_HOLD ≤ now hung.
Proof.
  split; [exact hung_reachable|]. apply (gate_excludes 0 hung 0 hung_reachable); reflexivity.
Defined.

(** A block that waits for a running tick. *)
Definition waiting : Sys := mkSys 5 (mkBlockGate (Some 5) true) (BWaiting 5) TRunning.

Lemma waiting_reachable : rtc step (boot 5) waiting.
Proof.
  eapply rtc_l; [by apply step_lease|]. eapply rtc_l; [by eapply step_begin|].
  eapply rtc_l; [apply step_acquire|]. done.
Qed.

Lemma gate_preempts_and_admits_witness :
  shut_at (block waiting) = Some 5 ∧
  is_held (now waiting) (gate waiting) = (true, gate waiting) ∧
  ∃ s', rtc step waiting s' ∧ block s' = BApplying 5.
Proof.
  destruct (gate_preempts_and_admits 5 waiting 5 waiting_reachable eq_refl) as (Hh & _ & He).
  split; [reflexivity|]. split; [apply Hh; reflexivity|exact He].
Defined.

End Gate.
