(* ===== verification/Backfill.v ===== *)
(** * Transaction backfill

    [api/src/services/tx_backfill.rs]: the bounded queue of hollow transactions and the
    consumer that fills them in from the node, stage by stage.  Delays are in
    milliseconds; the jitter of [shared/src/backoff.rs] (a hash and floating point) is a
    parameter of the schedule. *)

From S2P Require Import Prelude.
From S2P Require Import Models.
From S2P Require Import Database.
From S2P Require Import TxRepo.
From S2P Require Import Ledger.
From S2P Require Import ClusterService.

Open Scope Z_scope.

Module Backfill.
Import Database ClusterService.

Definition MAX_ATTEMPTS : Z := 37.
Definition RETRY_BACKOFF_BASE : Z := 250.
Definition MAX_RETRY_BACKOFF : Z := 60000.

Record BackfillRequest := mkBackfillRequest {
  br_txid : string;
  br_attempts : Z;
  br_stage : BackfillStage;
}.
#[global] Instance BackfillRequest_eq_dec : EqDecision BackfillRequest.
Proof. solve_decision. Defined.

(** [BackfillRequest::new] *)
Definition new_request (txid : string) (stage : BackfillStage) : BackfillRequest :=
  mkBackfillRequest txid 0 stage.

(** ** The queue *)

Record TxBackfillQueue := mkQueue {
  q_capacity : nat;
  q_items : list BackfillRequest;
  q_closed : bool;
  q_taken : bool;
}.

(** [TxBackfillQueue::new] *)
Definition new_queue (capacity : nat) : TxBackfillQueue := mkQueue capacity [] false false.

(** [TxBackfillQueue::send]: [try_send] on the bounded channel. *)
Definition send (req : BackfillRequest) (q : TxBackfillQueue) : bool * TxBackfillQueue :=
  if q_closed q then (false, q)
  else if bool_decide (q_capacity q ≤ length (q_items q))%nat then (false, q)
  else (true, mkQueue (q_capacity q) (q_items q ++ [req]) (q_closed q) (q_taken q)).

Definition enqueue (txid : string) (stage : BackfillStage) (q : TxBackfillQueue) : TxBackfillQueue :=
  (send (new_request txid stage) q).2.

Definition requeue (req : BackfillRequest) (q : TxBackfillQueue) : TxBackfillQueue := (send req q).2.

(** [take_receiver]: whether the consuming end was still there. *)
Definition take_receiver (q : TxBackfillQueue) : bool * TxBackfillQueue :=
  (negb (q_taken q), mkQueue (q_capacity q) (q_items q) (q_closed q) true).

(** [rx.recv()] and [rx.close()] on the consuming end. *)
Definition recv (q : TxBackfillQueue) : option (BackfillRequest * TxBackfillQueue) :=
  match q_items q with
  | [] => None
  | req :: items => Some (req, mkQueue (q_capacity q) items (q_closed q) (q_taken q))
  end.
Definition close (q : TxBackfillQueue) : TxBackfillQueue :=
  mkQueue (q_capacity q) (q_items q) true (q_taken q).

(** ** The retry schedule *)

(** [in_mempool || attempts_made < MAX_ATTEMPTS] *)
Definition should_retry (attempts_made : Z) (in_mempool : bool) : bool :=
  in_mempool || (attempts_made <? MAX_ATTEMPTS).

(** [u8::saturating_add(1)] *)
Definition next_attempt (attempts : Z) : Z := Z.min (attempts + 1) 255.

(** [1u32.checked_shl(attempts).unwrap_or(u32::MAX)] *)
Definition shift_factor (attempts : Z) : Z := if attempts <? 32 then 2 ^ attempts else 2 ^ 32 - 1.

Definition retry_backoff (attempts : Z) : Z :=
  Z.min (RETRY_BACKOFF_BASE * shift_factor attempts) MAX_RETRY_BACKOFF.

(** ** The consumer *)

Inductive Next :=
| Finished
| Dropped
| RetryAfter (delay : Z) (req : BackfillRequest).

Section consumer.
Context `{Env}.
(** [TransactionRetriever]: the node's answer to the [n]-th call. *)
Context (get_raw_transaction : nat → string → result ObserverError GetRawTransactionModel).
Context (get_mempool_entry : nat → string → result ObserverError MempoolEntrySummary).
(** [jittered(delay, RETRY_JITTER, key)] *)
Context (jittered : Z → string * Z → Z).

Definition ask {A} (f : nat → result ObserverError A) : Svc (result ObserverError A) := λ w,
  (f (w_calls w), mkWorld (w_conn w) (w_ledger w) (w_snapshot w) (w_bus w) (S (w_calls w)) (w_log w)).

(** What a stage makes of the repository's answer. *)
Definition stage_of (r : result RepoError (option StoredTxFill)) : option BackfillStage :=
  match r with
  | Ok None => None
  | Ok (Some fill) => backfill_stage fill
  | Err _ => None
  end.

Definition run_raw_stage (txid : string) : Svc (result ObserverError (option BackfillStage)) :=
  tx ← ask (λ n, get_raw_transaction n txid);
  match tx with
  | Err e => mret (Err e)
  | Ok tx =>
      r ← call (TxRepo.backfill_raw txid (grt_input_txids tx) (to_i64 (grt_weight tx)));
      mret (Ok (stage_of r))
  end.

Definition run_entry_stage (txid : string) : Svc (result ObserverError (option BackfillStage)) :=
  entry ← ask (λ n, get_mempool_entry n txid);
  match entry with
  | Err e => mret (Err e)
  | Ok entry =>
      r ← call (TxRepo.backfill_fee txid (to_i64 (mes_fee_in_sats entry)));
      mret (Ok (stage_of r))
  end.

Definition run_stages (txid : string) (stage : BackfillStage) :
    Svc (result (BackfillStage * ObserverError) unit) :=
  after_raw ← (match stage with
               | Raw => r ← run_raw_stage txid; mret (map_err (pair Raw) r)
               | Entry => mret (Ok (Some Entry))
               end : Svc (result (BackfillStage * ObserverError) (option BackfillStage)));
  match after_raw with
  | Err e => mret (Err e)
  | Ok (Some Entry) =>
      r ← run_entry_stage txid;
      mret (match r with Ok _ => Ok () | Err e => Err (Entry, e) end)
  | Ok _ => mret (Ok ())
  end.

Definition process (req : BackfillRequest) : Svc Next :=
  outcome ← run_stages (br_txid req) (br_stage req);
  match outcome with
  | Ok _ => mret Finished
  | Err (_, TxNotFoundInMempool _) => mret Dropped
  | Err (_, InvalidParams _) => mret Dropped
  | Err (stage, _) =>
      let attempts_made := next_attempt (br_attempts req) in
      in_mempool ← with_live (λ live, bool_decide (br_txid req ∈ live));
      if should_retry attempts_made in_mempool then
        mret (RetryAfter (jittered (retry_backoff (br_attempts req)) (br_txid req, br_attempts req))
                (mkBackfillRequest (br_txid req) attempts_made stage))
      else mret Dropped
  end.

(** The [select!] after the decision: the requeue, unless shutdown closed the queue first. *)
Definition settle (next : Next) (closed_first : bool) (q : TxBackfillQueue) : TxBackfillQueue :=
  match next with
  | RetryAfter _ req => if closed_first then q else requeue req q
  | _ => q
  end.
End consumer.

(** ** The schedule *)

Lemma shift_factor_pos a : 0 ≤ a → 1 ≤ shift_factor a.
Proof.
  intros Ha. unfold shift_factor. destruct (Z.ltb_spec a 32); [|lia].
  pose proof (Z.pow_pos_nonneg 2 a). lia.
Qed.

Lemma shift_factor_mono a b : 0 ≤ a ≤ b → shift_factor a ≤ shift_factor b.
Proof.
  intros Hab. unfold shift_factor. destruct (Z.ltb_spec a 32), (Z.ltb_spec b 32); try lia.
  - apply Z.pow_le_mono_r; lia.
  - assert (2 ^ a ≤ 2 ^ 31) by (apply Z.pow_le_mono_r; lia). lia.
Qed.

(** The retry delay starts at a quarter second, never shrinks as attempts add up,
    doubles exactly until the ceiling and stays there, for every value an attempt counter
    can take. *)
Theorem retry_backoff_schedule a b :
  0 ≤ a ≤ b → b ≤ 255 →
  RETRY_BACKOFF_BASE ≤ retry_backoff a ≤ retry_backoff b ∧ retry_backoff b ≤ MAX_RETRY_BACKOFF ∧
  retry_backoff (a + 1) = Z.min (2 * retry_backoff a) MAX_RETRY_BACKOFF ∧
  (8 ≤ a → retry_backoff a = MAX_RETRY_BACKOFF).
Proof.
  intros Hab Hb. unfold retry_backoff, RETRY_BACKOFF_BASE, MAX_RETRY_BACKOFF.
  pose proof (shift_factor_pos a). pose proof (shift_factor_mono a b).
  assert (8 ≤ a → 256 ≤ shift_factor a) as Hbig.
  { intros Ha. change 256 with (shift_factor 8). apply shift_factor_mono. lia. }
  split_and!; [lia..| |].
  - destruct (Z.lt_ge_cases a 31) as [Hlt|Hge].
    + unfold shift_factor in *. destruct (Z.ltb_spec a 32), (Z.ltb_spec (a + 1) 32); try lia.
      rw Z.pow_add_r; lia.
    + assert (256 ≤ shift_factor (a + 1)).
      { change 256 with (shift_factor 8). apply shift_factor_mono. lia. }
      assert (256 ≤ shift_factor a) by (apply Hbig; lia). lia.
  - intros Ha. specialize (Hbig Ha). lia.
Qed.

(** The delays a request outside the mempool waits before it is given up. *)
Definition patience : Z :=
  sum_Z (retry_backoff <$>
    filter (λ a, should_retry (next_attempt a) false = true) (Z.of_nat <$> seq 0 256)).

Lemma retry_cap a :
  0 ≤ a ≤ 255 → should_retry (next_attempt a) false = true ↔ a < MAX_ATTEMPTS - 1.
Proof. intros Ha. unfold should_retry, next_attempt, MAX_ATTEMPTS. simpl. rw Z.ltb_lt. lia. Qed.

(** ** Filling a row in *)

Section filling.
Context `{Env}.

(** A server that answers every statement. *)
Definition healthy : Prop := (∀ s, pool_fault s = None) ∧ (∀ s, stmt_fault s = None).

Lemma call_update_one w cond f txid tx :
  healthy → db_txs (w_db w) !! txid = Some tx →
  let '(r, w') := call (query (statement (TxRepo.update_one cond f txid))) w in
  w_ledger w' = w_ledger w ∧
  if cond tx then r = Ok (Some (stored_fill (f tx))) ∧ db_txs (w_db w') = <[txid := f tx]> (db_txs (w_db w))
  else r = Ok None ∧ db_txs (w_db w') = db_txs (w_db w).
Proof.
  intros [Hp Hs] Htx. unfold call, query, statement. rw Hp Hs. unfold TxRepo.update_one.
  unfold w_db in Htx. simpl. rw Htx. by destruct (cond tx).
Qed.

Context (get_raw_transaction : nat → string → result ObserverError GetRawTransactionModel).
Context (get_mempool_entry : nat → string → result ObserverError MempoolEntrySummary).

Lemma entry_stage_fills w txid tx :
  healthy → db_txs (w_db w) !! txid = Some tx → backfill_stage (stored_fill tx) ≠ Some Raw →
  (∃ e, (run_entry_stage get_mempool_entry txid w).1 = Err e ∧
     db_txs (w_db (run_entry_stage get_mempool_entry txid w).2) = db_txs (w_db w)) ∨
  ∃ o tx', (run_entry_stage get_mempool_entry txid w).1 = Ok o ∧
    db_txs (w_db (run_entry_stage get_mempool_entry txid w).2) !! txid = Some tx' ∧
    is_complete tx' = true.
Proof.
  intros Hh Htx Hst. unfold run_entry_stage, mbind, Svc_bind, ask.
  destruct (get_mempool_entry _ txid) as [entry|e]; [right|left; by exists e].
  set (w1 := mkWorld _ _ _ _ _ _). pose proof (call_update_one w1 (λ tx, bool_decide (tx_fee tx = None))
    (TxRepo.set_tx_fee (Some (to_i64 (mes_fee_in_sats entry)))) txid tx Hh Htx) as Hc.
  unfold TxRepo.backfill_fee. destruct (call _ w1) as [r w2]. destruct Hc as [_ Hc]. simpl.
  unfold is_complete, backfill_stage, stored_fill in *. simpl in *.
  destruct (bool_decide_reflect (tx_fee tx = None)) as [Hf|Hf]; destruct Hc as [-> Hdb].
  - eexists _, _. split; [done|]. rw Hdb lookup_insert_eq. split; [done|]. simpl.
    destruct (negb _ || _); [done|]. done.
  - eexists _, tx. split; [done|]. rw Hdb. split; [done|].
    destruct (negb _ || _); [done|]. apply not_eq_None_Some in Hf.
    by rw (bool_decide_eq_true_2 _ Hf).
Qed.

(** Backfilling a stored row on a healthy server: from whichever stage the row
    lacks, the run ends with the row complete, or with an error of the node that names
    the stage to retry from, and that stage is the one the row then lacks: a stage that
    succeeded is never run again. *)
Theorem run_stages_fills w txid tx stage :
  healthy → db_txs (w_db w) !! txid = Some tx → backfill_stage (stored_fill tx) = Some stage →
  (∀ n raw, get_raw_transaction n txid = Ok raw → 0 < grt_weight raw < 2 ^ 63) →
  let '(r, w') := run_stages get_raw_transaction get_mempool_entry txid stage w in
  ∃ tx', db_txs (w_db w') !! txid = Some tx' ∧
  match r with
  | Ok _ => is_complete tx' = true
  | Err (failed, _) => backfill_stage (stored_fill tx') = Some failed
  end.
Proof.
  intros Hh Htx Hst Hw. unfold run_stages, mbind, Svc_bind. destruct stage.
  - unfold run_raw_stage, mbind, Svc_bind, ask.
    destruct (get_raw_transaction _ txid) as [raw|e] eqn:Eraw; [|by exists tx].
    set (w1 := mkWorld _ _ _ _ _ _).
    pose proof (call_update_one w1 TxRepo.lacks_raw
      (TxRepo.set_tx_raw (grt_input_txids raw) (to_i64 (grt_weight raw))) txid tx Hh Htx) as Hc.
    unfold TxRepo.backfill_raw. destruct (call _ w1) as [r w2]. destruct Hc as [_ Hc].
    assert (TxRepo.lacks_raw tx = true) as Hl.
    { unfold backfill_stage, stored_fill in Hst. simpl in Hst. unfold TxRepo.lacks_raw.
      destruct (tx_input_txids tx); simpl in *; [|done].
      destruct (tx_weight tx =? 0); [done|]. by destruct (bool_decide _). }
    rw Hl in Hc. destruct Hc as [-> Hdb]. cbn [mret Svc_ret map_err stage_of].
    specialize (Hw _ _ Eraw). assert (to_i64 (grt_weight raw) = grt_weight raw) as Hid
      by (apply to_i64_id; unfold is_i64; lia).
    set (tx1 := TxRepo.set_tx_raw _ _ tx) in Hdb |- *.
    assert (db_txs (w_db w2) !! txid = Some tx1) as Htx1 by by rw Hdb lookup_insert_eq.
    assert (backfill_stage (stored_fill tx1) =
      if bool_decide (is_Some (tx_fee tx)) then None else Some Entry) as Hst1.
    { unfold backfill_stage, stored_fill. simpl. rw Hid.
      destruct (Z.eqb_spec (grt_weight raw) 0); [lia|]. simpl. by destruct (bool_decide _). }
    rw Hst1. destruct (bool_decide (is_Some (tx_fee tx))) eqn:Ef.
    + exists tx1. split; [done|]. unfold is_complete. by rw Hst1.
    + destruct (entry_stage_fills w2 txid tx1 Hh Htx1) as [(e & Hr & Hdb2)|(o & tx2 & Hr & Htx2 & Hc2)];
        [by rw Hst1| |]; destruct (run_entry_stage _ txid w2) as [r2 w3]; simpl in *; subst r2.
      * exists tx1. by rw Hdb2.
      * by exists tx2.
  - cbn [mret Svc_ret].
    destruct (entry_stage_fills w txid tx Hh Htx) as [(e & Hr & Hdb2)|(o & tx2 & Hr & Htx2 & Hc2)];
      [by rw Hst| |]; destruct (run_entry_stage _ txid w) as [r2 w3]; simpl in *; subst r2.
    + exists tx. by rw Hdb2.
    + by exists tx2.
Qed.
End filling.

(** ** Witnesses *)

Lemma retry_backoff_schedule_witness :
  0 ≤ 3 ≤ 9 ∧ RETRY_BACKOFF_BASE ≤ retry_backoff 3 ≤ retry_backoff 9.
Proof. split; [lia|]. apply (retry_backoff_schedule 3 9); lia. Defined.

Definition demo_raw (_ : nat) (t : string) : result ObserverError GetRawTransactionModel :=
  Ok (mkGetRawTransactionModel t 2 0 100 400 1 ["parent"] 1 0 None).
Definition demo_entry (_ : nat) (t : string) : result ObserverError MempoolEntrySummary :=
  Ok (mkMempoolEntrySummary t 500 100 400 1 1 0 0).
Definition demo_hollow : World :=
  mkWorld (mkConn (set_txs {["aa" := hollow 7 "aa"]} empty_db) 0 None) Ledger.default ∅ [] 0 [].

Lemma run_stages_fills_witness :
  @healthy calm_env ∧
  match @run_stages calm_env demo_raw demo_entry "aa" Raw demo_hollow with
  | (Ok _, w') => ∃ tx, db_txs (w_db w') !! "aa" = Some tx ∧ is_complete tx = true
  | (Err _, _) => False
  end.
Proof.
  assert (@healthy calm_env) as Hh by by split. split; [exact Hh|].
  pose proof (@run_stages_fills calm_env demo_raw demo_entry demo_hollow "aa" (hollow 7 "aa") Raw
    Hh eq_refl eq_refl) as Hx.
  destruct (@run_stages calm_env demo_raw demo_entry "aa" Raw demo_hollow) as [[o|e] w'] eqn:E.
  - apply Hx. intros n raw [= <-]. simpl. lia.
  - exfalso. apply (f_equal (λ r, result_ok r.1)) in E. revert E. vm_compute. discriminate.
Defined.

End Backfill.
