(* ===== verification/Jitter.v ===== *)
(** * Jittered delays

    [shared/src/backoff.rs]: a delay scaled by a factor that the hash of a key picks, in the
    binary64 arithmetic the code uses, and what it makes of the retry schedule of
    [api/src/services/tx_backfill.rs].  [Duration]s are whole nanoseconds.  The hash of a key
    is a parameter: the library leaves the function [DefaultHasher] computes open. *)

From Stdlib Require Import SpecFloat.
From S2P Require Import Prelude.
From S2P Require Import Float.
From S2P Require Import Models.
From S2P Require Import Database.
From S2P Require Import Ledger.
From S2P Require Import ClusterService.
From S2P Require Import Backfill.

Open Scope Z_scope.

Module Jitter.
Import Float Database ClusterService Backfill.

(** ** [std::time::Duration] *)

Definition NANOS_PER_SEC : Z := 1000000000.

(** [Duration::as_secs_f64] *)
Definition as_secs_f64 (d : Z) : f64 :=
  f64_add (of_Z (d / NANOS_PER_SEC)) (f64_div (of_Z (d mod NANOS_PER_SEC)) (of_Z NANOS_PER_SEC)).

(** [Duration::from_secs_f64]: to the nearest nanosecond, ties to even; [None] where it
    panics. *)
Definition from_secs_f64 (x : f64) : option Z :=
  match x with
  | S754_zero _ => Some 0
  | S754_finite false m e =>
      let ns := if 0 <=? e then Z.pos m * NANOS_PER_SEC * 2 ^ e else rne (Z.pos m * NANOS_PER_SEC) (- e) in
      if ns <? 2 ^ 64 * NANOS_PER_SEC then Some ns else None
  | _ => None
  end.

(** [Duration::mul_f64] *)
Definition mul_f64 (d : Z) (rhs : f64) : option Z := from_secs_f64 (f64_mul rhs (as_secs_f64 d)).

(** ** [backoff.rs] *)

Section jittered.
Context {K : Type} (hash : K → Z).

Definition unit_from (key : K) : f64 :=
  f64_div (of_Z (Z.shiftr (hash key) 11)) (of_Z (Z.shiftl 1 53)).

Definition jittered (delay : Z) (spread : f64) (key : K) : option Z :=
  mul_f64 delay (f64_add (f64_sub (of_Z 1) spread)
                   (f64_mul (f64_mul (of_Z 2) spread) (unit_from key))).
End jittered.

(** [RETRY_JITTER], the number nearest to 0.2. *)
Definition RETRY_JITTER : f64 := f64_div (of_Z 2) (of_Z 10).

(** A retry's delay, in nanoseconds, of a schedule in milliseconds. *)
Definition retry_delay (hash : string * Z → Z) (delay : Z) (key : string * Z) : Z :=
  default 0 (jittered hash (delay * 1000000) RETRY_JITTER key).


(** ** A larger hash never shortens a delay *)

(** The top 53 bits of the hash fill the mantissa exactly. *)
Lemma unit_from_exact {K} (hash : K → Z) key :
  0 ≤ hash key < 2 ^ 64 →
  normal (-105) (-52) (unit_from hash key) ∧
  val (unit_from hash key) * 2 ^ 53 = Z.shiftr (hash key) 11 * 2 ^ SCALE ∧
  0 ≤ Z.shiftr (hash key) 11 < 2 ^ 53.
Proof.
  intros Hh. assert (0 ≤ Z.shiftr (hash key) 11 < 2 ^ 53) as Hn.
  { rw Z.shiftr_div_pow2; [|lia]. split; [apply Z.div_pos; lia|apply Z.div_lt_upper_bound; lia]. }
  destruct (of_Z_exact _ Hn) as [N1 V1]. unfold unit_from. change (Z.shiftl 1 53) with (2 ^ 53).
  destruct (div_pow53 _ _ _ N1) as [N2 V2]; [lia..|].
  split; [done|]. by rw V2 V1.
Qed.

Lemma from_secs_val lo hi x :
  normal lo hi x → - SCALE ≤ lo →
  from_secs_f64 x = let ns := rne (val x * NANOS_PER_SEC) SCALE in
    if ns <? 2 ^ 64 * NANOS_PER_SEC then Some ns else None.
Proof.
  intros [->|(m & e & -> & Hm & He)] Hlo; [done|]. pose proof SCALE_eq as HS.
  unfold from_secs_f64. assert ((if 0 <=? e then Z.pos m * NANOS_PER_SEC * 2 ^ e
    else rne (Z.pos m * NANOS_PER_SEC) (- e)) = rne (val (S754_finite false m e) * NANOS_PER_SEC) SCALE) as ->; [|done].
  simpl val. replace (Z.pos m * 2 ^ (e + SCALE) * NANOS_PER_SEC)
    with (Z.pos m * NANOS_PER_SEC * 2 ^ (e + SCALE)) by lia.
  destruct (Z.leb_spec 0 e).
  - rw Z.pow_add_r; [|lia..]. rw Z.mul_assoc rne_exact; lia.
  - rw -(rne_scale _ (- e) (e + SCALE)); [|lia..]. f_equal. lia.
Qed.

Lemma from_secs_mono lo hi x y b :
  normal lo hi x → normal lo hi y → - SCALE ≤ lo → val x ≤ val y → from_secs_f64 y = Some b →
  ∃ a, from_secs_f64 x = Some a ∧ a ≤ b.
Proof.
  intros Nx Ny Hlo Hle. rw (from_secs_val _ _ _ Nx Hlo) (from_secs_val _ _ _ Ny Hlo). cbv zeta.
  assert (rne (val x * NANOS_PER_SEC) SCALE ≤ rne (val y * NANOS_PER_SEC) SCALE) as Hm.
  { apply rne_mono; [by rw SCALE_eq|]. unfold NANOS_PER_SEC. lia. }
  destruct (Z.ltb_spec (rne (val y * NANOS_PER_SEC) SCALE) (2 ^ 64 * NANOS_PER_SEC)); [|done].
  intros [= <-]. rw (proj2 (Z.ltb_lt _ _)); [|lia]. by eexists.
Qed.

(** The jittered delay of one key is at most that of another with a larger hash. *)
Lemma jittered_mono {K L} (hash : K → Z) (hash' : L → Z) key key' delay b :
  0 ≤ hash key ≤ hash' key' → hash' key' < 2 ^ 64 → normal (-100) 100 (as_secs_f64 delay) →
  jittered hash' delay RETRY_JITTER key' = Some b →
  ∃ a, jittered hash delay RETRY_JITTER key = Some a ∧ a ≤ b.
Proof.
  intros Hle Hlt Nd. unfold jittered, mul_f64.
  destruct (unit_from_exact hash key) as (N1 & V1 & R1); [lia|].
  destruct (unit_from_exact hash' key') as (N2 & V2 & R2); [lia|].
  assert (val (unit_from hash key) ≤ val (unit_from hash' key')) as Hu.
  { assert (Z.shiftr (hash key) 11 ≤ Z.shiftr (hash' key') 11).
    { rw !Z.shiftr_div_pow2; [|lia..]. apply Z.div_le_mono; lia. }
    assert (0 < 2 ^ SCALE) by (apply pow2_pos; by rw SCALE_eq). nia. }
  set (c := f64_mul (of_Z 2) RETRY_JITTER).
  assert (normal (-54) (-54) c) as Nc by (right; eexists _, _; split; [vm_compute; reflexivity|lia]).
  set (base := f64_sub (of_Z 1) RETRY_JITTER).
  assert (normal (-53) (-53) base) as Nb by (right; eexists _, _; split; [vm_compute; reflexivity|lia]).
  pose proof SCALE_eq as HS.
  destruct (mul_rounds _ _ _ _ _ _ Nc N1) as [M1 _]; [lia..|].
  destruct (mul_rounds _ _ _ _ _ _ Nc N2) as [M2 _]; [lia..|].
  pose proof (mul_mono _ _ _ _ _ _ _ _ Nc Nc N1 N2 ltac:(lia) ltac:(lia) ltac:(lia) ltac:(lia)
    (Z.le_refl _) Hu) as Hm. simpl Z.add in M1, M2.
  apply (normal_weaken _ _ (-107) (-52)) in M1, M2, Nb; [|lia..].
  destruct (add_rounds _ _ _ _ Nb M1) as [A1 _]; [lia..|].
  destruct (add_rounds _ _ _ _ Nb M2) as [A2 _]; [lia..|].
  pose proof (add_mono _ _ _ _ _ Nb M1 M2 ltac:(lia) ltac:(lia) Hm) as Ha.
  destruct (mul_rounds _ _ _ _ _ _ A1 Nd) as [D1 _]; [lia..|].
  destruct (mul_rounds _ _ _ _ _ _ A2 Nd) as [D2 _]; [lia..|].
  apply (from_secs_mono _ _ _ _ _ D1 D2); [lia|].
  apply (mul_mono _ _ _ _ _ _ _ _ A1 A2 Nd Nd); lia.
Qed.

(** ** The retry schedule *)

(** The two ends of the range, for one delay of the schedule. *)
Definition ends (a : Z) : option Z * option Z :=
  (jittered (λ _ : unit, 0) (retry_backoff a * 1000000) RETRY_JITTER (),
   jittered (λ _ : unit, 2 ^ 64 - 1) (retry_backoff a * 1000000) RETRY_JITTER ()).

Lemma ends_within a :
  0 ≤ a → normal (-100) 100 (as_secs_f64 (retry_backoff a * 1000000)) ∧
  ∃ lo hi, ends a = (Some lo, Some hi) ∧
    4 * (retry_backoff a * 1000000) = 5 * lo ∧ 5 * hi = 6 * (retry_backoff a * 1000000).
Proof.
  intros Ha. assert (retry_backoff a = retry_backoff (Z.min a 8)) as Hb.
  { destruct (decide (a ≤ 8)); [by rw Z.min_l|]. rw Z.min_r; [|lia].
    unfold retry_backoff, RETRY_BACKOFF_BASE, MAX_RETRY_BACKOFF.
    pose proof (shift_factor_mono 8 a ltac:(lia)). change (shift_factor 8) with 256 in *. lia. }
  unfold ends. rw Hb. assert (0 ≤ Z.min a 8 ≤ 8) as Hm by lia. revert Hm. generalize (Z.min a 8).
  clear. intros a Ha.
  assert (a = 0 ∨ a = 1 ∨ a = 2 ∨ a = 3 ∨ a = 4 ∨ a = 5 ∨ a = 6 ∨ a = 7 ∨ a = 8) as Hcases by lia.
  repeat destruct Hcases as [->|Hcases]; try subst a.
  all: split; [right; eexists _, _; split; [vm_compute; reflexivity|lia]|].
  all: eexists _, _; split; [vm_compute; reflexivity|done].
Qed.

(** What the consumer decides for a request it puts back, whatever the delays. *)
Lemma process_retries `{Env} get_raw get_entry (jit : Z → string * Z → Z) req w delay req' w' :
  process get_raw get_entry jit req w = (RetryAfter delay req', w') →
  delay = jit (retry_backoff (br_attempts req)) (br_txid req, br_attempts req) ∧
  br_txid req' = br_txid req ∧ br_attempts req' = next_attempt (br_attempts req).
Proof.
  unfold process, mbind, Svc_bind. destruct (run_stages _ _ _ _ w) as [[[]|[stage e]] w1]; [done|].
  destruct e; try done; destruct (with_live _ w1) as [b w2];
    destruct (should_retry _ b); by try intros [= <- <- _].
Qed.

Section schedule.
Context (hash : string * Z → Z).
Context (hash_u64 : ∀ key, 0 ≤ hash key < 2 ^ 64).

Lemma jittered_within a txid :
  0 ≤ a → ∃ d, jittered hash (retry_backoff a * 1000000) RETRY_JITTER (txid, a) = Some d ∧
    4 * (retry_backoff a * 1000000) ≤ 5 * d ≤ 6 * (retry_backoff a * 1000000).
Proof.
  intros Ha. destruct (ends_within a Ha) as (Nd & lo & hi & He & Hlo & Hhi).
  apply pair_equal_spec in He as [El Eh]. pose proof (hash_u64 (txid, a)) as Hh.
  destruct (jittered_mono hash (λ _ : unit, 2 ^ 64 - 1) (txid, a) () (retry_backoff a * 1000000) hi) as (d & Ed & Hd);
    [cbv beta; lia..|done|done|].
  destruct (jittered_mono (λ _ : unit, 0) hash () (txid, a) (retry_backoff a * 1000000) d) as (lo' & El' & Hl');
    [cbv beta; lia..|done|done|].
  exists d. split; [done|]. rw El in El'. injection El' as <-. lia.
Qed.

Lemma retry_delay_within a txid :
  0 ≤ a → 4 * (retry_backoff a * 1000000) ≤ 5 * retry_delay hash (retry_backoff a) (txid, a)
          ≤ 6 * (retry_backoff a * 1000000).
Proof. intros Ha. unfold retry_delay. by destruct (jittered_within a txid Ha) as (d & -> & Hd). Qed.

(** What a request that keeps failing outside the mempool waits, in nanoseconds. *)
Definition waited (txid : string) : Z :=
  sum_Z ((λ a, retry_delay hash (retry_backoff a) (txid, a)) <$>
    filter (λ a, should_retry (next_attempt a) false = true) (Z.of_nat <$> seq 0 256)).

Lemma waited_within txid : 4 * (patience * 1000000) ≤ 5 * waited txid ≤ 6 * (patience * 1000000).
Proof.
  unfold waited, patience.
  assert (Forall (λ a, 0 ≤ a) (filter (λ a, should_retry (next_attempt a) false = true)
    (Z.of_nat <$> seq 0 256))) as Hall.
  { apply Forall_forall. intros a (_ & (n & -> & _)%list_elem_of_fmap)%list_elem_of_filter. lia. }
  revert Hall. generalize (filter (λ a, should_retry (next_attempt a) false = true)
    (Z.of_nat <$> seq 0 256)). intros l. induction 1 as [|a l Ha _ IH]; [done|].
  rw !fmap_cons. simpl sum_Z. pose proof (retry_delay_within a txid Ha). lia.
Qed.

Section process.
Context `{Env}.
Context (get_raw_transaction : nat → string → result ObserverError GetRawTransactionModel).
Context (get_mempool_entry : nat → string → result ObserverError MempoolEntrySummary).

(** Errors after which a request is not tried again. *)
Definition terminal (e : ObserverError) : bool :=
  match e with TxNotFoundInMempool _ | InvalidParams _ => true | _ => false end.

(** Which of the other failures are the last. *)
Lemma retries_exhausted a (in_mempool : bool) :
  0 ≤ a ≤ 255 →
  should_retry (next_attempt a) in_mempool = false ↔ MAX_ATTEMPTS - 1 ≤ a ∧ in_mempool = false.
Proof.
  intros Ha. pose proof (retry_cap a Ha) as Hcap.
  destruct in_mempool; [split; [done|by intros [_ ?]]|].
  rw -not_true_iff_false Hcap. split; [intros Hlt; split; [lia|done]|intros [Hle _]; lia].
Qed.

(** When the consumer drops a request. *)
Lemma process_drops (jit : Z → string * Z → Z) req w w' :
  0 ≤ br_attempts req ≤ 255 →
  process get_raw_transaction get_mempool_entry jit req w = (Dropped, w') ↔
  ∃ stage e, run_stages get_raw_transaction get_mempool_entry (br_txid req) (br_stage req) w
               = (Err (stage, e), w') ∧
    (terminal e = true ∨
     MAX_ATTEMPTS - 1 ≤ br_attempts req ∧ br_txid req ∉ Ledger.live (w_ledger w')).
Proof.
  intros Ha. unfold process, mbind, Svc_bind.
  destruct (run_stages _ _ _ _ w) as [[[]|[stage e]] w1]; [split; [done|by intros (? & ? & ? & _)]|].
  pose proof (retries_exhausted _ (bool_decide (br_txid req ∈ Ledger.live (w_ledger w1))) Ha) as Hsr.
  rw bool_decide_eq_false in Hsr.
  transitivity (w1 = w' ∧ (terminal e = true ∨ should_retry (next_attempt (br_attempts req))
    (bool_decide (br_txid req ∈ Ledger.live (w_ledger w1))) = false)).
  - destruct e; try (split; [intros [= <-]; split; [done|by left]|by intros [-> _]]);
      unfold with_live; destruct (should_retry _ _);
      (split; [by intros [= <-]|by intros [-> [?|?]]]) || (split; [by intros [= <-]; auto|by intros [-> _]]).
  - rw Hsr. split.
    + intros [<- Hd]. by exists stage, e.
    + by intros (? & ? & [= <- <- <-] & Hd).
Qed.

End process.
End schedule.

(** ** Witness *)

Lemma demo_hash_u64 (key : string * Z) : 0 ≤ 2 ^ 63 < 2 ^ 64.
Proof. lia. Qed.

End Jitter.
