(* ===== verification/Consumer.v ===== *)
(** * The backfill consumer

    [TxBackfillConsumer::consume] of [api/src/services/tx_backfill.rs]: one loop receives
    requests and starts a task for each, at most [MAX_CONCURRENT_BACKFILLS] of which fetch at
    a time; a task that is to retry gives its slot back and waits before it requeues.  The
    loop, the tasks and the producers interleave as a step relation; what a task does is
    [Backfill.process], on whatever state it meets. *)

From S2P Require Import Prelude.
From S2P Require Import Models.
From S2P Require Import Database.
From S2P Require Import Ledger.
From S2P Require Import ClusterService.
From S2P Require Import Backfill.

Module Consumer.
Import Database ClusterService Backfill.

Definition MAX_CONCURRENT_BACKFILLS : nat := 4.

(** Where the loop is: in [select!], waiting for a permit, joining the tasks, returned. *)
Inductive LoopPc := Receiving | Acquiring (req : BackfillRequest) | Joining | Returned.
#[global] Instance LoopPc_eq_dec : EqDecision LoopPc.
Proof. solve_decision. Defined.

(** [cs_permits] are the free permits of the semaphore; the tasks either fetch or back off.
    [cs_accepted] and [cs_settled] list the txids taken onto the queue and those done with. *)
Record Consumer := mkConsumer {
  cs_queue : TxBackfillQueue;
  cs_loop : LoopPc;
  cs_permits : nat;
  cs_fetching : list BackfillRequest;
  cs_backing_off : list BackfillRequest;
  cs_accepted : list string;
  cs_settled : list string;
}.

Definition start (capacity : nat) : Consumer :=
  mkConsumer (new_queue capacity) Receiving MAX_CONCURRENT_BACKFILLS [] [] [] [].

(** A list without one of its elements. *)
Definition without {A} (i : nat) (l : list A) : list A := take i l ++ drop (S i) l.

(** A retry that is due: requeued, or dropped by a queue that is full or closed. *)
Definition requeued (i : nat) (req : BackfillRequest) (c : Consumer) : Consumer :=
  let '(sent, q) := send req (cs_queue c) in
  mkConsumer q (cs_loop c) (cs_permits c) (cs_fetching c) (without i (cs_backing_off c))
    (cs_accepted c) (if sent then cs_settled c else cs_settled c ++ [br_txid req]).

(** A task whose fetch ended gives its permit back. *)
Definition fetched (i : nat) (req : BackfillRequest) (next : Next) (c : Consumer) : Consumer :=
  mkConsumer (cs_queue c) (cs_loop c) (S (cs_permits c)) (without i (cs_fetching c))
    (match next with
     | RetryAfter _ retry => cs_backing_off c ++ [retry]
     | _ => cs_backing_off c
     end)
    (cs_accepted c)
    (match next with
     | RetryAfter _ _ => cs_settled c
     | _ => cs_settled c ++ [br_txid req]
     end).

Section consumer.
Context `{Env}.
Context (get_raw_transaction : nat → string → result ObserverError GetRawTransactionModel).
Context (get_mempool_entry : nat → string → result ObserverError MempoolEntrySummary).
Context (jittered : Z → string * Z → Z).

Inductive step : Consumer → Consumer → Prop :=
| step_enqueue txid stage q l p f b acc set :
    step (mkConsumer q l p f b acc set)
         (mkConsumer (enqueue txid stage q) l p f b
            (if (send (new_request txid stage) q).1 then acc ++ [txid] else acc) set)
| step_shutdown q p f b acc set :
    step (mkConsumer q Receiving p f b acc set) (mkConsumer (close q) Receiving p f b acc set)
| step_recv req q q' p f b acc set :
    recv q = Some (req, q') →
    step (mkConsumer q Receiving p f b acc set) (mkConsumer q' (Acquiring req) p f b acc set)
| step_break q p f b acc set :
    recv q = None → q_closed q = true →
    step (mkConsumer q Receiving p f b acc set) (mkConsumer q Joining p f b acc set)
| step_spawn req q p f b acc set :
    step (mkConsumer q (Acquiring req) (S p) f b acc set)
         (mkConsumer q Receiving p (f ++ [req]) b acc set)
| step_fetched i req next w w' c :
    cs_fetching c !! i = Some req →
    process get_raw_transaction get_mempool_entry jittered req w = (next, w') →
    step c (fetched i req next c)
| step_requeue i req c :
    cs_backing_off c !! i = Some req → step c (requeued i req c)
| step_abandon i req q l p f b acc set :
    b !! i = Some req → q_closed q = true →
    step (mkConsumer q l p f b acc set)
         (mkConsumer q l p f (without i b) acc (set ++ [br_txid req]))
| step_return q p acc set :
    step (mkConsumer q Joining p [] [] acc set) (mkConsumer q Returned p [] [] acc set).

(** The requests that are somewhere. *)
Definition at_loop (l : LoopPc) : list BackfillRequest :=
  match l with Acquiring req => [req] | _ => [] end.
Definition outstanding (c : Consumer) : list BackfillRequest :=
  q_items (cs_queue c) ++ at_loop (cs_loop c) ++ cs_fetching c ++ cs_backing_off c.

(** How much is left to do once the queue is closed. *)
Definition work (c : Consumer) : nat :=
  4 * length (q_items (cs_queue c)) + 2 * length (cs_fetching c) + length (cs_backing_off c) +
  match cs_loop c with Receiving => 2 | Acquiring _ => 5 | Joining => 1 | Returned => 0 end.

(** ** Invariant *)

Record ok (c : Consumer) : Prop := {
  ok_permits : (cs_permits c + length (cs_fetching c) = MAX_CONCURRENT_BACKFILLS)%nat;
  ok_accounts : cs_accepted c ≡ₚ (br_txid <$> outstanding c) ++ cs_settled c;
  ok_joining : cs_loop c = Joining ∨ cs_loop c = Returned →
    q_closed (cs_queue c) = true ∧ q_items (cs_queue c) = [];
  ok_returned : cs_loop c = Returned → cs_fetching c = [] ∧ cs_backing_off c = [];
}.

Lemma without_perm {A} (l : list A) i x : l !! i = Some x → l ≡ₚ x :: without i l.
Proof. intros Hi. unfold without. rw -{1}(take_drop_middle l i x Hi). by rw Permutation_middle. Qed.

Lemma length_without {A} (l : list A) i x : l !! i = Some x → length l = S (length (without i l)).
Proof. intros Hi. by rw {1}(without_perm l i x Hi). Qed.

(** A retry is about the same transaction. *)
Lemma process_txid req w next w' d retry :
  process get_raw_transaction get_mempool_entry jittered req w = (next, w') →
  next = RetryAfter d retry → br_txid retry = br_txid req.
Proof.
  unfold process, mbind, Svc_bind. destruct (run_stages _ _ _ _ w) as [[o|[st e]] w1].
  - by intros [= <- <-].
  - destruct e; try (by intros [= <- <-]);
      (destruct (with_live _ w1) as [m w2]; destruct (should_retry _ m); by intros [= <- <-] [= _ <-]).
Qed.

Lemma send_spec req q :
  let '(sent, q') := send req q in
  q_closed q' = q_closed q ∧
  if sent : bool then q_items q' = q_items q ++ [req] ∧ q_closed q = false else q' = q.
Proof.
  unfold send. destruct (q_closed q) eqn:E; [done|]. destruct (bool_decide _); [done|]. by simpl.
Qed.

Lemma ok_start capacity : ok (start capacity).
Proof. split; [done|done| |done]. intros [|]; done. Qed.

(** The requests before one of them was taken out. *)
Ltac put_back l i :=
  match goal with Hi : l !! i = Some ?x |- _ =>
    let Hw := fresh in pose proof (without_perm l i x Hi) as Hw;
    revert Hw; generalize (without i l); intros ? Hw; rw Hw; clear Hw
  end.

(** Two accounts of the same requests. *)
Ltac txids := cbn [app]; repeat first [rw fmap_app | rw fmap_cons | rw fmap_nil].
Ltac tally := txids; solve_Permutation.

Lemma consumer_step_ok c c' : step c c' → ok c → ok c'.
Proof.
  intros Hs [Hp Ha Hj Hr].
  destruct Hs as [txid stage q l p f b acc set|q p f b acc set|req q q' p f b acc set Hq
    |q p f b acc set Hq Hc|req q p f b acc set|i req next w w' c Hi Hn|i req c Hi
    |i req q l p f b acc set Hi Hc|q p acc set].
  - unfold enqueue. pose proof (send_spec (new_request txid stage) q) as Hs.
    destruct (send _ q) as [[] q']; destruct Hs as [Hc Hs]; unfold outstanding in *; simpl in *.
    + destruct Hs as [Hit Hcl]. split; simpl; [done| | |done].
      * unfold outstanding. simpl. rw Hit Ha. tally.
      * intros Hl. destruct (Hj Hl) as [Hx _]. congruence.
    + by subst q'.
  - split; simpl; [done|done| |done]. by intros [|].
  - unfold recv in Hq. destruct (q_items q) as [|x items] eqn:Eq; [done|]. injection Hq as <- <-.
    split; simpl; [done| |by intros []|done]. unfold outstanding in *. simpl in *.
    rw Eq in Ha. rw Ha. tally.
  - unfold recv in Hq. destruct (q_items q) as [|x items] eqn:Eq; [|done].
    split; simpl; [done|done|done|done].
  - split; simpl in *; [rw length_app; simpl; lia| |by intros []|done].
    unfold outstanding in *. simpl in *. rw Ha. tally.
  - destruct c as [q l p f b acc set]. unfold fetched, outstanding in *. simpl in *.
    pose proof (length_without _ _ _ Hi). split; simpl; [lia| |done|].
    + unfold outstanding. simpl. rw Ha. put_back f i.
      destruct next as [| |d retry]; [tally..|].
      txids. rw (process_txid _ _ _ _ _ _ Hn eq_refl). solve_Permutation.
    + intros Hl. destruct (Hr Hl) as [-> _]. done.
  - destruct c as [q l p f b acc set]. unfold requeued, outstanding in *. simpl in *.
    pose proof (send_spec req q) as Hs. destruct (send req q) as [sent q']. destruct Hs as [Hc Hs].
    assert (l = Returned → False) as Hl by (intros ->; destruct (Hr eq_refl) as [_ ->]; done).
    destruct sent; simpl in *; [destruct Hs as [Hit Hcl]|subst q'];
      (split; unfold outstanding; simpl; [done| | |by intros ?%Hl]).
    + rw Ha Hit. put_back b i. tally.
    + intros Hx. destruct (Hj Hx). congruence.
    + rw Ha. put_back b i. tally.
    + done.
  - split; simpl in *; [done| |done|].
    + unfold outstanding in *. simpl in *. rw Ha. put_back b i. tally.
    + intros Hl. destruct (Hr Hl) as [_ ->]. done.
  - split; simpl in *; [done|done| |done]. intros _. by apply Hj; left.
Qed.

Lemma consumer_reachable_ok capacity c : rtc step (start capacity) c → ok c.
Proof.
  intros Hr. pose proof (ok_start capacity) as Hok. revert Hok.
  induction Hr as [|c1 c2 c3 Hs _ IH]; [done|]. intros Hok. apply IH. by eapply consumer_step_ok.
Qed.

(** ** Draining *)

Lemma send_closed req q : q_closed q = true → send req q = (false, q).
Proof. intros Hc. unfold send. by rw Hc. Qed.

(** Once the queue is closed every step is one less to make. *)
Lemma closed_step c c' :
  q_closed (cs_queue c) = true → step c c' →
  q_closed (cs_queue c') = true ∧ (c' = c ∨ work c' < work c)%nat.
Proof.
  intros Hc Hs. destruct Hs as [txid stage q l p f b acc set|q p f b acc set|req q q' p f b acc set Hq
    |q p f b acc set Hq Hcl|req q p f b acc set|i req next w w' c Hi Hn|i req c Hi
    |i req q l p f b acc set Hi Hcl|q p acc set]; unfold work; simpl in *.
  - unfold enqueue. rw !send_closed //=. auto.
  - destruct q; simpl in *. subst. auto.
  - unfold recv in Hq. destruct (q_items q) as [|x items]; [done|]. injection Hq as <- <-. simpl.
    split; [done|]. right. lia.
  - split; [done|]. right. lia.
  - rw length_app. simpl. split; [done|]. right. lia.
  - pose proof (length_without _ _ _ Hi). split; [done|]. right.
    destruct next; [lia|lia|]. rw (length_app (cs_backing_off c)). simpl. lia.
  - pose proof (length_without _ _ _ Hi). unfold requeued. rw send_closed //=.
    split; [done|]. right. lia.
  - pose proof (length_without _ _ _ Hi). split; [done|]. right. lia.
  - split; [done|]. right. lia.
Qed.

(** It can be made: the loop never waits for something that does not come. *)
Lemma closed_progress c :
  ok c → q_closed (cs_queue c) = true → cs_loop c ≠ Returned →
  ∃ c', step c c' ∧ (work c' < work c)%nat.
Proof.
  intros [Hp _ Hj _] Hc Hl.
  assert (∀ c', step c c' → c' ≠ c → ∃ c', step c c' ∧ (work c' < work c)%nat) as Hstep.
  { intros c' Hs Hne. exists c'. split; [done|]. by destruct (closed_step _ _ Hc Hs) as [_ [?|?]]. }
  assert (∀ req, cs_fetching c !! 0%nat = Some req → ∃ c', step c c' ∧ (work c' < work c)%nat) as Hfetch.
  { intros req Hi. set (w := mkWorld (mkConn empty_db 0 None) Ledger.default ∅ [] 0 []).
    destruct (process get_raw_transaction get_mempool_entry jittered req w) as [next w'] eqn:En.
    eapply Hstep; [by eapply step_fetched|]. intros Heq. apply (f_equal cs_permits) in Heq.
    simpl in Heq. lia. }
  destruct c as [q l p f b acc set]. simpl in *. destruct l as [|req| |]; [| | |done].
  - destruct (recv q) as [[req q']|] eqn:Eq.
    + by eapply Hstep; [by apply step_recv|].
    + by eapply Hstep; [by apply step_break|].
  - destruct p as [|p]; [|by eapply Hstep; [by apply step_spawn|]].
    destruct f as [|x f]; [done|]. by eapply Hfetch.
  - destruct f as [|x f]; [|by eapply Hfetch]. destruct b as [|y b].
    + by eapply Hstep; [by apply step_return|].
    + eapply Hstep; [by apply (step_abandon 0)|]. intros Heq. apply (f_equal cs_settled) in Heq.
      simpl in Heq. apply (f_equal length) in Heq. rw length_app in Heq. simpl in Heq. lia.
Qed.

Lemma closed_finishes c :
  ok c → q_closed (cs_queue c) = true → ∃ c', rtc step c c' ∧ cs_loop c' = Returned.
Proof.
  remember (work c) as n eqn:En. revert c En.
  induction n as [n IH] using lt_wf_ind. intros c -> Hok Hc.
  destruct (decide (cs_loop c = Returned)) as [Hr|Hr]; [by exists c|].
  destruct (closed_progress c Hok Hc Hr) as (c1 & Hs & Hlt).
  destruct (IH _ Hlt c1 eq_refl) as (c' & Hr' & Hret).
  - by eapply consumer_step_ok.
  - by eapply closed_step.
  - exists c'. split; [by eapply rtc_l|done].
Qed.

(** C26.  However producers, tasks, retries and a shutdown interleave, at most
    [MAX_CONCURRENT_BACKFILLS] fetches run at once and every request taken onto the queue is
    at any moment in exactly one place, or done with.  Once shutdown has closed the queue
    each step that changes anything leaves less to do, so the drain cannot go on for ever,
    and it can always be completed; when the consumer has returned nothing is left over. *)
Theorem consumer_drains capacity c :
  rtc step (start capacity) c →
  (length (cs_fetching c) ≤ MAX_CONCURRENT_BACKFILLS)%nat ∧
  cs_accepted c ≡ₚ (br_txid <$> outstanding c) ++ cs_settled c ∧
  (cs_loop c = Returned → outstanding c = []) ∧
  (q_closed (cs_queue c) = true →
   (∀ c', step c c' → c' = c ∨ work c' < work c)%nat ∧
   ∃ c', rtc step c c' ∧ cs_loop c' = Returned).
Proof.
  intros Hr. pose proof (consumer_reachable_ok _ _ Hr) as Hok. pose proof Hok as [Hp Ha Hj Hret].
  split; [lia|]. split; [done|]. split.
  - intros Hl. unfold outstanding. destruct (Hret Hl) as [-> ->].
    destruct Hj as [_ ->]; [by right|]. by rw Hl.
  - intros Hc. split; [|by apply closed_finishes]. intros c' Hs. by eapply closed_step.
Qed.
End consumer.

(** ** Witness *)

(** One request, whose transaction the node no longer has, then a shutdown. *)
Definition gone (_ : nat) (t : string) : result ObserverError GetRawTransactionModel :=
  Err (TxNotFoundInMempool t).
Definition no_entry (_ : nat) (t : string) : result ObserverError MempoolEntrySummary :=
  Err (TxNotFoundInMempool t).

Definition drained_queue : TxBackfillQueue := mkQueue 8 [] true false.
Definition drained_consumer : Consumer := mkConsumer drained_queue Returned 4 [] [] ["aa"] ["aa"].

Lemma drained_consumer_reached :
  rtc (@step calm_env gone no_entry (λ d _, d)) (start 8) drained_consumer.
Proof.
  eapply rtc_l; [apply (step_enqueue _ _ _ "aa" Raw)|].
  eapply rtc_l; [by apply step_recv|]. eapply rtc_l; [apply step_spawn|].
  eapply rtc_l; [apply step_shutdown|].
  eapply rtc_l.
  { eapply (step_fetched _ _ _ 0 (new_request "aa" Raw) Dropped demo_hollow); [done|].
    vm_compute. reflexivity. }
  eapply rtc_l; [by apply step_break|]. eapply rtc_l; [apply step_return|]. apply rtc_refl.
Qed.

Lemma consumer_drains_witness :
  rtc (@step calm_env gone no_entry (λ d _, d)) (start 8) drained_consumer ∧
  outstanding drained_consumer = [].
Proof.
  split; [exact drained_consumer_reached|].
  apply (@consumer_drains calm_env gone no_entry (λ d _, d) 8 drained_consumer
    drained_consumer_reached). reflexivity.
Defined.

End Consumer.
