(* ===== verification/Reconciler.v ===== *)
(** * The mempool reconciler

    [api/src/services/mempool_reconciler.rs]: once a second, writes the journal of the
    mempool ledger to the database and brings the clusters up to date.  A tick works on
    the whole program state it can reach: the world of the cluster service, the block
    gate and the backfill queue.  While a batch is being written, the watchers may append
    to the journal: [meanwhile]. *)

From S2P Require Import Prelude.
From S2P Require Import Models.
From S2P Require Import Database.
From S2P Require Import ClusterRepo.
From S2P Require Import ClusterWrites.
From S2P Require Import ClusterInv.
From S2P Require Import ClusterThms.
From S2P Require Import TxRepo.
From S2P Require Import Ledger.
From S2P Require Import ClusterSnapshot.
From S2P Require Import MempoolRepo.
From S2P Require Import ClusterService.
From S2P Require Import ClusterActive.
From S2P Require Import ClusterServiceFacts.
From S2P Require Import ClusterRounds.
From S2P Require Import ClusterSync.
From S2P Require Import Frame.
From S2P Require Import Gate.
From S2P Require Import Backfill.

Open Scope Z_scope.

Module Reconciler.
Import Database ClusterInv ClusterService ClusterActive ClusterRounds ClusterSync Frame.

Record Node := mkNode {
  n_world : World;
  n_gate : Gate.BlockGate;
  n_queue : Backfill.TxBackfillQueue;
}.

Definition set_ledger (inner : Ledger.Inner) (w : World) : World :=
  mkWorld (w_conn w) inner (w_snapshot w) (w_bus w) (w_calls w) (w_log w).

(** [PubSubService::publish] *)
Definition publish (e : BusEvent) (w : World) : World :=
  mkWorld (w_conn w) (w_ledger w) (w_snapshot w) (w_bus w ++ [e]) (w_calls w) (w_log w).

(** [new_txids.map(Raw).chain(existing.filter_map(backfill_stage))] *)
Definition to_backfill (outcome : MempoolRepo.FlushOutcome) : list (string * BackfillStage) :=
  ((λ txid, (txid, Raw)) <$> MempoolRepo.fo_new_txids outcome) ++
  omap (λ '(txid, fill), pair txid <$> backfill_stage fill) (MempoolRepo.fo_existing outcome).

Definition enqueue_all (l : list (string * BackfillStage)) (q : Backfill.TxBackfillQueue) :
    Backfill.TxBackfillQueue :=
  foldl (λ q '(txid, stage), Backfill.enqueue txid stage q) q l.

Section reconciler.
Context `{EnumOrder, BitcoinUnits, Env}.
Context (get_mempool_cluster : nat → string → result ObserverError GetMempoolClusterModel).
(** What the gate reports at each point of the write. *)
Context (preempted : nat → bool).
Context (meanwhile : Ledger.Inner → Ledger.Inner).

(** What follows a batch that was written; [None]: [commit] panicked or the fuel ran out. *)
Definition after_write (fuel : nat) (entries : list Ledger.JournalEntry)
    (outcome : MempoolRepo.FlushOutcome) (node : Node) : option Node :=
  let w := n_world node in
  let added := Ledger.added_txids entries in
  let '(event_added, event_removed) := Ledger.residency_delta entries in
  match Ledger.commit entries (w_ledger w) with
  | None => None
  | Some inner =>
      let queue := enqueue_all (to_backfill outcome) (n_queue node) in
      let w := publish (OnMempoolDelta (mkMempoolDeltaEvent event_added event_removed))
                 (set_ledger inner w) in
      match sync_clusters_after_flush get_mempool_cluster fuel added outcome w with
      | None => None
      | Some (_, w) => Some (mkNode w (n_gate node) queue)
      end
  end.

(** A tick that got its lease. *)
Definition flush (fuel : nat) (node : Node) : option Node :=
  let w := n_world node in
  match Ledger.begin_flush (w_ledger w) with
  | None => Some node
  | Some entries =>
      let '(outcome, w) := call (MempoolRepo.write_batch preempted entries) w in
      let node := mkNode (set_ledger (meanwhile (w_ledger w)) w) (n_gate node) (n_queue node) in
      match outcome with
      | Ok (Some outcome) => after_write fuel entries outcome node
      | Ok None => Some node
      | Err _ => Some node
      end
  end.

(** [MempoolReconciler::tick]; the lease is dropped on every path out. *)
Definition tick (fuel : nat) (now : Z) (node : Node) : option Node :=
  let '(leased, gate) := Gate.try_begin_flush now (n_gate node) in
  if leased then
    (λ node, mkNode (n_world node) (Gate.drop_lease (n_gate node)) (n_queue node)) <$>
      flush fuel (mkNode (n_world node) gate (n_queue node))
  else Some (mkNode (n_world node) gate (n_queue node)).

(** ** Exactly once *)

(** One transition, as the journal and the delta table both record it. *)
Definition Transition : Type := string * DeltaDirection * Z.
Definition of_entry (e : Ledger.JournalEntry) : Transition :=
  (Ledger.je_txid e, Ledger.je_direction e, Ledger.je_observed_at e).
Definition of_delta (d : MempoolDelta) : Transition :=
  (md_txid d, direction (md_reason d), md_created_at d).

(** Everything ever observed: the rows already written, then the journal. *)
Definition trail (node : Node) : list Transition :=
  (of_delta <$> db_deltas (w_db (n_world node))) ++
  (of_entry <$> Ledger.journal (w_ledger (n_world node))).

Lemma of_delta_of confirmed (entries : list Ledger.JournalEntry) :
  of_delta <$> (MempoolRepo.delta_of confirmed <$> entries) = of_entry <$> entries.
Proof.
  rw -list_fmap_compose. apply list_fmap_ext. intros ? e _. simpl. unfold of_delta, of_entry. simpl.
  f_equal. f_equal. unfold MempoolRepo.entry_reason.
  destruct (Ledger.je_direction e); [done|]. by case_guards.
Qed.

(** Unless an entry was refused, [es] are real transitions from one live set to the other:
    no txid is entered twice. *)
Definition observed (inner : Ledger.Inner) (es : list Ledger.JournalEntry)
    (inner' : Ledger.Inner) : Prop :=
  Ledger.degraded inner' = false →
  Ledger.degraded inner = false ∧ Ledger.well_logged (Ledger.live inner) es ∧
  Ledger.replay (Ledger.live inner) es = Ledger.live inner'.

Lemma observed_nil inner : observed inner [] inner.
Proof. by intros Hd. Qed.

Lemma observed_app inner1 inner2 inner3 es1 es2 :
  observed inner1 es1 inner2 → observed inner2 es2 inner3 → observed inner1 (es1 ++ es2) inner3.
Proof.
  intros Ho1 Ho2 Hd. destruct (Ho2 Hd) as (Hd2 & Hw2 & Hr2). destruct (Ho1 Hd2) as (Hd1 & Hw1 & Hr1).
  split; [done|]. by rw Ledger.well_logged_app Ledger.replay_app Hr1.
Qed.

Lemma logs_observed inner inner' :
  Ledger.logs inner inner' →
  ∃ es, Ledger.journal inner' = Ledger.journal inner ++ es ∧ observed inner es inner'.
Proof.
  intros [[es Hes] Hlog]. exists es. split; [done|]. intros Hd.
  destruct (Hlog Hd) as (Hd' & es' & Hes' & Hw & Hr). rw Hes in Hes'.
  apply app_inv_head in Hes' as ->. done.
Qed.

(** The journal prefix a batch carries is still there at the commit. *)
Lemma commit_after inner inner' :
  Ledger.logs inner inner' →
  ∃ es, Ledger.journal inner' = Ledger.journal inner ++ es ∧ observed inner es inner' ∧
    Ledger.commit (Ledger.journal inner) inner'
    = Some (Ledger.mkInner (Ledger.live inner') es (Ledger.degraded inner')).
Proof.
  intros (es & Hes & Ho)%logs_observed. exists es. split; [done|]. split; [done|]. unfold Ledger.commit.
  rw bool_decide_eq_true_2; [|rw Hes length_app; lia]. by rw Hes drop_app_length.
Qed.

Context (watchers_log : ∀ inner, Ledger.logs inner (meanwhile inner)).

(** A flush that wrote nothing. *)
Record idled (w w' : World) : Prop := {
  id_deltas : db_deltas (w_db w') = db_deltas (w_db w);
  id_journal : ∃ es, Ledger.journal (w_ledger w') = Ledger.journal (w_ledger w) ++ es;
  id_bus : w_bus w' = w_bus w;
}.

(** A flush that wrote the journal: its entries moved to the table, whatever was logged
    meanwhile stayed behind, and the net change was announced. *)
Record flushed (w w' : World) : Prop := {
  fl_deltas : of_delta <$> db_deltas (w_db w')
    = (of_delta <$> db_deltas (w_db w)) ++ (of_entry <$> Ledger.journal (w_ledger w));
  fl_bus : let '(added, removed) := Ledger.residency_delta (Ledger.journal (w_ledger w)) in
    ∃ events, w_bus w' = w_bus w ++ OnMempoolDelta (mkMempoolDeltaEvent added removed) :: events;
}.

Lemma call_write_batch entries w :
  let '(r, w') := call (MempoolRepo.write_batch preempted entries) w in
  w_ledger w' = w_ledger w ∧ w_out w' = w_out w ∧ w_log w' = w_log w ∧ w_calls w' = w_calls w ∧
  match r with
  | Ok (Some out) => MempoolRepo.batch_written entries out (w_db w) (w_db w')
  | _ => untouched (w_db w) (w_db w')
  end.
Proof.
  pose proof (MempoolRepo.write_batch_spec preempted (w_db w) entries (w_conn w) eq_refl) as Hw.
  unfold call. destruct (MempoolRepo.write_batch _ _ _) as [[[out|]|e] c]; by split_and!.
Qed.

(** What follows a written batch, seen from the world before the write. *)
Lemma after_write_spec fuel w0 node outcome node' :
  let entries := Ledger.journal (w_ledger w0) in
  MempoolRepo.batch_written entries outcome (w_db w0) (w_db (n_world node)) →
  Ledger.logs (w_ledger w0) (w_ledger (n_world node)) → w_bus (n_world node) = w_bus w0 →
  after_write fuel entries outcome node = Some node' →
  n_gate node' = n_gate node ∧ flushed w0 (n_world node') ∧
  ∃ es, trail node' = (of_delta <$> db_deltas (w_db w0)) ++ (of_entry <$> entries) ++ (of_entry <$> es) ∧
    observed (w_ledger w0) es (w_ledger (n_world node')).
Proof.
  intros entries Hbw Hlogs Hbus. unfold after_write. cbv zeta.
  destruct (Ledger.residency_delta entries) as [ea er] eqn:Er.
  destruct (commit_after _ _ Hlogs) as (new & Hnew & Ho & Hcommit). fold entries in Hcommit.
  rw Hcommit.
  set (w1 := publish _ _). unfold sync_clusters_after_flush.
  destruct (sync_clusters _ _ _ _ _ w1) as [[r w2]|] eqn:Es; [|done]. intros [= <-].
  destruct (sync_clusters_framed _ _ _ _ _ _ _ _ Es) as [Fa Fl Fb].
  injection Fa as Fblocks Fdeltas.
  destruct (MempoolRepo.bw_deltas _ _ _ _ Hbw) as (confirmed & _ & Hd).
  assert (of_delta <$> db_deltas (w_db w2)
    = (of_delta <$> db_deltas (w_db w0)) ++ (of_entry <$> entries)) as Hdel.
  { rw Fdeltas. change (db_deltas (w_db w1)) with (db_deltas (w_db (n_world node))).
    rw Hd fmap_app of_delta_of. done. }
  split; [done|]. split.
  - split; [exact Hdel|]. fold entries. rw Er. destruct Fb as [events Hev]. exists events.
    rw Hev. subst w1. simpl. by rw Hbus -app_assoc.
  - destruct (logs_observed _ _ Fl) as (es & Hes & Ho'). exists (new ++ es). split.
    + unfold trail. simpl. rw Hdel Hes -app_assoc. done.
    + by eapply observed_app.
Qed.

Lemma flush_spec fuel node node' :
  flush fuel node = Some node' →
  let w := n_world node in let w' := n_world node' in
  n_gate node' = n_gate node ∧
  (∃ es, trail node' = trail node ++ (of_entry <$> es) ∧ observed (w_ledger w) es (w_ledger w')) ∧
  (idled w w' ∧ n_queue node' = n_queue node ∨ flushed w w').
Proof.
  unfold flush, Ledger.begin_flush. destruct (Ledger.journal (w_ledger (n_world node))) as [|e es] eqn:Ej.
  { intros [= <-]. split; [done|].
    split; [exists []; split; [by rw app_nil_r|apply observed_nil]|]. left. split; [|done].
    split; [done|exists []; by rw app_nil_r|done]. }
  rw -Ej. set (entries := Ledger.journal _).
  pose proof (call_write_batch entries (n_world node)) as Hc.
  destruct (call _ _) as [r w1]. destruct Hc as (Hl & Hout & Hlog & _ & Hr).
  injection Hout as Hsn Hbus.
  set (node1 := mkNode _ _ _). 
  assert (Ledger.logs (w_ledger (n_world node)) (meanwhile (w_ledger w1))) as Hmean
    by (rw Hl; apply watchers_log).
  assert (untouched (w_db (n_world node)) (w_db w1) →
    (∃ es, trail node1 = trail node ++ (of_entry <$> es) ∧
       observed (w_ledger (n_world node)) es (w_ledger (n_world node1))) ∧ (idled (n_world node) (n_world node1) ∧ n_queue node1 = n_queue node))
    as Hidle.
  { intros (n & _ & Hdb). destruct (logs_observed _ _ Hmean) as (new & Hnew & Ho).
    assert (db_deltas (w_db w1) = db_deltas (w_db (n_world node))) as Hd by by rw Hdb. split.
    - exists new. split; [|exact Ho]. unfold trail. simpl. change (w_db (n_world node1)) with (w_db w1).
      rw Hd Hnew fmap_app app_assoc. done.
    - split; [|done]. split; [exact Hd|by exists new|exact Hbus]. }
  destruct r as [[outcome|]|err]; [|intros [= <-]; split; [done|]; destruct (Hidle Hr); by auto..].
  intros Hafter.
  destruct (after_write_spec fuel (n_world node) node1 outcome node' Hr Hmean Hbus Hafter)
    as (Hg & Hf & es' & Htr & Ho).
  split; [done|]. split; [|by right]. exists es'. split; [by rw Htr app_assoc|exact Ho].
Qed.

Lemma begin_flush_lease now gate :
  let '(leased, gate') := Gate.try_begin_flush now gate in
  Gate.in_flight (if leased then Gate.drop_lease gate' else gate') = Gate.in_flight gate.
Proof.
  unfold Gate.try_begin_flush, Gate.try_lease. destruct (Gate.in_flight gate) eqn:Ef; [done|].
  pose proof (Gate.is_held_spec now (Gate.mkBlockGate (Gate.held_since gate) true)) as Hs.
  destruct (Gate.is_held _ _) as [[] g]; done.
Qed.

(** C1.  Exactly once, in order: whatever a tick meets (a held gate, a failing write, a
    block that preempts it, watchers that log while it writes), the rows of
    [mempool_deltas] followed by the journal only ever grow at the end, and unless the
    journal overflowed what is appended are the real transitions of the live set during
    the tick: no observed transition is lost, recorded twice or reordered; a tick either
    writes nothing and announces nothing, or writes the whole journal it read and
    announces its net change; and it never keeps its lease. *)
Theorem tick_exactly_once fuel now node node' :
  tick fuel now node = Some node' →
  (∃ es, trail node' = trail node ++ (of_entry <$> es) ∧
     observed (w_ledger (n_world node)) es (w_ledger (n_world node'))) ∧
  Gate.in_flight (n_gate node') = Gate.in_flight (n_gate node) ∧
  (idled (n_world node) (n_world node') ∧ n_queue node' = n_queue node ∨
   flushed (n_world node) (n_world node')).
Proof.
  unfold tick. pose proof (begin_flush_lease now (n_gate node)) as Hg.
  destruct (Gate.try_begin_flush now (n_gate node)) as [[] gate].
  - destruct (flush fuel _) as [node1|] eqn:Ef; [|done]. intros [= <-].
    apply flush_spec in Ef as (Hgate & Htr & Hw). simpl in *. rw Hgate. done.
  - intros [= <-]. simpl. split; [exists []; split; [by rw app_nil_r|apply observed_nil]|].
    split; [done|]. left. split; [|done]. split; [done|exists []; by rw app_nil_r|done].
Qed.

(** ** Ticks return and keep the clusters *)

Lemma written_calm entries outcome w w' :
  MempoolRepo.batch_written entries outcome (w_db w) (w_db w') → w_out w' = w_out w →
  w_log w' = w_log w → calm w w'.
Proof.
  intros Hbw Hout Hlog. destruct (MempoolRepo.bw_txs _ _ _ _ Hbw) as (txids & _ & [R K N _]).
  assert (w_actives w' = w_actives w) as Ha by (unfold w_actives; by rw R).
  split; [|done|done|unfold unbroken; by rw Hlog].
  intros [Hi Hc]. split; [|by rw Ha].
  apply (cluster_inv_txs (w_db w)); [by rw R..| | |done].
  - intros t [tx Ht]. exists tx. by apply K.
  - intros t tx id Ht Hid. destruct (N t tx Ht) as [?|(_ & _ & now & ->)]; [by eauto|done].
Qed.

Lemma untouched_calm w w' :
  untouched (w_db w) (w_db w') → w_out w' = w_out w → w_log w' = w_log w → calm w w'.
Proof.
  intros Hu Hout Hlog. assert (w_actives w' = w_actives w) as Ha by by apply actives_untouched.
  split; [|done|done|unfold unbroken; by rw Hlog].
  intros [Hi Hc]. split; [by eapply cluster_inv_untouched|by rw Ha].
Qed.

(** The published events carry a client from one snapshot to the other. *)
Definition told (w w' : World) : Prop :=
  ∃ events, w_bus w' = w_bus w ++ events ∧
    Snapshot.client_view (w_snapshot w')
    = client_after events (Snapshot.client_view (w_snapshot w)).

Lemma told_trans w1 w2 w3 : told w1 w2 → told w2 w3 → told w1 w3.
Proof.
  intros (e1 & Hb1 & Hv1) (e2 & Hb2 & Hv2). exists (e1 ++ e2).
  by rw Hb2 Hb1 app_assoc client_after_app -Hv1.
Qed.

(** From [w] to [w'] the clusters stayed well formed, the snapshot followed them and the
    clients followed the snapshot. *)
Definition kept (w w' : World) : Prop :=
  store_ok w' ∧ (unbroken w' → unbroken w) ∧ (unbroken w' → mirrored w → mirrored w') ∧ told w w'.

Lemma kept_calm w w' : store_ok w → calm w w' → kept w w'.
Proof.
  intros Hok [C1 C2 C3 C4]. injection C3 as C3 Cb. split; [by apply C1|]. split; [tauto|]. split.
  - intros _ Hm. unfold mirrored in *. by rw C3 C2.
  - exists []. by rw app_nil_r C3.
Qed.

Lemma kept_round w w' : round_done w w' → kept w w'.
Proof. by intros [D1 D2 D3 D4]. Qed.

(** An announcement that is not about clusters. *)
Lemma kept_publish e w : store_ok w → (∀ d, e ≠ OnClusterDelta d) → kept w (publish e w).
Proof.
  intros Hok He. split; [exact Hok|]. split; [done|]. split; [done|]. exists [e].
  split; [done|]. simpl. destruct e as [|d|]; [done| |done]. by destruct (He d).
Qed.

Lemma kept_trans w1 w2 w3 : kept w1 w2 → kept w2 w3 → kept w1 w3.
Proof.
  intros (A1 & A2 & A3 & A4) (B1 & B2 & B3 & B4). split; [done|]. split; [tauto|]. split; [tauto|].
  by eapply told_trans.
Qed.

Context (node_ok : ∀ n t m, get_mempool_cluster n t = Ok m → answer_ok m).
Context (node_answers_about :
  ∀ n t m, get_mempool_cluster n t = Ok m → gmc_txids m = [] ∨ t ∈ gmc_txids m).

Lemma after_write_returns w0 node outcome :
  let entries := Ledger.journal (w_ledger w0) in
  Ledger.logs (w_ledger w0) (w_ledger (n_world node)) → store_ok (n_world node) →
  ∃ fuel0 node', kept (n_world node) (n_world node') ∧
    ∀ fuel, (fuel0 ≤ fuel)%nat → after_write fuel entries outcome node = Some node'.
Proof.
  intros entries Hlogs Hok. unfold after_write. cbv zeta.
  destruct (Ledger.residency_delta entries) as [ea er].
  destruct (commit_after _ _ Hlogs) as (new & Hnew & _ & Hcommit). fold entries in Hcommit.
  rw Hcommit. set (w1 := publish _ _). unfold sync_clusters_after_flush.
  destruct (sync_clusters_settles _ node_ok node_answers_about (Ledger.added_txids entries)
    (MempoolRepo.fo_confirmed outcome) (MempoolRepo.fo_evicted outcome) w1 Hok)
    as ([] & w2 & [_ [fuel0 Hf]] & Hd%kept_round).
  exists fuel0. eexists. split; [|intros fuel Hle; by rw (Hf fuel Hle)].
  eapply kept_trans; [|exact Hd]. by apply (kept_publish _ (set_ledger _ (n_world node))).
Qed.

Lemma flush_returns node :
  store_ok (n_world node) →
  ∃ fuel0 node', kept (n_world node) (n_world node') ∧
    ∀ fuel, (fuel0 ≤ fuel)%nat → flush fuel node = Some node'.
Proof.
  intros Hok. unfold flush, Ledger.begin_flush.
  destruct (Ledger.journal (w_ledger (n_world node))) as [|e es] eqn:Ej.
  { exists 0%nat, node. split; [|done]. by apply kept_calm, calm_refl. }
  rw -Ej. set (entries := Ledger.journal _).
  pose proof (call_write_batch entries (n_world node)) as Hc.
  destruct (call _ _) as [r w1]. destruct Hc as (Hl & Hout & Hlog & _ & Hr).
  assert (calm (n_world node) w1) as Hcalm.
  { destruct r as [[outcome|]|err]; [by eapply written_calm|by apply untouched_calm..]. }
  set (node1 := mkNode _ _ _). assert (kept (n_world node) (n_world node1)) as Hk
    by exact (kept_calm _ _ Hok Hcalm).
  destruct r as [[outcome|]|err]; [|by exists 0%nat, node1..].
  destruct (after_write_returns (n_world node) node1 outcome) as (fuel0 & node' & Hk' & Hf).
  - simpl. rw Hl. apply watchers_log.
  - apply Hk.
  - exists fuel0, node'. split; [by eapply kept_trans|done].
Qed.

(** A tick always returns, never panicking in its commit, and leaves the stored
    clusters well formed and disjoint; a snapshot that mirrored them still does, unless
    a batched insert failed half way. *)
Theorem tick_returns now node :
  store_ok (n_world node) →
  ∃ fuel0 node', store_ok (n_world node') ∧
    (unbroken (n_world node') → mirrored (n_world node) → mirrored (n_world node')) ∧
    ∀ fuel, (fuel0 ≤ fuel)%nat → tick fuel now node = Some node'.
Proof.
  intros Hok. unfold tick. destruct (Gate.try_begin_flush now (n_gate node)) as [[] gate].
  - destruct (flush_returns (mkNode (n_world node) gate (n_queue node)) Hok)
      as (fuel0 & node' & (K1 & K2 & K3 & _) & Hf).
    exists fuel0, (mkNode (n_world node') (Gate.drop_lease (n_gate node')) (n_queue node')).
    split; [exact K1|]. split; [exact K3|].
    intros fuel Hle. rw (Hf fuel Hle). done.
  - by exists 0%nat, (mkNode (n_world node) gate (n_queue node)).
Qed.
End reconciler.

(** ** Witnesses *)

Definition demo_group (t : string) : result ObserverError GetMempoolClusterModel :=
  Ok (mkGetMempoolClusterModel 400 1 [mkClusterChunk [t] 100 400]).

Lemma demo_group_ok t m : demo_group t = Ok m → answer_ok m.
Proof.
  intros [= <-]. split; [unfold ClusterThms.MAX_CHUNKS; simpl; lia|].
  apply Forall_singleton. split; vm_compute; split; congruence.
Qed.

Lemma demo_group_about t m : demo_group t = Ok m → gmc_txids m = [] ∨ t ∈ gmc_txids m.
Proof. intros [= <-]. right. simpl. left. Qed.

(** Two transactions just seen, nothing written yet. *)
Definition demo_node : Node :=
  mkNode (mkWorld (mkConn empty_db 0 None)
            (Ledger.assert_present (λ n, Z.of_nat n) ["aa"; "bb"] Ledger.default) ∅ [] 0 [])
    Gate.new_gate (Backfill.new_queue 10).

Definition demo_tick : option Node :=
  @tick stored_order ceil_units calm_env (λ _, demo_group) (λ _, false) (λ inner, inner) 5 0 demo_node.

Lemma tick_exactly_once_witness :
  ∃ node', demo_tick = Some node' ∧ ∃ es, trail node' = trail demo_node ++ (of_entry <$> es) ∧
    observed (w_ledger (n_world demo_node)) es (w_ledger (n_world node')).
Proof.
  destruct demo_tick as [node'|] eqn:E.
  - exists node'. split; [reflexivity|].
    apply (@tick_exactly_once stored_order ceil_units calm_env (λ _, demo_group) (λ _, false)
      (λ inner, inner) Ledger.logs_refl 5 0 demo_node node' E).
  - exfalso. apply (f_equal (λ o, match o with Some _ => true | None => false end)) in E.
    revert E. vm_compute. discriminate.
Defined.

Lemma tick_returns_witness :
  store_ok (n_world demo_node) ∧
  ∃ fuel0 node', store_ok (n_world node') ∧ ∀ fuel, (fuel0 ≤ fuel)%nat →
    @tick stored_order ceil_units calm_env (λ _, demo_group) (λ _, false) (λ inner, inner) fuel 0 demo_node
    = Some node'.
Proof.
  assert (store_ok (n_world demo_node)) as Hok.
  { split; [apply cluster_inv_empty|]. assert (w_actives (n_world demo_node) = ∅) as -> by reflexivity.
    split; [apply disjoint_empty|]. intros id s. by rw lookup_empty. }
  split; [exact Hok|].
  destruct (@tick_returns stored_order ceil_units calm_env (λ _, demo_group) (λ _, false)
    (λ inner, inner) Ledger.logs_refl (λ _, demo_group_ok) (λ _, demo_group_about) 0 demo_node Hok)
    as (fuel0 & node' & Hs & _ & Hf).
  exists fuel0, node'. exact (conj Hs Hf).
Defined.

End Reconciler.
