(* ===== verification/Blocks.v ===== *)
(** * The block service

    [api/src/services/block.rs]: applies mined blocks, in height order, from the highest
    stored block to the node's tip.  [apply_block] runs under the block gate, which it
    shuts on entry and reopens on every way out (its waits are the subject of [Gate]); the
    rest works on the world of the cluster service.  Delays are in milliseconds. *)

From S2P Require Import Prelude.
From S2P Require Import Models.
From S2P Require Import Database.
From S2P Require Import ClusterRepo.
From S2P Require Import ClusterWrites.
From S2P Require Import ClusterInv.
From S2P Require Import ClusterThms.
From S2P Require Import TxRepo.
From S2P Require Import Ledger.
From S2P Require Import ClusterSnapshot.
From S2P Require Import MempoolRepo.
From S2P Require Import ClusterService.
From S2P Require Import ClusterActive.
From S2P Require Import ClusterServiceFacts.
From S2P Require Import ClusterRounds.
From S2P Require Import ClusterSync.
From S2P Require Import Frame.
From S2P Require Import Gate.
From S2P Require Import Backfill.
From S2P Require Import Reconciler.

Open Scope Z_scope.

Module Blocks.
Import Database ClusterInv ClusterService ClusterActive ClusterRounds ClusterSync Frame Reconciler.

Definition CATCH_UP_BACKOFF_BASE : Z := 250.
Definition MAX_CATCH_UP_BACKOFF : Z := 10000.

(** [api/src/error.rs] *)
Inductive BlockSyncError :=
| NodeError (e : ObserverError)
| DbError (e : RepoError).

Definition catch_up_backoff (attempts : Z) : Z :=
  Z.min (CATCH_UP_BACKOFF_BASE * Backfill.shift_factor attempts) MAX_CATCH_UP_BACKOFF.

(** [impl From<&GetBlockModel> for NewBlock] *)
Definition new_block (now : Z) (m : GetBlockModel) : Block :=
  mkBlock (gb_hash m) (gb_height m) (gb_mined_at m) (gb_tx_count m) (gb_size m)
    (gb_total_fee_sats m) (gb_difficulty m) now.

(** The row of a mined transaction. *)
Definition mined_row (block : GetBlockModel) (seen_at : Z) (tx : BlockTxSummary) : Transaction :=
  mkTransaction (bt_txid tx) (Some (bt_fee_sats tx)) (bt_weight tx) seen_at
    (Some (gb_mined_at block)) None (Some (gb_hash block)) (Some (bt_input_txids tx)).

(** [collect] into a [HashMap]: a later entry with the same key wins. *)
Definition by_txid (f : BlockTxSummary → Z) (txs : list BlockTxSummary) : gmap string Z :=
  foldl (λ m tx, <[bt_txid tx := f tx]> m) ∅ txs.

(** ** Runs over the whole program state *)

Definition NRun (A : Type) : Type := Node → option (A * Node).
#[global] Instance NRun_ret : MRet NRun := λ A a n, Some (a, n).
#[global] Instance NRun_bind : MBind NRun := λ A B f m n,
  match m n with Some (a, n) => f a n | None => None end.

Definition on_world {A} (m : Run A) : NRun A := λ n,
  match m (n_world n) with
  | Some (a, w) => Some (a, mkNode w (n_gate n) (n_queue n))
  | None => None
  end.
Definition on_gate (f : Gate.BlockGate → Gate.BlockGate) : NRun unit := λ n,
  Some ((), mkNode (n_world n) (f (n_gate n)) (n_queue n)).

Section service.
Context `{EnumOrder, BitcoinUnits, Env}.
Context (get_mempool_cluster : nat → string → result ObserverError GetMempoolClusterModel).
(** [BlockRetriever], the node's answer to the [n]-th call. *)
Context (get_block : nat → string → result ObserverError GetBlockModel).
Context (get_tip_height : nat → result ObserverError Z).
Context (get_block_hash : nat → Z → result ObserverError string).
(** The monotonic clock the gate reads. *)
Context (instant : nat → Z).

(** The body of [apply_block], under the guard. *)
Definition apply_block_guarded (fuel : nat) (hash : string) : Run (result BlockSyncError unit) :=
  r ← lift (Backfill.ask (λ n, get_block n hash));
  match r with
  | Err e => mret (Err (NodeError e))
  | Ok block =>
      let txids := bt_txid <$> gb_txs block in
      let fees := by_txid bt_fee_sats (gb_txs block) in
      let weights := by_txid bt_weight (gb_txs block) in
      seen_at ← lift now_utc;
      created_at ← lift now_utc;
      r ← lift (call (TxRepo.insert_with_transactions (new_block created_at block)
                        (mined_row block seen_at <$> gb_txs block)));
      match r with
      | Err e => mret (Err (DbError e))
      | Ok _ =>
          _ ← lift (assert_absent txids);
          _ ← confirm_mined get_mempool_cluster fuel txids fees weights (gb_mined_at block);
          lift (λ w, (Ok (), publish (OnNewBlockInfo
                  (mkNewBlockInfoEvent (gb_height block) (gb_mined_at block))) w))
      end
  end.

Definition apply_block (fuel : nat) (hash : string) : NRun (result BlockSyncError unit) := λ n,
  (_ ← on_gate (Gate.shut (instant (w_calls (n_world n))));
   r ← on_world (apply_block_guarded fuel hash);
   _ ← on_gate Gate.reopen;
   mret r) n.

(** [for height in next..=tip], stopping at the first error. *)
Fixpoint apply_heights (fuel : nat) (heights : list Z) : NRun (result BlockSyncError unit) :=
  match heights with
  | [] => mret (Ok ())
  | height :: heights =>
      r ← on_world (lift (Backfill.ask (λ n, get_block_hash n (to_u64 height))));
      match r with
      | Err e => mret (Err (NodeError e))
      | Ok hash =>
          r ← apply_block fuel hash;
          match r with
          | Err e => mret (Err e)
          | Ok _ => apply_heights fuel heights
          end
      end
  end.

(** One pass of the loop: [Some r] when it returns, [None] to go round again. *)
Definition catch_up_pass (fuel : nat) : NRun (option (result BlockSyncError unit)) :=
  r ← on_world (lift (Backfill.ask get_tip_height));
  match r with
  | Err e => mret (Some (Err (NodeError e)))
  | Ok tip =>
      r ← on_world (lift (call TxRepo.latest_height));
      match r with
      | Err e => mret (Some (Err (DbError e)))
      | Ok latest =>
          let next := match latest with Some height => height + 1 | None => tip end in
          if tip <? next then mret (Some (Ok ()))
          else
            r ← apply_heights fuel (seqZ next (tip - next + 1));
            match r with
            | Err e => mret (Some (Err e))
            | Ok _ => mret None
            end
      end
  end.

Fixpoint catch_up_loop (passes fuel : nat) : NRun (result BlockSyncError unit) :=
  match passes with
  | O => λ _, None
  | S passes =>
      r ← catch_up_pass fuel;
      match r with
      | Some r => mret r
      | None => catch_up_loop passes fuel
      end
  end.

Definition catch_up (fuel : nat) : NRun (result BlockSyncError unit) := catch_up_loop fuel fuel.

(** [sync_missing_blocks]: the delays slept before the pass that succeeded. *)
Fixpoint sync_attempts (tries fuel : nat) (attempts : Z) : NRun (list Z) :=
  match tries with
  | O => λ _, None
  | S tries =>
      r ← catch_up fuel;
      match r with
      | Ok _ => mret []
      | Err _ =>
          slept ← sync_attempts tries fuel (Z.min (attempts + 1) (2 ^ 32 - 1));
          mret (catch_up_backoff attempts :: slept)
      end
  end.

Definition sync_missing_blocks (fuel : nat) : NRun (list Z) :=
  slept ← sync_attempts fuel fuel 0;
  _ ← on_world (lift (call TxRepo.missing_heights));
  mret slept.
End service.

(** ** Total correctness over the whole state *)

(** Every fuel gives [r] or runs out, and enough fuel gives [r]. *)
Definition nconverges {A} (m : nat → NRun A) (n : Node) (r : A * Node) : Prop :=
  (∀ fuel, m fuel n = None ∨ m fuel n = Some r) ∧
  ∃ fuel0, ∀ fuel, (fuel0 ≤ fuel)%nat → m fuel n = Some r.

Definition nsettles {A} (m : nat → NRun A) (n : Node) (Q : A → Node → Prop) : Prop :=
  ∃ a n', nconverges m n (a, n') ∧ Q a n'.

Lemma nsettles_ret {A} (a : A) n (Q : A → Node → Prop) : Q a n → nsettles (λ _, mret a) n Q.
Proof. intros HQ. exists a, n. split; [|done]. split; [by right|by exists 0%nat]. Qed.

Lemma nsettles_bind {A B} (m : nat → NRun A) (k : nat → A → NRun B) n Q R :
  nsettles m n Q → (∀ a n', Q a n' → nsettles (λ fuel, k fuel a) n' R) →
  nsettles (λ fuel, a ← m fuel; k fuel a) n R.
Proof.
  intros (a & n1 & [Hu1 [f1 Hf1]] & HQ) Hk. destruct (Hk a n1 HQ) as (b & n2 & [Hu2 [f2 Hf2]] & HR).
  exists b, n2. split; [|done]. unfold mbind, NRun_bind. split.
  - intros fuel. destruct (Hu1 fuel) as [->| ->]; [by left|apply Hu2].
  - exists (f1 `max` f2)%nat. intros fuel Hle. rw Hf1; [|lia]. apply Hf2. lia.
Qed.

Lemma nsettles_world {A} (m : nat → Run A) n (Q : A → World → Prop) :
  settles m (n_world n) Q →
  nsettles (λ fuel, on_world (m fuel)) n (λ a n', Q a (n_world n')).
Proof.
  intros (a & w & [Hu [f Hf]] & HQ). exists a, (mkNode w (n_gate n) (n_queue n)). split; [|done].
  unfold on_world. split.
  - intros fuel. destruct (Hu fuel) as [->| ->]; by [left|right].
  - exists f. intros fuel Hle. by rw (Hf fuel Hle).
Qed.

Lemma nsettles_gate f n (Q : unit → Node → Prop) :
  Q () (mkNode (n_world n) (f (n_gate n)) (n_queue n)) → nsettles (λ _, on_gate f) n Q.
Proof. intros HQ. eexists _, _. split; [|exact HQ]. split; [by right|by exists 0%nat]. Qed.

Lemma nsettles_conseq {A} (m : nat → NRun A) n (Q R : A → Node → Prop) :
  nsettles m n Q → (∀ a n', Q a n' → R a n') → nsettles m n R.
Proof. intros (a & n' & Hf & HQ) HR. exists a, n'. split; [done|by apply HR]. Qed.

(** ** Heights *)

Lemma elem_of_heights db x :
  x ∈ TxRepo.heights db ↔ ∃ h b, db_blocks db !! h = Some b ∧ blk_height b = x.
Proof.
  unfold TxRepo.heights. rw list_elem_of_fmap. split.
  - intros ([h b] & -> & Hin%elem_of_map_to_list). eauto.
  - intros (h & b & Hb & <-). exists (h, b). split; [done|]. by apply elem_of_map_to_list.
Qed.

Definition highest (db : Db) (x : Z) : Prop :=
  x ∈ TxRepo.heights db ∧ ∀ y, y ∈ TxRepo.heights db → y ≤ x.

Lemma heights_bounded db :
  TxRepo.heights db = [] ∨ ∃ x, highest db x.
Proof.
  pose proof (TxRepo.max_Z_spec (TxRepo.heights db)) as Hm.
  destruct (TxRepo.max_Z _) as [x|]; [right; by exists x|by left].
Qed.

(** From [db] to [db'] the heights [lo..hi] were stored, directly above what was there. *)
Record filled (db db' : Db) (lo hi : Z) : Prop := {
  fi_heights : ∀ x, x ∈ TxRepo.heights db' ↔ x ∈ TxRepo.heights db ∨ lo ≤ x ≤ hi;
  fi_next : ∀ x, highest db x → lo = x + 1;
}.

(** Whatever was stored is a run of heights directly above the highest one. *)
Definition gapless (db db' : Db) : Prop :=
  (∀ x, x ∈ TxRepo.heights db' ↔ x ∈ TxRepo.heights db) ∨ ∃ lo hi, lo ≤ hi ∧ filled db db' lo hi.

Lemma gapless_same db db' : db_blocks db' = db_blocks db → gapless db db'.
Proof. intros Hb. left. intros x. by rw !elem_of_heights Hb. Qed.

Lemma filled_highest db db' lo hi : filled db db' lo hi → lo ≤ hi → highest db' hi.
Proof.
  intros [F1 F2] Hle. split; [apply F1; right; lia|].
  intros y [Hy|?]%F1; [|lia]. destruct (heights_bounded db) as [Hnil|[x Hx]].
  - rw Hnil in Hy. by apply not_elem_of_nil in Hy.
  - specialize (F2 x Hx). destruct Hx as [_ Hmax]. specialize (Hmax y Hy). lia.
Qed.

Lemma gapless_trans db1 db2 db3 : gapless db1 db2 → gapless db2 db3 → gapless db1 db3.
Proof.
  intros [H1|(lo1 & hi1 & L1 & F1)] [H2|(lo2 & hi2 & L2 & F2)].
  - left. intros x. by rw H2 H1.
  - right. exists lo2, hi2. split; [done|]. destruct F2 as [A B]. split.
    + intros x. by rw A H1.
    + intros x [Hx Hm]. apply B. split; [by apply H1|]. intros y Hy%H1. by apply Hm.
  - right. exists lo1, hi1. split; [done|]. destruct F1 as [A B]. split; [|done].
    intros x. by rw H2 A.
  - right. exists lo1, hi2.
    assert (lo2 = hi1 + 1) as Hnext by (apply F2; by eapply filled_highest).
    split; [lia|]. destruct F1 as [A B], F2 as [C D]. split; [|done].
    intros x. rw C A. split.
    + intros [[Hx|?]|?]; [by left|right; lia|right; lia].
    + intros [?|?]; [by left; left|]. destruct (Z.le_gt_cases x hi1); [left; right; lia|right; lia].
Qed.

(** ** Applying one block *)

Section theorems.
Context `{EnumOrder, BitcoinUnits, Env}.
Context (get_mempool_cluster : nat → string → result ObserverError GetMempoolClusterModel).
Context (get_block : nat → string → result ObserverError GetBlockModel).
Context (get_tip_height : nat → result ObserverError Z).
Context (get_block_hash : nat → Z → result ObserverError string).
Context (instant : nat → Z).
Context (height_of : string → Z) (max_tip : Z).

(** The node reports one chain: a hash has one height, and a block names each of its
    transactions once. *)
Record chain_node : Prop := {
  cn_cluster_ok : ∀ n t m, get_mempool_cluster n t = Ok m → answer_ok m;
  cn_cluster_about : ∀ n t m, get_mempool_cluster n t = Ok m → gmc_txids m = [] ∨ t ∈ gmc_txids m;
  cn_block : ∀ n h b, get_block n h = Ok b →
    gb_hash b = h ∧ gb_height b = height_of h ∧ NoDup (bt_txid <$> gb_txs b);
  cn_hash : ∀ n x h, is_u64 x → get_block_hash n x = Ok h → height_of h = x;
  cn_tip : ∀ n t, get_tip_height n = Ok t → 0 ≤ t ≤ max_tip;
  cn_tip_fits : max_tip < 2 ^ 63;
}.
Context (node : chain_node).

(** Stored blocks are blocks of the chain. *)
Definition blocks_ok (db : Db) : Prop :=
  ∀ h b, db_blocks db !! h = Some b → blk_height b = height_of h ∧ 0 ≤ blk_height b.

Record sound (w : World) : Prop := {
  so_store : store_ok w;
  so_blocks : blocks_ok (w_db w);
}.

Lemma kept_refl w : store_ok w → kept w w.
Proof. intros Hok. by apply kept_calm, calm_refl. Qed.

(** Storing the block row and its transactions. *)
Lemma insert_block_call w hash block seen created :
  sound w → gb_hash block = hash → gb_height block = height_of hash → 0 ≤ height_of hash →
  NoDup (bt_txid <$> gb_txs block) →
  let '(r, w') := call (TxRepo.insert_with_transactions (new_block created block)
                          (mined_row block seen <$> gb_txs block)) w in
  calm w w' ∧ w_ledger w' = w_ledger w ∧ db_deltas (w_db w') = db_deltas (w_db w) ∧
  match r with
  | Ok _ => sound w' ∧ ∀ x, x ∈ TxRepo.heights (w_db w') ↔
              x ∈ TxRepo.heights (w_db w) ∨ x = height_of hash
  | Err _ => db_blocks (w_db w') = db_blocks (w_db w)
  end.
Proof.
  intros [Hok Hb] Hhash Hheight Hpos Hnd. set (txs := mined_row block seen <$> gb_txs block).
  assert (NoDup (tx_txid <$> txs)) as Hnd' by (subst txs; by rw -list_fmap_compose).
  assert (Forall (λ tx, tx_cluster_id tx = None) txs) as Hnone.
  { apply Forall_forall. by intros tx (b & -> & _)%list_elem_of_fmap. }
  pose proof (TxRepo.insert_with_transactions_runs (w_db w) (new_block created block) txs Hnd'
    (w_conn w) eq_refl) as Hx.
  unfold call. destruct (TxRepo.insert_with_transactions _ _ _) as [[[]|e] c]; simpl.
  - set (w' := mkWorld c _ _ _ _ _).
    change (TxRepo.block_stored (new_block created block) txs (w_db w) (w_db w')) in Hx.
    assert (w_actives w' = w_actives w) as Ha
      by (unfold w_actives; by rw (TxRepo.bs_rest _ _ _ _ Hx)).
    assert (cluster_inv (w_db w')) as Hi by (eapply TxRepo.block_stored_inv; [done|apply Hok|done]).
    assert (store_ok w') as Hok' by (split; [done|rw Ha; apply Hok]).
    pose proof (TxRepo.bs_block _ _ _ _ Hx) as B1. pose proof (TxRepo.bs_blocks _ _ _ _ Hx) as B2.
    simpl in B1, B2. rw Hhash in B1 B2.
    assert (blk_height (default (new_block created block) (db_blocks (w_db w) !! hash))
      = height_of hash) as Hh.
    { destruct (db_blocks (w_db w) !! hash) as [b|] eqn:E; simpl; [by eapply Hb|done]. }
    split; [by split|]. split; [done|]. split; [by rw (TxRepo.bs_rest _ _ _ _ Hx)|].
    split; [split; [done|]|].
    + intros h b Hl. destruct (decide (h = hash)) as [->|Hne].
      * rw B1 in Hl. injection Hl as <-. rw Hh. done.
      * rw B2 // in Hl. by apply Hb.
    + intros x. rw !elem_of_heights. split.
      * intros (h & b & Hl & <-). destruct (decide (h = hash)) as [->|Hne].
        { right. rw B1 in Hl. by injection Hl as <-. }
        left. rw B2 // in Hl. eauto.
      * intros [(h & b & Hl & <-)| ->]; [|by eexists _, _].
        destruct (decide (h = hash)) as [->|Hne]; [|exists h, b; by rw B2].
        eexists _, _. split; [exact B1|]. by rw Hl.
  - split; [by apply (untouched_calm w (mkWorld c _ _ _ _ _))|]. split; [done|].
    destruct Hx as (n & _ & Heq). unfold w_db. simpl. by rw Heq.
Qed.

(** What applying a block does to the world: the clusters are kept, and the block's
    height is stored unless the call fails, in which case no block is. *)
Record applied (hash : string) (w : World) (r : result BlockSyncError unit) (w' : World) : Prop := {
  ap_sound : sound w';
  ap_kept : kept w w';
  ap_heights : match r with
               | Ok _ => ∀ x, x ∈ TxRepo.heights (w_db w') ↔
                           x ∈ TxRepo.heights (w_db w) ∨ x = height_of hash
               | Err _ => ∀ x, x ∈ TxRepo.heights (w_db w') ↔ x ∈ TxRepo.heights (w_db w)
               end;
}.

Lemma same_blocks w w' x :
  db_blocks (w_db w') = db_blocks (w_db w) →
  x ∈ TxRepo.heights (w_db w') ↔ x ∈ TxRepo.heights (w_db w).
Proof. intros Hb. by rw !elem_of_heights Hb. Qed.

Lemma sound_blocks w w' :
  sound w → store_ok w' → db_blocks (w_db w') = db_blocks (w_db w) → sound w'.
Proof. intros [_ Hb] Hok Hbl. split; [done|]. intros h b. rw Hbl. apply Hb. Qed.

Lemma settles_framed {A} (m : nat → Run A) w (Q : A → World → Prop) :
  settles m w Q → (∀ fuel, run_framed (m fuel)) → settles m w (λ a w', Q a w' ∧ framed w w').
Proof.
  intros (a & w' & Hc & HQ) Hf. exists a, w'. split; [done|]. split; [done|].
  destruct Hc as [_ [fuel0 Hm]]. eapply (Hf fuel0). by apply Hm.
Qed.

Lemma apply_block_guarded_settles hash w :
  sound w → 0 ≤ height_of hash →
  settles (λ fuel, apply_block_guarded get_mempool_cluster get_block fuel hash) w (applied hash w).
Proof.
  intros Hs Hpos. apply settles_lift. unfold Backfill.ask.
  set (w1 := mkWorld _ _ _ _ (S _) _). assert (sound w1) as Hs1 by by split; apply Hs.
  destruct (get_block (w_calls w) hash) as [block|e] eqn:Eb.
  2:{ apply settles_ret. split; [done|exact (kept_refl w (so_store _ Hs))|done]. }
  destruct (cn_block node _ _ _ Eb) as (Hhash & Hheight & Hnd).
  apply settles_lift. unfold now_utc. set (w2 := mkWorld _ _ _ _ (S _) _).
  apply settles_lift. set (w3 := mkWorld _ _ _ _ (S _) _).
  assert (sound w3) as Hs3 by by split; apply Hs.
  apply settles_lift.
  pose proof (insert_block_call w3 hash block (clock (w_calls w1) 0) (clock (w_calls w2) 0)
    Hs3 Hhash Hheight Hpos Hnd) as Hc. simpl in Hc |- *.
  destruct (call _ w3) as [r w4]. destruct Hc as (Hcalm & _ & _ & Hr).
  assert (kept w w4) as Hk4 by exact (kept_calm w3 w4 (so_store _ Hs3) Hcalm).
  destruct r as [[]|e].
  2:{ apply settles_ret. split; [|done|].
    - apply (sound_blocks w3); [done|apply Hk4|done].
    - intros x. by apply (same_blocks w3). }
  destruct Hr as [Hs4 Hh]. apply settles_lift. unfold assert_absent. set (w5 := mkWorld _ _ _ _ _ _).
  eapply settles_bind.
  { apply settles_framed; [|intros fuel; apply confirm_mined_framed].
    apply (confirm_mined_settles _ (cn_cluster_ok node) (cn_cluster_about node)).
    exact (so_store _ Hs4). }
  intros [] w6 [Hd%kept_round [Fa _ _]]. injection Fa as Fb _. apply settles_lift_ret.
  assert (db_blocks (w_db w6) = db_blocks (w_db w4)) as Hb6 by exact Fb.
  split.
  - apply (sound_blocks w4); [done|apply Hd|done].
  - apply (kept_trans _ w4); [done|]. apply (kept_trans _ w6); [exact Hd|].
    apply kept_publish; [apply Hd|done].
  - intros x. change (w_db (publish _ w6)) with (w_db w6). rw (same_blocks w4 w6 x Hb6) Hh. done.
Qed.

Lemma apply_block_settles hash n :
  sound (n_world n) → 0 ≤ height_of hash →
  nsettles (λ fuel, apply_block get_mempool_cluster get_block instant fuel hash) n
    (λ r n', applied hash (n_world n) r (n_world n') ∧ Gate.held_since (n_gate n') = None).
Proof.
  intros Hs Hpos. unfold apply_block.
  assert (∀ t, nsettles (λ fuel, (_ ← on_gate (Gate.shut t);
    r ← on_world (apply_block_guarded get_mempool_cluster get_block fuel hash);
    _ ← on_gate Gate.reopen; mret r)) n
    (λ r n', applied hash (n_world n) r (n_world n') ∧ Gate.held_since (n_gate n') = None)) as Hgen;
    [|exact (Hgen _)].
  intros t. eapply nsettles_bind.
  { by apply (nsettles_gate _ _ (λ _ n', n_world n' = n_world n)). }
  intros [] n1 Hn1. eapply nsettles_bind.
  { apply nsettles_world. rw Hn1. by apply apply_block_guarded_settles. }
  intros r n2 Hap. eapply nsettles_bind.
  { by apply (nsettles_gate _ _ (λ _ n', applied hash (n_world n) r (n_world n') ∧
      Gate.held_since (n_gate n') = None)). }
  intros [] n3 Hn3. by apply nsettles_ret.
Qed.

(** Applying [lo..lo+len-1] in order stops at the first failure and leaves no hole. *)
Lemma apply_heights_settles lo (len : nat) n0 n :
  sound (n_world n) → kept (n_world n0) (n_world n) → 0 ≤ lo → lo + Z.of_nat len ≤ 2 ^ 63 →
  gapless (w_db (n_world n0)) (w_db (n_world n)) →
  (∀ x, highest (w_db (n_world n)) x → lo = x + 1) →
  nsettles (λ fuel, apply_heights get_mempool_cluster get_block get_block_hash instant fuel
              (seqZ lo (Z.of_nat len))) n
    (λ r n', sound (n_world n') ∧ kept (n_world n0) (n_world n') ∧
       gapless (w_db (n_world n0)) (w_db (n_world n')) ∧
       (r = Ok () → ∀ x, x ∈ TxRepo.heights (w_db (n_world n')) ↔
          x ∈ TxRepo.heights (w_db (n_world n)) ∨ lo ≤ x < lo + Z.of_nat len)).
Proof.
  revert lo n. induction len as [|len IH]; intros lo n Hs Hk Hlo Hfit Hg Hnext.
  { apply nsettles_ret. split_and!; [done..|]. intros _ x. split; [by left|].
    intros [?|?]; [done|lia]. }
  rw seqZ_cons; [|lia]. replace (Z.pred (Z.of_nat (S len))) with (Z.of_nat len) by lia.
  cbn [apply_heights]. eapply nsettles_bind.
  { apply nsettles_world. apply (settles_lift_ret _ _ (λ r w, sound w ∧ kept (n_world n0) w ∧
      w_db w = w_db (n_world n) ∧ (∀ h, r = Ok h → height_of h = lo))).
    simpl. split; [by split; apply Hs|]. split; [exact Hk|]. split; [done|].
    assert (is_u64 lo) as Hu by (unfold is_u64; lia).
    rw (to_u64_id lo Hu). intros h Hh. by eapply (cn_hash node). }
  intros [hash|e] n1 (Hs1 & Hk1 & Hdb1 & Hh); [|apply nsettles_ret; by rw Hdb1].
  specialize (Hh hash eq_refl). eapply nsettles_bind; [apply apply_block_settles; [done|lia]|].
  intros r n2 [[A1 A2 A3] _]. rw Hdb1 Hh in A3.
  assert (kept (n_world n0) (n_world n2)) as Hk2 by by eapply kept_trans.
  destruct r as [[]|e].
  - assert (filled (w_db (n_world n)) (w_db (n_world n2)) lo lo) as Hf.
    { split; [|done]. intros x. rw A3. split; intros [?|?]; auto; right; lia. }
    assert (gapless (w_db (n_world n0)) (w_db (n_world n2))) as Hg2
      by (eapply gapless_trans; [exact Hg|right; exists lo, lo; by split]).
    assert (highest (w_db (n_world n2)) lo) as Htop by by eapply filled_highest.
    eapply nsettles_conseq; [apply (IH (Z.succ lo) n2); try done; try lia|].
    + intros x Hx. assert (x = lo); [|lia].
      apply Z.le_antisymm; [by apply Htop, Hx|by apply Hx, Htop].
    + intros r n' (B1 & B2 & B3 & B4). split_and!; [done..|]. intros Hr x.
      rw (B4 Hr) A3. split.
      * intros [[?|?]|?]; [by left|right; lia|right; lia].
      * intros [?|?]; [by left; left|].
        destruct (decide (x = lo)) as [->|?]; [left; by right|right; lia].
  - apply nsettles_ret. split_and!; [done|done| |done].
    eapply gapless_trans; [exact Hg|]. by left.
Qed.

(** ** Catching up *)

Definition room (db : Db) : nat :=
  match TxRepo.max_Z (TxRepo.heights db) with
  | Some x => Z.to_nat (max_tip - x)
  | None => Z.to_nat (max_tip + 1)
  end.

Lemma max_Z_highest db x : highest db x → TxRepo.max_Z (TxRepo.heights db) = Some x.
Proof.
  intros [Hx Hm]. pose proof (TxRepo.max_Z_spec (TxRepo.heights db)) as Hs.
  destruct (TxRepo.max_Z _) as [y|].
  - destruct Hs as [Hy Hmy]. f_equal. apply Z.le_antisymm; [by apply Hm|by apply Hmy].
  - rw Hs in Hx. by apply not_elem_of_nil in Hx.
Qed.

(** The tip was reached: some tip the node reported is stored, or a higher block is. *)
Definition at_tip (n : Node) : Prop :=
  ∃ k tip x, get_tip_height k = Ok tip ∧ highest (w_db (n_world n)) x ∧ tip ≤ x.

Record progressed (n : Node) (n' : Node) : Prop := {
  pr_sound : sound (n_world n');
  pr_kept : kept (n_world n) (n_world n');
  pr_gapless : gapless (w_db (n_world n)) (w_db (n_world n'));
}.

Lemma progressed_trans n1 n2 n3 : progressed n1 n2 → progressed n2 n3 → progressed n1 n3.
Proof.
  intros [A1 A2 A3] [B1 B2 B3]. split; [done|by eapply kept_trans|by eapply gapless_trans].
Qed.

Lemma latest_height_call w :
  let '(r, w') := call TxRepo.latest_height w in
  w_db w' = w_db w ∧ calm w w' ∧
  match r with Ok latest => latest = TxRepo.max_Z (TxRepo.heights (w_db w)) | Err _ => True end.
Proof.
  assert (repo_triple (λ d, d = w_db w) TxRepo.latest_height
    (λ l d, d = w_db w ∧ l = TxRepo.max_Z (TxRepo.heights (w_db w))) (λ d, d = w_db w)) as Hr.
  { apply repo_triple_query; [done|]. apply triple_select; [done|]. by intros ? ->. }
  specialize (Hr (w_conn w) eq_refl). unfold call.
  destruct (TxRepo.latest_height (w_conn w)) as [[l|e] c].
  - destruct Hr as [Hdb ->]. split; [exact Hdb|]. split; [|done].
    apply untouched_calm; [|done|done]. unfold w_db at 2. simpl. rw Hdb. apply untouched_refl.
  - split; [exact Hr|]. split; [|done].
    apply untouched_calm; [|done|done]. unfold w_db at 2. simpl. rw Hr. apply untouched_refl.
Qed.

Lemma catch_up_pass_settles n :
  sound (n_world n) →
  nsettles (λ fuel, catch_up_pass get_mempool_cluster get_block get_tip_height get_block_hash instant fuel) n
    (λ o n', progressed n n' ∧
       match o with
       | None => (room (w_db (n_world n')) < room (w_db (n_world n)))%nat
       | Some (Ok _) => at_tip n'
       | Some (Err _) => True
       end).
Proof.
  intros Hs. unfold catch_up_pass.
  assert (∀ w, w_db w = w_db (n_world n) → kept (n_world n) w → ∀ g q, progressed n (mkNode w g q)) as Hsame.
  { intros w Hdb Hk g q. split; simpl; [|done|apply gapless_same; by rw Hdb].
    apply (sound_blocks (n_world n)); [done|apply Hk|by rw Hdb]. }
  eapply nsettles_bind.
  { apply nsettles_world. apply (settles_lift_ret _ _ (λ r w, w_db w = w_db (n_world n) ∧
      kept (n_world n) w ∧ (∀ tip, r = Ok tip → ∃ k, get_tip_height k = Ok tip))).
    simpl. split; [done|]. split; [exact (kept_refl _ (so_store _ Hs))|eauto]. }
  intros [tip|e] [w1 g1 q1] (Hdb1 & Hk1 & Htip); simpl in *;
    [|apply nsettles_ret; split; [by apply Hsame|done]].
  destruct (Htip tip eq_refl) as [k Hk]. destruct (cn_tip node _ _ Hk) as [Ht0 Ht1].
  pose proof (cn_tip_fits node) as Hfits.
  eapply nsettles_bind.
  { apply nsettles_world. apply (settles_lift_ret _ _ (λ r w, w_db w = w_db (n_world n) ∧
      kept (n_world n) w ∧
      match r with Ok l => l = TxRepo.max_Z (TxRepo.heights (w_db (n_world n))) | Err _ => True end)).
    simpl. pose proof (latest_height_call w1) as Hl. destruct (call _ w1) as [r w2].
    destruct Hl as (Hdb2 & Hc & Hr). rw Hdb1 in Hdb2 Hr. split; [done|]. split; [|done].
    eapply kept_trans; [exact Hk1|]. by apply kept_calm; [apply Hk1|]. }
  intros [latest|e] [w2 g2 q2] (Hdb2 & Hk2 & Hl); simpl in *;
    [|apply nsettles_ret; split; [by apply Hsame|done]].
  pose proof (TxRepo.max_Z_spec (TxRepo.heights (w_db (n_world n)))) as Hmax. rw -Hl in Hmax.
  set (next := match latest with Some height => height + 1 | None => tip end).
  destruct (Z.ltb_spec tip next) as [Hlt|Hge].
  { apply nsettles_ret. split; [by apply Hsame|]. destruct latest as [x|]; [|subst next; lia].
    exists k, tip, x. split; [done|]. simpl. rw Hdb2. split; [done|subst next; lia]. }
  assert (∀ x, highest (w_db w2) x → next = x + 1) as Hnext.
  { intros x Hx. rw Hdb2 in Hx. apply max_Z_highest in Hx. rw -Hl in Hx. subst next. by rw Hx. }
  assert (0 ≤ next) as Hpos.
  { subst next. destruct latest as [x|]; [|lia]. destruct Hmax as [Hin _].
    apply elem_of_heights in Hin as (h & b & Hb & <-). apply Hs in Hb as [_ ?]. lia. }
  replace (tip - next + 1) with (Z.of_nat (Z.to_nat (tip - next + 1))) by lia.
  eapply nsettles_bind.
  { apply (apply_heights_settles next _ n (mkNode w2 g2 q2)); simpl; [|done|done|lia| |done].
    - by apply (Hsame w2 Hdb2 Hk2 g2 q2).
    - by apply (Hsame w2 Hdb2 Hk2 g2 q2). }
  intros r n3 (S1 & S2 & S3 & S4). destruct r as [[]|e]; apply nsettles_ret;
    (split; [by split|]); [|done].
  specialize (S4 eq_refl). simpl in S4.
  assert (highest (w_db (n_world n3)) tip) as Htop.
  { apply (filled_highest (w_db w2) _ next); [|lia]. split; [|done]. intros x. rw S4. split; (intros [?|?]; [by left|right; lia]). }
  unfold room. rw (max_Z_highest _ _ Htop) -Hl. subst next. destruct latest as [x|]; lia.
Qed.

Lemma catch_up_loop_settles k n :
  sound (n_world n) → (room (w_db (n_world n)) < k)%nat →
  ∃ r n', (∀ passes fuel x,
      catch_up_loop get_mempool_cluster get_block get_tip_height get_block_hash instant passes fuel n
      = Some x → x = (r, n')) ∧
    (∃ fuel0, ∀ passes fuel, (k ≤ passes)%nat → (fuel0 ≤ fuel)%nat →
      catch_up_loop get_mempool_cluster get_block get_tip_height get_block_hash instant passes fuel n
      = Some (r, n')) ∧
    progressed n n' ∧ (r = Ok () → at_tip n').
Proof.
  revert n. induction k as [|k IH]; intros n Hs Hroom; [lia|].
  destruct (catch_up_pass_settles n Hs) as (o & n1 & [Hu1 [f1 Hf1]] & Hp & Ho).
  destruct o as [r|].
  - exists r, n1. split_and!; [| |done|].
    + intros [|passes] fuel x; [done|]. cbn [catch_up_loop]. unfold mbind, NRun_bind.
      destruct (Hu1 fuel) as [->| ->]; [done|]. by intros [= <-].
    + exists f1. intros [|passes] fuel Hle Hf; [lia|]. cbn [catch_up_loop].
      unfold mbind, NRun_bind. by rw (Hf1 fuel Hf).
    + by intros ->.
  - destruct (IH n1) as (r & n' & Hu2 & [f2 Hf2] & Hp' & Hr); [apply Hp|lia|].
    exists r, n'. split_and!; [| |by eapply progressed_trans|done].
    + intros [|passes] fuel x; [done|]. cbn [catch_up_loop]. unfold mbind, NRun_bind.
      destruct (Hu1 fuel) as [->| ->]; [done|]. apply Hu2.
    + exists (f1 `max` f2)%nat. intros [|passes] fuel Hle Hf; [lia|]. cbn [catch_up_loop].
      unfold mbind, NRun_bind. rw Hf1; [|lia]. apply Hf2; lia.
Qed.

(** Whatever the fuel, a pass to catch up that returns has made progress. *)
Lemma catch_up_progress fuel n r n' :
  sound (n_world n) →
  catch_up get_mempool_cluster get_block get_tip_height get_block_hash instant fuel n = Some (r, n') →
  progressed n n' ∧ (r = Ok () → at_tip n').
Proof.
  intros Hs Hc. destruct (catch_up_loop_settles (S (room (w_db (n_world n)))) n Hs)
    as (r0 & n0 & Hu & _ & Hp & Hr); [lia|]. injection (Hu _ _ _ Hc) as -> ->. done.
Qed.

(** C16.  Catching up always returns, however the node's tip moves below its bound and
    whichever calls fail.  It keeps the clusters, and stores heights only as an unbroken
    run directly above the highest stored one, so a failure leaves no hole for the next
    attempt to miss; when it reports success the stored chain reaches a tip the node
    reported. *)
Theorem catch_up_returns n :
  sound (n_world n) →
  ∃ r n', (∃ fuel0, ∀ fuel, (fuel0 ≤ fuel)%nat →
      catch_up get_mempool_cluster get_block get_tip_height get_block_hash instant fuel n = Some (r, n')) ∧
    sound (n_world n') ∧ gapless (w_db (n_world n)) (w_db (n_world n')) ∧
    (unbroken (n_world n') → mirrored (n_world n) → mirrored (n_world n')) ∧
    (r = Ok () → at_tip n').
Proof.
  intros Hs.
  destruct (catch_up_loop_settles (S (room (w_db (n_world n)))) n Hs)
    as (r & n' & _ & [f Hf] & [P1 (_ & _ & P2 & _) P3] & Hr); [lia|].
  exists r, n'. split; [|done]. exists (f `max` S (room (w_db (n_world n))))%nat.
  intros fuel Hle. apply Hf; lia.
Qed.
End theorems.

(** ** Witnesses *)

(** A node with a single block, at height 3. *)
Definition demo_height (h : string) : Z := 3.
Definition demo_get_block (_ : nat) (h : string) : result ObserverError GetBlockModel :=
  Ok (mkGetBlockModel h 3 60 900 1 [mkBlockTxSummary "aa" 100 400 500 ["parent"]]).
Definition demo_get_hash (_ : nat) (x : Z) : result ObserverError string :=
  if x =? 3 then Ok "blk"%string else Err (OtherError "no such height").

Lemma demo_chain :
  chain_node (λ _, demo_group) demo_get_block (λ _, Ok 3) demo_get_hash demo_height 3.
Proof.
  split.
  - intros n. apply demo_group_ok.
  - intros n. apply demo_group_about.
  - intros n h b [= <-]. split; [done|]. split; [done|]. apply NoDup_singleton.
  - intros n x h _. unfold demo_get_hash. destruct (Z.eqb_spec x 3) as [->|]; [done|done].
  - intros n t [= <-]. lia.
  - lia.
Qed.

Lemma demo_sound : sound demo_height (n_world demo_node).
Proof.
  split; [|intros h b Hb; simpl in Hb; by rw lookup_empty in Hb].
  split; [apply cluster_inv_empty|]. assert (w_actives (n_world demo_node) = ∅) as -> by reflexivity.
  split; [apply disjoint_empty|]. intros id s. by rw lookup_empty.
Qed.

Lemma catch_up_returns_witness :
  ∃ r n', (∃ fuel0, ∀ fuel, (fuel0 ≤ fuel)%nat →
      @catch_up stored_order ceil_units calm_env (λ _, demo_group) demo_get_block (λ _, Ok 3)
        demo_get_hash Z.of_nat fuel demo_node = Some (r, n')) ∧
    (r = Ok () → at_tip (λ _, Ok 3) n').
Proof.
  destruct (@catch_up_returns stored_order ceil_units calm_env (λ _, demo_group) demo_get_block
    (λ _, Ok 3) demo_get_hash Z.of_nat demo_height 3 demo_chain demo_node demo_sound)
    as (r & n' & Hf & _ & _ & _ & Ht).
  exists r, n'. exact (conj Hf Ht).
Defined.

End Blocks.
