(* ===== verification/BlockTask.v ===== *)
(** * The block task, turn by turn

    [BlockService::persist_blocks_and_txs] of [api/src/services/block.rs] with
    [sync_missing_blocks], [catch_up] and [apply_block] inlined, as a state machine: a state is
    a place where the task waits (for an event, the node, the database, or the delay before a
    retry) with what it holds there, and a turn runs to the next such place.  Between two turns
    the other tasks run: the block gate is shut only from [Fetching] to [Announcing], and it
    holds up the reconciler alone.  Runs of the functions of [Blocks] are sequences of these
    turns; every turn keeps the stored chain without a hole. *)

From S2P Require Import Prelude.
From S2P Require Import Models.
From S2P Require Import Database.
From S2P Require Import ClusterInv.
From S2P Require Import TxRepo.
From S2P Require Import Ledger.
From S2P Require Import ClusterSnapshot.
From S2P Require Import ClusterService.
From S2P Require Import ClusterActive.
From S2P Require Import ClusterRounds.
From S2P Require Import ClusterSync.
From S2P Require Import Frame.
From S2P Require Import Gate.
From S2P Require Import Backfill.
From S2P Require Import Reconciler.
From S2P Require Import Blocks.

Open Scope Z_scope.

Module BlockTask.
Import Database ClusterInv ClusterService ClusterActive ClusterRounds ClusterSync Frame Reconciler Blocks.

(** Where the task waits.  [attempts] counts the failed passes of this event's catch-up,
    [heights] are those of the running pass that come after the current block. *)
Inductive BlockTask :=
| Waiting
| Passing (attempts : Z)
| Measuring (attempts tip : Z)
| Applying (attempts : Z) (heights : list Z)
| Fetching (attempts : Z) (hash : string) (heights : list Z)
| Storing (attempts : Z) (block : GetBlockModel) (heights : list Z)
| Leaving (attempts : Z) (block : GetBlockModel) (heights : list Z)
| Confirming (attempts : Z) (block : GetBlockModel) (heights : list Z)
| Announcing (attempts : Z) (block : GetBlockModel) (heights : list Z)
| Sampling.

(** After an error, and the delay: the next pass. *)
Definition retry (attempts : Z) : BlockTask := Passing (Z.min (attempts + 1) (2 ^ 32 - 1)).

Section turns.
Context `{EnumOrder, BitcoinUnits, Env}.
Context (get_mempool_cluster : nat → string → result ObserverError GetMempoolClusterModel).
Context (get_block : nat → string → result ObserverError GetBlockModel).
Context (get_tip_height : nat → result ObserverError Z).
Context (get_block_hash : nat → Z → result ObserverError string).
Context (instant : nat → Z).

(** From one wait to the next.  The guard of the gate is dropped on every way out of
    [apply_block]. *)
Definition block_turn (fuel : nat) (task : BlockTask) : NRun BlockTask :=
  match task with
  | Waiting => mret (Passing 0)
  | Passing attempts =>
      r ← on_world (lift (Backfill.ask get_tip_height));
      match r with
      | Err _ => mret (retry attempts)
      | Ok tip => mret (Measuring attempts tip)
      end
  | Measuring attempts tip =>
      r ← on_world (lift (call TxRepo.latest_height));
      match r with
      | Err _ => mret (retry attempts)
      | Ok latest =>
          let next := match latest with Some height => height + 1 | None => tip end in
          if tip <? next then mret Sampling
          else mret (Applying attempts (seqZ next (tip - next + 1)))
      end
  | Applying attempts [] => mret (Passing attempts)
  | Applying attempts (height :: heights) =>
      r ← on_world (lift (Backfill.ask (λ n, get_block_hash n (to_u64 height))));
      match r with
      | Err _ => mret (retry attempts)
      | Ok hash => mret (Fetching attempts hash heights)
      end
  | Fetching attempts hash heights => λ n,
      (_ ← on_gate (Gate.shut (instant (w_calls (n_world n))));
       r ← on_world (lift (Backfill.ask (λ n, get_block n hash)));
       match r with
       | Err _ => _ ← on_gate Gate.reopen; mret (retry attempts)
       | Ok block => mret (Storing attempts block heights)
       end) n
  | Storing attempts block heights =>
      seen_at ← on_world (lift now_utc);
      created_at ← on_world (lift now_utc);
      r ← on_world (lift (call (TxRepo.insert_with_transactions (new_block created_at block)
                                  (mined_row block seen_at <$> gb_txs block))));
      match r with
      | Err _ => _ ← on_gate Gate.reopen; mret (retry attempts)
      | Ok _ => mret (Leaving attempts block heights)
      end
  | Leaving attempts block heights =>
      _ ← on_world (lift (assert_absent (bt_txid <$> gb_txs block)));
      mret (Confirming attempts block heights)
  | Confirming attempts block heights =>
      _ ← on_world (confirm_mined get_mempool_cluster fuel (bt_txid <$> gb_txs block)
                      (by_txid bt_fee_sats (gb_txs block)) (by_txid bt_weight (gb_txs block))
                      (gb_mined_at block));
      mret (Announcing attempts block heights)
  | Announcing attempts block heights =>
      _ ← on_world (lift (λ w, ((), publish (OnNewBlockInfo
             (mkNewBlockInfoEvent (gb_height block) (gb_mined_at block))) w)));
      _ ← on_gate Gate.reopen;
      mret (Applying attempts heights)
  | Sampling => _ ← on_world (lift (call TxRepo.missing_heights)); mret Waiting
  end.

(** A turn of the task alone. *)
Definition turns (s s' : Node * BlockTask) : Prop :=
  ∃ fuel, block_turn fuel s.2 s.1 = Some (s'.2, s'.1).

(** ** Runs of the service are sequences of turns *)

Lemma turns_l fuel n task n1 task1 s' :
  block_turn fuel task n = Some (task1, n1) → rtc turns (n1, task1) s' → rtc turns (n, task) s'.
Proof. intros Ht. apply rtc_l. by exists fuel. Qed.

(** Where a result leads to. *)
Definition after (attempts : Z) (ok : BlockTask) (r : result BlockSyncError unit) : BlockTask :=
  match r with Ok _ => ok | Err _ => retry attempts end.

Lemma apply_block_turns fuel attempts hash heights n r n' :
  apply_block get_mempool_cluster get_block instant fuel hash n = Some (r, n') →
  rtc turns (n, Fetching attempts hash heights) (n', after attempts (Applying attempts heights) r).
Proof.
  destruct n as [w g q]. unfold apply_block, apply_block_guarded.
  unfold mbind, NRun_bind, Run_bind, on_gate, on_world, lift, Backfill.ask, now_utc, mret, NRun_ret, Run_ret.
  cbn [n_world n_gate n_queue w_calls].
  destruct (get_block (w_calls w) hash) as [block|e] eqn:Eb.
  2:{ intros [= <- <-]. eapply (turns_l fuel); [|apply rtc_refl].
    cbn [block_turn]. unfold mbind, NRun_bind, on_gate, on_world, lift, Backfill.ask.
    cbn [n_world n_gate n_queue w_calls]. by rw Eb. }
  set (w1 := mkWorld _ _ _ _ (S (w_calls w)) _). set (g1 := Gate.shut _ g).
  assert (∀ s', rtc turns (mkNode w1 g1 q, Storing attempts block heights) s' →
    rtc turns (mkNode w g q, Fetching attempts hash heights) s') as Hgo.
  { intros s'. apply (turns_l fuel). cbn [block_turn].
    unfold mbind, NRun_bind, on_gate, on_world, lift, Backfill.ask.
    cbn [n_world n_gate n_queue w_calls]. by rw Eb. }
  intros Hr. apply Hgo. clear Hgo. revert Hr.
  destruct (call _ _) as [[[]|e] w4] eqn:Ec; cbn [n_world n_gate n_queue].
  2:{ intros [= <- <-]. eapply (turns_l fuel); [|apply rtc_refl].
    cbn [block_turn]. unfold mbind, NRun_bind, on_gate, on_world, lift, now_utc.
    cbn [n_world n_gate n_queue]. by rw Ec. }
  intros Hr. apply (turns_l fuel _ _ (mkNode w4 g1 q) (Leaving attempts block heights)).
  { cbn [block_turn]. unfold mbind, NRun_bind, on_gate, on_world, lift, now_utc.
    cbn [n_world n_gate n_queue]. by rw Ec. }
  revert Hr. unfold assert_absent. set (w5 := mkWorld (w_conn w4) _ _ _ _ _).
  destruct (confirm_mined _ _ _ _ _ _ _) as [[[] w6]|] eqn:E6; [|done]. cbn [n_world n_gate n_queue].
  intros [= <- <-]. apply (turns_l fuel _ _ (mkNode w5 g1 q) (Confirming attempts block heights)); [done|].
  apply (turns_l fuel _ _ (mkNode w6 g1 q) (Announcing attempts block heights)).
  { cbn [block_turn]. unfold mbind, NRun_bind, on_world. cbn [n_world n_gate n_queue]. by rw E6. }
  eapply (turns_l fuel); [done|apply rtc_refl].
Qed.

Lemma apply_heights_turns fuel attempts heights n r n' :
  apply_heights get_mempool_cluster get_block get_block_hash instant fuel heights n = Some (r, n') →
  rtc turns (n, Applying attempts heights) (n', after attempts (Passing attempts) r).
Proof.
  revert n. induction heights as [|height heights IH]; intros n; cbn [apply_heights].
  { intros [= <- <-]. by eapply (turns_l fuel); [|apply rtc_refl]. }
  unfold mbind, NRun_bind.
  destruct (on_world _ n) as [[[hash|e] n1]|] eqn:E1; [| |done].
  2:{ intros [= <- <-]. eapply (turns_l fuel); [|apply rtc_refl].
    cbn [block_turn]. unfold mbind, NRun_bind. by rw E1. }
  destruct (apply_block _ _ _ fuel hash n1) as [[r2 n2]|] eqn:E2; [|done]. intros Hr.
  eapply (turns_l fuel _ _ n1 (Fetching attempts hash heights)).
  { cbn [block_turn]. unfold mbind, NRun_bind. by rw E1. }
  etrans; [by eapply apply_block_turns|].
  destruct r2 as [[]|e]; [by apply IH|]. injection Hr as <- <-. apply rtc_refl.
Qed.

Lemma catch_up_turns passes fuel attempts n r n' :
  catch_up_loop get_mempool_cluster get_block get_tip_height get_block_hash instant passes fuel n
    = Some (r, n') →
  rtc turns (n, Passing attempts) (n', after attempts Sampling r).
Proof.
  revert n. induction passes as [|passes IH]; intros n; cbn [catch_up_loop]; [done|].
  unfold catch_up_pass, mbind, NRun_bind.
  destruct (on_world _ n) as [[[tip|e] n1]|] eqn:E1; [| |done].
  2:{ intros [= <- <-]. eapply (turns_l fuel); [|apply rtc_refl].
    cbn [block_turn]. unfold mbind, NRun_bind. by rw E1. }
  intros Hr. apply (turns_l fuel _ _ n1 (Measuring attempts tip)).
  { cbn [block_turn]. unfold mbind, NRun_bind. by rw E1. }
  destruct (on_world _ n1) as [[[latest|e] n2]|] eqn:E2; [| |done].
  2:{ injection Hr as <- <-. eapply (turns_l fuel); [|apply rtc_refl].
    cbn [block_turn]. unfold mbind, NRun_bind. by rw E2. }
  set (next := match latest with Some height => height + 1 | None => tip end) in Hr.
  apply (turns_l fuel _ _ n2 (if tip <? next then Sampling
    else Applying attempts (seqZ next (tip - next + 1)))).
  { cbn [block_turn]. unfold mbind, NRun_bind. rw E2. fold next. by destruct (tip <? next). }
  destruct (tip <? next); [injection Hr as <- <-; apply rtc_refl|].
  destruct (apply_heights _ _ _ _ fuel _ n2) as [[r3 n3]|] eqn:E3; [|done].
  etrans; [by eapply apply_heights_turns|].
  destruct r3 as [[]|e]; [by apply IH|]. injection Hr as <- <-. apply rtc_refl.
Qed.

Lemma sync_attempts_turns tries fuel attempts n slept n' :
  sync_attempts get_mempool_cluster get_block get_tip_height get_block_hash instant tries fuel attempts n
    = Some (slept, n') →
  rtc turns (n, Passing attempts) (n', Sampling).
Proof.
  revert attempts n slept. induction tries as [|tries IH]; intros attempts n slept; simpl; [done|].
  unfold mbind, NRun_bind. destruct (catch_up _ _ _ _ _ fuel n) as [[r n1]|] eqn:E; [|done].
  apply (catch_up_turns _ _ attempts) in E. destruct r as [[]|e]; [by intros [= _ <-]|].
  destruct (sync_attempts _ _ _ _ _ tries _ _ n1) as [[slept' n2]|] eqn:E2; [|done].
  intros [= _ <-]. etrans; [exact E|by eapply IH].
Qed.

(** One event: the task is back where it waits for the next. *)
Lemma sync_missing_turns fuel n slept n' :
  sync_missing_blocks get_mempool_cluster get_block get_tip_height get_block_hash instant fuel n
    = Some (slept, n') →
  rtc turns (n, Waiting) (n', Waiting).
Proof.
  unfold sync_missing_blocks, mbind, NRun_bind.
  destruct (sync_attempts _ _ _ _ _ _ _ _ n) as [[s n1]|] eqn:E; [|done]. intros Hr.
  apply (turns_l fuel _ _ n (Passing 0)); [done|].
  etrans; [by eapply sync_attempts_turns|].
  destruct (on_world _ n1) as [[r n2]|] eqn:E2; [|done]. injection Hr as _ <-.
  eapply (turns_l fuel); [|apply rtc_refl]. cbn [block_turn]. unfold mbind, NRun_bind. by rw E2.
Qed.

(** ** What a turn keeps *)

Context (height_of : string → Z) (max_tip : Z).
Context (node : chain_node get_mempool_cluster get_block get_tip_height get_block_hash height_of max_tip).

(** The clusters are kept, blocks are stored directly above the highest one, no delta is
    written, the journal only grows and the lease is not touched. *)
Record steady (n n' : Node) : Prop := {
  sd_progress : progressed height_of n n';
  sd_deltas : db_deltas (w_db (n_world n')) = db_deltas (w_db (n_world n));
  sd_ledger : Ledger.logs (w_ledger (n_world n)) (w_ledger (n_world n'));
  sd_lease : Gate.in_flight (n_gate n') = Gate.in_flight (n_gate n);
}.

Lemma steady_calm n w g q :
  sound height_of (n_world n) → calm (n_world n) w → aside (w_db w) = aside (w_db (n_world n)) →
  Ledger.logs (w_ledger (n_world n)) (w_ledger w) → Gate.in_flight g = Gate.in_flight (n_gate n) →
  steady n (mkNode w g q).
Proof.
  intros Hs Hc Ha Hl Hg. injection Ha as Hb Hd. split; simpl; [|done..].
  pose proof (kept_calm _ _ (so_store _ _ Hs) Hc) as Hk. split; simpl; [|done|by apply gapless_same].
  by apply (sound_blocks _ (n_world n)); [|apply Hk|].
Qed.

(** Nothing but the node's and the clock's answers were consumed. *)
Lemma steady_same n w g q :
  sound height_of (n_world n) → w_db w = w_db (n_world n) → w_ledger w = w_ledger (n_world n) →
  calm (n_world n) w → Gate.in_flight g = Gate.in_flight (n_gate n) → steady n (mkNode w g q).
Proof. intros Hs Hd Hl Hc Hg. apply steady_calm; [done|done|by rw Hd| |done]. rw Hl. apply Ledger.logs_refl. Qed.

(** [heights] come directly above the highest stored block, in order. *)
Definition upcoming (db : Db) (heights : list Z) : Prop :=
  ∃ lo len, heights = seqZ lo (Z.of_nat len) ∧ 0 ≤ lo ∧ lo + Z.of_nat len ≤ 2 ^ 63 ∧
    ∀ x, highest db x → lo = x + 1.

(** What the task relies on at each wait. *)
Definition task_ok (db : Db) (task : BlockTask) : Prop :=
  match task with
  | Waiting | Passing _ | Sampling => True
  | Measuring _ tip => 0 ≤ tip ≤ max_tip
  | Applying _ heights => upcoming db heights
  | Fetching _ hash heights => upcoming db (height_of hash :: heights)
  | Storing _ block heights =>
      gb_height block = height_of (gb_hash block) ∧ NoDup (bt_txid <$> gb_txs block) ∧
      upcoming db (gb_height block :: heights)
  | Leaving _ _ heights | Confirming _ _ heights | Announcing _ _ heights => upcoming db heights
  end.

Lemma highest_blocks db db' x : db_blocks db' = db_blocks db → highest db' x ↔ highest db x.
Proof. intros Hb. unfold highest, TxRepo.heights. by rw Hb. Qed.

Lemma upcoming_blocks db db' heights :
  db_blocks db' = db_blocks db → upcoming db heights → upcoming db' heights.
Proof.
  intros Hb (lo & len & -> & U1 & U2 & U3). exists lo, len. split_and!; [done..|].
  intros x Hx. apply U3. by rw (highest_blocks db' db x).
Qed.

(** The task does not notice turns that store no block. *)
Lemma task_ok_blocks db db' task :
  db_blocks db' = db_blocks db → task_ok db task → task_ok db' task.
Proof.
  intros Hb. destruct task; simpl; [done|done|done|by apply upcoming_blocks..| | | | |done];
    try by apply upcoming_blocks.
  intros (U1 & U2 & U3). split_and!; [done..|by eapply upcoming_blocks].
Qed.

Lemma upcoming_cons db height heights :
  upcoming db (height :: heights) →
  is_u64 height ∧ (∀ x, highest db x → height = x + 1) ∧
  ∀ db', (∀ x, x ∈ TxRepo.heights db' ↔ x ∈ TxRepo.heights db ∨ x = height) → upcoming db' heights.
Proof.
  intros (lo & [|len] & Heq & U1 & U2 & U3); [done|].
  rw seqZ_cons in Heq; [|lia]. replace (Z.pred (Z.of_nat (S len))) with (Z.of_nat len) in Heq by lia.
  injection Heq as -> ->. split; [unfold is_u64; lia|]. split; [done|]. intros db' Hdb.
  exists (Z.succ lo), len. split_and!; [done|lia|lia|]. intros x [Hx Hm]. apply Hdb in Hx as Hx'.
  assert (lo ≤ x) as Hle by (apply Hm, Hdb; by right).
  destruct Hx' as [Hx'| ->]; [|lia]. destruct (heights_bounded db) as [Hnil|[y Hy]].
  - rw Hnil in Hx'. by apply not_elem_of_nil in Hx'.
  - specialize (U3 y Hy). destruct Hy as [_ Hy]. specialize (Hy x Hx'). lia.
Qed.

(** Measuring the distance to the tip. *)
Lemma upcoming_seq db latest tip :
  blocks_ok height_of db → 0 ≤ tip ≤ max_tip → latest = TxRepo.max_Z (TxRepo.heights db) →
  let next := match latest with Some height => height + 1 | None => tip end in
  next ≤ tip → upcoming db (seqZ next (tip - next + 1)).
Proof.
  intros Hb Ht Hl next Hle. pose proof (cn_tip_fits _ _ _ _ _ _ node) as Hfits.
  pose proof (TxRepo.max_Z_spec (TxRepo.heights db)) as Hmax. rw -Hl in Hmax.
  exists next, (Z.to_nat (tip - next + 1)).
  split; [f_equal; lia|]. split; [|split; [lia|]].
  - subst next. destruct latest as [x|]; [|lia]. destruct Hmax as [Hin _].
    apply elem_of_heights in Hin as (h & b & Hbl & <-). apply Hb in Hbl as [_ ?]. lia.
  - intros x Hx. apply max_Z_highest in Hx. rw -Hl in Hx. subst next. by rw Hx.
Qed.

Lemma missing_heights_same w :
  w_db (call TxRepo.missing_heights w).2 = w_db w ∧ w_ledger (call TxRepo.missing_heights w).2 = w_ledger w ∧
  calm w (call TxRepo.missing_heights w).2.
Proof.
  unfold call, TxRepo.missing_heights.
  pose proof (query_select_keeps (λ db, (TxRepo.min_Z (TxRepo.heights db), TxRepo.max_Z (TxRepo.heights db),
    length (TxRepo.heights db))) (w_conn w)) as [Hc _].
  destruct (query _ (w_conn w)) as [[[[min max] count]|e] c]; simpl in *;
    (split; [done|]; split; [done|]; split; [intros Hok; unfold store_ok, w_actives, w_db in *; simpl; by rw Hc
      |unfold w_actives, w_db; simpl; by rw Hc|done|done]).
Qed.

(** Storing the block at hand. *)
Lemma storing_steady fuel attempts block heights n task n' :
  sound height_of (n_world n) → task_ok (w_db (n_world n)) (Storing attempts block heights) →
  block_turn fuel (Storing attempts block heights) n = Some (task, n') →
  steady n n' ∧ task_ok (w_db (n_world n')) task.
Proof.
  destruct n as [w g q]. intros Hs (Hh & Hnd & Hup) Ht. revert Ht.
  destruct (upcoming_cons _ _ _ Hup) as (Hu & Hnext & Hrest).
  cbn [block_turn]. unfold mbind, NRun_bind, on_world, lift, now_utc.
  cbn [n_world n_gate n_queue w_conn w_ledger w_snapshot w_bus w_calls w_log].
  set (w2 := mkWorld (w_conn w) (w_ledger w) (w_snapshot w) (w_bus w) (S (S (w_calls w))) (w_log w)). assert (sound height_of w2) as Hs2 by by split; apply Hs.
  pose proof (insert_block_call height_of w2 (gb_hash block) block (clock (w_calls w) 0)
    (clock (S (w_calls w)) 0) Hs2 eq_refl Hh) as Hc.
  assert (0 ≤ height_of (gb_hash block)) as Hpos by (unfold is_u64 in Hu; lia).
  specialize (Hc Hpos Hnd). cbn [w_calls] in Hc |- *.
  destruct (call _ w2) as [[[]|e] w3]; destruct Hc as (Hcalm & Hl & Hd & Hr); intros [= <- <-];
    apply (calm_trans w w2) in Hcalm; [|by split| |by split].
  - destruct Hr as [Hs3 Hx]. rw -Hh in Hx. split; [|by apply Hrest].
    split; simpl; [|done|rw Hl; apply Ledger.logs_refl|done]. split; simpl; [done| |].
    + apply (kept_calm w w3); [apply Hs|exact Hcalm].
    + right. exists (gb_height block), (gb_height block). split; [done|]. split; [|exact Hnext].
      intros x. rw Hx. split; intros [?|?]; auto; right; lia.
  - split; [|done]. apply steady_calm; simpl; [done|exact Hcalm| | |done].
    + unfold aside. by rw Hr Hd.
    + rw Hl. apply Ledger.logs_refl.
Qed.

Lemma confirming_steady fuel attempts block heights n task n' :
  sound height_of (n_world n) → upcoming (w_db (n_world n)) heights →
  block_turn fuel (Confirming attempts block heights) n = Some (task, n') →
  steady n n' ∧ task_ok (w_db (n_world n')) task.
Proof.
  destruct n as [w g q]. intros Hs Hup. cbn [block_turn]. unfold mbind, NRun_bind, on_world.
  cbn [n_world n_gate n_queue]. destruct (confirm_mined _ _ _ _ _ _ w) as [[[] w1]|] eqn:E; [|done].
  intros [= <- <-]. destruct (confirm_mined_framed _ _ _ _ _ _ _ _ _ E) as [Fa Fl _].
  assert (round_done w w1) as Hd.
  { apply (settles_result _ _ _ _ _ _ (confirm_mined_settles _ (cn_cluster_ok _ _ _ _ _ _ node)
      (cn_cluster_about _ _ _ _ _ _ node) _ _ _ _ w (so_store _ _ Hs)) E). }
  apply kept_round in Hd. injection Fa as Fb Fd. split; [|by eapply upcoming_blocks].
  split; simpl; [|done..]. split; simpl; [|done|by apply gapless_same].
  by apply (sound_blocks _ w); [|apply Hd|].
Qed.

(** Every turn of the task. *)
Lemma block_turn_steady fuel n task n' task' :
  sound height_of (n_world n) → task_ok (w_db (n_world n)) task →
  block_turn fuel task n = Some (task', n') →
  steady n n' ∧ task_ok (w_db (n_world n')) task'.
Proof.
  destruct n as [w g q]. intros Hs Ho Ht.
  assert (∀ w' g', w_db w' = w_db w → w_ledger w' = w_ledger w → w_out w' = w_out w → w_log w' = w_log w →
    Gate.in_flight g' = Gate.in_flight g → steady (mkNode w g q) (mkNode w' g' q)) as Hsame.
  { intros w' g' Hd Hl Hout Hlog Hg. apply steady_same; simpl; [done..| |done]. split; [|unfold w_actives; by rw Hd|done|unfold unbroken; by rw Hlog].
    unfold store_ok, w_actives. by rw Hd. }
  destruct task as [|attempts|attempts tip|attempts [|height heights]|attempts hash heights
    |attempts block heights|attempts block heights|attempts block heights|attempts block heights|];
    [| | | | | |by eapply storing_steady| |by eapply confirming_steady| |]; revert Ht; cbn [block_turn].
  - intros [= <- <-]. split; [by apply Hsame|done].
  - unfold mbind, NRun_bind, on_world, lift, Backfill.ask. cbn [n_world n_gate n_queue].
    destruct (get_tip_height _) as [tip|e] eqn:E; intros [= <- <-]; (split; [by apply Hsame|]); [|done].
    by eapply (cn_tip _ _ _ _ _ _ node).
  - unfold mbind, NRun_bind, on_world, lift. cbn [n_world n_gate n_queue].
    pose proof (latest_height_call w) as Hl. destruct (call _ w) as [r w1] eqn:E.
    destruct Hl as (Hd & Hc & Hr). assert (w_ledger w1 = w_ledger w) as Hle.
    { revert E. unfold call. destruct (TxRepo.latest_height _). by intros [= _ <-]. }
    destruct r as [latest|e]; [|intros [= <- <-]; by split; [by apply steady_same|]].
    set (next := match latest with Some height => height + 1 | None => tip end).
    destruct (Z.ltb_spec tip next) as [Hlt|Hge]; intros [= <- <-]; (split; [by apply steady_same|]); [done|].
    simpl. rw Hd. by apply upcoming_seq; [apply Hs| | |].
  - intros [= <- <-]. split; [by apply Hsame|done].
  - unfold mbind, NRun_bind, on_world, lift, Backfill.ask. cbn [n_world n_gate n_queue].
    destruct (upcoming_cons _ _ _ Ho) as (Hu & _ & _). rw (to_u64_id height Hu).
    destruct (get_block_hash _ height) as [hash|e] eqn:E; intros [= <- <-]; (split; [by apply Hsame|]); [|done].
    simpl. by rw (cn_hash _ _ _ _ _ _ node _ _ _ Hu E).
  - unfold mbind, NRun_bind, on_gate, on_world, lift, Backfill.ask. cbn [n_world n_gate n_queue].
    destruct (get_block _ hash) as [block|e] eqn:E; intros [= <- <-]; (split; [by apply Hsame|]); [|done].
    destruct (cn_block _ _ _ _ _ _ node _ _ _ E) as (E1 & E2 & E3). simpl. by rw E1 E2.
  - unfold mbind, NRun_bind, on_world, lift, assert_absent. cbn [n_world n_gate n_queue].
    intros [= <- <-]. split; [|done]. apply steady_calm; simpl; [done| |done| |done].
    + by split.
    + apply Ledger.assert_absent_logs.
  - unfold mbind, NRun_bind, on_world, on_gate, lift. cbn [n_world n_gate n_queue].
    intros [= <- <-]. split; [|done]. split; simpl; [|done|apply Ledger.logs_refl|done].
    split; simpl; [by split; apply Hs| |by apply gapless_same]. apply kept_publish; [apply Hs|done].
  - unfold mbind, NRun_bind, on_world, lift. cbn [n_world n_gate n_queue].
    destruct (missing_heights_same w) as (Hdb & Hl & Hc). destruct (call _ w) as [r w1].
    intros [= <- <-]. split; [by apply steady_same|done].
Qed.
End turns.

End BlockTask.
