(* ===== verification/System.v ===== *)
(** * The running server

    The tasks of [api/src/main.rs] after the start-up, over the state they share: the polls of
    the mempool watcher, the loop of [MempoolReconciler::run], the stream handler
    [BlockService::persist_blocks_and_txs] and the backfill consumer, interleaved in any order.
    The block task takes the turns of [BlockTask], so the others run between two blocks, during
    the delay before a retry and in the middle of applying a block.  A poll, a backfill and a
    tick are a step each; the writes of the watchers during a tick are [meanwhile], and [Gate],
    [Ledger] and [Consumer] have the finer interleavings. *)

From S2P Require Import Prelude.
From S2P Require Import Models.
From S2P Require Import Database.
From S2P Require Import ClusterInv.
From S2P Require Import TxRepo.
From S2P Require Import Ledger.
From S2P Require Import ClusterSnapshot.
From S2P Require Import MempoolRepo.
From S2P Require Import ClusterService.
From S2P Require Import ClusterActive.
From S2P Require Import ClusterRounds.
From S2P Require Import ClusterSync.
From S2P Require Import Frame.
From S2P Require Import Gate.
From S2P Require Import Backfill.
From S2P Require Import Watchers.
From S2P Require Import Reconciler.
From S2P Require Import Blocks.
From S2P Require Import BlockTask.

Open Scope Z_scope.

Module System.
Import Database ClusterInv ClusterService ClusterActive ClusterRounds ClusterSync Frame Reconciler Blocks BlockTask.

(** What wakes [MempoolReconciler::run]: the interval, at an instant and with what the gate
    reports and the watchers log during the tick, or the shutdown. *)
Inductive Wakeup :=
| Interval (now : Z) (preempted : nat → bool) (meanwhile : Ledger.Inner → Ledger.Inner)
| Shutdown.

Section server.
Context `{EnumOrder, BitcoinUnits, Env}.
Context (get_mempool_cluster : nat → string → result ObserverError GetMempoolClusterModel).
Context (get_block : nat → string → result ObserverError GetBlockModel).
Context (get_tip_height : nat → result ObserverError Z).
Context (get_block_hash : nat → Z → result ObserverError string).
Context (get_raw_transaction : nat → string → result ObserverError GetRawTransactionModel).
Context (get_mempool_entry : nat → string → result ObserverError MempoolEntrySummary).
Context (jittered : Z → string * Z → Z).
Context (instant : nat → Z).

(** [MempoolReconciler::run]: the loop returns at the shutdown, and not in the middle of a
    tick. *)
Fixpoint reconciler_run (fuel : nat) (wakeups : list Wakeup) (n : Node) : option Node :=
  match wakeups with
  | [] => Some n
  | Shutdown :: _ => Some n
  | Interval now preempted meanwhile :: wakeups =>
      match tick get_mempool_cluster preempted meanwhile fuel now n with
      | None => None
      | Some n => reconciler_run fuel wakeups n
      end
  end.

(** [BlockService::persist_blocks_and_txs]: an event only says that there is something to
    catch up with. *)
Fixpoint persist_blocks_and_txs (fuel : nat) (stream : list string) : NRun unit :=
  match stream with
  | [] => mret ()
  | _ :: stream =>
      _ ← sync_missing_blocks get_mempool_cluster get_block get_tip_height get_block_hash instant fuel;
      persist_blocks_and_txs fuel stream
  end.

(** The shared state, and where the block task waits. *)
Record Running := mkRunning { rn_node : Node; rn_blocks : BlockTask }.

(** One turn of one of the tasks. *)
Inductive step : Running → Running → Prop :=
| step_poll now fetched w g q task :
    step (mkRunning (mkNode w g q) task)
         (mkRunning (mkNode (set_ledger (Watchers.mempool_poll_once now fetched (w_ledger w)) w) g q) task)
| step_tick fuel now preempted meanwhile n n' task :
    (∀ inner, Ledger.logs inner (meanwhile inner)) →
    reconciler_run fuel [Interval now preempted meanwhile] n = Some n' →
    step (mkRunning n task) (mkRunning n' task)
| step_block fuel n n' task task' :
    block_turn get_mempool_cluster get_block get_tip_height get_block_hash instant fuel task n
      = Some (task', n') →
    step (mkRunning n task) (mkRunning n' task')
| step_backfill req q next w w' g q0 task :
    Backfill.recv q0 = Some (req, q) →
    Backfill.process get_raw_transaction get_mempool_entry jittered req w = (next, w') →
    step (mkRunning (mkNode w g q0) task) (mkRunning (mkNode w' g q) task)
| step_retry req w g q task :
    step (mkRunning (mkNode w g q) task) (mkRunning (mkNode w g (Backfill.requeue req q)) task).

Context (height_of : string → Z) (max_tip : Z).
Context (node : chain_node get_mempool_cluster get_block get_tip_height get_block_hash height_of max_tip).

(** ** What every turn keeps *)

(** What was recorded stays recorded. *)
Definition durable (db db' : Db) : Prop :=
  (of_delta <$> db_deltas db) `prefix_of` (of_delta <$> db_deltas db').

Lemma durable_same db db' : db_deltas db' = db_deltas db → durable db db'.
Proof. unfold durable. by intros ->. Qed.

Record advanced (n n' : Node) : Prop := {
  av_sound : sound height_of (n_world n');
  av_kept : kept (n_world n) (n_world n');
  av_gapless : gapless (w_db (n_world n)) (w_db (n_world n'));
  av_trail : ∃ es, trail n' = trail n ++ (of_entry <$> es) ∧
    observed (w_ledger (n_world n)) es (w_ledger (n_world n'));
  av_lease : Gate.in_flight (n_gate n') = Gate.in_flight (n_gate n);
  av_durable : durable (w_db (n_world n)) (w_db (n_world n'));
}.

Lemma turn_refl n : sound height_of (n_world n) → advanced n n.
Proof.
  intros Hs. split; [done|by apply kept_refl; apply Hs|by apply gapless_same| |done|by apply durable_same].
  exists []. rw app_nil_r. split; [done|apply observed_nil].
Qed.

Lemma turn_trans n1 n2 n3 : advanced n1 n2 → advanced n2 n3 → advanced n1 n3.
Proof.
  intros [A1 A2 A3 (es1 & A4 & A5) A6 A7] [B1 B2 B3 (es2 & B4 & B5) B6 B7]. split.
  - done.
  - by eapply kept_trans.
  - by eapply gapless_trans.
  - exists (es1 ++ es2). rw B4 A4 fmap_app app_assoc. split; [done|by eapply observed_app].
  - congruence.
  - unfold durable in *. by etrans.
Qed.

(** A turn that stores no block and no delta. *)
Lemma advanced_logs w w' g q q' :
  sound height_of w → kept w w' → aside (w_db w') = aside (w_db w) →
  Ledger.logs (w_ledger w) (w_ledger w') → advanced (mkNode w g q) (mkNode w' g q').
Proof.
  intros Hs Hk Ha Hl. injection Ha as Hb Hd.
  split; simpl; [|done|by apply gapless_same| |done|by apply durable_same].
  - by apply (sound_blocks _ w); [done|apply Hk|].
  - destruct (logs_observed _ _ Hl) as (es & Hes & Ho). exists es. split; [|done].
    unfold trail. simpl. by rw Hd Hes fmap_app app_assoc.
Qed.

(** *** A poll *)

Lemma poll_advances now fetched w g q :
  sound height_of w →
  advanced (mkNode w g q)
    (mkNode (set_ledger (Watchers.mempool_poll_once now fetched (w_ledger w)) w) g q).
Proof.
  intros Hs. apply advanced_logs; [done| |done|].
  - apply kept_calm; [apply Hs|]. by split.
  - simpl. destruct fetched; simpl; [apply Ledger.submit_authoritative_logs|apply Ledger.logs_refl].
Qed.

(** *** A tick *)

Lemma flush_keeps preempted meanwhile fuel n n' :
  (∀ inner, Ledger.logs inner (meanwhile inner)) → store_ok (n_world n) →
  flush get_mempool_cluster preempted meanwhile fuel n = Some n' →
  kept (n_world n) (n_world n') ∧ db_blocks (w_db (n_world n')) = db_blocks (w_db (n_world n)).
Proof.
  intros Hw Hok. unfold flush, Ledger.begin_flush.
  destruct (Ledger.journal (w_ledger (n_world n))) as [|e es] eqn:Ej.
  { intros [= <-]. split; [by apply kept_calm, calm_refl|done]. }
  rw -Ej. set (entries := Ledger.journal _).
  pose proof (call_write_batch preempted entries (n_world n)) as Hc.
  destruct (call _ _) as [r w1]. destruct Hc as (Hl & Hout & Hlog & _ & Hr).
  assert (calm (n_world n) w1 ∧ db_blocks (w_db w1) = db_blocks (w_db (n_world n))) as [Hcalm Hb].
  { destruct r as [[outcome|]|err].
    - split; [by eapply written_calm|].
      destruct (MempoolRepo.bw_txs _ _ _ _ Hr) as (txids & _ & [R _ _ _]). by rw R.
    - split; [by apply untouched_calm|]. by destruct Hr as (k & _ & ->).
    - split; [by apply untouched_calm|]. by destruct Hr as (k & _ & ->). }
  pose proof (kept_calm _ _ Hok Hcalm) as Hk. cbv zeta.
  destruct r as [[outcome|]|err]; [|intros [= <-]; by split..].
  unfold after_write. cbv zeta. simpl. rw Hl.
  destruct (commit_after _ _ (Hw (w_ledger (n_world n)))) as (new & _ & _ & Hcommit).
  fold entries in Hcommit. destruct (Ledger.residency_delta entries) as [ea er]. rw Hcommit.
  set (w2 := publish _ _). unfold sync_clusters_after_flush.
  destruct (sync_clusters _ _ _ _ _ w2) as [[[] w3]|] eqn:Es; [|done]. intros [= <-]. simpl.
  destruct (sync_clusters_framed _ _ _ _ _ _ _ _ Es) as [Fa _ _]. injection Fa as Fb _.
  split; [|rw Fb; exact Hb]. eapply kept_trans; [exact Hk|].
  eapply (kept_trans _ w2).
  - by apply (kept_publish _ (set_ledger _ (set_ledger _ w1))); [apply Hk|].
  - apply kept_round.
    apply (settles_result _ _ _ _ _ _ (sync_clusters_settles _ (cn_cluster_ok _ _ _ _ _ _ node)
      (cn_cluster_about _ _ _ _ _ _ node) _ _ _ w2 (proj1 Hk)) Es).
Qed.

Lemma tick_blocks fuel now preempted meanwhile n n' :
  (∀ inner, Ledger.logs inner (meanwhile inner)) → sound height_of (n_world n) →
  tick get_mempool_cluster preempted meanwhile fuel now n = Some n' →
  db_blocks (w_db (n_world n')) = db_blocks (w_db (n_world n)).
Proof.
  intros Hw Hs. unfold tick. destruct (Gate.try_begin_flush now (n_gate n)) as [[] gate]; [|by intros [= <-]].
  destruct (flush _ _ _ fuel _) as [n1|] eqn:Ef; [|done]. intros [= <-].
  by apply (flush_keeps preempted meanwhile fuel (mkNode (n_world n) gate (n_queue n)) n1 Hw
    (so_store _ _ Hs) Ef).
Qed.

Lemma tick_advances fuel now preempted meanwhile n n' :
  (∀ inner, Ledger.logs inner (meanwhile inner)) → sound height_of (n_world n) →
  tick get_mempool_cluster preempted meanwhile fuel now n = Some n' → advanced n n'.
Proof.
  intros Hw Hs. unfold tick. pose proof (begin_flush_lease now (n_gate n)) as Hg.
  destruct (Gate.try_begin_flush now (n_gate n)) as [[] gate].
  - destruct (flush _ _ _ fuel _) as [n1|] eqn:Ef; [|done]. intros [= <-].
    pose proof (flush_spec _ _ _ Hw _ _ _ Ef) as (Hgate & Htr & Hfl). simpl in *.
    destruct (flush_keeps preempted meanwhile fuel (mkNode (n_world n) gate (n_queue n)) n1 Hw
      (so_store _ _ Hs) Ef) as [Hk Hb]. simpl in *.
    split; simpl; [|done|by apply gapless_same|done|exact Hg|].
    + by apply (sound_blocks _ (n_world n)); [done|apply Hk|].
    + destruct Hfl as [[[Hd _ _] _]|[Hd _]]; [by apply durable_same|].
      unfold durable. rw Hd. by apply prefix_app_r.
  - intros [= <-]. destruct (turn_refl n Hs) as [A1 A2 A3 A4 _ A6]. by split.
Qed.

(** *** Blocks *)

Lemma steady_advanced n n' : steady height_of n n' → advanced n n'.
Proof.
  intros [[P1 P2 P3] S2 S3 S4]. split; [done..| |done|by apply durable_same].
  destruct (logs_observed _ _ S3) as (es & Hes & Ho). exists es. split; [|done].
  unfold trail. by rw S2 Hes fmap_app app_assoc.
Qed.

(** *** Backfilling *)

(** Only rows of transactions that are there already were filled in. *)
Record enriched (w w' : World) : Prop := {
  en_calm : calm w w';
  en_aside : aside (w_db w') = aside (w_db w);
  en_ledger : w_ledger w' = w_ledger w;
}.

Definition enriching {A} (m : Svc A) : Prop := ∀ w, enriched w (m w).2.

Lemma enriched_same w w' :
  w_db w' = w_db w → w_ledger w' = w_ledger w → w_out w' = w_out w → w_log w' = w_log w → enriched w w'.
Proof.
  intros Hdb Hl Ho Hlog. split; [|by rw Hdb|done].
  split; [|unfold w_actives; by rw Hdb|done|unfold unbroken; by rw Hlog].
  unfold store_ok, w_actives. by rw Hdb.
Qed.

Lemma enriching_ret {A} (a : A) : enriching (mret a).
Proof. intros w. by apply enriched_same. Qed.

Lemma enriching_bind {A B} (m : Svc A) (f : A → Svc B) :
  enriching m → (∀ a, enriching (f a)) → enriching (m ≫= f).
Proof.
  intros Hm Hf w. specialize (Hm w). unfold mbind, Svc_bind. destruct (m w) as [a w1]. simpl in Hm.
  destruct Hm as [A1 A2 A3], (Hf a w1) as [B1 B2 B3].
  split; [by eapply calm_trans|congruence|congruence].
Qed.

Lemma enriching_ask {A} (f : nat → result ObserverError A) : enriching (Backfill.ask f).
Proof. intros w. by apply enriched_same. Qed.

Lemma enriching_update cond f txid :
  (∀ tx, tx_cluster_id (f tx) = tx_cluster_id tx) →
  enriching (call (query (statement (TxRepo.update_one cond f txid)))).
Proof.
  intros Hf w. unfold call.
  assert (∃ c r, query (statement (TxRepo.update_one cond f txid)) (w_conn w) = (r, c) ∧
    (conn_db c = w_db w ∨ ∃ tx, db_txs (w_db w) !! txid = Some tx ∧
       conn_db c = set_txs (<[txid := f tx]> (db_txs (w_db w))) (w_db w))) as (c & r & Hq & Hc).
  { unfold query, w_db. destruct (pool_fault _); [eexists _, _; split; [done|by left]|].
    unfold statement. cbn [conn_step conn_db]. destruct (stmt_fault _); [eexists _, _; split; [done|by left]|].
    unfold TxRepo.update_one. destruct (db_txs (conn_db (w_conn w)) !! txid) as [tx|] eqn:E.
    - destruct (cond tx); eexists _, _; (split; [done|]); [right; eauto|by left].
    - eexists _, _. split; [done|by left]. }
  rw Hq. simpl. destruct Hc as [Hc|(tx & Ht & Hc)].
  { by apply enriched_same. }
  set (w' := mkWorld _ _ _ _ _ _). assert (w_db w' = set_txs (<[txid := f tx]> (db_txs (w_db w))) (w_db w)) as Hdb
    by exact Hc.
  assert (w_actives w' = w_actives w) as Ha by (unfold w_actives; by rw Hdb).
  split; [|by rw Hdb|done]. split; [|done|done|done].
  intros [Hi Hcl]. split; [|by rw Ha].
  apply (cluster_inv_txs (w_db w)); [by rw Hdb..| | |done]; rw Hdb; simpl.
  - intros t Hs. destruct (decide (t = txid)) as [->|Hne]; [by rw lookup_insert_eq|by rw lookup_insert_ne].
  - intros t tx' id Ht' Hid. destruct (decide (t = txid)) as [->|Hne].
    + rw lookup_insert_eq in Ht'. injection Ht' as <-. exists tx. by rw -Hf.
    + rw lookup_insert_ne // in Ht'. eauto.
Qed.

Lemma process_enriching req :
  enriching (Backfill.process get_raw_transaction get_mempool_entry jittered req).
Proof.
  assert (∀ txid, enriching (Backfill.run_raw_stage get_raw_transaction txid)) as Hraw.
  { intros txid. apply enriching_bind; [apply enriching_ask|intros [tx|e]; [|apply enriching_ret]].
    apply enriching_bind; [by apply enriching_update|intros r; apply enriching_ret]. }
  assert (∀ txid, enriching (Backfill.run_entry_stage get_mempool_entry txid)) as Hentry.
  { intros txid. apply enriching_bind; [apply enriching_ask|intros [entry|e]; [|apply enriching_ret]].
    apply enriching_bind; [by apply enriching_update|intros r; apply enriching_ret]. }
  unfold Backfill.process. apply enriching_bind.
  - unfold Backfill.run_stages. apply enriching_bind.
    { destruct (Backfill.br_stage req); [|apply enriching_ret].
      apply enriching_bind; [apply Hraw|intros r; apply enriching_ret]. }
    intros [[[]|]|e]; try apply enriching_ret.
    apply enriching_bind; [apply Hentry|intros r; apply enriching_ret].
  - intros [[]|[stage e]]; [apply enriching_ret|].
    destruct e; try apply enriching_ret; intros w; unfold mbind, Svc_bind; simpl;
      repeat case_match; by apply enriched_same.
Qed.

(** ** Every interleaving *)

(** A sound state, and a block task that is right about the stored chain. *)
Definition running_ok (s : Running) : Prop :=
  sound height_of (n_world (rn_node s)) ∧
  task_ok height_of max_tip (w_db (n_world (rn_node s))) (rn_blocks s).

(** Only the block task stores blocks. *)
Lemma step_advances s s' :
  step s s' → running_ok s → advanced (rn_node s) (rn_node s') ∧ running_ok s'.
Proof.
  assert (∀ n n' task, advanced n n' → db_blocks (w_db (n_world n')) = db_blocks (w_db (n_world n)) →
    running_ok (mkRunning n task) → advanced n n' ∧ running_ok (mkRunning n' task)) as Haside.
  { intros n n' task Ha Hb [_ Ho]. split; [done|]. split; [apply Ha|]. by eapply task_ok_blocks. }
  intros Hst [Hs Ho].
  destruct Hst as [now fetched w g q task|fuel now pre mean n n' task Hm Ht|fuel n n' task task' Hb
    |req q next w w' g q0 task Hr Hp|req w g q task]; simpl in Hs, Ho |- *.
  - apply Haside; [by apply poll_advances|done|by split].
  - simpl in Ht. destruct (tick _ _ _ _ _ n) as [n1|] eqn:E; [|done]. injection Ht as <-.
    apply Haside; [by eapply tick_advances|by eapply tick_blocks|by split].
  - destruct (block_turn_steady _ _ _ _ _ _ _ node _ _ _ _ _ Hs Ho Hb) as [Hd Ho'].
    split; [by apply steady_advanced|]. split; [apply Hd|done].
  - destruct (process_enriching req w) as [Hc Ha Hl]. rw Hp in Hc Ha Hl. simpl in *.
    apply Haside; [|by injection Ha|by split].
    apply advanced_logs; [done|by apply kept_calm; [apply Hs|]|done|]. rw Hl. apply Ledger.logs_refl.
  - apply Haside; [|done|by split].
    apply advanced_logs; [done|by apply kept_refl; apply Hs|done|apply Ledger.logs_refl].
Qed.

Lemma steps_advance s s' :
  rtc step s s' → running_ok s → advanced (rn_node s) (rn_node s') ∧ running_ok s'.
Proof.
  induction 1 as [s|s1 s2 s3 Hst _ IH]; intros Hs; [split; [apply turn_refl, Hs|done]|].
  destruct (step_advances _ _ Hst Hs) as [Ha Hs2]. destruct (IH Hs2) as [Hb Hs3].
  split; [by eapply turn_trans|done].
Qed.

(** The loops are sequences of turns. *)
Lemma reconciler_run_steps fuel wakeups n n' task :
  (∀ now pre mean, Interval now pre mean ∈ wakeups → ∀ inner, Ledger.logs inner (mean inner)) →
  reconciler_run fuel wakeups n = Some n' → rtc step (mkRunning n task) (mkRunning n' task).
Proof.
  revert n. induction wakeups as [|[now pre mean|] wakeups IH]; intros n Hm; simpl; [by intros [= <-]| |by intros [= <-]].
  destruct (tick _ _ _ _ _ n) as [n1|] eqn:E; [|done]. intros Hr.
  eapply rtc_l; [|apply IH; [|exact Hr]].
  - apply (step_tick fuel now pre mean); [|simpl; by rw E]. apply (Hm now pre). by left.
  - intros now' pre' mean' Hin. apply (Hm now' pre'). by right.
Qed.

Lemma turns_steps s s' :
  rtc (turns get_mempool_cluster get_block get_tip_height get_block_hash instant) s s' →
  rtc step (mkRunning s.1 s.2) (mkRunning s'.1 s'.2).
Proof.
  induction 1 as [s|s1 s2 s3 [fuel Ht] _ IH]; [apply rtc_refl|].
  eapply rtc_l; [|exact IH]. by eapply step_block.
Qed.

Lemma persist_steps fuel stream n n' :
  persist_blocks_and_txs fuel stream n = Some ((), n') →
  rtc step (mkRunning n Waiting) (mkRunning n' Waiting).
Proof.
  revert n. induction stream as [|hash stream IH]; intros n; simpl; [by intros [= <-]|].
  unfold mbind, NRun_bind.
  destruct (sync_missing_blocks _ _ _ _ _ fuel n) as [[slept n1]|] eqn:E; [|done]. intros Hr.
  etrans; [|by apply IH]. by apply (turns_steps (n, Waiting) (n1, Waiting)), (sync_missing_turns _ _ _ _ _ fuel _ slept).
Qed.

(** C2.  Against a node that reports one chain (a hash has one height, its tips are bounded)
    and whose answers about a txid's cluster are errors, are empty, or contain the txid, and fit
    the tables: however the watcher's polls, the reconciler's ticks, the backfills and the turns
    of the block task interleave, also in the middle of applying a block, and whichever calls
    fail, the stored clusters stay well formed and disjoint and the stored blocks are the
    node's, without a hole; the snapshot keeps mirroring the clusters unless an insert of more
    clusters than one batch holds (10,000) failed; a client that folds the published events
    holds the snapshot; the delta rows followed by the journal have grown by exactly the
    transitions of the live set, in order, unless the journal overflowed; rows that were
    written stay; the gate's lease is back where it was, and the next tick returns.  A run of
    the block service over a stream of events is such a sequence of turns. *)
Theorem server_keeps_faith n0 s :
  sound height_of (n_world n0) → rtc step (mkRunning n0 Waiting) s →
  let n := rn_node s in
  let w0 := n_world n0 in
  let w := n_world n in
  sound height_of w ∧ gapless (w_db w0) (w_db w) ∧
  (unbroken w → mirrored w0 → mirrored w) ∧
  (∃ events, w_bus w = w_bus w0 ++ events ∧
     Snapshot.client_view (w_snapshot w)
     = client_after events (Snapshot.client_view (w_snapshot w0))) ∧
  (∃ es, trail n = trail n0 ++ (of_entry <$> es) ∧ observed (w_ledger w0) es (w_ledger w)) ∧
  durable (w_db w0) (w_db w) ∧
  Gate.in_flight (n_gate n) = Gate.in_flight (n_gate n0) ∧
  (∀ now preempted meanwhile, (∀ inner, Ledger.logs inner (meanwhile inner)) →
     ∃ fuel0 n', ∀ fuel, (fuel0 ≤ fuel)%nat →
       reconciler_run fuel [Interval now preempted meanwhile] n = Some n') ∧
  (∀ fuel stream n', persist_blocks_and_txs fuel stream n = Some ((), n') →
     rtc step (mkRunning n Waiting) (mkRunning n' Waiting)).
Proof.
  intros Hs Hr n w0 w. destruct (steps_advance _ _ Hr) as [[A1 (_ & _ & A2 & A3) A4 A5 A6 A7] _];
    [by split|].
  split_and!; [done..| |intros fuel stream n'; apply persist_steps].
  intros now pre mean Hm. simpl. unfold tick.
  destruct (Gate.try_begin_flush now (n_gate n)) as [[] gate]; [|by exists 0%nat; eexists].
  destruct (flush_returns _ pre mean Hm (cn_cluster_ok _ _ _ _ _ _ node)
    (cn_cluster_about _ _ _ _ _ _ node) (mkNode (n_world n) gate (n_queue n)) (so_store _ _ A1))
    as (fuel0 & n' & _ & Hf).
  exists fuel0. eexists. intros fuel Hle. by rw (Hf fuel Hle).
Qed.
End server.

(** ** A run: polls and a tick before, between and during the turns of a block *)

Local Abbreviation demo_step := (@step stored_order ceil_units calm_env (λ _, demo_group) demo_get_block
  (λ _, Ok 3) demo_get_hash Backfill.demo_raw Backfill.demo_entry (λ d _, d) Z.of_nat).

Inductive Move := Polls (txids : gset string) | Ticks | TurnsBlock.

Definition move (m : Move) (s : Running) : option Running :=
  let n := rn_node s in
  match m with
  | Polls txids =>
      Some (mkRunning (mkNode (set_ledger (@Watchers.mempool_poll_once stored_order (λ k, Z.of_nat k)
                                 (Ok txids) (w_ledger (n_world n))) (n_world n))
                         (n_gate n) (n_queue n)) (rn_blocks s))
  | Ticks =>
      (λ n', mkRunning n' (rn_blocks s)) <$>
        @reconciler_run stored_order ceil_units calm_env (λ _, demo_group) 9
          [Interval 0 (λ _, false) (λ inner, inner)] n
  | TurnsBlock =>
      (λ '(task, n'), mkRunning n' task) <$>
        @block_turn stored_order ceil_units calm_env (λ _, demo_group) demo_get_block (λ _, Ok 3)
          demo_get_hash Z.of_nat 9 (rn_blocks s) n
  end.

Lemma move_step m s s' : move m s = Some s' → demo_step s s'.
Proof.
  destruct s as [[w g q] task], m as [txids| |]; unfold move; cbn [rn_node rn_blocks n_world n_gate n_queue].
  - intros Hm%Some_inj. subst s'. apply step_poll.
  - destruct (reconciler_run _ _ _ _) as [n'|] eqn:E; [|done]. intros [= <-].
    eapply step_tick; [|exact E]. intros inner. apply Ledger.logs_refl.
  - destruct (block_turn _ _ _ _ _ _ _ _) as [[task' n']|] eqn:E; [|done]. intros [= <-].
    by eapply step_block.
Qed.

Definition moves (ms : list Move) (s : Running) : option Running :=
  foldl (λ o m, o ≫= move m) (Some s) ms.

Lemma moves_steps ms s s' : moves ms s = Some s' → rtc demo_step s s'.
Proof.
  unfold moves. revert s. induction ms as [|m ms IH]; intros s; cbn [foldl].
  { intros [= ->]. apply rtc_refl. }
  change (Some s ≫= move m) with (move m s). destruct (move m s) as [s1|] eqn:E.
  - intros Hr. eapply rtc_l; [by eapply move_step|by apply IH].
  - clear. induction ms as [|m' ms IH]; [done|exact IH].
Qed.

(** The poll's transactions are written, block 3 is stored, and a poll comes in before its
    transactions leave the ledger. *)
Definition demo_moves : list Move :=
  [Polls {["aa"; "cc"]}; TurnsBlock; Ticks; TurnsBlock; TurnsBlock; TurnsBlock; TurnsBlock; TurnsBlock;
   Polls {["cc"; "dd"]}; Ticks; TurnsBlock].
Definition demo_server : Running :=
  default (mkRunning demo_node Waiting) (moves demo_moves (mkRunning demo_node Waiting)).

Lemma demo_server_runs : moves demo_moves (mkRunning demo_node Waiting) = Some demo_server.
Proof. by vm_compute. Qed.

Lemma server_keeps_faith_witness :
  (∃ attempts block heights, rn_blocks demo_server = Confirming attempts block heights) ∧
  length (db_deltas (w_db (n_world (rn_node demo_server)))) = 4%nat ∧
  gapless (w_db (n_world demo_node)) (w_db (n_world (rn_node demo_server))) ∧
  ∃ es, trail (rn_node demo_server) = trail demo_node ++ (of_entry <$> es) ∧
    observed (w_ledger (n_world demo_node)) es (w_ledger (n_world (rn_node demo_server))).
Proof.
  split; [by vm_compute; eexists _, _, _|]. split; [by vm_compute|].
  destruct (@server_keeps_faith stored_order ceil_units calm_env (λ _, demo_group) demo_get_block
    (λ _, Ok 3) demo_get_hash Backfill.demo_raw Backfill.demo_entry (λ d _, d) Z.of_nat demo_height 3
    demo_chain demo_node demo_server demo_sound (moves_steps _ _ _ demo_server_runs))
    as (_ & Hg & _ & _ & Hes & _). exact (conj Hg Hes).
Defined.

End System.
