(* ===== verification/Bootstrap.v ===== *)
(** * Bootstrapping the mempool

    [api/src/services/bootstrap.rs], the mempool stage: at start-up the residency the
    database remembers is compared with the node's mempool.  The ledger is seeded with the
    former and told the latter, so that the reconciler's first flush writes exactly the
    difference; fees the node reports are stored at once, and live transactions whose rows
    are incomplete are queued for backfill. *)

From S2P Require Import Prelude.
From S2P Require Import Models.
From S2P Require Import Database.
From S2P Require Import ClusterRepo.
From S2P Require Import ClusterWrites.
From S2P Require Import ClusterInv.
From S2P Require Import ClusterThms.
From S2P Require Import TxRepo.
From S2P Require Import Ledger.
From S2P Require Import ClusterSnapshot.
From S2P Require Import MempoolRepo.
From S2P Require Import ClusterService.
From S2P Require Import ClusterActive.
From S2P Require Import ClusterServiceFacts.
From S2P Require Import ClusterRounds.
From S2P Require Import ClusterSync.
From S2P Require Import Frame.
From S2P Require Import Gate.
From S2P Require Import Backfill.
From S2P Require Import Reconciler.

Open Scope Z_scope.

Module Bootstrap.
Import Database ClusterInv ClusterService ClusterActive ClusterRounds ClusterSync Frame Reconciler.

Record MempoolReconciliation := mkMempoolReconciliation {
  txs_added : nat;
  txs_removed : nat;
}.

(** [impl From<&MempoolEntrySummary> for NewTransaction] *)
Definition entry_row (now : Z) (e : MempoolEntrySummary) : Transaction :=
  mkTransaction (mes_txid e) (Some (to_i64 (mes_fee_in_sats e))) (mes_weight e) now
    None None None None.

(** [collect] into a [HashMap]: a later entry with the same txid wins. *)
Definition entries_by_txid (l : list MempoolEntrySummary) : gmap string MempoolEntrySummary :=
  foldl (λ m e, <[mes_txid e := e]> m) ∅ l.

Section service.
Context `{EnumOrder, Env}.
(** [MempoolRetriever::get_raw_mempool_verbose], the answer to the [n]-th call. *)
Context (get_raw_mempool_verbose : nat → result ObserverError (list MempoolEntrySummary)).

(** [entries.values().map(NewTransaction::from)]: each row reads the clock. *)
Fixpoint entry_rows (l : list MempoolEntrySummary) : Svc (list Transaction) :=
  match l with
  | [] => mret []
  | e :: l =>
      now ← now_utc;
      rows ← entry_rows l;
      mret (entry_row now e :: rows)
  end.

Definition queue_incomplete_backfills (txids : list string) (queue : Backfill.TxBackfillQueue) :
    Svc Backfill.TxBackfillQueue :=
  r ← call (TxRepo.find_fills_by_txids txids);
  match r with
  | Err _ => mret queue
  | Ok fills =>
      mret (enqueue_all (omap (λ '(txid, fill), pair txid <$> backfill_stage fill) fills) queue)
  end.

(** [mempool_ledger.seed(prev); mempool_ledger.submit_authoritative(live)] *)
Definition seed_and_submit (prev live : gset string) : Svc unit := λ w,
  ((), mkWorld (w_conn w)
         (Ledger.submit_authoritative (clock (w_calls w)) live (Ledger.seed prev (w_ledger w)))
         (w_snapshot w) (w_bus w) (S (w_calls w)) (w_log w)).

Definition setup_mempool_snapshot (queue : Backfill.TxBackfillQueue) :
    Svc (option MempoolReconciliation * Backfill.TxBackfillQueue) :=
  r ← call MempoolRepo.reconstruct_snapshot;
  match r with
  | Err _ => mret (None, queue)
  | Ok prev =>
      r ← Backfill.ask get_raw_mempool_verbose;
      match r with
      | Err _ => mret (None, queue)
      | Ok txs_verbose =>
          let entries := entries_by_txid txs_verbose in
          let live : gset string := dom entries in
          let added := iter_set (live ∖ prev) in
          let removed := iter_set (prev ∖ live) in
          let reconciliation := mkMempoolReconciliation (length added) (length removed) in
          rows ← entry_rows (snd <$> iter_map entries);
          _ ← call (TxRepo.insert_many rows);
          let kept := iter_set (live ∩ prev) in
          queue ← queue_incomplete_backfills kept queue;
          _ ← seed_and_submit prev live;
          mret (Some reconciliation, queue)
      end
  end.
End service.

(** ** The parts *)

Lemma entries_by_txid_snoc l e :
  entries_by_txid (l ++ [e]) = <[mes_txid e := e]> (entries_by_txid l).
Proof. unfold entries_by_txid. by rw foldl_app. Qed.

Lemma entries_by_txid_keys l t e : entries_by_txid l !! t = Some e → mes_txid e = t.
Proof.
  induction l as [|x l IH] using rev_ind; [done|]. rw entries_by_txid_snoc.
  intros [[<- <-]|[_ ?]]%lookup_insert_Some; [done|by apply IH].
Qed.

Lemma dom_entries_by_txid l :
  dom (entries_by_txid l) = (list_to_set (mes_txid <$> l) : gset string).
Proof.
  induction l as [|x l IH] using rev_ind; [done|].
  rw entries_by_txid_snoc dom_insert_L IH fmap_app list_to_set_app_L /=. set_solver.
Qed.

Section parts.
Context `{EnumOrder, Env}.

(** Reading the clock for each row changes nothing else. *)
Lemma entry_rows_spec l w :
  let '(rows, w') := entry_rows l w in
  (∃ n, w' = mkWorld (w_conn w) (w_ledger w) (w_snapshot w) (w_bus w) n (w_log w)) ∧
  Forall2 (λ row e, ∃ now, row = entry_row now e) rows l.
Proof.
  revert w. induction l as [|e l IH]; intros w; simpl.
  - split; [exists (w_calls w); by destruct w|constructor].
  - unfold mbind, Svc_bind, now_utc. set (w1 := mkWorld _ _ _ _ (S _) _). specialize (IH w1).
    destruct (entry_rows l w1) as [rows w']. destruct IH as [[n ->] Hf]. simpl.
    split; [by exists n|]. constructor; [by eexists|done].
Qed.

Lemma entry_rows_txids rows (l : list MempoolEntrySummary) :
  Forall2 (λ row e, ∃ now, row = entry_row now e) rows l → tx_txid <$> rows = mes_txid <$> l.
Proof. induction 1 as [|row e rows l [now ->] _ IH]; simpl; [done|]. by f_equal. Qed.

Lemma values_txids (m : gmap string MempoolEntrySummary) :
  (∀ t e, m !! t = Some e → mes_txid e = t) →
  mes_txid <$> (snd <$> iter_map m) = fst <$> iter_map m.
Proof.
  intros Hk. rw -list_fmap_compose. apply list_fmap_ext. intros i [t e] Hi. simpl.
  apply Hk, elem_of_iter_map. by eapply list_elem_of_lookup_2.
Qed.

(** [w'] is [w] on another connection and a later reading of the clock. *)
Definition elsewhere (w w' : World) : Prop :=
  w_ledger w' = w_ledger w ∧ w_out w' = w_out w ∧ w_log w' = w_log w.

Lemma call_elsewhere {A} (m : RepoM A) w (Q : A → Db → Prop) (E : Db → Prop) :
  repo_triple (λ d, d = w_db w) m Q E →
  let '(r, w') := call m w in
  elsewhere w w' ∧ w_calls w' = w_calls w ∧
  match r with Ok a => Q a (w_db w') | Err _ => E (w_db w') end.
Proof.
  intros Hm. specialize (Hm (w_conn w) eq_refl). unfold call.
  by destruct (m (w_conn w)) as [[a|e] c].
Qed.

Definition reconstruct_cutoff (w : World) : Z :=
  clock (conn_step (w_conn w)) 0 - MempoolRepo.SNAPSHOT_REPLAY_WINDOW.

Lemma reconstruct_reads w :
  repo_triple (λ d, d = w_db w)
    (λ c, query (select (MempoolRepo.residency_since (reconstruct_cutoff w)))
            (mkConn (conn_db c) (S (conn_step c)) (conn_txn c)))
    (λ prev d, d = w_db w ∧ prev = MempoolRepo.residency_since (reconstruct_cutoff w) (w_db w))
    (λ d, d = w_db w).
Proof.
  assert (repo_triple (λ d, d = w_db w)
    (query (select (MempoolRepo.residency_since (reconstruct_cutoff w))))
    (λ prev d, d = w_db w ∧ prev = MempoolRepo.residency_since (reconstruct_cutoff w) (w_db w))
    (λ d, d = w_db w)) as Hq.
  { apply repo_triple_query; [done|]. apply triple_select; [done|]. by intros ? ->. }
  intros c Hc. exact (Hq (mkConn (conn_db c) (S (conn_step c)) (conn_txn c)) Hc).
Qed.

Lemma call_reconstruct w :
  let '(r, w') := call MempoolRepo.reconstruct_snapshot w in
  elsewhere w w' ∧ w_calls w' = w_calls w ∧ w_db w' = w_db w ∧
  match r with
  | Ok prev => prev = MempoolRepo.residency_since (reconstruct_cutoff w) (w_db w)
  | Err _ => True
  end.
Proof.
  change (call MempoolRepo.reconstruct_snapshot w) with
    (call (λ c, query (select (MempoolRepo.residency_since (reconstruct_cutoff w)))
            (mkConn (conn_db c) (S (conn_step c)) (conn_txn c))) w).
  pose proof (call_elsewhere _ _ _ _ (reconstruct_reads w)) as Hc.
  destruct (call _ w) as [[prev|e] w']; naive_solver.
Qed.

(** What the upsert of the live entries does to the stored rows. *)
Record fees_stored (live : gset string) (db db' : Db) : Prop := {
  fs_rest : db' = set_txs (db_txs db') db;
  fs_kept : ∀ t old, db_txs db !! t = Some old → ∃ tx, db_txs db' !! t = Some tx ∧
    (tx = old ∨ tx_fee old = None ∧ ∃ fee, tx = TxRepo.set_tx_fee (Some fee) old);
  fs_new : ∀ t tx, db_txs db' !! t = Some tx → db_txs db !! t = None →
    t ∈ live ∧ tx_cluster_id tx = None;
  fs_live : ∀ t, t ∈ live → ∃ tx fee, db_txs db' !! t = Some tx ∧ tx_fee tx = Some fee;
}.

Lemma upserted_fees (entries : gmap string MempoolEntrySummary) rows db db' :
  (∀ t e, entries !! t = Some e → mes_txid e = t) →
  Forall2 (λ row e, ∃ now, row = entry_row now e) rows (snd <$> iter_map entries) →
  db' = set_txs (db_txs db') db →
  TxRepo.upserted TxRepo.fill_fee rows (db_txs db) (db_txs db') →
  fees_stored (dom entries) db db'.
Proof.
  intros Hk Hrows Hr [H1 H2].
  assert (∀ t, t ∈ tx_txid <$> rows ↔ t ∈ dom entries) as Hdom.
  { intros t. rw (entry_rows_txids _ _ Hrows) (values_txids _ Hk) elem_of_dom.
    rw list_elem_of_fmap. split.
    - intros ([t' e] & -> & Hin%elem_of_iter_map). by exists e.
    - intros [e He]. exists (t, e). split; [done|]. by apply elem_of_iter_map. }
  assert (∀ row, row ∈ rows → ∃ e now, row = entry_row now e) as Hshape.
  { intros row (i & Hi)%list_elem_of_lookup_1.
    destruct (Forall2_lookup_l _ _ _ _ _ Hrows Hi) as (e & _ & now & ->). eauto. }
  assert (∀ t, t ∈ dom entries → ∃ e now, tx_txid (entry_row now e) = t ∧
    db_txs db' !! t = Some (TxRepo.upsert_result TxRepo.fill_fee (db_txs db) (entry_row now e))) as Hin.
  { intros t (row & -> & Hrow)%Hdom%list_elem_of_fmap.
    destruct (Hshape row Hrow) as (e & now & ->). exists e, now. split; [done|]. by apply H1. }
  split; [done| | |].
  - intros t old Hold. destruct (decide (t ∈ dom entries)) as [Ht|Ht].
    + destruct (Hin t Ht) as (e & now & <- & ->). unfold TxRepo.upsert_result. rw Hold.
      unfold TxRepo.fill_fee. destruct (tx_fee old) eqn:Ef; simpl; eauto 10.
    + exists old. rw H2; [|by rw Hdom]. eauto.
  - intros t tx Htx Hnone. destruct (decide (t ∈ dom entries)) as [Ht|Ht].
    + split; [done|]. destruct (Hin t Ht) as (e & now & <- & Heq). rw Heq in Htx.
      unfold TxRepo.upsert_result in Htx. rw Hnone in Htx. by simplify_eq.
    + rw H2 in Htx; [congruence|by rw Hdom].
  - intros t Ht. destruct (Hin t Ht) as (e & now & <- & ->). unfold TxRepo.upsert_result.
    destruct (db_txs db !! tx_txid (entry_row now e)) as [old|]; [|by eexists _, _].
    unfold TxRepo.fill_fee. destruct (tx_fee old) as [fee|] eqn:Ef; simpl.
    + by exists old, fee.
    + by eexists _, _.
Qed.
End parts.

(** ** The mempool stage *)

Section theorems.
Context `{EnumOrder, Env}.
Context (get_raw_mempool_verbose : nat → result ObserverError (list MempoolEntrySummary)).

Local Abbreviation setup := (setup_mempool_snapshot get_raw_mempool_verbose).

(** The residency the database remembers. *)
Definition remembered (w : World) : gset string :=
  MempoolRepo.residency_since (reconstruct_cutoff w) (w_db w).

Definition node_mempool (txs : list MempoolEntrySummary) : gset string :=
  list_to_set (mes_txid <$> txs).

Lemma queue_incomplete_elsewhere txids queue w :
  elsewhere w (queue_incomplete_backfills txids queue w).2 ∧
  w_db (queue_incomplete_backfills txids queue w).2 = w_db w.
Proof.
  unfold queue_incomplete_backfills, mbind, Svc_bind.
  assert (repo_triple (λ d, d = w_db w) (TxRepo.find_fills_by_txids txids)
    (λ _ d, d = w_db w) (λ d, d = w_db w)) as Hr.
  { apply repo_triple_query; [done|]. apply triple_select; [done|]. by intros ? ->. }
  pose proof (call_elsewhere _ _ _ _ Hr) as Hc.
  destruct (call _ w) as [[fills|e] w']; simpl; destruct Hc as (He & _ & Hd); done.
Qed.

Lemma elsewhere_trans w1 w2 w3 : elsewhere w1 w2 → elsewhere w2 w3 → elsewhere w1 w3.
Proof. intros (A1 & A2 & A3) (B1 & B2 & B3). unfold elsewhere. intuition congruence. Qed.

(** What the stage leaves behind, whether it completes ([Some]) or gives up ([None]). *)
Lemma setup_spec queue w :
  let '((r, queue'), w') := setup queue w in
  w_out w' = w_out w ∧ w_log w' = w_log w ∧
  match r with
  | None => w_ledger w' = w_ledger w ∧ queue' = queue ∧ w_db w' = w_db w
  | Some r =>
      ∃ txs k, get_raw_mempool_verbose (w_calls w) = Ok txs ∧
        let live := node_mempool txs in
        w_ledger w' = Ledger.submit_authoritative (clock k) live
                        (Ledger.seed (remembered w) (w_ledger w)) ∧
        r = mkMempoolReconciliation (size (live ∖ remembered w)) (size (remembered w ∖ live)) ∧
        (untouched (w_db w) (w_db w') ∨ fees_stored live (w_db w) (w_db w'))
  end.
Proof.
  unfold setup_mempool_snapshot, mbind, Svc_bind.
  pose proof (call_reconstruct w) as H1. destruct (call _ w) as [[prev|e] w1].
  2:{ destruct H1 as ((? & ? & ?) & _ & ? & _). done. }
  destruct H1 as (E1 & Hcalls & Hdb1 & ->). fold (remembered w). unfold Backfill.ask.
  set (w2 := mkWorld _ _ _ _ (S _) _). assert (elsewhere w w2) as E2 by exact E1.
  rw Hcalls. destruct (get_raw_mempool_verbose (w_calls w)) as [txs|e] eqn:Eg.
  2:{ destruct E2 as (? & ? & ?). done. }
  set (entries := entries_by_txid txs).
  assert (dom entries = node_mempool txs) as Hdom by apply dom_entries_by_txid.
  pose proof (entry_rows_spec (snd <$> iter_map entries) w2) as H3.
  destruct (entry_rows _ w2) as [rows w3]. destruct H3 as [[n3 ->] Hrows].
  set (w3 := mkWorld _ _ _ _ n3 _). assert (elsewhere w w3) as E3 by exact E1.
  assert (NoDup (tx_txid <$> rows)) as Hnd.
  { rw (entry_rows_txids _ _ Hrows) values_txids; [apply NoDup_fst_iter_map|].
    apply entries_by_txid_keys. }
  pose proof (call_elsewhere _ w3 _ _ (TxRepo.insert_many_runs (w_db w3) rows Hnd)) as H4.
  destruct (call _ w3) as [r4 w4]. destruct H4 as (E4 & _ & Hr4).
  assert (w_db w3 = w_db w) as Hdb3 by exact Hdb1. rw Hdb3 in Hr4.
  assert (untouched (w_db w) (w_db w4) ∨ fees_stored (node_mempool txs) (w_db w) (w_db w4)) as Hrow.
  { destruct r4 as [n4|e4]; [right|by left]. rw -Hdom. destruct Hr4 as [Hr Hu].
    by eapply upserted_fees; [apply entries_by_txid_keys|..]. }
  pose proof (queue_incomplete_elsewhere (iter_set (dom entries ∩ remembered w)) queue w4) as H5.
  destruct (queue_incomplete_backfills _ queue w4) as [queue' w5]. destruct H5 as [E5 Hdb5].
  assert (elsewhere w w5) as (L5 & O5 & G5)
    by exact (elsewhere_trans _ _ _ E3 (elsewhere_trans _ _ _ E4 E5)).
  unfold seed_and_submit. simpl. split; [exact O5|]. split; [exact G5|].
  exists txs, (w_calls w5). split; [done|]. rw L5 Hdom !length_iter_set.
  split; [done|]. split; [done|]. unfold w_db in *. simpl in *. rw Hdb5. exact Hrow.
Qed.

(** It gives up only where a statement fails or the node does not answer. *)
Lemma setup_adopts queue w :
  (∀ s, pool_fault s = None ∧ stmt_fault s = None) →
  (∀ k, ∃ txs, get_raw_mempool_verbose k = Ok txs) → is_Some (setup queue w).1.1.
Proof.
  intros Hf Ha. unfold setup_mempool_snapshot, mbind, Svc_bind.
  assert ((call MempoolRepo.reconstruct_snapshot w).1
          = Ok (MempoolRepo.residency_since (reconstruct_cutoff w) (w_db w))) as Hr.
  { unfold call, MempoolRepo.reconstruct_snapshot, query, select, statement. simpl.
    rw (proj1 (Hf _)). simpl. by rw (proj2 (Hf _)). }
  destruct (call _ w) as [r w1]. simpl in Hr. subst r. unfold Backfill.ask.
  destruct (Ha (w_calls w1)) as [txs ->]. destruct (entry_rows _ _) as [rows w2].
  destruct (call _ w2) as [r w3]. destruct (queue_incomplete_backfills _ _ _) as [q w4].
  by destruct (seed_and_submit _ _ w4).
Qed.

Lemma fees_stored_inv live db db' :
  cluster_inv db → fees_stored live db db' → cluster_inv db' ∧ actives db' = actives db.
Proof.
  intros Hi [Hr Hk Hn _]. split; [|by rw Hr].
  apply (cluster_inv_txs db); [by rw Hr..| | |done].
  - intros t [old Hold]. destruct (Hk t old Hold) as (tx & Htx & _). by exists tx.
  - intros t tx id Htx Hid. destruct (db_txs db !! t) as [old|] eqn:Eo.
    + destruct (Hk t old Eo) as (tx' & Htx' & Hcase). rw Htx in Htx'. simplify_eq.
      exists old. split; [done|]. destruct Hcase as [->|(_ & fee & ->)]; done.
    + destruct (Hn t tx Htx Eo) as [_ Hnone]. congruence.
Qed.

(** The stage stores no cluster, block or delta. *)
Lemma setup_keeps queue w :
  cluster_inv (w_db w) →
  let w' := (setup queue w).2 in
  cluster_inv (w_db w') ∧ w_actives w' = w_actives w ∧
  db_deltas (w_db w') = db_deltas (w_db w) ∧ db_blocks (w_db w') = db_blocks (w_db w).
Proof.
  intros Hi. cbv zeta. pose proof (setup_spec queue w) as Hs.
  destruct (setup queue w) as [[[r|] queue'] w']; simpl.
  - destruct Hs as (_ & _ & txs & k & _ & _ & _ & [Hu|Hf]).
    + split_and!; [by eapply cluster_inv_untouched|by apply actives_untouched| |];
        by destruct Hu as (n & _ & ->).
    + destruct (fees_stored_inv _ _ _ Hi Hf) as [Hi' Ha].
      split_and!; [done|done| |]; by rw (fs_rest _ _ _ Hf).
  - destruct Hs as (_ & _ & _ & _ & Hd). unfold w_actives. by rw Hd.
Qed.

(** The mempool stage of a start-up.  Whatever fails, the clusters, the snapshot
    and the bus are left as they were and no delta row is written.  If it gives up, the
    ledger, the queue and the database are unchanged; if it completes, the ledger holds
    exactly the node's mempool, the reported counts are the two differences with what
    the database remembered, and unless the upsert failed every live transaction is
    stored with a fee, no stored row having changed in anything but a fee it lacked. *)
Theorem bootstrap_adopts_node_mempool queue w :
  cluster_inv (w_db w) →
  let '((r, queue'), w') := setup queue w in
  cluster_inv (w_db w') ∧ w_actives w' = w_actives w ∧ w_out w' = w_out w ∧
  db_deltas (w_db w') = db_deltas (w_db w) ∧
  match r with
  | None => w_ledger w' = w_ledger w ∧ queue' = queue ∧ w_db w' = w_db w
  | Some r =>
      ∃ txs, get_raw_mempool_verbose (w_calls w) = Ok txs ∧
        Ledger.live (w_ledger w') = node_mempool txs ∧
        txs_added r = size (node_mempool txs ∖ remembered w) ∧
        txs_removed r = size (remembered w ∖ node_mempool txs) ∧
        (untouched (w_db w) (w_db w') ∨ fees_stored (node_mempool txs) (w_db w) (w_db w'))
  end.
Proof.
  intros Hi. pose proof (setup_spec queue w) as Hs. pose proof (setup_keeps queue w Hi) as Hk.
  destruct (setup queue w) as [[[r|] queue'] w']; simpl in Hk;
    destruct Hk as (Hi' & Ha & Hd & _), Hs as (Ho & _ & Hs);
    (split; [done|]; split; [done|]; split; [done|]; split; [done|]).
  - destruct Hs as (txs & k & Hg & Hl & -> & Hrow). exists txs. by rw Hl.
  - exact Hs.
Qed.

(** The journal the stage leaves leads from what was remembered to the node's mempool. *)
Lemma setup_journal queue w r queue' w' txs :
  setup queue w = ((Some r, queue'), w') → get_raw_mempool_verbose (w_calls w) = Ok txs →
  Ledger.journal (w_ledger w) = [] → Ledger.degraded (w_ledger w) = false →
  Z.of_nat (txs_added r) + Z.of_nat (txs_removed r) ≤ Ledger.JOURNAL_CAP →
  (∀ k i, reconstruct_cutoff w ≤ clock k i) →
  Ledger.replay (remembered w) (Ledger.journal (w_ledger w')) = node_mempool txs ∧
  Forall (λ e, reconstruct_cutoff w ≤ Ledger.je_observed_at e) (Ledger.journal (w_ledger w')) ∧
  db_deltas (w_db w') = db_deltas (w_db w).
Proof.
  intros Es Hg Hj Hd Hfit Hclock. pose proof (setup_spec queue w) as Hs. rw Es in Hs.
  destruct Hs as (_ & _ & txs' & k & Hg' & Hl & -> & Hrow).
  assert (txs' = txs) as -> by congruence. clear Hg' Es. simpl in Hfit. rw Hl. split; [|split].
  - destruct (Ledger.submit_authoritative_logs (clock k) (node_mempool txs)
      (Ledger.seed (remembered w) (w_ledger w))) as [_ Hlogs].
    destruct Hlogs as (_ & es & He & _ & Hrep).
    { apply Ledger.submit_authoritative_undegraded; [done|]. simpl. rw Hj. simpl. lia. }
    rw He. simpl. rw Hj. exact Hrep.
  - apply (Ledger.submit_authoritative_observed (λ z, reconstruct_cutoff w ≤ z)); [done|].
    simpl. rw Hj. constructor.
  - destruct Hrow as [(n & _ & ->)|Hf]; [done|]. by rw (fs_rest _ _ _ Hf).
Qed.
End theorems.

(** ** The first flush after a restart *)

(** The residency read back from the rows depends on their transitions alone. *)
Definition move (s : gset string) (tr : Transition) : gset string :=
  match tr.1.2 with Add => {[tr.1.1]} ∪ s | Remove => s ∖ {[tr.1.1]} end.

Lemma residency_of_transitions cutoff db :
  MempoolRepo.residency_since cutoff db
  = foldl move ∅ (filter (λ tr : Transition, cutoff ≤ tr.2) (of_delta <$> db_deltas db)).
Proof.
  unfold MempoolRepo.residency_since. generalize (∅ : gset string).
  induction (db_deltas db) as [|d l IH]; intros s; [done|].
  rw fmap_cons !filter_cons. simpl. destruct (decide (cutoff ≤ md_created_at d)); [|apply IH].
  simpl. by rw IH.
Qed.

Lemma foldl_move_entries cutoff s es :
  Forall (λ e, cutoff ≤ Ledger.je_observed_at e) es →
  foldl move s (filter (λ tr : Transition, cutoff ≤ tr.2) (of_entry <$> es)) = Ledger.replay s es.
Proof.
  intros Hes. revert s. induction Hes as [|e es He _ IH]; intros s; [done|].
  rw fmap_cons filter_cons. simpl. by rw decide_True //= IH.
Qed.

Lemma flushed_residency `{EnumOrder} cutoff w w' :
  Forall (λ e, cutoff ≤ Ledger.je_observed_at e) (Ledger.journal (w_ledger w)) → flushed w w' →
  MempoolRepo.residency_since cutoff (w_db w')
  = Ledger.replay (MempoolRepo.residency_since cutoff (w_db w)) (Ledger.journal (w_ledger w)).
Proof.
  intros Hes Hf. rw !residency_of_transitions (fl_deltas _ _ Hf) filter_app foldl_app.
  by apply foldl_move_entries.
Qed.

Section restart.
Context `{EnumOrder, BitcoinUnits, Env}.
Context (get_raw_mempool_verbose : nat → result ObserverError (list MempoolEntrySummary)).
Context (get_mempool_cluster : nat → string → result ObserverError GetMempoolClusterModel).
Context (preempted : nat → bool).
Context (meanwhile : Ledger.Inner → Ledger.Inner).
Context (watchers_log : ∀ inner, Ledger.logs inner (meanwhile inner)).

(** C8.  Catching up after a restart: once the mempool stage has completed on a fresh
    ledger that never refused an entry, with a difference of at most the journal's 250,000
    entries and a clock that has not been set back past the start of the replay window, the pending journal leads from what the
    database remembers to the mempool the node reported; so a reconciler tick either
    writes nothing and keeps that journal, or makes the database remember exactly the
    node's mempool. *)
Theorem restart_catches_up fuel now gate queue queue' w w' r txs n2 :
  setup_mempool_snapshot get_raw_mempool_verbose queue w = ((Some r, queue'), w') →
  get_raw_mempool_verbose (w_calls w) = Ok txs →
  Ledger.journal (w_ledger w) = [] → Ledger.degraded (w_ledger w) = false →
  Z.of_nat (txs_added r) + Z.of_nat (txs_removed r) ≤ Ledger.JOURNAL_CAP →
  (∀ k i, reconstruct_cutoff w ≤ clock k i) →
  tick get_mempool_cluster preempted meanwhile fuel now (mkNode w' gate queue') = Some n2 →
  Ledger.replay (remembered w) (Ledger.journal (w_ledger w')) = node_mempool txs ∧
  (idled w' (n_world n2) ∨
   MempoolRepo.residency_since (reconstruct_cutoff w) (w_db (n_world n2)) = node_mempool txs).
Proof.
  intros Es Hg Hj Hd Hfit Hclock Ht.
  destruct (setup_journal _ queue w r queue' w' txs Es Hg Hj Hd Hfit Hclock) as (Hrep & Hobs & Hdel).
  split; [exact Hrep|]. revert Ht. unfold tick.
  destruct (Gate.try_begin_flush now _) as [[] gate'].
  - destruct (flush _ _ _ _ _) as [node1|] eqn:Ef; [|done]. intros [= <-].
    apply (flush_spec _ _ _ watchers_log) in Ef as (_ & _ & [[Hid _]|Hfl]); [by left|right].
    simpl in Hfl |- *. rw (flushed_residency _ _ _ Hobs Hfl) -Hrep. f_equal.
    unfold remembered. by rw !residency_of_transitions Hdel.
  - intros [= <-]. left. split; [done|exists []; by rw app_nil_r|done].
Qed.
End restart.

(** ** Witnesses *)

Definition demo_entry (t : string) : MempoolEntrySummary := mkMempoolEntrySummary t 150 100 400 1 1 0 0.

(** The node holds two transactions; the database remembers another one. *)
Definition demo_mempool (_ : nat) : result ObserverError (list MempoolEntrySummary) :=
  Ok [demo_entry "aa"; demo_entry "bb"].

Definition demo_world : World :=
  mkWorld (mkConn (set_deltas [mkMempoolDelta "cc" AddMempool 1700000000]
             (set_txs {["cc" := hollow 1700000000 "cc"]} empty_db)) 0 None)
    Ledger.default ∅ [] 0 [].

Definition demo_setup := @setup_mempool_snapshot stored_order calm_env demo_mempool
  (Backfill.new_queue 10) demo_world.

Lemma demo_world_inv : cluster_inv (w_db demo_world).
Proof.
  apply (cluster_inv_txs empty_db); [done..| | |apply cluster_inv_empty].
  - intros t [tx Ht]. by rw lookup_empty in Ht.
  - intros t tx id Ht Hid. change (({["cc" := hollow 1700000000 "cc"]} : gmap string Transaction) !! t = Some tx) in Ht.
    apply lookup_singleton_Some in Ht as [<- <-]. done.
Qed.

Lemma bootstrap_adopts_node_mempool_witness :
  cluster_inv (w_db demo_world) ∧ db_deltas (w_db demo_setup.2) = db_deltas (w_db demo_world).
Proof.
  split; [exact demo_world_inv|].
  pose proof (@bootstrap_adopts_node_mempool stored_order calm_env demo_mempool
    (Backfill.new_queue 10) demo_world demo_world_inv) as Ht.
  unfold demo_setup. destruct (setup_mempool_snapshot _ _ _) as [[r q] w'].
  exact (proj1 (proj2 (proj2 (proj2 Ht)))).
Defined.

Lemma restart_catches_up_witness :
  ∃ r queue' w', demo_setup = ((Some r, queue'), w') ∧
    Ledger.replay (@remembered calm_env demo_world) (Ledger.journal (w_ledger w'))
    = node_mempool [demo_entry "aa"; demo_entry "bb"].
Proof.
  destruct demo_setup as [[[r|] queue'] w'] eqn:Es.
  2:{ exfalso. apply (f_equal (λ p, match p.1.1 with Some _ => true | None => false end)) in Es.
      revert Es. vm_compute. discriminate. }
  exists r, queue', w'. split; [reflexivity|].
  assert (txs_added r + txs_removed r = 3)%nat as Hr.
  { apply (f_equal (λ p, match p.1.1 with
      | Some r => (txs_added r + txs_removed r)%nat | None => 0%nat end)) in Es.
    revert Es. vm_compute. intros <-. reflexivity. }
  destruct (@tick stored_order ceil_units calm_env (λ _, demo_group) (λ _, true) (λ inner, inner)
    5 0 (mkNode w' (Gate.shut 0 Gate.new_gate) queue')) as [n2|] eqn:Et.
  2:{ exfalso. revert Et. unfold tick. vm_compute. discriminate. }
  apply (@restart_catches_up stored_order ceil_units calm_env demo_mempool (λ _, demo_group)
    (λ _, true) (λ inner, inner) Ledger.logs_refl 5 0 (Gate.shut 0 Gate.new_gate)
    (Backfill.new_queue 10) queue' demo_world w' r _ n2 Es); try reflexivity.
  - unfold Ledger.JOURNAL_CAP. lia.
  - intros k i. unfold reconstruct_cutoff, MempoolRepo.SNAPSHOT_REPLAY_WINDOW. simpl. lia.
  - exact Et.
Defined.

End Bootstrap.
