(* ===== verification/Lifecycle.v ===== *)
(** * Shutdown

    [api/src/infra/lifecycle.rs] and the apply lock of [api/src/services/block.rs]: on a
    signal the server records that it stopped, then takes the lock every block is applied
    under and never gives it back.  The lock is a [tokio] mutex, which serves its waiters
    in the order they asked; callers of [apply_block] and the shutdown interleave as a step
    relation.  Instants are in milliseconds. *)

From S2P Require Import Prelude.
From S2P Require Import Models.
From S2P Require Import Database.
From S2P Require Import SystemEvents.

Open Scope Z_scope.

Module Lifecycle.
Import Database SystemEvents.

(** ** The events recorded *)

Inductive ShutdownSignal := Term | Int.

Definition name (signal : ShutdownSignal) : string :=
  match signal with Term => "SIGTERM" | Int => "SIGINT" end.

(** [bind] is the field of the configuration, [git_sha] the one baked in at build time. *)
Definition server_started_details (git_sha bind : string) : Value :=
  [("git_sha", Str git_sha); ("bind", Str bind)].

(** [uptime.as_secs()] of a duration in milliseconds *)
Definition server_stopped_details (signal : ShutdownSignal) (uptime : Z) : Value :=
  [("signal", Str (name signal)); ("uptime_secs", Number (uptime / 1000))].

Section events.
Context `{Env}.

Definition record_server_started (git_sha bind : string) : LogM unit :=
  record ServerStarted (server_started_details git_sha bind).

(** [start] and [now] are readings of the monotonic clock. *)
Definition record_server_stopped (start now : Z) (signal : ShutdownSignal) : LogM unit :=
  record ServerStopped (server_stopped_details signal (now - start)).
End events.

(** ** Draining the block in flight *)

Inductive BlockDrain := Idle | Waited | TimedOut.
#[global] Instance BlockDrain_eq_dec : EqDecision BlockDrain.
Proof. solve_decision. Defined.

Definition BlockDrain_ALL : list BlockDrain := [Idle; Waited; TimedOut].

Definition label (d : BlockDrain) : string :=
  match d with Idle => "idle" | Waited => "waited" | TimedOut => "timed_out" end.

Definition BLOCK_APPLY_DRAIN_TIMEOUT : Z := 280000.

(** Who asks for the apply lock: a call of [apply_block], or the shutdown. *)
Inductive Client := Applying (call : nat) | Stopping.
#[global] Instance Client_eq_dec : EqDecision Client.
Proof. solve_decision. Defined.

(** The mutex: who holds it, and who waits for it, first come first served. *)
Record Lock := mkLock {
  holder : option Client;
  waiters : list Client;
}.

Definition free : Lock := mkLock None [].

(** [lock().await]: taken at once when free, queued otherwise. *)
Definition lock (c : Client) (l : Lock) : Lock :=
  match holder l with
  | None => mkLock (Some c) (waiters l)
  | Some _ => mkLock (holder l) (waiters l ++ [c])
  end.

(** [try_lock] *)
Definition try_lock (c : Client) (l : Lock) : option Lock :=
  match holder l with
  | None => Some (mkLock (Some c) (waiters l))
  | Some _ => None
  end.

(** A dropped guard hands the lock to whoever waits longest. *)
Definition unlock (l : Lock) : Lock :=
  match waiters l with
  | [] => mkLock None []
  | c :: cs => mkLock (Some c) cs
  end.

(** A waiter that gives up, as the [timeout] around [stop_applying] makes it. *)
Definition leave_queue (c : Client) (l : Lock) : Lock :=
  mkLock (holder l) (filter (λ c', c' ≠ c) (waiters l)).

(** Where the shutdown is: before the signal; [try_stop_applying] has failed; waiting until
    the deadline; returned. *)
Inductive ShutdownPc := Serving | Tried | Draining (deadline : Z) | Drained (d : BlockDrain).
#[global] Instance ShutdownPc_eq_dec : EqDecision ShutdownPc.
Proof. solve_decision. Defined.

(** [asked] and [entered] list the calls of [apply_block] made and those that got the lock. *)
Record Sys := mkSys {
  now : Z;
  apply_lock : Lock;
  pc : ShutdownPc;
  asked : list nat;
  entered : list nat;
}.

Definition boot (t : Z) : Sys := mkSys t free Serving [] [].

(** A call that holds the lock from now on has entered. *)
Definition enter (l : Lock) (entered : list nat) : list nat :=
  match holder l with Some (Applying call) => entered ++ [call] | _ => entered end.

(** When the lock is handed to the shutdown, its wait is over. *)
Definition granted (l : Lock) (p : ShutdownPc) : ShutdownPc :=
  if decide (holder l = Some Stopping) then Drained Waited else p.

Inductive step : Sys → Sys → Prop :=
| step_time t t' l p ask ent : t ≤ t' → step (mkSys t l p ask ent) (mkSys t' l p ask ent)
| step_apply call t l p ask ent :
    step (mkSys t l p ask ent)
         (mkSys t (lock (Applying call) l) p (ask ++ [call])
            (if decide (holder l = None) then ent ++ [call] else ent))
| step_applied call t l p ask ent :
    holder l = Some (Applying call) →
    step (mkSys t l p ask ent)
         (mkSys t (unlock l) (granted (unlock l) p) ask (enter (unlock l) ent))
| step_idle t l l' ask ent :
    try_lock Stopping l = Some l' →
    step (mkSys t l Serving ask ent) (mkSys t l' (Drained Idle) ask ent)
| step_busy t l ask ent :
    try_lock Stopping l = None →
    step (mkSys t l Serving ask ent) (mkSys t l Tried ask ent)
| step_stop t l ask ent :
    step (mkSys t l Tried ask ent)
         (mkSys t (lock Stopping l)
            (granted (lock Stopping l) (Draining (t + BLOCK_APPLY_DRAIN_TIMEOUT))) ask ent)
| step_timeout t deadline l ask ent :
    deadline ≤ t →
    step (mkSys t l (Draining deadline) ask ent)
         (mkSys t (leave_queue Stopping l) (Drained TimedOut) ask ent).

(** The call being applied. *)
Definition in_flight (s : Sys) : option nat :=
  match holder (apply_lock s) with Some (Applying call) => Some call | _ => None end.

(** ** Invariant *)

Definition call_of (c : Client) : option nat :=
  match c with Applying call => Some call | Stopping => None end.

(** The calls that wait, and those among them served before the shutdown. *)
Definition waiting (l : Lock) : list nat := omap call_of (waiters l).

Fixpoint served_first (cs : list Client) : list nat :=
  match cs with
  | [] | Stopping :: _ => []
  | Applying call :: cs => call :: served_first cs
  end.

Record ok (s : Sys) : Prop := {
  ok_free : holder (apply_lock s) = None → waiters (apply_lock s) = [];
  ok_order : asked s = entered s ++ waiting (apply_lock s);
  ok_stop : match pc s with
            | Serving | Tried | Drained TimedOut =>
                holder (apply_lock s) ≠ Some Stopping ∧ Stopping ∉ waiters (apply_lock s)
            | Draining _ =>
                (∃ call, holder (apply_lock s) = Some (Applying call)) ∧
                ∃ ahead behind, waiters (apply_lock s) = ahead ++ Stopping :: behind ∧
                               (Stopping ∉ ahead) ∧ (Stopping ∉ behind)
            | Drained _ =>
                holder (apply_lock s) = Some Stopping ∧ Stopping ∉ waiters (apply_lock s)
            end;
}.

Lemma lock_ok_boot t : ok (boot t).
Proof. split; [done|done|]. simpl. split; [done|]. by apply not_elem_of_nil. Qed.

Lemma waiting_leave_queue l : waiting (leave_queue Stopping l) = waiting l.
Proof.
  unfold waiting, leave_queue. cbn [waiters]. induction (waiters l) as [|[call|] cs IH]; [done| |].
  - rw filter_cons_True // !omap_cons IH. done.
  - rw filter_cons_False; [exact IH|naive_solver].
Qed.

Lemma not_stopping_app cs call : Stopping ∉ cs → Stopping ∉ cs ++ [Applying call].
Proof. set_solver. Qed.

(** A call asks for the lock: it enters when nobody is there, else it waits last. *)
Lemma lock_ok call t l p ask ent :
  ok (mkSys t l p ask ent) →
  ok (mkSys t (lock (Applying call) l) p (ask ++ [call])
        (if decide (holder l = None) then ent ++ [call] else ent)).
Proof.
  intros [Hf Ho Hp]. destruct l as [[h|] cs]; simpl in *.
  - split; simpl; [done|by rw Ho /waiting omap_app app_assoc|].
    destruct p as [| |d|[]]; simpl in *; try (split; [apply Hp|by apply not_stopping_app; apply Hp]).
    destruct Hp as [Hc (ahead & behind & -> & H1 & H2)]. split; [done|].
    exists ahead, (behind ++ [Applying call]). rw -!app_assoc. split_and!; [done..|].
    by apply not_stopping_app.
  - specialize (Hf eq_refl) as ->. rw Ho app_nil_r. split; simpl; [done|by rw app_nil_r|].
    destruct p as [| |d|[]]; naive_solver.
Qed.

(** A block is done: whoever waits longest is next. *)
Lemma unlock_ok call t l p ask ent :
  holder l = Some (Applying call) → ok (mkSys t l p ask ent) →
  ok (mkSys t (unlock l) (granted (unlock l) p) ask (enter (unlock l) ent)).
Proof.
  intros Hh [Hf Ho Hp]. destruct l as [h cs]; simpl in *. subst h.
  destruct cs as [|[next|] cs]; unfold waiting in Ho; simpl in *.
  - split; simpl; [done|done|]. unfold granted. case_decide as E; [done|]. clear E.
    destruct p as [| |d|[]]; simpl in *; try naive_solver.
    by destruct Hp as [_ ([] & behind & Heq & _)].
  - split; simpl; [done|by rw Ho -app_assoc|]. unfold granted. case_decide; [done|].
    destruct p as [| |d|[]]; simpl in *; try set_solver.
    destruct Hp as [_ ([|c ahead] & behind & Heq & H1 & H2)]; [done|].
    injection Heq as <- ->. split; [by eexists|]. exists ahead, behind. set_solver.
  - split; simpl; [done|done|].
    destruct p as [| |d|[]]; simpl in *; try (exfalso; set_solver).
    destruct Hp as [_ ([|c ahead] & behind & Heq & H1 & H2)]; [by injection Heq as ->|].
    exfalso. set_solver.
Qed.

Lemma lock_step_ok s s' : step s s' → ok s → ok s'.
Proof.
  intros Hs Hok. destruct Hs as [t t' l p ask ent Ht|call t l p ask ent
    |call t l p ask ent Hh|t l l' ask ent Hl|t l ask ent Hl|t l ask ent|t d l ask ent Hd].
  - by destruct Hok.
  - by apply lock_ok.
  - by eapply unlock_ok.
  - destruct Hok as [Hf Ho [Hp1 Hp2]], l as [[h|] cs]; simpl in *; [done|].
    injection Hl as <-. by split.
  - by destruct Hok.
  - destruct Hok as [Hf Ho [Hp1 Hp2]], l as [[[call|]|] cs]; simpl in *; [|done|].
    + split; simpl; [done| |]; unfold granted; simpl.
      * by rw Ho /waiting omap_app app_nil_r.
      * split; [by eexists|]. exists cs, []. set_solver.
    + specialize (Hf eq_refl) as ->. split; simpl; [done|done|set_solver].
  - destruct Hok as [Hf Ho ([call Hc] & _)]. split; simpl in *; [by rw Hc|by rw waiting_leave_queue|].
    rw Hc. split; [done|]. rw list_elem_of_filter. naive_solver.
Qed.

Lemma lock_reachable_ok t s : rtc step (boot t) s → ok s.
Proof.
  intros Hr. pose proof (lock_ok_boot t) as Hok. induction Hr as [|s1 s2 s3 Hs _ IH]; [done|].
  apply IH. by eapply lock_step_ok.
Qed.

(** ** What follows the signal *)

Definition stopped (s : Sys) : Prop := pc s = Drained Idle ∨ pc s = Drained Waited.

Lemma stopped_step s s' :
  ok s → stopped s → step s s' → pc s' = pc s ∧ entered s' = entered s.
Proof.
  intros [_ _ Hp] Hst Hs. assert (holder (apply_lock s) = Some Stopping) as Hh
    by (by destruct Hst as [E|E]; rw E in Hp; apply Hp).
  destruct Hs; simpl in *; try done; try by destruct Hst.
  - split; [done|]. by rw Hh.
  - congruence.
Qed.

Lemma stopped_forever s s' :
  ok s → stopped s → rtc step s s' → pc s' = pc s ∧ entered s' = entered s ∧ in_flight s' = None.
Proof.
  intros Hok Hst Hr. induction Hr as [s|s1 s2 s3 Hs _ IH].
  - split_and!; [done..|]. destruct Hok as [_ _ Hp]. unfold in_flight.
    destruct Hst as [E|E]; rw E in Hp; by rw (proj1 Hp).
  - pose proof (stopped_step _ _ Hok Hst Hs) as [Hp He].
    destruct IH as (Hp' & He' & Hf); [by eapply lock_step_ok|unfold stopped; by rw Hp|].
    split_and!; [congruence|congruence|done].
Qed.

(** The calls that enter before the shutdown gets the lock. *)
Definition ahead_of_stop (s : Sys) : list nat :=
  entered s ++ served_first (waiters (apply_lock s)).

Lemma served_first_snoc cs c : Stopping ∈ cs → served_first (cs ++ [c]) = served_first cs.
Proof.
  induction cs as [|[call|] cs IH]; intros Hin; [by apply not_elem_of_nil in Hin| |done].
  simpl. rw IH //. by apply elem_of_cons in Hin as [?|?].
Qed.

Lemma draining_step s s' deadline :
  ok s → pc s = Draining deadline → step s s' →
  pc s' = Draining deadline ∧ ahead_of_stop s' = ahead_of_stop s ∨
  pc s' = Drained Waited ∧ entered s' = ahead_of_stop s ∨
  pc s' = Drained TimedOut ∧ deadline ≤ now s'.
Proof.
  intros [_ _ Hp] Hd Hs. rw Hd in Hp. destruct Hp as [[c0 Hc] (ahead & behind & Hw & Ha & Hb)].
  assert (Stopping ∈ waiters (apply_lock s)) as Hin by (rw Hw; set_solver).
  unfold ahead_of_stop. destruct Hs as [t t' l p ask ent Ht|call t l p ask ent
    |call t l p ask ent Hh| | | |t d l ask ent Hle]; simpl in *; try done; subst.
  - by left.
  - left. split; [done|]. unfold lock. rw Hc /= served_first_snoc //.
  - unfold unlock, granted. destruct l as [h cs]. simpl in *. subst cs.
    destruct ahead as [|[next|] ahead]; simpl in *.
    + right; left. by rw app_nil_r.
    + left. by rw -app_assoc.
    + set_solver.
  - right; right. by simplify_eq.
Qed.

Lemma timed_out_forever s s' :
  ok s → pc s = Drained TimedOut → rtc step s s' → pc s' = Drained TimedOut.
Proof.
  intros Hok Ht Hr. revert Hok Ht. induction Hr as [|s2 s3 s4 Hs _ IH]; intros Hok Ht; [done|].
  apply IH; [by eapply lock_step_ok|]. destruct Hs; simpl in *; try done.
  destruct Hok as [_ _ Hp]; simpl in *. subst p. destruct Hp as [_ Hp]. unfold granted, unlock.
  destruct (waiters l) as [|c cs]; [done|]. cbn [holder]. case_decide as E; [|done].
  injection E as ->. set_solver.
Qed.

Lemma draining_until s s' deadline :
  ok s → pc s = Draining deadline → rtc step s s' → pc s' = Drained Waited →
  entered s' = ahead_of_stop s.
Proof.
  intros Hok Hd Hr. revert Hok Hd. induction Hr as [s|s1 s2 s3 Hs Hr IH]; intros Hok Hd Hw.
  { congruence. }
  pose proof (lock_step_ok _ _ Hs Hok) as Hok2.
  destruct (draining_step _ _ _ Hok Hd Hs) as [[Hd2 <-]|[[Hw2 <-]|[Ht2 _]]].
  - by apply IH.
  - by apply (stopped_forever s2 s3 Hok2); [right|].
  - by rw (timed_out_forever s2 s3) in Hw.
Qed.

(** Blocks that finish get the shutdown its turn. *)
Lemma draining_can_finish s deadline :
  ok s → pc s = Draining deadline → ∃ s', rtc step s s' ∧ pc s' = Drained Waited.
Proof.
  intros Hok Hd. pose proof Hok as [_ _ Hp]. rw Hd in Hp.
  destruct Hp as [[call Hc] (ahead & behind & Hw & Ha & Hb)].
  revert s call Hok Hd Hc Hw Ha.
  induction ahead as [|c ahead IH]; intros [t l p ask ent] call Hok Hd Hc Hw Ha; simpl in *; subst p.
  - eexists. split; [by apply rtc_once, (step_applied call)|]. unfold unlock. by rw Hw.
  - destruct c as [next|]; [|set_solver].
    pose proof (step_applied call t l (Draining deadline) ask ent Hc) as Hs.
    destruct (IH _ next (lock_step_ok _ _ Hs Hok)) as (s' & Hr & Hs');
      [|by rw /= /unlock Hw..|set_solver|].
    { unfold unlock. by rw Hw. }
    exists s'. split; [by eapply rtc_l|done].
Qed.

(** C22.  Shutting down and applying blocks: blocks enter in the order they were asked for.
    Once the drain has returned [Idle] or [Waited] no block is being applied and none ever
    starts again, whatever is still asked for; while it waits, some block is in flight, the
    blocks that still enter are exactly those asked for before it, and it can always finish.
    Only past the deadline does it return [TimedOut]. *)
Theorem drain_stops_blocks t s :
  rtc step (boot t) s →
  asked s = entered s ++ waiting (apply_lock s) ∧
  match pc s with
  | Drained Idle | Drained Waited =>
      ∀ s', rtc step s s' → pc s' = pc s ∧ entered s' = entered s ∧ in_flight s' = None
  | Draining deadline =>
      in_flight s ≠ None ∧ (∃ s', rtc step s s' ∧ pc s' = Drained Waited) ∧
      (∀ s', rtc step s s' → pc s' = Drained Waited → entered s' = ahead_of_stop s) ∧
      (∀ s', step s s' → pc s' = Drained TimedOut → deadline ≤ now s')
  | Serving | Tried | Drained TimedOut => True
  end.
Proof.
  intros Hr. pose proof (lock_reachable_ok _ _ Hr) as Hok. split; [apply Hok|].
  destruct (pc s) as [| |deadline|[]] eqn:Ep; try done.
  - split_and!.
    + destruct Hok as [_ _ Hp]. rw Ep in Hp. destruct Hp as [[call Hc] _]. unfold in_flight. by rw Hc.
    + by eapply draining_can_finish.
    + intros s' Hs'. by eapply draining_until.
    + intros s' Hs' Ht. destruct (draining_step _ _ _ Hok Ep Hs') as [[? _]|[[? _]|[_ ?]]]; [congruence..|done].
  - intros s' Hs'. rw -Ep. apply stopped_forever; [done|by left|done].
  - intros s' Hs'. rw -Ep. apply stopped_forever; [done|by right|done].
Qed.

(** ** Witness *)

(** A signal while one block is in flight and another waits; a third is asked for later. *)
Definition drained : Sys :=
  mkSys 0 (mkLock (Some Stopping) [Applying 3]) (Drained Waited) [1; 2; 3]%nat [1; 2]%nat.

Lemma drained_reached : rtc step (boot 0) drained.
Proof.
  eapply rtc_l; [apply (step_apply 1)|]. eapply rtc_l; [apply (step_apply 2)|].
  eapply rtc_l; [by apply step_busy|]. eapply rtc_l; [apply step_stop|].
  eapply rtc_l; [apply (step_apply 3)|]. eapply rtc_l; [by apply (step_applied 1)|].
  eapply rtc_l; [by apply (step_applied 2)|]. apply rtc_refl.
Qed.

Lemma drain_stops_blocks_witness :
  rtc step (boot 0) drained ∧
  ∀ s', rtc step drained s' →
    pc s' = Drained Waited ∧ entered s' = [1; 2]%nat ∧ in_flight s' = None.
Proof.
  split; [exact drained_reached|].
  exact (proj2 (drain_stops_blocks 0 drained drained_reached)).
Defined.

End Lifecycle.
