(* ===== verification/Shutdown.v ===== *)
(** * The shutdown sequence

    The [shutdown] future of [run] in [api/src/main.rs], with [wait_for_shutdown_signal],
    [stop_applying_blocks], [drain_tx_backfill_consumer] and [drain_mempool_reconciler] of
    [api/src/infra/lifecycle.rs], as a function of when things happen around it: when the
    signals arrive, when the apply lock would be handed over, when the background tasks
    return after they are told to.  [Lifecycle] has the same drain step by step, against
    every interleaving of the calls that apply blocks, and [Consumer] what the consumer does
    once it is told; here the subject is order and time.  Instants and durations are in
    milliseconds. *)

From S2P Require Import Prelude.
From S2P Require Import Lifecycle.

Open Scope Z_scope.

Module Shutdown.
Import Lifecycle.

Definition DRAIN_OUTCOME_SCRAPE_WAIT : Z := 6000.
Definition TX_INPUT_DRAIN_TIMEOUT : Z := 10000.
Definition MEMPOOL_RECONCILER_DRAIN_TIMEOUT : Z := 5000.

(** The instant something happens; [None] when it never does. *)
Definition Moment : Type := option Z.

(** [wait_for_shutdown_signal]: the first of the two signals.  When both are there,
    [select!] picks either, which is [term_first]. *)
Definition wait_for_shutdown_signal (term int : Moment) (term_first : bool) :
    option (ShutdownSignal * Z) :=
  match term, int with
  | Some t, Some i =>
      if bool_decide (t < i) || bool_decide (t = i) && term_first then Some (Term, t)
      else Some (Int, i)
  | Some t, None => Some (Term, t)
  | None, Some i => Some (Int, i)
  | None, None => None
  end.

(** [tokio::time::timeout] around a future that completes at [done]: whether it did in time,
    and when the wait ended.  A future that is ready is looked at before the deadline. *)
Definition timeout (now limit : Z) (done : Moment) : bool * Z :=
  match done with
  | Some t => if bool_decide (t ≤ now + limit) then (true, Z.max now t) else (false, now + limit)
  | None => (false, now + limit)
  end.

(** The apply lock when the shutdown asks for it: free, or in use until it is handed over. *)
Inductive ApplyLock := LockFree | HandedOver (when : Moment).

(** [stop_applying_blocks] *)
Definition stop_applying_blocks (now limit : Z) (lock : ApplyLock) : BlockDrain * Z :=
  match lock with
  | LockFree => (Idle, now)
  | HandedOver when =>
      let '(granted, later) := timeout now limit when in
      (if granted then Waited else TimedOut, later)
  end.

(** A background task as the shutdown sees it: its handle arrives on a channel once the
    server has started, unless the starting task died and dropped the sender; the task itself
    returns some time after it is notified. *)
Inductive Background :=
| Started (handle_at : Z) (returns : Z → Moment)
| NeverStarted (dropped_at : Moment).

(** The future [handle.await.ok()?; task.await.ok()], for a task notified at [now]. *)
Definition drained_at (now : Z) (b : Background) : Moment :=
  match b with
  | Started handle_at returns => Z.max handle_at <$> returns now
  | NeverStarted dropped_at => dropped_at
  end.

(** [drain_tx_backfill_consumer] and [drain_mempool_reconciler] *)
Definition drain_tx_backfill_consumer (now limit : Z) (b : Background) : bool * Z :=
  timeout now limit (drained_at now b).
Definition drain_mempool_reconciler (now limit : Z) (b : Background) : bool * Z :=
  timeout now limit (drained_at now b).

(** What happened, in the order it did. *)
Record Trace := mkTrace {
  tr_signalled_at : Z;
  tr_recorded_at : Z;
  tr_block_drain : BlockDrain;
  tr_block_drained_at : Z;
  tr_consumer_drained : bool;
  tr_consumer_at : Z;
  tr_reconciler_drained : bool;
  tr_reconciler_at : Z;
  tr_returned_at : Z;
}.

(** The [shutdown] future from the signal on.  [recording] is what storing the event took. *)
Definition shutdown (signalled_at recording : Z) (lock : Z → ApplyLock)
    (consumer reconciler : Background) : Trace :=
  let recorded_at := signalled_at + recording in
  let '(block_drain, block_drained_at) :=
    stop_applying_blocks recorded_at BLOCK_APPLY_DRAIN_TIMEOUT (lock recorded_at) in
  let '(consumer_drained, consumer_at) :=
    drain_tx_backfill_consumer block_drained_at TX_INPUT_DRAIN_TIMEOUT consumer in
  let '(reconciler_drained, reconciler_at) :=
    drain_mempool_reconciler consumer_at MEMPOOL_RECONCILER_DRAIN_TIMEOUT reconciler in
  let returned_at :=
    if bool_decide (block_drain ≠ Idle) then
      reconciler_at + Z.max 0 (DRAIN_OUTCOME_SCRAPE_WAIT - (reconciler_at - block_drained_at))
    else reconciler_at in
  mkTrace signalled_at recorded_at block_drain block_drained_at consumer_drained consumer_at
    reconciler_drained reconciler_at returned_at.

(** ** Facts *)

(** A future completes within a limit. *)
Definition within (now limit : Z) (done : Moment) : Prop := ∃ t, done = Some t ∧ t ≤ now + limit.

Lemma timeout_spec now limit done :
  0 ≤ limit →
  let '(in_time, later) := timeout now limit done in
  now ≤ later ≤ now + limit ∧ (in_time = true ↔ within now limit done).
Proof.
  intros Hl. unfold timeout, within. destruct done as [t|]; [case_bool_decide|];
    (split; [lia|]); naive_solver.
Qed.

Lemma stop_applying_spec now limit lock :
  0 ≤ limit →
  let '(drain, later) := stop_applying_blocks now limit lock in
  now ≤ later ≤ now + limit ∧
  (drain = Idle ↔ lock = LockFree) ∧
  (drain = Waited ↔ ∃ when, lock = HandedOver when ∧ within now limit when) ∧
  (drain = Idle → later = now).
Proof.
  intros Hl. destruct lock as [|when]; simpl.
  - split; [lia|]. naive_solver.
  - pose proof (timeout_spec now limit when Hl) as Ht. destruct (timeout now limit when) as [[] later];
      destruct Ht as [Hb Hw]; (split; [done|]); naive_solver.
Qed.

(** The constants of the longest shutdown, and the grace period the container gives it. *)
Definition LONGEST_SHUTDOWN : Z :=
  BLOCK_APPLY_DRAIN_TIMEOUT + TX_INPUT_DRAIN_TIMEOUT + MEMPOOL_RECONCILER_DRAIN_TIMEOUT.
(** [stop_grace_period] of [compose.yml] *)
Definition STOP_GRACE_PERIOD : Z := 300000.

(** C23.  Whatever the block in flight, the consumer and the reconciler do, the shutdown goes
    through its stages in order and returns within 295 seconds of recording the event, less
    than the container's grace period.  A drain says [Idle] exactly when no block was in
    flight and [Waited] exactly when the lock was handed over in time; a background task
    counts as drained exactly when it returned within its limit of being notified, which
    happens when the stage before it is over.  When a block was in flight its outcome stays
    readable for at least six seconds, and otherwise nothing waits for that. *)
Theorem shutdown_is_bounded signalled_at recording lock consumer reconciler :
  0 ≤ recording →
  let t := shutdown signalled_at recording lock consumer reconciler in
  tr_signalled_at t ≤ tr_recorded_at t ≤ tr_block_drained_at t ∧
  tr_block_drained_at t ≤ tr_consumer_at t ≤ tr_reconciler_at t ∧
  tr_reconciler_at t ≤ tr_returned_at t ≤ tr_recorded_at t + LONGEST_SHUTDOWN ∧
  LONGEST_SHUTDOWN < STOP_GRACE_PERIOD ∧
  (tr_block_drain t = Idle ↔ lock (tr_recorded_at t) = LockFree) ∧
  (tr_block_drain t = Waited ↔ ∃ when, lock (tr_recorded_at t) = HandedOver when ∧
     within (tr_recorded_at t) BLOCK_APPLY_DRAIN_TIMEOUT when) ∧
  (tr_consumer_drained t = true ↔ within (tr_block_drained_at t) TX_INPUT_DRAIN_TIMEOUT
     (drained_at (tr_block_drained_at t) consumer)) ∧
  (tr_reconciler_drained t = true ↔ within (tr_consumer_at t) MEMPOOL_RECONCILER_DRAIN_TIMEOUT
     (drained_at (tr_consumer_at t) reconciler)) ∧
  (tr_block_drain t ≠ Idle →
     DRAIN_OUTCOME_SCRAPE_WAIT ≤ tr_returned_at t - tr_block_drained_at t) ∧
  (tr_block_drain t = Idle → tr_returned_at t = tr_reconciler_at t).
Proof.
  intros Hrec. unfold shutdown, drain_tx_backfill_consumer, drain_mempool_reconciler.
  pose proof (stop_applying_spec (signalled_at + recording) BLOCK_APPLY_DRAIN_TIMEOUT
    (lock (signalled_at + recording)) ltac:(done)) as Hs.
  destruct (stop_applying_blocks _ _ _) as [drain t1]. destruct Hs as (Hb & Hi & Hw & _).
  pose proof (timeout_spec t1 TX_INPUT_DRAIN_TIMEOUT (drained_at t1 consumer) ltac:(done)) as Hc.
  destruct (timeout t1 _ _) as [cd t2]. destruct Hc as [Hcb Hcw].
  pose proof (timeout_spec t2 MEMPOOL_RECONCILER_DRAIN_TIMEOUT (drained_at t2 reconciler) ltac:(done))
    as Hr.
  destruct (timeout t2 _ _) as [rd t3]. destruct Hr as [Hrb Hrw]. cbn.
  unfold LONGEST_SHUTDOWN, STOP_GRACE_PERIOD, DRAIN_OUTCOME_SCRAPE_WAIT, BLOCK_APPLY_DRAIN_TIMEOUT,
    TX_INPUT_DRAIN_TIMEOUT, MEMPOOL_RECONCILER_DRAIN_TIMEOUT in *.
  split_and!; try done; try lia; case_bool_decide; try lia; try done.
Qed.

(** The first signal wins. *)
Lemma first_signal_wins term int first signal t :
  wait_for_shutdown_signal term int first = Some (signal, t) →
  (match signal with Term => term | Int => int end = Some t) ∧
  (∀ t', term = Some t' ∨ int = Some t' → t ≤ t').
Proof.
  unfold wait_for_shutdown_signal. destruct term as [a|], int as [b|]; intros Hw; [|naive_solver..].
  destruct (bool_decide (a < b)) eqn:E1; [|destruct (bool_decide (a = b) && first) eqn:E2];
    simpl in Hw; injection Hw as <- <-; (split; [done|]); intros t' [[= <-]|[= <-]]; try lia.
  - apply bool_decide_eq_true in E1. lia.
  - apply andb_true_iff in E2 as [E2%bool_decide_eq_true _]. lia.
  - apply bool_decide_eq_false in E1. lia.
Qed.

(** ** Witness *)

(** A block in flight that lands after four seconds, a consumer that needs one more, and a
    reconciler that is stuck. *)
Definition sample_trace : Trace :=
  shutdown 0 20 (λ now, HandedOver (Some (now + 4000)))
    (Started (-50000) (λ now, Some (now + 1000))) (Started (-50000) (λ _, None)).

Example sample_trace_eq :
  sample_trace = mkTrace 0 20 Waited 4020 true 5020 false 10020 10020.
Proof. reflexivity. Qed.

Lemma shutdown_is_bounded_witness :
  0 ≤ 20 ∧ tr_returned_at sample_trace ≤ tr_recorded_at sample_trace + LONGEST_SHUTDOWN.
Proof.
  split; [lia|].
  apply (shutdown_is_bounded 0 20 (λ now, HandedOver (Some (now + 4000)))
    (Started (-50000) (λ now, Some (now + 1000))) (Started (-50000) (λ _, None))). lia.
Defined.
End Shutdown.
