(* ===== verification/Metrics.v ===== *)
(** * Metrics

    [shared/src/metrics.rs], [api/src/infra/metrics.rs], the instrumentation of
    [api/src/db/instrument.rs], [observer/src/clients/rpc_client.rs] and [PubSub::sample].
    The recorder of the [metrics] crate is process-wide state: counters are created by their
    first increment, gauges by their first value, a histogram collects samples until the
    upkeep drains them, and without a recorder nothing is kept.  Code that measures runs on
    its own state beside a [Meter], the recorder and the readings taken of the monotonic
    clock, in nanoseconds. *)

From S2P Require Import Prelude.
From S2P Require Import Models.
From S2P Require Import Config.
From S2P Require Import Database.
From S2P Require Import PubSub.
From S2P Require Import Retrievers.
From S2P Require Import Blocks.
From S2P Require Import Lifecycle.

Open Scope Z_scope.

Module Metrics.
Import Database.

(** ** The recorder *)

(** A series: the name of the metric and its labels. *)
Definition Key : Type := string * list (string * string).

Record Registry := mkRegistry {
  counters : gmap Key Z;
  gauges : gmap Key Z;
  samples : gmap Key (list Z);
  undrained : nat;
}.
Definition empty_registry : Registry := mkRegistry ∅ ∅ ∅ 0.

(** The recorder, when one is installed, and whether [run_upkeep] runs. *)
Record Metrics := mkMetrics {
  recorder : option Registry;
  upkeep : bool;
}.
Definition no_metrics : Metrics := mkMetrics None false.

Definition on_recorder (f : Registry → Registry) (m : Metrics) : Metrics :=
  mkMetrics (f <$> recorder m) (upkeep m).

(** [counter!(key).increment(n)]: an atomic addition on 64 bits. *)
Definition increment (key : Key) (n : Z) (r : Registry) : Registry :=
  mkRegistry (<[key := to_u64 (default 0 (counters r !! key) + n)]> (counters r))
    (gauges r) (samples r) (undrained r).

(** [gauge!(key).set(v)]; the values set here are counts. *)
Definition set_gauge (key : Key) (v : Z) (r : Registry) : Registry :=
  mkRegistry (counters r) (<[key := v]> (gauges r)) (samples r) (undrained r).

(** [histogram!(key).record(v)] *)
Definition record_sample (key : Key) (v : Z) (r : Registry) : Registry :=
  mkRegistry (counters r) (gauges r) (<[key := default [] (samples r !! key) ++ [v]]> (samples r))
    (S (undrained r)).

(** [PrometheusHandle::run_upkeep] *)
Definition drain (r : Registry) : Registry :=
  mkRegistry (counters r) (gauges r) (samples r) 0.

(** ** Timing *)

Record Meter := mkMeter { metrics : Metrics; readings : nat }.

(** Code on a state [S] that measures itself. *)
Definition Metered (S A : Type) : Type := S * Meter → A * (S * Meter).
#[global] Instance metered_mret {S} : MRet (Metered S) := λ A a s, (a, s).
#[global] Instance metered_mbind {S} : MBind (Metered S) := λ A B f m s, let '(a, s) := m s in f a s.

Definition measure {S} (f : Registry → Registry) : Metered S unit := λ s,
  ((), (s.1, mkMeter (on_recorder f (metrics s.2)) (readings s.2))).

(** Code that does not measure. *)
Definition run_plain {S A} (m : S → A * S) : Metered S A := λ s,
  let '(a, s1) := m s.1 in (a, (s1, s.2)).

Section timing.
(** The readings of the clock, which never goes back. *)
Context (instant : nat → Z).
Context {S : Type}.

(** [Instant::now] *)
Definition now : Metered S Z := λ s,
  (instant (readings s.2), (s.1, mkMeter (metrics s.2) (Datatypes.S (readings s.2)))).

Definition record_duration (name : string) (labels : list (string * string)) (duration : Z) :
    Metered S unit :=
  measure (record_sample (name, labels) duration).

Definition record_elapsed (name : string) (labels : list (string * string)) (start : Z) :
    Metered S unit :=
  later ← now; record_duration name labels (later - start).

Definition timed {A} (name : string) (f : Metered S A) : Metered S A :=
  start ← now; out ← f; later ← now;
  _ ← measure (record_sample (name, []) (later - start)); mret out.

Definition timed_with {A} (name : string) (labels : list (string * string)) (f : Metered S A) :
    Metered S A :=
  start ← now; out ← f; _ ← record_elapsed name labels start; mret out.

(** The asynchronous forms measure the same way, suspension included. *)
Definition timed_async {A} (name : string) (f : Metered S A) : Metered S A :=
  start ← now; out ← f; later ← now;
  _ ← measure (record_sample (name, []) (later - start)); mret out.

Definition timed_async_with {A} (name : string) (labels : list (string * string))
    (f : Metered S A) : Metered S A :=
  start ← now; out ← f; _ ← record_elapsed name labels start; mret out.
End timing.

(** ** The database *)

Definition DB_POOL_ACQUIRE_SECONDS : string := "db_pool_acquire_seconds".
Definition DB_QUERY_SECONDS : string := "db_query_seconds".
Definition DB_QUERY_ERRORS_TOTAL : string := "db_query_errors_total".
Definition DB_POOL_ACQUIRE_ERRORS_TOTAL : string := "db_pool_acquire_errors_total".
Definition DB_POOL_CONNECTIONS : string := "db_pool_connections".
Definition DATABASE_SIZE_BYTES : string := "database_size_bytes".

Section database.
Context `{Env}.
Context (instant : nat → Z).

(** [pool.get()] *)
Definition acquire (c : Conn) : result string unit * Conn :=
  let s := conn_step c in
  (match pool_fault s with Some msg => Err msg | None => Ok () end, mkConn (conn_db c) (S s) None).

(** [instrument::query], with its measurements *)
Definition metered_query {A} (repo op : string) (f : DbM A) : Metered Conn (result RepoError A) :=
  waiting_since ← now instant;
  conn ← run_plain acquire;
  _ ← record_elapsed instant DB_POOL_ACQUIRE_SECONDS [] waiting_since;
  match conn with
  | Err msg =>
      _ ← measure (increment (DB_POOL_ACQUIRE_ERRORS_TOTAL, [("repo", repo); ("op", op)]) 1);
      mret (Err (PoolError msg))
  | Ok _ =>
      running_since ← now instant;
      result ← run_plain f;
      let labels := [("repo", repo); ("op", op)] in
      _ ← record_elapsed instant DB_QUERY_SECONDS labels running_since;
      match result with
      | Err e =>
          _ ← measure (increment (DB_QUERY_ERRORS_TOTAL, labels) 1);
          mret (Err (QueryError e))
      | Ok a => mret (Ok a)
      end
  end.

(** [sample_pool]; the status is the pool's. *)
Definition sample_pool {S} (size available waiting : Z) : Metered S unit :=
  _ ← measure (set_gauge (DB_POOL_CONNECTIONS, [("state", "size")]) size);
  _ ← measure (set_gauge (DB_POOL_CONNECTIONS, [("state", "available")]) available);
  measure (set_gauge (DB_POOL_CONNECTIONS, [("state", "waiting")]) waiting).

(** [sample_database_size]; [database_size] is the statement. *)
Definition sample_database_size (database_size : DbM Z) : Metered Conn unit :=
  size ← metered_query "instrument" "database_size" database_size;
  match size with
  | Ok bytes => measure (set_gauge (DATABASE_SIZE_BYTES, []) bytes)
  | Err _ => mret ()
  end.
End database.

(** ** The node and the bus *)

Definition RPC_CALL_SECONDS : string := "rpc_call_seconds".
Definition RPC_CALL_ERRORS_TOTAL : string := "rpc_call_errors_total".

(** [RpcClient::call], with its measurements *)
Definition metered_call {S A} (instant : nat → Z) (method : string) (r : Retrievers.Response A) :
    Metered S (result ObserverError A) :=
  started ← now instant;
  let result := Retrievers.call r in
  _ ← record_elapsed instant RPC_CALL_SECONDS [("method", method)] started;
  match result with
  | Err e => _ ← measure (increment (RPC_CALL_ERRORS_TOTAL, [("method", method)]) 1); mret (Err e)
  | Ok a => mret (Ok a)
  end.

Definition PUBSUB_QUEUE_DEPTH : string := "pubsub_queue_depth".
Definition PUBSUB_SUBSCRIBERS : string := "pubsub_subscribers".

(** [PubSub::sample]; [receiver_count] and [len] are the channel's, and the channels are
    visited in the order of a [HashMap]. *)
Definition sample_subject (receiver_count len : PubSub.Subject → Z) (subject : PubSub.Subject)
    (r : Registry) : Registry :=
  let label := [("subject", PubSub.as_str subject)] in
  set_gauge (PUBSUB_QUEUE_DEPTH, label) (len subject)
    (set_gauge (PUBSUB_SUBSCRIBERS, label) (receiver_count subject) r).
Definition sample_bus `{EnumOrder} {S} (receiver_count len : PubSub.Subject → Z) : Metered S unit :=
  measure (λ r, foldl (λ r s, sample_subject receiver_count len s r) r (shuffle PubSub.Subject_ALL)).

(** ** The stages of confirming a block *)

Definition CLUSTER_CONFIRM_MINED_STAGE_SECONDS : string := "cluster_confirm_mined_stage_seconds".

(** [StageClock] of [services/cluster.rs]: time summed over the pieces of a stage, recorded
    once. *)
Record StageClock := mkStageClock { spent : Z; runs : Z }.
Definition StageClock_default : StageClock := mkStageClock 0 0.

Definition stage_time {S A} (instant : nat → Z) (f : Metered S A) (clock : StageClock) :
    Metered S (A * StageClock) :=
  start ← now instant; out ← f; later ← now instant;
  mret (out, mkStageClock (spent clock + (later - start)) (runs clock + 1)).

Definition stage_record {S} (stage : string) (clock : StageClock) : Metered S unit :=
  if 0 <? runs clock then
    record_duration CLUSTER_CONFIRM_MINED_STAGE_SECONDS [("stage", stage)] (spent clock)
  else mret ().

(** The pieces of a stage one after the other, then the record. *)
Fixpoint stage_all {S} (instant : nat → Z) (pieces : list (Metered S unit)) (clock : StageClock) :
    Metered S StageClock :=
  match pieces with
  | [] => mret clock
  | f :: pieces => r ← stage_time instant f clock; stage_all instant pieces r.2
  end.

(** ** The exporter *)

Definition BLOCK_SYNC_FAILURES_TOTAL : string := "block_sync_failures_total".
Definition BLOCK_APPLY_DRAIN_TOTAL : string := "block_apply_drain_total".
Definition CLUSTER_CONFIRM_MINED_ERRORS_TOTAL : string := "cluster_confirm_mined_errors_total".
Definition BLOCK_GATE_EXPIRED_TOTAL : string := "block_gate_expired_total".
(** [observer/src/watchers/watcher_trait.rs] *)
Definition WATCHER_POLL_ERRORS_TOTAL : string := "watcher_poll_errors_total".

(** [BlockSyncError::SOURCE_LABELS] and [source_label] *)
Definition SOURCE_LABELS : list string := ["node"; "db"].
Definition source_label (e : Blocks.BlockSyncError) : string :=
  match e with Blocks.NodeError _ => "node" | Blocks.DbError _ => "db" end.

Definition CONFIRM_MINED_ERROR_STAGES : list string := ["lookup"; "load"; "trim"; "confirm"].

(** The calls of [count_confirm_mined_error] in [services/cluster.rs]: [confirm_mined_inner]
    has the first two, [find_active_clusters_containing] the next two, [handle_confirmed] the
    rest. *)
Inductive ConfirmMinedFailure :=
| ConfirmingFull | TrimmingPartial
| LookingUpMined | LoadingMined
| LookingUpConfirmed | LoadingConfirmedClusters | LoadingConfirmedTxs.
Definition confirm_mined_stage (f : ConfirmMinedFailure) : string :=
  match f with
  | ConfirmingFull => "confirm"
  | TrimmingPartial => "trim"
  | LookingUpMined | LookingUpConfirmed => "lookup"
  | LoadingMined | LoadingConfirmedClusters | LoadingConfirmedTxs => "load"
  end.

(** What the alerts of [docker/grafana] watch the increase of, and the series each increments
    where it happens. *)
Inductive Alert :=
| SyncFailed (e : Blocks.BlockSyncError)
| Drained (d : Lifecycle.BlockDrain)
| ConfirmMinedFailed (f : ConfirmMinedFailure)
| GateExpired
| PollFailed (subject : PubSub.Subject).
Definition alert_key (a : Alert) : Key :=
  match a with
  | SyncFailed e => (BLOCK_SYNC_FAILURES_TOTAL, [("source", source_label e)])
  | Drained d => (BLOCK_APPLY_DRAIN_TOTAL, [("outcome", Lifecycle.label d)])
  | ConfirmMinedFailed f =>
      (CLUSTER_CONFIRM_MINED_ERRORS_TOTAL, [("stage", confirm_mined_stage f)])
  | GateExpired => (BLOCK_GATE_EXPIRED_TOTAL, [])
  | PollFailed subject => (WATCHER_POLL_ERRORS_TOTAL, [("subject", PubSub.as_str subject)])
  end.
Definition count_alert (m : Metrics) (a : Alert) : Metrics :=
  on_recorder (increment (alert_key a) 1) m.

(** The series [publish_alerted_counters] goes through, in its order. *)
Definition alerted_counters : list Key :=
  ((λ source, (BLOCK_SYNC_FAILURES_TOTAL, [("source", source)])) <$> SOURCE_LABELS) ++
  ((λ drain, (BLOCK_APPLY_DRAIN_TOTAL, [("outcome", Lifecycle.label drain)]))
     <$> Lifecycle.BlockDrain_ALL) ++
  ((λ stage, (CLUSTER_CONFIRM_MINED_ERRORS_TOTAL, [("stage", stage)]))
     <$> CONFIRM_MINED_ERROR_STAGES) ++
  [(BLOCK_GATE_EXPIRED_TOTAL, [])].

Definition publish_alerted_counters (m : Metrics) : Metrics :=
  on_recorder (λ r, foldl (λ r key, increment key 0 r) r alerted_counters) m.

(** How [serve] ends. *)
Inductive Served := Disabled | NoRecorder | NoListener | Listening.
#[global] Instance Served_eq_dec : EqDecision Served.
Proof. solve_decision. Defined.

(** [serve]; [init] and [bind] are the outcomes of [init_metrics] and of the listener. *)
Definition serve (cfg : Config.MetricsConfig) (init bind : result string unit) (m : Metrics) :
    Served * Metrics :=
  if negb (Config.mc_enabled cfg) then (Disabled, m)
  else
    match init with
    | Err _ => (NoRecorder, m)
    | Ok _ =>
        let m := mkMetrics (Some empty_registry) (upkeep m) in
        match bind with
        | Err _ => (NoListener, m)
        | Ok _ => (Listening, publish_alerted_counters (mkMetrics (recorder m) true))
        end
    end.

(** A tick of [run_upkeep], on the processes that have it. *)
Definition upkeep_tick (m : Metrics) : Metrics := if upkeep m then on_recorder drain m else m.

(** The endpoint label of a request: the path of the route it matched, or one label for all
    that match none; the websocket is left out. *)
Definition WEBSOCKET_ROUTES : list string := ["/ws"].
Definition collapse_unmatched (uri : string) : string := "unmatched".
Definition endpoint_label (matched : option string) (uri : string) : option string :=
  if bool_decide (uri ∈ WEBSOCKET_ROUTES) then None
  else Some (match matched with Some path => path | None => collapse_unmatched uri end).

(** ** Measuring changes nothing else *)

Section exactness.
Context `{Env}.
Context (instant : nat → Z).
Hypothesis monotone : ∀ n, instant n ≤ instant (S n).

Lemma clock_runs i j : (i ≤ j)%nat → instant i ≤ instant j.
Proof. induction 1 as [|j _ IH]; [done|]. pose proof (monotone j). lia. Qed.

(** The instrumented form of a repository call is the plain one, statement for
    statement and fault for fault, so everything shown of the repositories holds of it.  It
    leaves exactly one sample of the wait for a connection, one of the query when there was a
    connection, none of them negative, and counts the failure under the series of its kind:
    no connection, or a failed query.  Nothing else in the recorder changes. *)
Theorem instrumented_query_is_exact {A} repo op (f : DbM A) c reg up n :
  let '(r, (c', mt)) :=
    metered_query instant repo op f (c, mkMeter (mkMetrics (Some reg) up) n) in
  (r, c') = query f c ∧
  ∃ wait took, 0 ≤ wait ∧ 0 ≤ took ∧
  let labels := [("repo", repo); ("op", op)] in
  let waited := record_sample (DB_POOL_ACQUIRE_SECONDS, []) wait reg in
  let queried := record_sample (DB_QUERY_SECONDS, labels) took waited in
  metrics mt = mkMetrics (Some
    match r with
    | Ok _ => queried
    | Err (PoolError _) => increment (DB_POOL_ACQUIRE_ERRORS_TOTAL, labels) 1 waited
    | Err (QueryError _) => increment (DB_QUERY_ERRORS_TOTAL, labels) 1 queried
    end) up.
Proof.
  unfold metered_query, query, run_plain, acquire, mbind, metered_mbind, mret, metered_mret. simpl.
  destruct (pool_fault (conn_step c)) as [msg|]; simpl.
  - split; [done|]. exists (instant (S n) - instant n), 0.
    split_and!; [pose proof (monotone n); lia|lia|done].
  - destruct (f (mkConn (conn_db c) (S (conn_step c)) None)) as [[a|e] c']; simpl;
      (split; [done|]);
      exists (instant (S n) - instant n), (instant (S (S (S n))) - instant (S (S n)));
      (split_and!; [pose proof (monotone n); lia|pose proof (monotone (S (S n))); lia|done]).
Qed.

(** A call to the node, likewise. *)
Theorem instrumented_call_is_exact {S A} method (r : Retrievers.Response A) (s : S) reg up n :
  let '(a, (s', mt)) := metered_call instant method r (s, mkMeter (mkMetrics (Some reg) up) n) in
  a = Retrievers.call r ∧ s' = s ∧
  ∃ took, 0 ≤ took ∧
  let sampled := record_sample (RPC_CALL_SECONDS, [("method", method)]) took reg in
  metrics mt = mkMetrics (Some
    match a with
    | Ok _ => sampled
    | Err _ => increment (RPC_CALL_ERRORS_TOTAL, [("method", method)]) 1 sampled
    end) up.
Proof.
  unfold metered_call, mbind, metered_mbind, mret, metered_mret. simpl.
  destruct (Retrievers.call r) as [a|e]; simpl; (split_and!; [done..|]);
    exists (instant (Datatypes.S n) - instant n);
    (split_and!; [pose proof (monotone n); lia|done]).
Qed.

(** Timing a piece of work changes neither its result nor its effects, and adds one sample
    that is not negative after those of the work itself. *)
Lemma timed_is_transparent {S A} name labels (f : Metered S A) s mt a s' mt' :
  f (s, mkMeter (metrics mt) (Datatypes.S (readings mt))) = (a, (s', mt')) →
  (readings mt < readings mt')%nat →
  ∃ took, 0 ≤ took ∧
  timed_with instant name labels f (s, mt) =
    (a, (s', mkMeter (on_recorder (record_sample (name, labels) took) (metrics mt'))
               (Datatypes.S (readings mt')))).
Proof.
  intros Hf Hr. exists (instant (readings mt') - instant (readings mt)). split.
  - pose proof (clock_runs (readings mt) (readings mt')). lia.
  - unfold timed_with, record_elapsed, record_duration, mbind, metered_mbind. simpl. by rw Hf.
Qed.
End exactness.

(** However many pieces a stage had, it leaves one sample, the time they took together, and
    none when it had no piece.  The pieces here do not measure themselves. *)
Lemma stage_all_spends {S} (instant : nat → Z) (pieces : list (S → unit * S)) clock s m n :
  stage_all instant (run_plain <$> pieces) clock (s, mkMeter m n) =
  (mkStageClock
     (spent clock + sum_Z ((λ i, instant (n + 2 * i + 1)%nat - instant (n + 2 * i)%nat)
                             <$> seq 0 (length pieces)))
     (runs clock + Z.of_nat (length pieces)),
   (foldl (λ s f, (f s).2) s pieces, mkMeter m (n + 2 * length pieces))).
Proof.
  revert clock s n. induction pieces as [|f pieces IH]; intros [sp ru] s n; simpl.
  { by rw !Z.add_0_r Nat.add_0_r. }
  unfold mbind, metered_mbind, stage_time, run_plain at 1. simpl.
  unfold mbind, metered_mbind. simpl. destruct (f s) as [[] s1]. simpl. rw IH. simpl.
  rw -fmap_S_seq. change (list_fmap nat Z) with (@fmap list _ nat Z).
  rw -list_fmap_compose. f_equal; [f_equal; [|lia]|do 2 f_equal; lia].
  rw !Nat.add_0_r Nat.add_1_r -Z.add_assoc. do 3 f_equal. apply list_fmap_ext. intros _ i _. simpl.
  f_equal; [|f_equal]; f_equal; lia.
Qed.

(** ** What the alerts see *)

Lemma lookup_increment k k' n r :
  counters (increment k n r) !! k' =
  if decide (k = k') then Some (to_u64 (default 0 (counters r !! k) + n)) else counters r !! k'.
Proof. unfold increment. simpl. rw lookup_insert. by case_decide. Qed.

(** Publishing creates the series that are missing, at zero, and keeps the others. *)
Lemma lookup_published keys k r :
  (∀ k v, counters r !! k = Some v → is_u64 v) →
  counters (foldl (λ r key, increment key 0 r) r keys) !! k =
  if decide (k ∈ keys) then Some (default 0 (counters r !! k)) else counters r !! k.
Proof.
  revert r. induction keys as [|key keys IH]; intros r Hr; cbn [foldl].
  { case_decide as E; [by apply not_elem_of_nil in E|done]. }
  assert (to_u64 (default 0 (counters r !! key) + 0) = default 0 (counters r !! key)) as Hid.
  { rw Z.add_0_r to_u64_id //. destruct (counters r !! key) as [v|] eqn:E; [by eapply Hr|done]. }
  rw IH; [rw !lookup_increment Hid|].
  - destruct (decide (key = k)) as [->|Hne].
    + simpl. rw (decide_True (P := k ∈ k :: keys)); [|by left]. by case_decide.
    + destruct (decide (k ∈ keys)) as [Hin|Hni].
      * rw decide_True //. by right.
      * rw decide_False //. by intros [?|?]%elem_of_cons.
  - intros k' v. rw lookup_increment Hid. destruct (decide (key = k')) as [_|]; [|by apply Hr].
    intros [= <-]. destruct (counters r !! key) as [w|] eqn:Ew; [by eapply Hr|done].
Qed.

(** The number of alerts a series counts. *)
Definition occurrences (k : Key) (alerts : list Alert) : nat :=
  length (filter (λ a, alert_key a = k) alerts).

Lemma lookup_counted alerts k r :
  is_u64 (default 0 (counters r !! k)) →
  counters (foldl (λ r a, increment (alert_key a) 1 r) r alerts) !! k =
    if decide (occurrences k alerts = 0%nat) then counters r !! k
    else Some (to_u64 (default 0 (counters r !! k) + Z.of_nat (occurrences k alerts))).
Proof.
  unfold occurrences. revert r. induction alerts as [|a alerts IH]; intros r Hu; [done|]. cbn [foldl].
  destruct (decide (alert_key a = k)) as [<-|Hne].
  - assert (counters (increment (alert_key a) 1 r) !! alert_key a
      = Some (to_u64 (default 0 (counters r !! alert_key a) + 1))) as E
      by by rw lookup_increment decide_True.
    rw filter_cons_True // IH E /=; [|apply to_u64_range].
    destruct (length (filter _ alerts)) as [|n]; simpl; [done|]. rw to_u64_add_l. do 2 f_equal. lia.
  - assert (counters (increment (alert_key a) 1 r) !! k = counters r !! k) as E
      by by rw lookup_increment decide_False.
    by rw filter_cons_False // IH E.
Qed.

(** The series that are there from the start. *)
Definition announced (a : Alert) : bool := match a with PollFailed _ => false | _ => true end.

Lemma alert_is_published a : announced a = true ↔ alert_key a ∈ alerted_counters.
Proof.
  rw -(bool_decide_eq_true (alert_key a ∈ alerted_counters)).
  assert (bool_decide (alert_key a ∈ alerted_counters) = announced a) as ->; [|done].
  destruct a as [[]|[]|[]| |[]]; vm_compute; reflexivity.
Qed.

Lemma occurrences_some k alerts :
  occurrences k alerts ≠ 0%nat ↔ ∃ a, a ∈ alerts ∧ alert_key a = k.
Proof.
  unfold occurrences. rw length_zero_iff_nil. split.
  - intros Hne. destruct (filter _ alerts) as [|a l] eqn:E; [done|]. exists a.
    assert (a ∈ filter (λ a, alert_key a = k) alerts) as Hin by (rw E; left).
    apply list_elem_of_filter in Hin. tauto.
  - intros (a & Ha & Hk) Hnil. apply (not_elem_of_nil a). rw -Hnil. by apply list_elem_of_filter.
Qed.

Definition published : Registry :=
  foldl (λ r key, increment key 0 r) empty_registry alerted_counters.

Lemma lookup_published_fresh k :
  counters published !! k = if decide (k ∈ alerted_counters) then Some 0 else None.
Proof.
  unfold published. rw lookup_published; [|by intros ? ?; rw lookup_empty].
  simpl. by rw lookup_empty.
Qed.

Lemma lookup_published_alert a :
  counters published !! alert_key a = match a with PollFailed _ => None | _ => Some 0 end.
Proof.
  rw lookup_published_fresh. pose proof (alert_is_published a) as [Ha1 Ha2].
  destruct (decide (alert_key a ∈ alerted_counters)) as [Hin|Hn].
  - specialize (Ha2 Hin). by destruct a.
  - destruct a; try (by exfalso; apply Hn, Ha1); reflexivity.
Qed.

Lemma serve_listening cfg m0 m :
  serve cfg (Ok ()) (Ok ()) m0 = (Listening, m) → m = mkMetrics (Some published) true.
Proof. unfold serve. destruct (negb _); [done|]. by intros [= <-]. Qed.

Lemma counted_published alerts k :
  Z.of_nat (length alerts) < 2 ^ 64 →
  counters (foldl (λ r a, increment (alert_key a) 1 r) published alerts) !! k =
    if decide (occurrences k alerts = 0%nat) then counters published !! k
    else Some (Z.of_nat (occurrences k alerts)).
Proof.
  intros Hlen. assert (default 0 (counters published !! k) = 0) as Hz
    by (rw lookup_published_fresh; by case_decide).
  rw lookup_counted Hz; [|unfold is_u64; lia]. case_decide; [done|]. f_equal. rw Z.add_0_l.
  apply to_u64_id. pose proof (length_filter (λ a, alert_key a = k) alerts).
  unfold occurrences, is_u64. lia.
Qed.

(** C28.  The counters the alerts watch: once the exporter listens, every series a failed
    block sync, a drain, a failed confirmation or an expired gate can increment exists at zero,
    before the first failure, so that an increase can be seen.  The series of failed polls are
    watched too and are not among them: each exists only from its first failure on, whose
    increase cannot be seen.  From then on every one of them has counted exactly its failures,
    no other series is created, and publishing again changes nothing that was counted. *)
Theorem alerted_counters_are_exact cfg m0 m alerts :
  serve cfg (Ok ()) (Ok ()) m0 = (Listening, m) → Z.of_nat (length alerts) < 2 ^ 64 →
  ∃ r r', recorder m = Some r ∧ recorder (foldl count_alert m alerts) = Some r' ∧
  (∀ a, counters r !! alert_key a =
     match a with PollFailed _ => None | _ => Some 0 end) ∧
  (∀ a, counters r' !! alert_key a =
     match a with
     | PollFailed _ =>
         if decide (occurrences (alert_key a) alerts = 0%nat) then None
         else Some (Z.of_nat (occurrences (alert_key a) alerts))
     | _ => Some (Z.of_nat (occurrences (alert_key a) alerts))
     end) ∧
  (∀ k, is_Some (counters r' !! k) ↔ is_Some (counters r !! k) ∨
     ∃ subject, PollFailed subject ∈ alerts ∧ k = alert_key (PollFailed subject)) ∧
  counters <$> recorder (publish_alerted_counters (foldl count_alert m alerts))
    = Some (counters r').
Proof.
  intros ->%serve_listening Hlen.
  set (r' := foldl (λ r a, increment (alert_key a) 1 r) published alerts).
  assert (∀ r up, foldl count_alert (mkMetrics (Some r) up) alerts =
    mkMetrics (Some (foldl (λ r a, increment (alert_key a) 1 r) r alerts)) up) as Hfold.
  { clear. induction alerts as [|a alerts IH]; intros r up; [done|]. cbn [foldl]. by rw -IH. }
  rw Hfold. fold r'.
  assert (∀ k, counters r' !! k = if decide (occurrences k alerts = 0%nat) then counters published !! k
    else Some (Z.of_nat (occurrences k alerts))) as Hk by (intros k; by apply counted_published).
  exists published, r'. split_and!; [done|done| | | |].
  - apply lookup_published_alert.
  - intros a. rw Hk lookup_published_alert.
    destruct (decide (occurrences (alert_key a) alerts = 0%nat)) as [->|]; by destruct a.
  - intros k. rw Hk. case_decide as E.
    + split; [by left|]. intros [?|(subject & Hin & ->)]; [done|]. exfalso.
      apply (proj2 (occurrences_some (alert_key (PollFailed subject)) alerts)); [eauto|done].
    + split; [|by intros _; eexists]. intros _. apply occurrences_some in E as (a & Ha & <-).
      rw lookup_published_alert. destruct a; [left; by eexists..|right; eauto].
  - transitivity (Some (counters (foldl (λ r key, increment key 0 r) r' alerted_counters))); [done|].
    f_equal. apply map_eq. intros k. rw lookup_published.
    + case_decide as Hin; [|done]. rw Hk. case_decide; [|done].
      rw lookup_published_fresh. by rw decide_True.
    + intros k' v. rw Hk lookup_published_fresh. pose proof (length_filter (λ a, alert_key a = k') alerts).
      unfold is_u64, occurrences in *. repeat case_decide; intros [= <-]; lia.
Qed.

(** ** Upkeep *)

(** What goes on after [serve]: samples are recorded, and the upkeep ticks if it runs. *)
Inductive Activity := Sampled (key : Key) (v : Z) | UpkeepTick.
Definition act (m : Metrics) (a : Activity) : Metrics :=
  match a with
  | Sampled key v => on_recorder (record_sample key v) m
  | UpkeepTick => upkeep_tick m
  end.
Definition is_sampled (a : Activity) : bool := match a with Sampled _ _ => true | _ => false end.

(** When the listener cannot be bound the recorder is already installed and nothing drains
    it: every sample recorded from then on is kept, for as long as the process runs. *)
Theorem unserved_samples_pile_up cfg e acts :
  Config.mc_enabled cfg = true →
  ∃ m, serve cfg (Ok ()) (Err e) no_metrics = (NoListener, m) ∧
  undrained <$> recorder (foldl act m acts) = Some (length (filter is_sampled acts)).
Proof.
  intros Hen. unfold serve. rw Hen. simpl. eexists. split; [reflexivity|].
  assert (∀ r, undrained <$> recorder (foldl act (mkMetrics (Some r) false) acts) =
    Some (undrained r + length (filter is_sampled acts))%nat) as Hgen; [|by rw Hgen].
  induction acts as [|[key v|] acts IH]; intros r; cbn [foldl].
  - simpl. by rw Nat.add_0_r.
  - change (act (mkMetrics (Some r) false) (Sampled key v))
      with (mkMetrics (Some (record_sample key v r)) false).
    rw IH filter_cons_True //=. f_equal. lia.
  - change (act (mkMetrics (Some r) false) UpkeepTick) with (mkMetrics (Some r) false).
    rw IH filter_cons_False //. auto.
Qed.

(** With the listener bound, a tick of the upkeep leaves nothing waiting. *)
Lemma upkeep_drains cfg m acts :
  serve cfg (Ok ()) (Ok ()) no_metrics = (Listening, m) →
  undrained <$> recorder (foldl act m (acts ++ [UpkeepTick])) = Some 0%nat.
Proof.
  intros ->%serve_listening. rw foldl_app. cbn [foldl].
  assert (∀ r, ∃ r', foldl act (mkMetrics (Some r) true) acts = mkMetrics (Some r') true) as Hgen.
  { induction acts as [|[] acts IH]; intros r; cbn [foldl]; [by eexists|apply IH|apply IH]. }
  destruct (Hgen published) as [r' ->]. done.
Qed.

(** ** Witnesses *)

Lemma instrumented_query_is_exact_witness :
  (∀ n, Z.of_nat n ≤ Z.of_nat (S n)) ∧
  let f := select (H := calm_env) (λ db, size (db_txs db)) in
  let '(r, (c', _)) := metered_query (H := calm_env) Z.of_nat "block" "count" f
    (mkConn empty_db 0 None, mkMeter (mkMetrics (Some empty_registry) true) 0) in
  (r, c') = query (H := calm_env) f (mkConn empty_db 0 None).
Proof.
  split; [lia|].
  exact (proj1 (instrumented_query_is_exact (H := calm_env) Z.of_nat ltac:(intros; lia)
    "block" "count" (select (H := calm_env) (λ db, size (db_txs db))) (mkConn empty_db 0 None)
    empty_registry true 0)).
Defined.

Definition listening : Config.MetricsConfig := Config.mkMetricsConfig true [].

Lemma alerted_counters_are_exact_witness :
  ∃ m r', serve listening (Ok ()) (Ok ()) no_metrics = (Listening, m) ∧
  recorder (foldl count_alert m [GateExpired; PollFailed PubSub.MempoolDelta; GateExpired]) = Some r' ∧
  counters r' !! alert_key GateExpired = Some 2 ∧
  counters r' !! alert_key (PollFailed PubSub.MempoolDelta) = Some 1 ∧
  counters r' !! alert_key (PollFailed PubSub.BlockConnected) = None.
Proof.
  destruct (alerted_counters_are_exact listening no_metrics
    (serve listening (Ok ()) (Ok ()) no_metrics).2
    [GateExpired; PollFailed PubSub.MempoolDelta; GateExpired]) as (r & r' & _ & Hr' & _ & Hc & _);
    [reflexivity|simpl; lia|].
  exists (serve listening (Ok ()) (Ok ()) no_metrics).2, r'. split_and!; [reflexivity|exact Hr'|..];
    rw Hc; vm_compute; reflexivity.
Defined.

End Metrics.
