(* ===== verification/Deps.v ===== *)
(** * How the services are put together

    [api/src/infra/deps.rs], [infra/state.rs], [Repos] of [db/repositories/mod.rs], [Clients]
    of [observer/src/clients/mod.rs], [observer/src/runner.rs] and the wiring of
    [api/src/main.rs].  The services are values that hold handles: an [Arc], a channel, a
    pool.  Cloning a handle copies the address and shares what it points to, so here a
    handle is an address in a heap and the structs are records of addresses; [default] and
    [new] of a shared type allocate.  The other files model the state behind the handles,
    each as if there were one of it: the theorem below is why there is. *)

From S2P Require Import Prelude.
From S2P Require Import Models.
From S2P Require Import Dotenv.
From S2P Require Import Config.
From S2P Require Import PubSub.
From S2P Require Import Ledger.
From S2P Require Import ClusterSnapshot.
From S2P Require Import Database.
From S2P Require Import NodeHealth.
From S2P Require Import Watchers.
From S2P Require Import Gate.
From S2P Require Import Backfill.
From S2P Require Import Lifecycle.
From S2P Require Import Transport.

Module Deps.

(** ** Shared cells *)

Definition ClusterMap : Type := gmap Z Snapshot.ClusterState.
Definition Transport : Type := Transport.PooledJsonRpcTransport Dotenv.Str.

Inductive Kind :=
| KLedger | KGate | KLock | KClusters | KDiagram | KQueue | KBus | KReadiness | KReachability
| KRpc | KPool.
#[global] Instance Kind_eq_dec : EqDecision Kind.
Proof. solve_decision. Defined.

Inductive Cell :=
| LedgerCell (x : Ledger.Inner)
| GateCell (x : Gate.BlockGate)
| LockCell (x : Lifecycle.Lock)
| ClustersCell (x : ClusterMap)
| DiagramCell (x : Watchers.MempoolFeerateDiagram)
| QueueCell (x : Backfill.TxBackfillQueue)
| BusCell (x : PubSub.Bus)
| ReadinessCell (x : NodeHealth.Readiness)
| ReachabilityCell (x : NodeHealth.Reachability)
| RpcCell (x : Transport)
| PoolCell (x : Database.Conn).

(** What may be behind a handle. *)
Class Stored (T : Type) := {
  kind : Kind;
  to_cell : T → Cell;
  of_cell : Cell → option T;
  of_to_cell : ∀ x, of_cell (to_cell x) = Some x;
}.

#[global] Instance ledger_stored : Stored Ledger.Inner :=
  {| kind := KLedger; to_cell := LedgerCell;
     of_cell c := match c with LedgerCell x => Some x | _ => None end;
     of_to_cell _ := eq_refl |}.
#[global] Instance gate_stored : Stored Gate.BlockGate :=
  {| kind := KGate; to_cell := GateCell;
     of_cell c := match c with GateCell x => Some x | _ => None end;
     of_to_cell _ := eq_refl |}.
#[global] Instance lock_stored : Stored Lifecycle.Lock :=
  {| kind := KLock; to_cell := LockCell;
     of_cell c := match c with LockCell x => Some x | _ => None end;
     of_to_cell _ := eq_refl |}.
#[global] Instance clusters_stored : Stored ClusterMap :=
  {| kind := KClusters; to_cell := ClustersCell;
     of_cell c := match c with ClustersCell x => Some x | _ => None end;
     of_to_cell _ := eq_refl |}.
#[global] Instance diagram_stored : Stored Watchers.MempoolFeerateDiagram :=
  {| kind := KDiagram; to_cell := DiagramCell;
     of_cell c := match c with DiagramCell x => Some x | _ => None end;
     of_to_cell _ := eq_refl |}.
#[global] Instance queue_stored : Stored Backfill.TxBackfillQueue :=
  {| kind := KQueue; to_cell := QueueCell;
     of_cell c := match c with QueueCell x => Some x | _ => None end;
     of_to_cell _ := eq_refl |}.
#[global] Instance bus_stored : Stored PubSub.Bus :=
  {| kind := KBus; to_cell := BusCell;
     of_cell c := match c with BusCell x => Some x | _ => None end;
     of_to_cell _ := eq_refl |}.
#[global] Instance readiness_stored : Stored NodeHealth.Readiness :=
  {| kind := KReadiness; to_cell := ReadinessCell;
     of_cell c := match c with ReadinessCell x => Some x | _ => None end;
     of_to_cell _ := eq_refl |}.
#[global] Instance reachability_stored : Stored NodeHealth.Reachability :=
  {| kind := KReachability; to_cell := ReachabilityCell;
     of_cell c := match c with ReachabilityCell x => Some x | _ => None end;
     of_to_cell _ := eq_refl |}.
#[global] Instance rpc_stored : Stored Transport :=
  {| kind := KRpc; to_cell := RpcCell;
     of_cell c := match c with RpcCell x => Some x | _ => None end;
     of_to_cell _ := eq_refl |}.
#[global] Instance pool_stored : Stored Database.Conn :=
  {| kind := KPool; to_cell := PoolCell;
     of_cell c := match c with PoolCell x => Some x | _ => None end;
     of_to_cell _ := eq_refl |}.

Record Ref (T : Type) := mkRef { addr : nat }.
Arguments mkRef {T} _.
Arguments addr {T} _.

Record Heap := mkHeap { next : nat; cells : gmap nat Cell }.

(** A handle, with the kind of cell it is for. *)
Definition handle {T} `{Stored T} (r : Ref T) : Kind * nat := (kind (T := T), addr r).

Definition read {T} `{Stored T} (r : Ref T) (h : Heap) : option T :=
  c ← cells h !! addr r; of_cell c.
Definition write {T} `{Stored T} (r : Ref T) (x : T) (h : Heap) : Heap :=
  mkHeap (next h) (<[addr r := to_cell x]> (cells h)).

(** Code that allocates. *)
Definition Alloc (A : Type) : Type := Heap → A * Heap.
#[global] Instance alloc_mret : MRet Alloc := λ A a h, (a, h).
#[global] Instance alloc_mbind : MBind Alloc := λ A B f m h, let '(a, h') := m h in f a h'.

(** [Arc::new], [Arc::default] *)
Definition alloc {T} `{Stored T} (x : T) : Alloc (Ref T) := λ h,
  (mkRef (next h), mkHeap (S (next h)) (<[next h := to_cell x]> (cells h))).

(** Nothing is stored at an address not handed out yet. *)
Definition heap_ok (h : Heap) : Prop := ∀ a, (next h ≤ a)%nat → cells h !! a = None.

Section heap.
Context {T U : Type} `{Stored T, Stored U}.

Lemma read_write_same (r r' : Ref T) x h : addr r = addr r' → read r' (write r x h) = Some x.
Proof. intros E. unfold read, write. simpl. rw E lookup_insert_eq. simpl. by rw of_to_cell. Qed.

Lemma read_write_other (r : Ref T) (u : Ref U) x h :
  addr r ≠ addr u → read u (write r x h) = read u h.
Proof. intros E. unfold read, write. simpl. by rw lookup_insert_ne. Qed.

Lemma read_alloc (x : T) h : read (alloc x h).1 (alloc x h).2 = Some x.
Proof. unfold read, alloc. simpl. rw lookup_insert_eq. simpl. by rw of_to_cell. Qed.
End heap.

(** A handle to one of the shared types. *)
Definition MempoolLedger : Type := Ref Ledger.Inner.
(** both [Arc]s of the gate *)
Definition BlockGate : Type := Ref Gate.BlockGate.
Definition ApplyLock : Type := Ref Lifecycle.Lock.
Definition ClusterSnapshot : Type := Ref ClusterMap.
Definition FeerateDiagramSnapshot : Type := Ref Watchers.MempoolFeerateDiagram.
(** both ends of the channel *)
Definition TxBackfillQueue : Type := Ref Backfill.TxBackfillQueue.
Definition PubSub : Type := Ref PubSub.Bus.
Definition Readiness : Type := Ref NodeHealth.Readiness.
Definition RpcClient : Type := Ref Transport.
Definition DbPool : Type := Ref Database.Conn.

(** ** Repositories and clients *)

Record BlockRepository := mkBlockRepository { br_pool : DbPool }.
Record ClusterRepository := mkClusterRepository { cr_pool : DbPool }.
Record ClusterMembershipRepository := mkClusterMembershipRepository { cmr_pool : DbPool }.
Record CounterSampleRepository := mkCounterSampleRepository { csr_pool : DbPool }.
Record GaugeSampleRepository := mkGaugeSampleRepository { gsr_pool : DbPool }.
Record MempoolDeltaRepository := mkMempoolDeltaRepository { mdr_pool : DbPool }.
Record MempoolLedgerRepository := mkMempoolLedgerRepository { mlr_pool : DbPool }.
Record SystemEventRepository := mkSystemEventRepository { ser_pool : DbPool }.
Record TransactionRepository := mkTransactionRepository { txr_pool : DbPool }.

Record Repos := mkRepos {
  repo_block : BlockRepository;
  repo_cluster : ClusterRepository;
  repo_cluster_membership : ClusterMembershipRepository;
  repo_counter_sample : CounterSampleRepository;
  repo_gauge_sample : GaugeSampleRepository;
  repo_mempool_delta : MempoolDeltaRepository;
  repo_mempool_ledger : MempoolLedgerRepository;
  repo_system_event : SystemEventRepository;
  repo_transaction : TransactionRepository;
}.

Definition Repos_new (pool : DbPool) : Repos :=
  {| repo_block := mkBlockRepository pool;
     repo_cluster := mkClusterRepository pool;
     repo_cluster_membership := mkClusterMembershipRepository pool;
     repo_counter_sample := mkCounterSampleRepository pool;
     repo_gauge_sample := mkGaugeSampleRepository pool;
     repo_mempool_delta := mkMempoolDeltaRepository pool;
     repo_mempool_ledger := mkMempoolLedgerRepository pool;
     repo_system_event := mkSystemEventRepository pool;
     repo_transaction := mkTransactionRepository pool |}.

(** The endpoint is a value, copied with the client. *)
Record ZmqClient := mkZmqClient { blocks_endpoint : Dotenv.Str }.
Definition ZmqClient_new (config : Config.ObserverConfig) : ZmqClient :=
  mkZmqClient (Config.oc_blocks_endpoint config).

Record Clients := mkClients {
  cl_pubsub : PubSub;
  cl_rpc : RpcClient;
  cl_zmq : ZmqClient;
}.

(** [Clients::new]; an error of [RpcClient::new] is passed on. *)
Definition Clients_new (config : Config.ObserverConfig) : Alloc (result ObserverError Clients) :=
  pubsub ← alloc PubSub.new;
  match Transport.rpc_client_new (Config.oc_rpc config) with
  | Err e => mret (Err e)
  | Ok transport =>
      rpc ← alloc (transport : Transport);
      mret (Ok (mkClients pubsub rpc (ZmqClient_new config)))
  end.

Record MempoolRpcRetriever := mkMempoolRpcRetriever { mr_rpc : RpcClient }.
Record TransactionRpcRetriever := mkTransactionRpcRetriever { tr_rpc : RpcClient }.
Record ClusterRpcRetriever := mkClusterRpcRetriever { clr_rpc : RpcClient }.
Record BlockRpcRetriever := mkBlockRpcRetriever { blr_rpc : RpcClient }.
Record NetworkRpcRetriever := mkNetworkRpcRetriever { nr_rpc : RpcClient }.
Record ChainRpcRetriever := mkChainRpcRetriever { chr_rpc : RpcClient }.

(** ** Services *)

Record PubSubService := mkPubSubService { ps_client : PubSub }.
Record SystemEventService := mkSystemEventService { ses_repository : SystemEventRepository }.
Record TransactionService := mkTransactionService { ts_repository : TransactionRepository }.
Record MempoolService := mkMempoolService { ms_pubsub : PubSubService }.
Record FeerateDiagramService := mkFeerateDiagramService { fd_snapshot : FeerateDiagramSnapshot }.

Record NodeHealthService := mkNodeHealthService {
  nh_system_event_service : SystemEventService;
  nh_network_retriever : NetworkRpcRetriever;
  nh_last : Ref NodeHealth.Reachability;
}.
Definition NodeHealthService_new (events : SystemEventService) (network : NetworkRpcRetriever) :
    Alloc NodeHealthService :=
  last ← alloc NodeHealth.Unknown; mret (mkNodeHealthService events network last).

Record NodeStatusService := mkNodeStatusService {
  nst_pubsub : PubSubService;
  nst_node_health : NodeHealthService;
}.

Record ClusterDeltaService := mkClusterDeltaService {
  cd_snapshot : ClusterSnapshot;
  cd_pubsub : PubSubService;
}.

Record ClusterService (CR : Type) := mkClusterService {
  cs_cluster_repository : ClusterRepository;
  cs_cluster_membership_repository : ClusterMembershipRepository;
  cs_transaction_repository : TransactionRepository;
  cs_cluster_retriever : CR;
  cs_cluster_delta_service : ClusterDeltaService;
  cs_mempool_ledger : MempoolLedger;
}.
Arguments mkClusterService {CR}.
Arguments cs_cluster_repository {CR}.
Arguments cs_cluster_membership_repository {CR}.
Arguments cs_transaction_repository {CR}.
Arguments cs_cluster_retriever {CR}.
Arguments cs_cluster_delta_service {CR}.
Arguments cs_mempool_ledger {CR}.

Record BlockService (BR CR : Type) := mkBlockService {
  bs_block_repository : BlockRepository;
  bs_mempool_ledger : MempoolLedger;
  bs_block_gate : BlockGate;
  bs_apply_lock : ApplyLock;
  bs_cluster_service : ClusterService CR;
  bs_block_retriever : BR;
  bs_pubsub : PubSubService;
}.
Arguments mkBlockService {BR CR}.
Arguments bs_block_repository {BR CR}.
Arguments bs_mempool_ledger {BR CR}.
Arguments bs_block_gate {BR CR}.
Arguments bs_apply_lock {BR CR}.
Arguments bs_cluster_service {BR CR}.
Arguments bs_block_retriever {BR CR}.
Arguments bs_pubsub {BR CR}.

Record MempoolReconciler (CR : Type) := mkMempoolReconciler {
  rec_ledger : MempoolLedger;
  rec_repository : MempoolLedgerRepository;
  rec_tx_backfill_queue : TxBackfillQueue;
  rec_cluster_service : ClusterService CR;
  rec_pubsub : PubSubService;
  rec_block_gate : BlockGate;
}.
Arguments mkMempoolReconciler {CR}.
Arguments rec_ledger {CR}.
Arguments rec_repository {CR}.
Arguments rec_tx_backfill_queue {CR}.
Arguments rec_cluster_service {CR}.
Arguments rec_pubsub {CR}.
Arguments rec_block_gate {CR}.

Record HomeService (CR : Type) := mkHomeService {
  hs_block_repository : BlockRepository;
  hs_mempool_delta_repository : MempoolDeltaRepository;
  hs_mempool_ledger : MempoolLedger;
  hs_cluster_service : ClusterService CR;
  hs_pubsub : PubSubService;
}.
Arguments mkHomeService {CR}.
Arguments hs_block_repository {CR}.
Arguments hs_mempool_delta_repository {CR}.
Arguments hs_mempool_ledger {CR}.
Arguments hs_cluster_service {CR}.
Arguments hs_pubsub {CR}.

Record GaugeSampleService := mkGaugeSampleService {
  gs_repository : GaugeSampleRepository;
  gs_cluster_snapshot : ClusterSnapshot;
  gs_mempool_ledger : MempoolLedger;
}.

Record CounterSampleService := mkCounterSampleService {
  ct_counter_sample_repository : CounterSampleRepository;
  ct_mempool_delta_repository : MempoolDeltaRepository;
  ct_system_event_repository : SystemEventRepository;
}.

Record TxBackfillConsumer (TR : Type) := mkTxBackfillConsumer {
  tc_transaction_repository : TransactionRepository;
  tc_transaction_retriever : TR;
  tc_queue : TxBackfillQueue;
  tc_mempool_ledger : MempoolLedger;
}.
Arguments mkTxBackfillConsumer {TR}.
Arguments tc_transaction_repository {TR}.
Arguments tc_transaction_retriever {TR}.
Arguments tc_queue {TR}.
Arguments tc_mempool_ledger {TR}.

Record BootstrapService := mkBootstrapService {
  bt_mempool_delta_repository : MempoolDeltaRepository;
  bt_mempool_retriever : MempoolRpcRetriever;
  bt_transaction_repository : TransactionRepository;
  bt_mempool_ledger : MempoolLedger;
  bt_block_service : BlockService BlockRpcRetriever ClusterRpcRetriever;
  bt_cluster_service : ClusterService ClusterRpcRetriever;
  bt_system_event_service : SystemEventService;
  bt_node_status_service : NodeStatusService;
  bt_tx_backfill_queue : TxBackfillQueue;
}.

(** ** [Deps] *)

Record Deps (TR CR BR : Type) := mkDeps {
  repos : Repos;
  pubsub : PubSubService;
  mempool_ledger : MempoolLedger;
  block_gate : BlockGate;
  block_apply_lock : ApplyLock;
  cluster_snapshot : ClusterSnapshot;
  feerate_diagram_snapshot : FeerateDiagramSnapshot;
  mempool_retriever : MempoolRpcRetriever;
  transaction_retriever : TR;
  cluster_retriever : CR;
  block_retriever : BR;
  network_retriever : NetworkRpcRetriever;
  node_health_service : NodeHealthService;
  readiness : Readiness;
  tx_backfill_queue : TxBackfillQueue;
}.
Arguments mkDeps {TR CR BR}.
Arguments repos {TR CR BR}.
Arguments pubsub {TR CR BR}.
Arguments mempool_ledger {TR CR BR}.
Arguments block_gate {TR CR BR}.
Arguments block_apply_lock {TR CR BR}.
Arguments cluster_snapshot {TR CR BR}.
Arguments feerate_diagram_snapshot {TR CR BR}.
Arguments mempool_retriever {TR CR BR}.
Arguments transaction_retriever {TR CR BR}.
Arguments cluster_retriever {TR CR BR}.
Arguments block_retriever {TR CR BR}.
Arguments network_retriever {TR CR BR}.
Arguments node_health_service {TR CR BR}.
Arguments readiness {TR CR BR}.
Arguments tx_backfill_queue {TR CR BR}.

(** The types [Deps] has by default. *)
Definition RpcDeps : Type := Deps TransactionRpcRetriever ClusterRpcRetriever BlockRpcRetriever.

Definition DEFAULT_TX_BACKFILL_QUEUE_CAPACITY : nat := Z.to_nat 100000.

Definition with_queue_capacity (repos : Repos) (clients : Clients) (queue_capacity : nat) :
    Alloc RpcDeps :=
  let pubsub := mkPubSubService (cl_pubsub clients) in
  mempool_ledger ← alloc Ledger.default;
  block_gate ← alloc Gate.new_gate;
  cluster_snapshot ← alloc (∅ : ClusterMap);
  feerate_diagram_snapshot ← alloc Watchers.MempoolFeerateDiagram_default;
  let mempool_retriever := mkMempoolRpcRetriever (cl_rpc clients) in
  let transaction_retriever := mkTransactionRpcRetriever (cl_rpc clients) in
  let cluster_retriever := mkClusterRpcRetriever (cl_rpc clients) in
  let block_retriever := mkBlockRpcRetriever (cl_rpc clients) in
  let network_retriever := mkNetworkRpcRetriever (cl_rpc clients) in
  node_health_service ←
    NodeHealthService_new (mkSystemEventService (repo_system_event repos)) network_retriever;
  block_apply_lock ← alloc Lifecycle.free;
  readiness ← alloc NodeHealth.Readiness_default;
  tx_backfill_queue ← alloc (Backfill.new_queue queue_capacity);
  mret (mkDeps repos pubsub mempool_ledger block_gate block_apply_lock cluster_snapshot
          feerate_diagram_snapshot mempool_retriever transaction_retriever cluster_retriever
          block_retriever network_retriever node_health_service readiness tx_backfill_queue).

Definition Deps_new (repos : Repos) (clients : Clients) : Alloc RpcDeps :=
  with_queue_capacity repos clients DEFAULT_TX_BACKFILL_QUEUE_CAPACITY.

Section services.
Context {TR CR BR : Type}.
Implicit Types self : Deps TR CR BR.

Definition cluster_delta_service self : ClusterDeltaService :=
  mkClusterDeltaService (cluster_snapshot self) (pubsub self).

Definition cluster_service self : ClusterService CR :=
  mkClusterService (repo_cluster (repos self)) (repo_cluster_membership (repos self))
    (repo_transaction (repos self)) (cluster_retriever self) (cluster_delta_service self)
    (mempool_ledger self).

Definition block_service self : BlockService BR CR :=
  mkBlockService (repo_block (repos self)) (mempool_ledger self) (block_gate self)
    (block_apply_lock self) (cluster_service self) (block_retriever self) (pubsub self).

Definition mempool_service self : MempoolService := mkMempoolService (pubsub self).

Definition mempool_reconciler self : MempoolReconciler CR :=
  mkMempoolReconciler (mempool_ledger self) (repo_mempool_ledger (repos self))
    (tx_backfill_queue self) (cluster_service self) (pubsub self) (block_gate self).

Definition home_service self : HomeService CR :=
  mkHomeService (repo_block (repos self)) (repo_mempool_delta (repos self))
    (mempool_ledger self) (cluster_service self) (pubsub self).

Definition gauge_sample_service self : GaugeSampleService :=
  mkGaugeSampleService (repo_gauge_sample (repos self)) (cluster_snapshot self)
    (mempool_ledger self).

Definition counter_sample_service self : CounterSampleService :=
  mkCounterSampleService (repo_counter_sample (repos self)) (repo_mempool_delta (repos self))
    (repo_system_event (repos self)).

Definition transaction_service self : TransactionService :=
  mkTransactionService (repo_transaction (repos self)).

Definition tx_backfill_consumer self : TxBackfillConsumer TR :=
  mkTxBackfillConsumer (repo_transaction (repos self)) (transaction_retriever self)
    (tx_backfill_queue self) (mempool_ledger self).

Definition feerate_diagram_service self : FeerateDiagramService :=
  mkFeerateDiagramService (feerate_diagram_snapshot self).

Definition system_event_service self : SystemEventService :=
  mkSystemEventService (repo_system_event (repos self)).

Definition node_status_service self : NodeStatusService :=
  mkNodeStatusService (pubsub self) (node_health_service self).

Definition with_transaction_retriever {T2} self (r : T2) : Deps T2 CR BR :=
  mkDeps (repos self) (pubsub self) (mempool_ledger self) (block_gate self)
    (block_apply_lock self) (cluster_snapshot self) (feerate_diagram_snapshot self)
    (mempool_retriever self) r (cluster_retriever self) (block_retriever self)
    (network_retriever self) (node_health_service self) (readiness self) (tx_backfill_queue self).

Definition with_cluster_retriever {C2} self (r : C2) : Deps TR C2 BR :=
  mkDeps (repos self) (pubsub self) (mempool_ledger self) (block_gate self)
    (block_apply_lock self) (cluster_snapshot self) (feerate_diagram_snapshot self)
    (mempool_retriever self) (transaction_retriever self) r (block_retriever self)
    (network_retriever self) (node_health_service self) (readiness self) (tx_backfill_queue self).

Definition with_block_retriever {B2} self (r : B2) : Deps TR CR B2 :=
  mkDeps (repos self) (pubsub self) (mempool_ledger self) (block_gate self)
    (block_apply_lock self) (cluster_snapshot self) (feerate_diagram_snapshot self)
    (mempool_retriever self) (transaction_retriever self) (cluster_retriever self) r
    (network_retriever self) (node_health_service self) (readiness self) (tx_backfill_queue self).

Definition with_mempool_retriever self (r : MempoolRpcRetriever) : Deps TR CR BR :=
  mkDeps (repos self) (pubsub self) (mempool_ledger self) (block_gate self)
    (block_apply_lock self) (cluster_snapshot self) (feerate_diagram_snapshot self)
    r (transaction_retriever self) (cluster_retriever self) (block_retriever self)
    (network_retriever self) (node_health_service self) (readiness self) (tx_backfill_queue self).

Definition with_pubsub self (p : PubSubService) : Deps TR CR BR :=
  mkDeps (repos self) p (mempool_ledger self) (block_gate self)
    (block_apply_lock self) (cluster_snapshot self) (feerate_diagram_snapshot self)
    (mempool_retriever self) (transaction_retriever self) (cluster_retriever self)
    (block_retriever self) (network_retriever self) (node_health_service self)
    (readiness self) (tx_backfill_queue self).

Definition with_cluster_snapshot self (s : ClusterSnapshot) : Deps TR CR BR :=
  mkDeps (repos self) (pubsub self) (mempool_ledger self) (block_gate self)
    (block_apply_lock self) s (feerate_diagram_snapshot self)
    (mempool_retriever self) (transaction_retriever self) (cluster_retriever self)
    (block_retriever self) (network_retriever self) (node_health_service self)
    (readiness self) (tx_backfill_queue self).

Definition with_feerate_diagram_snapshot self (s : FeerateDiagramSnapshot) : Deps TR CR BR :=
  mkDeps (repos self) (pubsub self) (mempool_ledger self) (block_gate self)
    (block_apply_lock self) (cluster_snapshot self) s
    (mempool_retriever self) (transaction_retriever self) (cluster_retriever self)
    (block_retriever self) (network_retriever self) (node_health_service self)
    (readiness self) (tx_backfill_queue self).
End services.

Definition bootstrap_service (self : RpcDeps) : BootstrapService :=
  mkBootstrapService (repo_mempool_delta (repos self)) (mempool_retriever self)
    (repo_transaction (repos self)) (mempool_ledger self) (block_service self)
    (cluster_service self) (system_event_service self) (node_status_service self)
    (tx_backfill_queue self).

(** [infra/state.rs]; the [FromRef] instances of the router are its projections. *)
Record AppState := mkAppState {
  st_mempool_ledger : MempoolLedger;
  st_mempool_service : MempoolService;
  st_block_service : BlockService BlockRpcRetriever ClusterRpcRetriever;
  st_cluster_service : ClusterService ClusterRpcRetriever;
  st_home_service : HomeService ClusterRpcRetriever;
  st_counter_sample_service : CounterSampleService;
  st_gauge_sample_service : GaugeSampleService;
  st_feerate_diagram_service : FeerateDiagramService;
  st_bootstrap_service : BootstrapService;
  st_readiness : Readiness;
  st_system_event_service : SystemEventService;
  st_transaction_service : TransactionService;
}.

Definition app_state (self : RpcDeps) : AppState :=
  {| st_readiness := readiness self;
     st_mempool_ledger := mempool_ledger self;
     st_mempool_service := mempool_service self;
     st_block_service := block_service self;
     st_cluster_service := cluster_service self;
     st_home_service := home_service self;
     st_counter_sample_service := counter_sample_service self;
     st_gauge_sample_service := gauge_sample_service self;
     st_feerate_diagram_service := feerate_diagram_service self;
     st_bootstrap_service := bootstrap_service self;
     st_system_event_service := system_event_service self;
     st_transaction_service := transaction_service self |}.

End Deps.
