(* ===== verification/Wiring.v ===== *)
(** * One shared state

    [observer/src/runner.rs] and [run] of [api/src/main.rs] as far as they decide who holds
    which handle: the router, the task that starts the server, the watchers and consumers it
    spawns, the samplers and the shutdown.  Each component's handles are listed, and the
    theorem says that they all lead to the same cells. *)

From S2P Require Import Prelude.
From S2P Require Import Models.
From S2P Require Import Dotenv.
From S2P Require Import Config.
From S2P Require Import PubSub.
From S2P Require Import Ledger.
From S2P Require Import Database.
From S2P Require Import NodeHealth.
From S2P Require Import Watchers.
From S2P Require Import Gate.
From S2P Require Import Backfill.
From S2P Require Import Lifecycle.
From S2P Require Import Transport.
From S2P Require Import Deps.

Module Wiring.
Import Deps.

(** ** The watchers *)

(** [as u32] *)
Definition to_u32 (z : Z) : Z := (z `mod` 2 ^ 32)%Z.

Record MempoolDeltaWatcher := mkMempoolDeltaWatcher {
  md_rpc : RpcClient;
  md_watch_rate : Z;
  md_ledger : MempoolLedger;
}.
Record FeerateDiagramWatcher := mkFeerateDiagramWatcher {
  fw_rpc : RpcClient;
  fw_watch_rate : Z;
  fw_tracker : list Watchers.FeerateDiagramPoint;
  fw_snapshot : FeerateDiagramSnapshot;
}.
Record BlockWatcher := mkBlockWatcher { bw_zmq : ZmqClient }.
Record NodeStatusWatcher := mkNodeStatusWatcher {
  nw_chain : ChainRpcRetriever;
  nw_watch_rate : Z;
  nw_last_reachable : option bool;
}.

(** The watchers and the bus each of them is started with; the mempool's has none. *)
Record Observer := mkObserver {
  ob_mempool_delta : MempoolDeltaWatcher;
  ob_feerate_diagram : FeerateDiagramWatcher * PubSub;
  ob_block : BlockWatcher * PubSub;
  ob_node_status : NodeStatusWatcher * PubSub;
}.

(** [runner::run] *)
Definition runner_run (config : Config.ObserverConfig) (clients : Clients)
    (mempool_ledger : MempoolLedger) (feerate_diagram_snapshot : FeerateDiagramSnapshot) :
    Observer :=
  let rate := to_u32 (Config.oc_poll_interval_secs config) in
  {| ob_mempool_delta := mkMempoolDeltaWatcher (cl_rpc clients) rate mempool_ledger;
     ob_feerate_diagram :=
       (mkFeerateDiagramWatcher (cl_rpc clients) rate [] feerate_diagram_snapshot, cl_pubsub clients);
     ob_block := (mkBlockWatcher (cl_zmq clients), cl_pubsub clients);
     ob_node_status :=
       (mkNodeStatusWatcher (mkChainRpcRetriever (cl_rpc clients)) rate None, cl_pubsub clients) |}.

(** ** The process *)

(** What [BootstrapService::run] leaves running. *)
Record Bootstrapped := mkBootstrapped {
  bo_persister : BlockService BlockRpcRetriever ClusterRpcRetriever;
  bo_status_consumer : NodeStatusService;
  bo_observer : Observer;
}.

Definition bootstrap_spawns (self : BootstrapService) (cfg : Config.ApiConfig) (clients : Clients)
    (feerate_diagram_snapshot : FeerateDiagramSnapshot) : Bootstrapped :=
  {| bo_persister := bt_block_service self;
     bo_status_consumer := bt_node_status_service self;
     bo_observer := runner_run (Config.ac_observer cfg) clients (bt_mempool_ledger self)
                      feerate_diagram_snapshot |}.

(** Every task of the process with what it was given. *)
Record Process := mkProcess {
  p_router : AppState;
  p_samplers : DbPool * PubSub;
  p_storage_sampler : DbPool;
  p_node_wait : ChainRpcRetriever * MempoolRpcRetriever * NodeHealthService * Readiness;
  p_bootstrap : BootstrapService;
  p_bootstrapped : Bootstrapped;
  p_gauge_sample : GaugeSampleService;
  p_counter_sample : CounterSampleService;
  p_consumer : TxBackfillConsumer TransactionRpcRetriever;
  p_reconciler : MempoolReconciler ClusterRpcRetriever;
  p_shutdown : SystemEventService * BlockService BlockRpcRetriever ClusterRpcRetriever;
}.

(** The tasks [run] of [main.rs] starts once the dependencies are made. *)
Definition spawn_tasks (cfg : Config.ApiConfig) (db_pool : DbPool) (clients : Clients)
    (deps : RpcDeps) : Process :=
  let state := app_state deps in
  let bootstrap := st_bootstrap_service state in
  {| p_router := state;
     p_samplers := (db_pool, cl_pubsub clients);
     p_storage_sampler := db_pool;
     p_node_wait := (mkChainRpcRetriever (cl_rpc clients), mkMempoolRpcRetriever (cl_rpc clients),
                     node_health_service deps, st_readiness state);
     p_bootstrap := bootstrap;
     p_bootstrapped := bootstrap_spawns bootstrap cfg clients (feerate_diagram_snapshot deps);
     p_gauge_sample := gauge_sample_service deps;
     p_counter_sample := counter_sample_service deps;
     p_consumer := tx_backfill_consumer deps;
     p_reconciler := mempool_reconciler deps;
     p_shutdown := (st_system_event_service state, st_block_service state) |}.

(** [run] of [main.rs].  [build_pool] of the database is an allocation; where the source
    panics because a client cannot be made, the error is returned. *)
Definition run (cfg : Config.ApiConfig) (database : Database.Conn) :
    Alloc (result ObserverError Process) :=
  db_pool ← alloc database;
  clients ← Clients_new (Config.ac_observer cfg);
  match clients with
  | Err e => mret (Err e)
  | Ok clients =>
      deps ← with_queue_capacity (Repos_new db_pool) clients
               (Z.to_nat (Config.ac_tx_backfill_queue_capacity cfg));
      mret (Ok (spawn_tasks cfg db_pool clients deps))
  end.

(** ** Who holds what *)

Definition Handles : Type := list (Kind * nat).

Definition system_event_handles (s : SystemEventService) : Handles :=
  [handle (ser_pool (ses_repository s))].
Definition pubsub_handles (s : PubSubService) : Handles := [handle (ps_client s)].
Definition transaction_handles (s : TransactionService) : Handles :=
  [handle (txr_pool (ts_repository s))].

Definition health_handles (s : NodeHealthService) : Handles :=
  system_event_handles (nh_system_event_service s) ++
  [handle (nr_rpc (nh_network_retriever s)); handle (nh_last s)].
Definition status_handles (s : NodeStatusService) : Handles :=
  pubsub_handles (nst_pubsub s) ++ health_handles (nst_node_health s).

Definition cluster_handles (s : ClusterService ClusterRpcRetriever) : Handles :=
  [handle (cr_pool (cs_cluster_repository s));
   handle (cmr_pool (cs_cluster_membership_repository s));
   handle (txr_pool (cs_transaction_repository s));
   handle (clr_rpc (cs_cluster_retriever s));
   handle (cd_snapshot (cs_cluster_delta_service s));
   handle (cs_mempool_ledger s)] ++ pubsub_handles (cd_pubsub (cs_cluster_delta_service s)).

Definition block_handles (s : BlockService BlockRpcRetriever ClusterRpcRetriever) : Handles :=
  [handle (br_pool (bs_block_repository s)); handle (bs_mempool_ledger s);
   handle (bs_block_gate s); handle (bs_apply_lock s); handle (blr_rpc (bs_block_retriever s))] ++
  cluster_handles (bs_cluster_service s) ++ pubsub_handles (bs_pubsub s).

Definition reconciler_handles (s : MempoolReconciler ClusterRpcRetriever) : Handles :=
  [handle (rec_ledger s); handle (mlr_pool (rec_repository s)); handle (rec_tx_backfill_queue s);
   handle (rec_block_gate s)] ++ cluster_handles (rec_cluster_service s) ++
  pubsub_handles (rec_pubsub s).

Definition home_handles (s : HomeService ClusterRpcRetriever) : Handles :=
  [handle (br_pool (hs_block_repository s)); handle (mdr_pool (hs_mempool_delta_repository s));
   handle (hs_mempool_ledger s)] ++ cluster_handles (hs_cluster_service s) ++
  pubsub_handles (hs_pubsub s).

Definition gauge_handles (s : GaugeSampleService) : Handles :=
  [handle (gsr_pool (gs_repository s)); handle (gs_cluster_snapshot s);
   handle (gs_mempool_ledger s)].

Definition counter_handles (s : CounterSampleService) : Handles :=
  [handle (csr_pool (ct_counter_sample_repository s));
   handle (mdr_pool (ct_mempool_delta_repository s));
   handle (ser_pool (ct_system_event_repository s))].

Definition consumer_handles (s : TxBackfillConsumer TransactionRpcRetriever) : Handles :=
  [handle (txr_pool (tc_transaction_repository s)); handle (tr_rpc (tc_transaction_retriever s));
   handle (tc_queue s); handle (tc_mempool_ledger s)].

Definition bootstrap_handles (s : BootstrapService) : Handles :=
  [handle (mdr_pool (bt_mempool_delta_repository s)); handle (mr_rpc (bt_mempool_retriever s));
   handle (txr_pool (bt_transaction_repository s)); handle (bt_mempool_ledger s);
   handle (bt_tx_backfill_queue s)] ++ block_handles (bt_block_service s) ++
  cluster_handles (bt_cluster_service s) ++ system_event_handles (bt_system_event_service s) ++
  status_handles (bt_node_status_service s).

Definition state_handles (s : AppState) : Handles :=
  [handle (st_mempool_ledger s); handle (st_readiness s);
   handle (fd_snapshot (st_feerate_diagram_service s))] ++
  pubsub_handles (ms_pubsub (st_mempool_service s)) ++ block_handles (st_block_service s) ++
  cluster_handles (st_cluster_service s) ++ home_handles (st_home_service s) ++
  counter_handles (st_counter_sample_service s) ++ gauge_handles (st_gauge_sample_service s) ++
  bootstrap_handles (st_bootstrap_service s) ++ system_event_handles (st_system_event_service s) ++
  transaction_handles (st_transaction_service s).

Definition observer_handles (o : Observer) : Handles :=
  [handle (md_rpc (ob_mempool_delta o)); handle (md_ledger (ob_mempool_delta o));
   handle (fw_rpc (ob_feerate_diagram o).1); handle (fw_snapshot (ob_feerate_diagram o).1);
   handle (ob_feerate_diagram o).2; handle (ob_block o).2;
   handle (chr_rpc (nw_chain (ob_node_status o).1)); handle (ob_node_status o).2].

Definition process_handles (p : Process) : Handles :=
  let '(chain, mempool, health, ready) := p_node_wait p in
  state_handles (p_router p) ++
  [handle (p_samplers p).1; handle (p_samplers p).2; handle (p_storage_sampler p);
   handle (chr_rpc chain); handle (mr_rpc mempool); handle ready] ++ health_handles health ++
  bootstrap_handles (p_bootstrap p) ++ block_handles (bo_persister (p_bootstrapped p)) ++
  status_handles (bo_status_consumer (p_bootstrapped p)) ++
  observer_handles (bo_observer (p_bootstrapped p)) ++ gauge_handles (p_gauge_sample p) ++
  counter_handles (p_counter_sample p) ++ consumer_handles (p_consumer p) ++
  reconciler_handles (p_reconciler p) ++ system_event_handles (p_shutdown p).1 ++
  block_handles (p_shutdown p).2.

(** What is behind the handles when the tasks start: the states the other files start from. *)
Definition initial (cfg : Config.ApiConfig) (database : Database.Conn) (k : Kind) : Cell :=
  match k with
  | KLedger => LedgerCell Ledger.default
  | KGate => GateCell Gate.new_gate
  | KLock => LockCell Lifecycle.free
  | KClusters => ClustersCell ∅
  | KDiagram => DiagramCell Watchers.MempoolFeerateDiagram_default
  | KQueue =>
      QueueCell (Backfill.new_queue (Z.to_nat (Config.ac_tx_backfill_queue_capacity cfg)))
  | KBus => BusCell PubSub.new
  | KReadiness => ReadinessCell NodeHealth.Readiness_default
  | KReachability => ReachabilityCell NodeHealth.Unknown
  | KRpc =>
      let rpc := Config.oc_rpc (Config.ac_observer cfg) in
      RpcCell (Transport.new_transport (Dotenv.str "http://" ++ Config.rpc_host rpc)
                 (Config.rpc_user rpc) (Config.rpc_pass rpc) Transport.TIMEOUT)
  | KPool => PoolCell database
  end.

(** The order in which [run] allocates. *)
Definition place (k : Kind) : nat :=
  match k with
  | KPool => 0 | KBus => 1 | KRpc => 2 | KLedger => 3 | KGate => 4 | KClusters => 5
  | KDiagram => 6 | KReachability => 7 | KLock => 8 | KReadiness => 9 | KQueue => 10
  end.

Lemma place_inj : Inj (=) (=) place.
Proof. by intros [] []. Qed.

(** The dependencies made from cells at the addresses [cell]. *)
Definition deps_at (cell : Kind → nat) : RpcDeps :=
  let rpc : RpcClient := mkRef (cell KRpc) in
  let repos := Repos_new (mkRef (cell KPool)) in
  {| repos := repos;
     pubsub := mkPubSubService (mkRef (cell KBus));
     mempool_ledger := mkRef (cell KLedger);
     block_gate := mkRef (cell KGate);
     block_apply_lock := mkRef (cell KLock);
     cluster_snapshot := mkRef (cell KClusters);
     feerate_diagram_snapshot := mkRef (cell KDiagram);
     mempool_retriever := mkMempoolRpcRetriever rpc;
     transaction_retriever := mkTransactionRpcRetriever rpc;
     cluster_retriever := mkClusterRpcRetriever rpc;
     block_retriever := mkBlockRpcRetriever rpc;
     network_retriever := mkNetworkRpcRetriever rpc;
     node_health_service :=
       mkNodeHealthService (mkSystemEventService (repo_system_event repos))
         (mkNetworkRpcRetriever rpc) (mkRef (cell KReachability));
     readiness := mkRef (cell KReadiness);
     tx_backfill_queue := mkRef (cell KQueue) |}.

Definition clients_at (cell : Kind → nat) (zmq : ZmqClient) : Clients :=
  mkClients (mkRef (cell KBus)) (mkRef (cell KRpc)) zmq.

Lemma handles_at cfg cell zmq :
  let p := spawn_tasks cfg (mkRef (cell KPool)) (clients_at cell zmq) (deps_at cell) in
  Forall (λ ka : Kind * nat, ka.2 = cell ka.1) (process_handles p) ∧
  ∀ k, (k, cell k) ∈ process_handles p.
Proof.
  split.
  - cbn. repeat constructor.
  - intros k. apply list_elem_of_In. cbn. destruct k; tauto.
Qed.

(** The cells are allocated one after the other. *)
Definition cell_from (n : nat) (k : Kind) : nat := (place k + n)%nat.

Definition filled (cfg : Config.ApiConfig) (database : Database.Conn) (h : Heap) : Heap :=
  let fill m k := <[cell_from (next h) k := initial cfg database k]> m in
  mkHeap (11 + next h)
    (foldl fill (cells h)
       [KPool; KBus; KRpc; KLedger; KGate; KClusters; KDiagram; KReachability; KLock;
        KReadiness; KQueue]).

Lemma run_allocates cfg database h :
  run cfg database h =
    (Ok (spawn_tasks cfg (mkRef (cell_from (next h) KPool))
           (clients_at (cell_from (next h)) (ZmqClient_new (Config.ac_observer cfg)))
           (deps_at (cell_from (next h)))), filled cfg database h).
Proof. reflexivity. Qed.

Lemma filled_initial cfg database h k :
  cells (filled cfg database h) !! cell_from (next h) k = Some (initial cfg database k).
Proof.
  unfold filled. cbn [cells foldl].
  destruct k; repeat (rw lookup_insert_ne; [|unfold cell_from; simpl; lia]); by rw lookup_insert_eq.
Qed.

#[global] Instance cell_from_inj n : Inj (=) (=) (cell_from n).
Proof. intros k k' Heq. apply place_inj. unfold cell_from in Heq. lia. Qed.

(** C10.  The process is wired to one shared state.  Starting it succeeds and leaves one cell
    per kind of state, all different, in the state the other parts of this development start
    from; the handles of the router, of every background task and of the shutdown are exactly
    these.  So what one component writes, through whichever handle, is what every other reads
    next, and it changes nothing of another kind. *)
Theorem services_share_one_state cfg database h :
  ∃ p h' (cell : Kind → nat), run cfg database h = (Ok p, h') ∧ Inj (=) (=) cell ∧
  (∀ k, cells h' !! cell k = Some (initial cfg database k)) ∧
  (∀ k a, (k, a) ∈ process_handles p ↔ a = cell k) ∧
  (∀ T `(Stored T) (r r' : Ref T) (x : T) hp,
     handle r ∈ process_handles p → handle r' ∈ process_handles p →
     read r' (write r x hp) = Some x) ∧
  (∀ T U `(Stored T, Stored U) (r : Ref T) (u : Ref U) (x : T) hp,
     handle r ∈ process_handles p → handle u ∈ process_handles p → kind (T := T) ≠ kind (T := U) →
     read u (write r x hp) = read u hp).
Proof.
  eexists _, _, (cell_from (next h)). split; [apply run_allocates|].
  destruct (handles_at cfg (cell_from (next h)) (ZmqClient_new (Config.ac_observer cfg))) as [Hall Hin].
  rewrite -> Forall_forall in Hall.
  split_and!.
  - apply _.
  - apply filled_initial.
  - intros k a. split; [by intros Hk%Hall|intros ->; apply Hin].
  - intros T HT r r' x hp Hr%Hall Hr'%Hall. apply read_write_same. simpl in *. congruence.
  - intros T U HT HU r u x hp Hr%Hall Hu%Hall Hne. apply read_write_other. simpl in *.
    rw Hr Hu. intros Heq. by apply Hne, (inj (cell_from (next h))).
Qed.
End Wiring.
