(* ===== verification/Startup.v ===== *)
(** * Start-up

    [run] of [api/src/main.rs] up to the moment the data routes open, with
    [api/src/services/bootstrap.rs], [run]: wait for the node, catch up on missed blocks,
    adopt the node's mempool, seed the cluster snapshot, and only then become ready.  The
    parts are those of [NodeHealth], [Blocks], [Bootstrap] and [ClusterService]; here they
    share one database connection and run in the order of the source.  The tasks spawned on
    the way (the stream consumers and the watchers) are the subject of their own files. *)

From S2P Require Import Prelude.
From S2P Require Import Models.
From S2P Require Import Database.
From S2P Require Import SystemEvents.
From S2P Require Import NodeHealth.
From S2P Require Import ClusterRepo.
From S2P Require Import ClusterInv.
From S2P Require Import TxRepo.
From S2P Require Import Ledger.
From S2P Require Import ClusterService.
From S2P Require Import ClusterActive.
From S2P Require Import ClusterRounds.
From S2P Require Import ClusterSync.
From S2P Require Import ClusterServiceThms.
From S2P Require Import Gate.
From S2P Require Import Backfill.
From S2P Require Import Reconciler.
From S2P Require Import Blocks.
From S2P Require Import Bootstrap.

Open Scope Z_scope.

Module Startup.
Import Database SystemEvents NodeHealth ClusterInv ClusterService ClusterActive ClusterRounds
  ClusterSync ClusterServiceThms Reconciler Blocks Bootstrap.

(** The process: the services' state, the [system_events] table beside the tables of the
    connection, what the health service remembers, and the readiness the router reads. *)
Record Server := mkServer {
  sv_node : Node;
  sv_rows : list SystemEventRow;
  sv_seq : Z;
  sv_last : Reachability;
  sv_net_calls : nat;
  sv_readiness : Readiness;
}.

Definition sv_world (s : Server) : World := n_world (sv_node s).
Definition sv_db (s : Server) : Db := w_db (sv_world s).

Definition set_conn (c : Conn) (w : World) : World :=
  mkWorld c (w_ledger w) (w_snapshot w) (w_bus w) (w_calls w) (w_log w).
Definition reconnect (c : Conn) (n : Node) : Node :=
  mkNode (set_conn c (n_world n)) (n_gate n) (n_queue n).

Definition sv_log (s : Server) : Log := mkLog (w_conn (sv_world s)) (sv_rows s) (sv_seq s).
Definition set_log (lg : Log) (s : Server) : Server :=
  mkServer (reconnect (lg_conn lg) (sv_node s)) (lg_rows lg) (lg_seq lg) (sv_last s)
    (sv_net_calls s) (sv_readiness s).

(** The health service, on the server's log. *)
Definition sv_health (s : Server) : NodeHealthService :=
  mkNodeHealthService (sv_log s) (sv_last s) (sv_net_calls s).
Definition set_health (h : NodeHealthService) (s : Server) : Server :=
  let s := set_log (nh_log h) s in
  mkServer (sv_node s) (sv_rows s) (sv_seq s) (nh_last h) (nh_calls h) (sv_readiness s).

Definition set_node (n : Node) (s : Server) : Server :=
  mkServer n (sv_rows s) (sv_seq s) (sv_last s) (sv_net_calls s) (sv_readiness s).
Definition set_readiness (r : Readiness) (s : Server) : Server :=
  mkServer (sv_node s) (sv_rows s) (sv_seq s) (sv_last s) (sv_net_calls s) r.

(** [bootstrap_completed_details] *)
Definition bootstrap_completed_details (duration_ms : Z)
    (reconciliation : option MempoolReconciliation) : Value :=
  match reconciliation with
  | Some r => [("duration_ms", Number duration_ms);
               ("txs_added", Number (Z.of_nat (txs_added r)));
               ("txs_removed", Number (Z.of_nat (txs_removed r)))]
  | None => [("duration_ms", Number duration_ms); ("reconciled", Bool false)]
  end.

Section startup.
Context `{EnumOrder, BitcoinUnits, Env}.
(** The node's answers, by the number of calls made before. *)
Context (get_mempool_cluster : nat → string → result ObserverError GetMempoolClusterModel).
Context (get_block : nat → string → result ObserverError GetBlockModel).
Context (get_tip_height : nat → result ObserverError Z).
Context (get_block_hash : nat → Z → result ObserverError string).
Context (get_raw_mempool_verbose : nat → result ObserverError (list MempoolEntrySummary)).
Context (get_network_info : nat → result ObserverError GetNetworkInfoModel).
Context (get_blockchain_info : nat → result ObserverError GetBlockchainInfoModel).
Context (get_mempool_info : nat → result ObserverError GetMempoolInfoModel).
(** The monotonic clock, in milliseconds. *)
Context (instant : nat → Z).

(** [SystemEventService::record] *)
Definition record_on (kind : SystemEventKind) (details : Value) (s : Server) : Server :=
  set_log (record kind details (sv_log s)).2 s.

(** [BootstrapService::run] *)
Definition bootstrap_run (fuel : nat) (s : Server) : option Server :=
  let start := instant (w_calls (sv_world s)) in
  let s := record_on BootstrapStarted [] s in
  match sync_missing_blocks get_mempool_cluster get_block get_tip_height get_block_hash instant
          fuel (sv_node s) with
  | None => None
  | Some (_, n) =>
      let '((reconciliation, queue), w) :=
        setup_mempool_snapshot get_raw_mempool_verbose (n_queue n) (n_world n) in
      let w := (seed_snapshot w).2 in
      let s := set_node (mkNode w (n_gate n) queue) s in
      Some (record_on BootstrapCompleted
              (bootstrap_completed_details (instant (w_calls w) - start) reconciliation) s)
  end.

(** The task [run] of [main.rs] spawns, up to [Phase::Ready]. *)
Definition startup (fuel : nat) (s : Server) : option Server :=
  match wait_until_ready (H0 := service_reporter get_network_info) get_blockchain_info
          get_mempool_info fuel 0 (sv_health s, sv_readiness s) with
  | None => None
  | Some (_, (h, r)) =>
      let s := set_readiness (set_phase Bootstrapping r) (set_health h s) in
      match bootstrap_run fuel s with
      | None => None
      | Some s => Some (set_readiness (set_phase Ready (sv_readiness s)) s)
      end
  end.

(** The outage ends: after finitely many attempts that fail, one to catch up succeeds. *)
Inductive recovers : Node → Prop :=
| recovers_now n n' :
    (∃ fuel0, ∀ fuel, (fuel0 ≤ fuel)%nat →
       catch_up get_mempool_cluster get_block get_tip_height get_block_hash instant fuel n
       = Some (Ok (), n')) → recovers n
| recovers_later n e n' :
    (∃ fuel0, ∀ fuel, (fuel0 ≤ fuel)%nat →
       catch_up get_mempool_cluster get_block get_tip_height get_block_hash instant fuel n
       = Some (Err e, n')) → recovers n' → recovers n.
End startup.

(** ** The log *)

Section log_facts.
Context `{Env}.

(** Recording an event appends its row or nothing, and leaves the tables and the services
    alone but for the connection's step. *)
Lemma record_on_spec kind details s :
  let s' := record_on kind details s in
  (∃ c, conn_db c = sv_db s ∧ sv_node s' = reconnect c (sv_node s)) ∧
  sv_readiness s' = sv_readiness s ∧
  ∃ l, sv_rows s' = sv_rows s ++ l ∧
    (l = [] ∧ ¬ faultless ∨ ∃ id now, l = [mkSystemEventRow id kind details now]).
Proof.
  cbv zeta. pose proof (record_spec kind details (sv_log s)) as [Hd Hr].
  split; [|split; [done|]].
  { eexists. split; [|done]. exact Hd. }
  destruct Hr as [[Hr _]|(now & Hr & _)].
  - exists []. rw app_nil_r. split; [exact Hr|left; split; [done|]]. intros Hf.
    destruct (record_faultless kind details (sv_log s) Hf) as [now Hn]. rw Hr in Hn.
    apply (f_equal length) in Hn. rw length_app in Hn. simpl in Hn. lia.
  - eexists. split; [exact Hr|]. right. by eexists _, _.
Qed.
End log_facts.

(** The first moment something holds. *)
Lemma first_true (p : nat → bool) k :
  p k = true → ∃ n, (n ≤ k)%nat ∧ p n = true ∧ ∀ i, (i < n)%nat → p i = false.
Proof.
  intros Hk. assert (∀ m, (∀ i, (i < m)%nat → p i = false) ∨
    ∃ n, (n < m)%nat ∧ p n = true ∧ ∀ i, (i < n)%nat → p i = false) as Hgen.
  { induction m as [|m [IH|(n & Hn & Hp & Hf)]].
    - left. lia.
    - destruct (p m) eqn:Em; [right; exists m; split_and!; [lia|done|done]|left].
      intros i Hi. destruct (decide (i = m)) as [->|]; [done|apply IH; lia].
    - right. exists n. split_and!; [lia|done|done]. }
  destruct (Hgen (S k)) as [Hf|(n & Hn & Hp & Hf)].
  - rw Hf in Hk; [done|lia].
  - exists n. split_and!; [lia|done|done].
Qed.

Section facts.
Context `{EnumOrder, BitcoinUnits, Env}.
Context (get_mempool_cluster : nat → string → result ObserverError GetMempoolClusterModel).
Context (get_block : nat → string → result ObserverError GetBlockModel).
Context (get_tip_height : nat → result ObserverError Z).
Context (get_block_hash : nat → Z → result ObserverError string).
Context (get_raw_mempool_verbose : nat → result ObserverError (list MempoolEntrySummary)).
Context (get_network_info : nat → result ObserverError GetNetworkInfoModel).
Context (get_blockchain_info : nat → result ObserverError GetBlockchainInfoModel).
Context (get_mempool_info : nat → result ObserverError GetMempoolInfoModel).
Context (instant : nat → Z).
Context (height_of : string → Z) (max_tip : Z).
Context (node : chain_node get_mempool_cluster get_block get_tip_height get_block_hash
                  height_of max_tip).

Local Abbreviation recovers :=
  (recovers get_mempool_cluster get_block get_tip_height get_block_hash instant).
Local Abbreviation sync := (sync_attempts get_mempool_cluster get_block get_tip_height
  get_block_hash instant).

(** The retries end when the outage does, at a tip. *)
Lemma sync_attempts_settles n :
  recovers n → sound height_of (n_world n) → ∀ attempts,
  ∃ slept n', (∃ fuel0, ∀ tries fuel, (fuel0 ≤ tries)%nat → (fuel0 ≤ fuel)%nat →
      sync tries fuel attempts n = Some (slept, n')) ∧
    progressed height_of n n' ∧ at_tip get_tip_height n'.
Proof.
  induction 1 as [n n1 [f Hf]|n e n1 [f Hf] Hrec IH]; intros Hs attempts.
  all: destruct (catch_up_loop_settles _ _ _ _ instant _ _ node
         (S (room max_tip (w_db (n_world n)))) n Hs) as (r & n2 & _ & [g Hg] & Hp & Ht); [lia|].
  all: set (F := (f `max` (g `max` S (room max_tip (w_db (n_world n)))))%nat).
  all: assert (catch_up get_mempool_cluster get_block get_tip_height get_block_hash instant F n
               = Some (r, n2)) as HF by (apply Hg; subst F; lia).
  all: rw (Hf F) in HF; [|subst F; lia]; injection HF as <- <-.
  - exists [], n1. split; [|split; [done|by apply Ht]]. exists (S f). intros [|tries] fuel Ht1 Hf1; [lia|].
    cbn [sync_attempts]. unfold mbind, NRun_bind. by rw Hf; [|lia].
  - destruct (IH (pr_sound _ _ _ Hp) (Z.min (attempts + 1) (2 ^ 32 - 1)))
      as (slept & n3 & [h Hh] & Hp' & Ht').
    exists (catch_up_backoff attempts :: slept), n3.
    split; [|split; [by eapply progressed_trans|done]].
    exists (S (f `max` h)). intros [|tries] fuel Ht1 Hf1; [lia|].
    cbn [sync_attempts]. unfold mbind, NRun_bind. rw Hf; [|lia]. rw Hh; [done|lia..].
Qed.

(** Sampling the missing heights reads. *)
Lemma missing_heights_call n :
  let w' := (call TxRepo.missing_heights (n_world n)).2 in
  ∃ c, conn_db c = w_db (n_world n) ∧ w' = set_conn c (n_world n).
Proof.
  cbv zeta. unfold call.
  destruct (TxRepo.missing_heights (w_conn (n_world n))) as [r c] eqn:E. exists c. split; [|done].
  revert E. unfold TxRepo.missing_heights, query, select, statement, w_db.
  destruct (pool_fault _); [by intros [= _ <-]|]. simpl.
  destruct (stmt_fault _); simpl; by intros [= _ <-].
Qed.

Local Abbreviation bootstrap := (bootstrap_run get_mempool_cluster get_block get_tip_height
  get_block_hash get_raw_mempool_verbose instant).

(** What a start-up leaves of the stored state: well formed clusters, blocks up to a tip the
    node reported, the snapshot unless reading it failed, and the node's mempool unless that
    stage gave up. *)
Record booted (db : Db) (r : option MempoolReconciliation) (n : Node) : Prop := {
  bd_sound : sound height_of (n_world n);
  bd_gapless : gapless db (w_db (n_world n));
  bd_tip : at_tip get_tip_height n;
  bd_mirrored : SeedFailed ∉ w_log (n_world n) → mirrored (n_world n);
  bd_ledger : ∀ m, r = Some m →
    ∃ k txs, get_raw_mempool_verbose k = Ok txs ∧
             Ledger.live (w_ledger (n_world n)) = node_mempool txs;
  bd_adopted : faultless → (∀ k, ∃ txs, get_raw_mempool_verbose k = Ok txs) → is_Some r;
}.

Lemma at_tip_blocks n n' :
  db_blocks (w_db (n_world n')) = db_blocks (w_db (n_world n)) →
  at_tip get_tip_height n → at_tip get_tip_height n'.
Proof.
  intros Hb (k & tip & x & Hk & [Hx Hm] & Hle). exists k, tip, x. split; [done|]. split; [|done].
  assert (TxRepo.heights (w_db (n_world n')) = TxRepo.heights (w_db (n_world n))) as Hh
    by (unfold TxRepo.heights; by rw Hb).
  unfold highest. by rw Hh.
Qed.

(** Another step of the connection changes nothing that is stored. *)
Lemma sound_reconnect c n :
  conn_db c = w_db (n_world n) → sound height_of (n_world n) →
  sound height_of (n_world (reconnect c n)).
Proof.
  intros Hc [[Hi Hk] Hb]. unfold reconnect, set_conn. simpl.
  set (w' := mkWorld c _ _ _ _ _). assert (w_db w' = w_db (n_world n)) as Hd by exact Hc.
  split; [split|]; [by rw Hd|unfold w_actives in *; by rw Hd|by rw Hd].
Qed.

Lemma booted_reconnect db r c n :
  conn_db c = w_db (n_world n) → booted db r n → booted db r (reconnect c n).
Proof.
  intros Hc [B1 B2 B3 B4 B5 B6].
  assert (w_db (n_world (reconnect c n)) = w_db (n_world n)) as Hd by exact Hc.
  split.
  - by apply sound_reconnect.
  - by rw Hd.
  - apply (at_tip_blocks n); [by rw Hd|done].
  - intros Hl. specialize (B4 Hl). unfold mirrored, w_actives in *. by rw Hd.
  - exact B5.
  - exact B6.
Qed.

Lemma seed_snapshot_rest w :
  let w' := (seed_snapshot w).2 in
  w_ledger w' = w_ledger w ∧ (w_log w' = w_log w ∨ SeedFailed ∈ w_log w').
Proof.
  cbv zeta. unfold seed_snapshot, mbind, Svc_bind, call.
  destruct (ClusterRepo.find_active _) as [[rows|e] c]; simpl; [by split; [|left]|].
  split; [done|]. right. set_solver.
Qed.

(** From the end of the block sync to the end of the seeding. *)
Lemma setup_and_seed_booted db n :
  sound height_of (n_world n) → gapless db (w_db (n_world n)) → at_tip get_tip_height n →
  let '((r, queue), w) := setup_mempool_snapshot get_raw_mempool_verbose (n_queue n) (n_world n) in
  booted db r (mkNode (seed_snapshot w).2 (n_gate n) queue).
Proof.
  intros [[Hi Hc] Hb] Hg Ht.
  pose proof (setup_spec get_raw_mempool_verbose (n_queue n) (n_world n)) as Hs.
  pose proof (setup_keeps get_raw_mempool_verbose (n_queue n) (n_world n) Hi) as Hk.
  pose proof (setup_adopts get_raw_mempool_verbose (n_queue n) (n_world n)) as Had.
  destruct (setup_mempool_snapshot _ _ _) as [[r queue] w]. simpl in Hk.
  destruct Hk as (Hi' & Ha & _ & Hbl).
  pose proof (seed_snapshot_mirrors w Hi') as (Hd & Hm & _).
  pose proof (seed_snapshot_rest w) as [Hl Hlog].
  set (w' := (seed_snapshot w).2) in *.
  assert (db_blocks (w_db w') = db_blocks (w_db (n_world n))) as Hbl' by by rw Hd.
  split; simpl.
  - apply (sound_blocks height_of (n_world n)); [by split| |done].
    assert (w_actives w' = w_actives w) as Ha' by by unfold w_actives; rw Hd.
    split; [by rw Hd|by rw Ha' Ha].
  - eapply gapless_trans; [exact Hg|by apply gapless_same].
  - by apply (at_tip_blocks n).
  - intros Hseed. apply Hm. by destruct Hlog.
  - intros m ->. destruct Hs as (_ & _ & txs & k & Hk & Hw & _). exists (w_calls (n_world n)), txs.
    split; [done|]. by rw Hl Hw.
  - exact Had.
Qed.

Lemma bootstrap_run_settles s :
  sound height_of (sv_world s) →
  (∀ c, conn_db c = sv_db s → recovers (reconnect c (sv_node s))) →
  ∃ s' r l, (∃ fuel0, ∀ fuel, (fuel0 ≤ fuel)%nat → bootstrap fuel s = Some s') ∧
    booted (sv_db s) r (sv_node s') ∧ sv_readiness s' = sv_readiness s ∧
    sv_rows s' = sv_rows s ++ l ∧
    (ev_kind <$> l) `sublist_of` [BootstrapStarted; BootstrapCompleted] ∧
    (faultless → ∃ row1 row2 d, l = [row1; row2] ∧ ev_kind row1 = BootstrapStarted ∧
       ev_kind row2 = BootstrapCompleted ∧ ev_details row2 = bootstrap_completed_details d r).
Proof.
  intros Hs Hrec. unfold bootstrap_run.
  pose proof (record_on_spec BootstrapStarted [] s) as ((c & Hc & Hn) & Hr & l1 & Hl1 & Hk1).
  set (s1 := record_on BootstrapStarted [] s) in *. rw Hn.
  destruct (sync_attempts_settles _ (Hrec c Hc) (sound_reconnect c (sv_node s) Hc Hs) 0)
    as (slept & n1 & [f Hf] & [P1 _ P3] & Ht).
  destruct (missing_heights_call n1) as (c2 & Hc2 & Hm). set (n2 := reconnect c2 n1).
  assert (∀ fuel, (f ≤ fuel)%nat → sync_missing_blocks get_mempool_cluster get_block
    get_tip_height get_block_hash instant fuel (reconnect c (sv_node s)) = Some (slept, n2)) as Hsync.
  { intros fuel Hle. unfold sync_missing_blocks, mbind, NRun_bind. rw Hf //. unfold on_world, lift.
    destruct (call TxRepo.missing_heights (n_world n1)) as [r w]. simpl in Hm. by subst w. }
  assert (gapless (sv_db s) (w_db (n_world n2))) as Hg.
  { unfold n2. change (w_db (n_world (reconnect c2 n1))) with (conn_db c2). rw Hc2.
    change (w_db (n_world (reconnect c (sv_node s)))) with (conn_db c) in P3. by rw Hc in P3. }
  pose proof (setup_and_seed_booted (sv_db s) n2 (sound_reconnect c2 n1 Hc2 P1) Hg
    (at_tip_blocks n1 n2 (f_equal db_blocks Hc2) Ht)) as Hbd.
  destruct (setup_mempool_snapshot _ _ _) as [[r queue] w] eqn:Esetup.
  set (s3 := set_node (mkNode (seed_snapshot w).2 (n_gate n2) queue) s1) in *.
  set (d := instant (w_calls (seed_snapshot w).2) - instant (w_calls (sv_world s))).
  pose proof (record_on_spec BootstrapCompleted (bootstrap_completed_details d r) s3)
    as ((c3 & Hc3 & Hn3) & Hr3 & l2 & Hl2 & Hk2).
  exists (record_on BootstrapCompleted (bootstrap_completed_details d r) s3), r, (l1 ++ l2).
  split; [exists f; intros fuel Hle; by rw (Hsync fuel Hle) Esetup|].
  split; [rw Hn3; by apply booted_reconnect|]. split; [by rw Hr3|].
  split; [by rw Hl2 app_assoc -Hl1|]. rw fmap_app.
  destruct Hk1 as [[-> Hf1]|(i1 & t1 & ->)], Hk2 as [[-> Hf2]|(i2 & t2 & ->)]; simpl.
  - split; [apply sublist_nil_l|done].
  - split; [by do 2 constructor|done].
  - split; [by do 3 constructor|done].
  - split; [done|]. intros _. by eexists _, _, d.
Qed.

Local Abbreviation start := (startup get_mempool_cluster get_block get_tip_height get_block_hash
  get_raw_mempool_verbose get_network_info get_blockchain_info get_mempool_info instant).

(** What a start-up that completes leaves. *)
Lemma startup_settles k s :
  node_ready get_blockchain_info get_mempool_info k = true →
  sound height_of (sv_world s) →
  (∀ c, conn_db c = sv_db s → recovers (reconnect c (sv_node s))) →
  ∃ s' r polls l n info, (∃ fuel0, ∀ fuel, (fuel0 ≤ fuel)%nat → start fuel s = Some s') ∧
    booted (sv_db s) r (sv_node s') ∧
    get_blockchain_info n = Ok info ∧ sv_readiness s' = mkReadiness Ready (ready_report info) ∧
    is_ready (sv_readiness s') = true ∧ sv_rows s' = sv_rows s ++ polls ++ l ∧
    connectivity polls `sublist_of`
      flips (sv_last s) (answered <$> (get_blockchain_info <$> seq 0 (S n))) ∧
    (ev_kind <$> l) `sublist_of` [BootstrapStarted; BootstrapCompleted] ∧
    (faultless →
     connectivity polls = flips (sv_last s) (answered <$> (get_blockchain_info <$> seq 0 (S n))) ∧
     ∃ row1 row2 d, l = [row1; row2] ∧ ev_kind row1 = BootstrapStarted ∧
       ev_kind row2 = BootstrapCompleted ∧ ev_details row2 = bootstrap_completed_details d r).
Proof.
  intros Hk Hs Hrec. apply first_true in Hk as (n & Hn & Hready & Hfirst).
  assert (∃ info, get_blockchain_info n = Ok info) as [info Hinfo].
  { unfold node_ready in Hready. destruct (get_blockchain_info n); [by eexists|done]. }
  set (answers := get_blockchain_info <$> seq 0 (S n)).
  pose proof (report_polls_spec get_network_info answers (sv_health s))
    as (_ & polls & (E1 & E2 & _) & Hsub & Heq).
  set (h := foldl _ (sv_health s) answers) in *.
  set (r1 := mkReadiness (rd_phase (sv_readiness s)) (ready_report info)).
  assert (∀ fuel, (n < fuel)%nat →
    wait_until_ready (H0 := service_reporter get_network_info) get_blockchain_info
      get_mempool_info fuel 0 (sv_health s, sv_readiness s) = Some (n, (h, r1))) as Hwait.
  { intros fuel Hf. apply wait_until_ready_spec. rw Nat.sub_0_r.
    split_and!; [lia|lia|done|intros i Hi; apply Hfirst; lia|done|by exists info]. }
  set (s1 := set_readiness (set_phase Bootstrapping r1) (set_health h s)).
  assert (conn_db (lg_conn (nh_log h)) = sv_db s) as Hdb by exact E2.
  assert (sv_node s1 = reconnect (lg_conn (nh_log h)) (sv_node s)) as Hn1 by done.
  destruct (bootstrap_run_settles s1) as (s2 & r & l & [f Hf] & Hb & Hr & Hrows & Hl & Hfl).
  { unfold sv_world. rw Hn1. by apply sound_reconnect. }
  { intros c Hc. rw Hn1. apply (Hrec c). by rw Hc. }
  exists (set_readiness (set_phase Ready (sv_readiness s2)) s2), r, polls, l, n, info.
  split. { exists (S n `max` f)%nat. intros fuel Hle. unfold startup. rw Hwait; [|lia].
    fold s1. rw Hf; [done|lia]. }
  split. { assert (sv_db s1 = sv_db s) as <- by exact Hdb. exact Hb. }
  split; [done|]. split; [by rw /= Hr|]. split; [done|].
  split; [by rw /= Hrows app_assoc -E1|]. split; [done|]. split; [done|].
  intros Hfault. split; [by apply Heq|by apply Hfl].
Qed.

End facts.

(** ** Witness *)

(** An empty database and a node with a single block. *)
Definition fresh_node : Node :=
  mkNode (mkWorld (mkConn empty_db 0 None) Ledger.default ∅ [] 0 []) Gate.new_gate
    (Backfill.new_queue 10).
Definition fresh_server : Server := mkServer fresh_node [] 0 Unknown 0 Readiness_default.

Lemma fresh_sound : sound demo_height (sv_world fresh_server).
Proof.
  split; [|intros h b Hb; simpl in Hb; by rw lookup_empty in Hb].
  split; [apply cluster_inv_empty|]. assert (w_actives (sv_world fresh_server) = ∅) as -> by reflexivity.
  split; [apply disjoint_empty|]. intros id s. by rw lookup_empty.
Qed.

Lemma fresh_recovers c :
  conn_db c = sv_db fresh_server →
  @recovers stored_order ceil_units calm_env (λ _, demo_group) demo_get_block (λ _, Ok 3)
    demo_get_hash Z.of_nat (reconnect c fresh_node).
Proof.
  destruct c as [db step txn]. intros Hdb. simpl in Hdb. subst db.
  eapply recovers_now. exists 20%nat. intros fuel Hle.
  replace fuel with (20 + (fuel - 20))%nat by lia. generalize (fuel - 20)%nat. clear fuel Hle.
  intros fuel. vm_compute. reflexivity.
Qed.


End Startup.
