(* ===== verification/Restart.v ===== *)
(** * Crashes and restarts

    What survives the process is the database; the ledger with its journal, the cluster
    snapshot, the backfill queue, the gate and the readiness are memory, made anew by
    [Deps::with_queue_capacity] (see [Wiring]).  A life of the process starts from the tables
    alone, takes turns of the start-up and of the tasks of [api/src/main.rs], those of the block
    task in the middle of a catch-up or of a block included, and may end after any of them.  It may also end in the middle of a turn: statements that run in a
    transaction are rolled back, the others are there, which is what the turn leaves when
    every later statement fails, and the environment of a life may let them fail from any
    step on.  Every life has its own environment, enumeration order and answers of the node;
    the chain is the same. *)

From S2P Require Import Prelude.
From S2P Require Import Models.
From S2P Require Import Database.
From S2P Require Import SystemEvents.
From S2P Require Import NodeHealth.
From S2P Require Import ClusterInv.
From S2P Require Import TxRepo.
From S2P Require Import Ledger.
From S2P Require Import ClusterService.
From S2P Require Import ClusterActive.
From S2P Require Import ClusterRounds.
From S2P Require Import ClusterSync.
From S2P Require Import ClusterServiceThms.
From S2P Require Import Gate.
From S2P Require Import Backfill.
From S2P Require Import Reconciler.
From S2P Require Import Blocks.
From S2P Require Import BlockTask.
From S2P Require Import System.
From S2P Require Import Bootstrap.
From S2P Require Import Startup.

Open Scope Z_scope.

Module Restart.
Import Database SystemEvents NodeHealth ClusterInv ClusterService ClusterActive ClusterRounds
  ClusterSync ClusterServiceThms Reconciler Blocks BlockTask System Bootstrap Startup.

(** The memory of a process that has just been built, on the tables it finds. *)
Definition reborn (capacity : nat) (db : Db) : Node :=
  mkNode (mkWorld (mkConn db 0 None) Ledger.default ∅ [] 0 []) Gate.new_gate
    (Backfill.new_queue capacity).
Definition reborn_server (capacity : nat) (db : Db) (rows : list SystemEventRow) (seq : Z) : Server :=
  mkServer (reborn capacity db) rows seq Unknown 0 Readiness_default.

Section life.
Context `{EnumOrder, BitcoinUnits, Env}.
Context (get_mempool_cluster : nat → string → result ObserverError GetMempoolClusterModel).
Context (get_block : nat → string → result ObserverError GetBlockModel).
Context (get_tip_height : nat → result ObserverError Z).
Context (get_block_hash : nat → Z → result ObserverError string).
Context (get_raw_transaction : nat → string → result ObserverError GetRawTransactionModel).
Context (get_mempool_entry : nat → string → result ObserverError MempoolEntrySummary).
Context (get_raw_mempool_verbose : nat → result ObserverError (list MempoolEntrySummary)).
Context (get_network_info : nat → result ObserverError GetNetworkInfoModel).
Context (get_blockchain_info : nat → result ObserverError GetBlockchainInfoModel).
Context (get_mempool_info : nat → result ObserverError GetMempoolInfoModel).
Context (jittered : Z → string * Z → Z).
Context (instant : nat → Z).

(** A turn: of one of the tasks (the catch-up of the bootstrap takes those of the block task,
    which is not running yet), the two other stages of the bootstrap, or a statement on a table
    of its own, such as a recorded event. *)
Inductive turn : Running → Running → Prop :=
| turn_task s s' :
    step get_mempool_cluster get_block get_tip_height get_block_hash get_raw_transaction
      get_mempool_entry jittered instant s s' → turn s s'
| turn_adopt n r queue w task :
    setup_mempool_snapshot get_raw_mempool_verbose (n_queue n) (n_world n) = ((r, queue), w) →
    turn (mkRunning n task) (mkRunning (mkNode w (n_gate n) queue) task)
| turn_seed w g q task :
    turn (mkRunning (mkNode w g q) task) (mkRunning (mkNode (seed_snapshot w).2 g q) task)
| turn_aside c n task :
    conn_db c = w_db (n_world n) → turn (mkRunning n task) (mkRunning (reconnect c n) task).

(** ** What every turn carries over *)

Context (height_of : string → Z) (max_tip : Z).
Context (node : chain_node get_mempool_cluster get_block get_tip_height get_block_hash
                  height_of max_tip).

Record carried (n n' : Node) : Prop := {
  ca_sound : sound height_of (n_world n');
  ca_gapless : gapless (w_db (n_world n)) (w_db (n_world n'));
  ca_durable : durable (w_db (n_world n)) (w_db (n_world n'));
}.

Lemma carried_trans n1 n2 n3 : carried n1 n2 → carried n2 n3 → carried n1 n3.
Proof.
  intros [A1 A2 A3] [B1 B2 B3]. split; [done|by eapply gapless_trans|unfold durable in *; by etrans].
Qed.

Lemma carried_same n n' :
  w_db (n_world n') = w_db (n_world n) → sound height_of (n_world n) → carried n n'.
Proof.
  intros Hd [[Hi Hk] Hb]. split.
  - split; [split|]; [by rw Hd|unfold w_actives in *; by rw Hd|by rw Hd].
  - apply gapless_same. by rw Hd.
  - apply durable_same. by rw Hd.
Qed.

Lemma turn_carries s s' :
  turn s s' → running_ok height_of max_tip s →
  carried (rn_node s) (rn_node s') ∧ running_ok height_of max_tip s'.
Proof.
  assert (∀ n n' task, carried n n' → db_blocks (w_db (n_world n')) = db_blocks (w_db (n_world n)) →
    running_ok height_of max_tip (mkRunning n task) →
    carried n n' ∧ running_ok height_of max_tip (mkRunning n' task)) as Haside.
  { intros n n' task Hc Hb [_ Ho]. split; [done|]. split; [apply Hc|]. by eapply task_ok_blocks. }
  intros Ht Hok. destruct Ht as [s s' Hst|n r queue w task Hset|w g q task|c n task Hc].
  - destruct (step_advances _ _ _ _ _ _ _ _ _ _ node _ _ Hst Hok) as [[A1 _ A3 _ _ A6] Hok']. done.
  - pose proof (setup_keeps get_raw_mempool_verbose (n_queue n) (n_world n)
      (proj1 (so_store _ _ (proj1 Hok)))) as Hk.
    rw Hset in Hk. simpl in Hk. destruct Hk as (Hi & Ha & Hd & Hb).
    apply Haside; [|done|done]. split; simpl; [|by apply gapless_same|by apply durable_same].
    apply (sound_blocks height_of (n_world n)); [apply Hok| |done]. split; [done|rw Ha; apply Hok].
  - pose proof (seed_snapshot_mirrors w (proj1 (so_store _ _ (proj1 Hok)))) as (Hd & _).
    apply Haside; [by apply carried_same; [|apply Hok]|simpl; by rw Hd|done].
  - apply Haside; [by apply carried_same; [|apply Hok]|simpl; by rw -Hc|done].
Qed.

Lemma turns_carry s s' :
  rtc turn s s' → running_ok height_of max_tip s → carried (rn_node s) (rn_node s').
Proof.
  induction 1 as [s|s1 s2 s3 Ht _ IH]; intros Hs; [apply carried_same, Hs; done|].
  destruct (turn_carries _ _ Ht Hs) as [Hc Hs2]. eapply carried_trans; [exact Hc|by apply IH].
Qed.

(** ** A start-up is a sequence of turns *)

Local Abbreviation at_rest n := (mkRunning n Waiting).

Lemma steps_turns s s' :
  rtc (step get_mempool_cluster get_block get_tip_height get_block_hash get_raw_transaction
         get_mempool_entry jittered instant) s s' → rtc turn s s'.
Proof. apply rtc_subrel. intros s1 s2. apply turn_task. Qed.

Lemma bootstrap_turns fuel s s' :
  bootstrap_run get_mempool_cluster get_block get_tip_height get_block_hash get_raw_mempool_verbose
    instant fuel s = Some s' → rtc turn (at_rest (sv_node s)) (at_rest (sv_node s')).
Proof.
  unfold bootstrap_run.
  pose proof (record_on_spec BootstrapStarted [] s) as ((c & Hc & Hn) & _).
  set (s1 := record_on BootstrapStarted [] s) in *.
  assert (turn (at_rest (sv_node s)) (at_rest (sv_node s1))) as T1 by (rw Hn; by apply turn_aside).
  destruct (sync_missing_blocks _ _ _ _ _ fuel (sv_node s1)) as [[slept n1]|] eqn:E; [|done].
  apply sync_missing_turns, (turns_steps _ _ _ _ get_raw_transaction get_mempool_entry jittered _), steps_turns in E.
  cbn [fst snd] in E.
  destruct (setup_mempool_snapshot _ (n_queue n1) (n_world n1)) as [[rec queue] w3] eqn:E3.
  pose proof (turn_adopt n1 rec queue w3 Waiting E3) as T3.
  pose proof (turn_seed w3 (n_gate n1) queue Waiting) as T4. intros [= <-].
  set (s3 := set_node _ s1). set (d := bootstrap_completed_details _ _).
  pose proof (record_on_spec BootstrapCompleted d s3) as ((c3 & Hc3 & Hn3) & _).
  eapply rtc_l; [exact T1|]. etrans; [exact E|]. eapply rtc_l; [exact T3|].
  eapply rtc_l; [exact T4|]. apply rtc_once. rw Hn3. by apply turn_aside.
Qed.

Local Abbreviation start := (startup get_mempool_cluster get_block get_tip_height get_block_hash
  get_raw_mempool_verbose get_network_info get_blockchain_info get_mempool_info instant).

Lemma startup_turns fuel s s' : start fuel s = Some s' → rtc turn (at_rest (sv_node s)) (at_rest (sv_node s')).
Proof.
  unfold startup. destruct (wait_until_ready _ _ _ _ _) as [[n [h r]]|] eqn:E; [|done].
  apply wait_until_ready_spec in E as (_ & _ & _ & Hh & _).
  pose proof (report_polls_spec get_network_info (get_blockchain_info <$> seq 0 (S n - 0)) (sv_health s))
    as (_ & polls & (_ & E2 & _) & _). rw -Hh in E2.
  set (s1 := set_readiness _ (set_health h s)).
  assert (turn (at_rest (sv_node s)) (at_rest (sv_node s1))) as T1.
  { assert (sv_node s1 = reconnect (lg_conn (nh_log h)) (sv_node s)) as -> by done.
    apply turn_aside. exact E2. }
  destruct (bootstrap_run _ _ _ _ _ _ fuel s1) as [s2|] eqn:E3; [|done]. intros [= <-].
  apply bootstrap_turns in E3. by eapply rtc_l.
Qed.
End life.

(** ** Lives *)

Section lives.
Context `{BitcoinUnits}.
Context (height_of : string → Z).

(** One life of the process, from the tables it found to those it left. *)
Inductive life : Db → Db → Prop :=
| life_intro (order : EnumOrder) (env : Env)
    get_mempool_cluster get_block get_tip_height get_block_hash get_raw_transaction
    get_mempool_entry get_raw_mempool_verbose jittered instant max_tip capacity db s :
    chain_node get_mempool_cluster get_block get_tip_height get_block_hash height_of max_tip →
    rtc (turn get_mempool_cluster get_block get_tip_height get_block_hash get_raw_transaction
           get_mempool_entry get_raw_mempool_verbose jittered instant) (mkRunning (reborn capacity db) Waiting) s →
    life db (w_db (n_world (rn_node s))).

(** Tables a process can start from. *)
Definition sound_db (db : Db) : Prop := sound height_of (n_world (reborn 0 db)).

Lemma sound_db_iff n : sound height_of (n_world n) ↔ sound_db (w_db (n_world n)).
Proof.
  unfold sound_db. split; intros [[Hi Hk] Hb]; (split; [split|]); done.
Qed.

Lemma lives_carry db0 db :
  rtc life db0 db → sound_db db0 → sound_db db ∧ gapless db0 db ∧ durable db0 db.
Proof.
  induction 1 as [db|db1 db2 db3 Hl _ IH]; intros Hs.
  { split_and!; [done|by apply gapless_same|by apply durable_same]. }
  destruct Hl as [order env gmc gb gth gbh grt gme grm jit inst mt cap db s Hnode Hr].
  assert (sound height_of (n_world (reborn cap db))) as Hs' by by apply sound_db_iff.
  destruct (turns_carry _ _ _ _ _ _ _ _ _ _ _ Hnode _ _ Hr (conj Hs' I)) as [C1 C2 C3].
  destruct (IH (proj1 (sound_db_iff (rn_node s)) C1)) as (I1 & I2 & I3).
  split_and!; [done|by eapply gapless_trans|]. unfold durable in *. by etrans.
Qed.

Context `{EnumOrder, Env}.
Context (get_mempool_cluster : nat → string → result ObserverError GetMempoolClusterModel).
Context (get_block : nat → string → result ObserverError GetBlockModel).
Context (get_tip_height : nat → result ObserverError Z).
Context (get_block_hash : nat → Z → result ObserverError string).
Context (get_raw_transaction : nat → string → result ObserverError GetRawTransactionModel).
Context (get_mempool_entry : nat → string → result ObserverError MempoolEntrySummary).
Context (get_raw_mempool_verbose : nat → result ObserverError (list MempoolEntrySummary)).
Context (get_network_info : nat → result ObserverError GetNetworkInfoModel).
Context (get_blockchain_info : nat → result ObserverError GetBlockchainInfoModel).
Context (get_mempool_info : nat → result ObserverError GetMempoolInfoModel).
Context (jittered : Z → string * Z → Z).
Context (instant : nat → Z).
Context (max_tip : Z).
Context (node : chain_node get_mempool_cluster get_block get_tip_height get_block_hash
                  height_of max_tip).

Local Abbreviation start := (startup get_mempool_cluster get_block get_tip_height get_block_hash
  get_raw_mempool_verbose get_network_info get_blockchain_info get_mempool_info instant).

(** C15.  A restart heals.  However many lives the process had, whatever they did and wherever
    each was cut off, when the node becomes ready and the outage ends the next start-up
    completes.  No block height and no recorded transition of any life is lost or left with a
    hole behind it; the clusters are well formed, the blocks reach a tip the node reported,
    and the snapshot mirrors the stored clusters unless reading them failed, also when an
    earlier life had let the two drift apart.  When no statement fails any more and the node
    answers for its mempool, the ledger holds the mempool it answered with. *)
Theorem restart_heals db0 db capacity rows seq k :
  sound_db db0 → rtc life db0 db →
  node_ready get_blockchain_info get_mempool_info k = true →
  (∀ c, conn_db c = db → recovers get_mempool_cluster get_block get_tip_height get_block_hash
     instant (reconnect c (reborn capacity db))) →
  ∃ s, (∃ fuel0, ∀ fuel, (fuel0 ≤ fuel)%nat →
            start fuel (reborn_server capacity db rows seq) = Some s) ∧
  is_ready (sv_readiness s) = true ∧ life db (sv_db s) ∧
  sound_db (sv_db s) ∧ gapless db0 (sv_db s) ∧ durable db0 (sv_db s) ∧
  at_tip get_tip_height (sv_node s) ∧
  (SeedFailed ∉ w_log (sv_world s) → mirrored (sv_world s)) ∧
  (faultless → (∀ i, ∃ txs, get_raw_mempool_verbose i = Ok txs) → ∃ i txs, get_raw_mempool_verbose i = Ok txs ∧
     Ledger.live (w_ledger (sv_world s)) = node_mempool txs).
Proof.
  intros Hs Hl Hk Hrec. destruct (lives_carry _ _ Hl Hs) as (L1 & _ & _).
  assert (sound height_of (sv_world (reborn_server capacity db rows seq))) as Hs' by by apply sound_db_iff.
  destruct (startup_settles _ _ _ _ get_raw_mempool_verbose get_network_info _ _ instant _ _ node
    k (reborn_server capacity db rows seq) Hk Hs' Hrec)
    as (s & r & polls & l & n & info & [f Hf] & [B1 B2 B3 B4 B5 B6] & _ & _ & Hready & _).
  assert (life db (sv_db s)) as Hlife.
  { apply (life_intro _ _ _ _ _ _ get_raw_transaction get_mempool_entry get_raw_mempool_verbose
      jittered instant max_tip capacity db (mkRunning (sv_node s) Waiting) node).
    apply (startup_turns _ _ _ _ _ _ _ get_network_info get_blockchain_info get_mempool_info _ _
      f (reborn_server capacity db rows seq)), Hf. lia. }
  destruct (lives_carry db0 (sv_db s)) as (M1 & M2 & M3); [by eapply rtc_r|done|].
  exists s. split_and!; [by exists f|done..|].
  intros Hfl Ha. destruct (B6 Hfl Ha) as [m Hm]. by eapply B5.
Qed.
End lives.

(** ** Witness *)

(** A first start-up on empty tables, and the tables it leaves. *)
Local Abbreviation demo_start := (@startup stored_order ceil_units calm_env (λ _, demo_group)
  demo_get_block (λ _, Ok 3) demo_get_hash demo_mempool scripted_network scripted_chain
  scripted_mempool Z.of_nat).
Definition left_over : Db := default empty_db (sv_db <$> demo_start 30 fresh_server).

Lemma first_life : @life ceil_units demo_height empty_db left_over.
Proof.
  destruct (demo_start 30 fresh_server) as [s|] eqn:E; [|by vm_compute in E].
  assert (left_over = sv_db s) as -> by (unfold left_over; by rw E).
  apply (@life_intro ceil_units demo_height stored_order calm_env (λ _, demo_group) demo_get_block
    (λ _, Ok 3) demo_get_hash Backfill.demo_raw Backfill.demo_entry demo_mempool (λ base _, base)
    Z.of_nat 3 10 empty_db (mkRunning (sv_node s) Waiting) demo_chain).
  exact (startup_turns _ _ _ _ _ _ _ scripted_network scripted_chain scripted_mempool _ _ 30
    fresh_server s E).
Qed.

Lemma left_over_recovers c :
  conn_db c = left_over →
  @recovers stored_order ceil_units calm_env (λ _, demo_group) demo_get_block (λ _, Ok 3)
    demo_get_hash Z.of_nat (reconnect c (reborn 10 left_over)).
Proof.
  destruct c as [db step txn]. intros Hdb. simpl in Hdb. subst db.
  eapply recovers_now. exists 20%nat. intros fuel Hle.
  replace fuel with (20 + (fuel - 20))%nat by lia. generalize (fuel - 20)%nat. clear fuel Hle.
  intros fuel. vm_compute. reflexivity.
Qed.

Lemma restart_heals_witness :
  ∃ s, (∃ fuel0, ∀ fuel, (fuel0 ≤ fuel)%nat → demo_start fuel (reborn_server 10 left_over [] 0) = Some s) ∧
    is_ready (sv_readiness s) = true ∧ gapless empty_db (sv_db s).
Proof.
  destruct (@restart_heals ceil_units demo_height stored_order calm_env (λ _, demo_group)
    demo_get_block (λ _, Ok 3) demo_get_hash Backfill.demo_raw Backfill.demo_entry demo_mempool
    scripted_network scripted_chain scripted_mempool (λ base _, base) Z.of_nat 3 demo_chain
    empty_db left_over 10 [] 0 3 fresh_sound (rtc_once _ _ first_life) eq_refl left_over_recovers)
    as (s & Hf & Hr & _ & _ & Hg & _).
  exists s. exact (conj Hf (conj Hr Hg)).
Defined.

End Restart.
