(* ===== verification/Sampling.v ===== *)
(** * Counter samples

    [api/src/services/counter_sample.rs], [api/src/services/resolution.rs] and
    [api/src/db/repositories/counter_sample.rs]: a sampler that periodically counts the
    delta rows of the window since its last sample, and the reads that serve the counts
    bucketed.  The samples and the start-up events live beside the tables of [Db]; a
    statement on them goes through the same connection and meets the same faults.  Times
    are in nanoseconds. *)

From S2P Require Import Prelude.
From S2P Require Import Models.
From S2P Require Import Database.
From S2P Require Import SystemEvents.
From S2P Require Import Ledger.
From S2P Require Import MempoolRepo.
From S2P Require Import TxRepo.
From S2P Require Import Gate.

Open Scope Z_scope.

Module Sampling.
Import Database.
Import SystemEvents.

Definition SECOND : Z := 1000000000.

(** [Duration::seconds(MAX_HOLD.as_secs() as i64 + 60)] *)
Definition SAFETY_MARGIN : Z := (Gate.MAX_HOLD / 1000 + 60) * SECOND.

Definition NATIVE_RESOLUTION_SECS : Z := 60.
Definition RESOLUTION_LADDER_SECS : list Z :=
  [NATIVE_RESOLUTION_SECS; 5 * 60; 10 * 60; 30 * 60; 60 * 60; 6 * 60 * 60; 24 * 60 * 60].
Definition MAX_POINTS : Z := 2000.
Definition DEFAULT_RANGE : Z := 24 * 3600 * SECOND.

(** [Duration::whole_seconds]: rounds towards zero. *)
Definition whole_seconds (d : Z) : Z := Z.quot d SECOND.

Definition pick_resolution (span : Z) : Z :=
  let span_secs := whole_seconds span in
  match list_find (λ res, Z.quot span_secs res ≤ MAX_POINTS) RESOLUTION_LADDER_SECS with
  | Some (_, res) => res
  | None => List.last RESOLUTION_LADDER_SECS 0
  end.

(** [MempoolCounterSampleRow] *)
Record CounterRow := mkCounterRow {
  cr_sampled_at : Z;
  cr_period_secs : Z;
  cr_added_txs : option Z;
  cr_confirmed_txs : option Z;
  cr_evicted_txs : option Z;
}.

(** The tables, the samples and the system events. *)
Record Store := mkStore {
  sp_conn : Conn;
  sp_samples : gmap Z CounterRow;
  sp_events : list SystemEventRow;
}.

Definition Sm (A : Type) : Type := Store → A * Store.
#[global] Instance Sm_ret : MRet Sm := λ A a st, (a, st).
#[global] Instance Sm_bind : MBind Sm := λ A B f m st, let '(a, st) := m st in f a st.

Section sampler.
Context `{Env}.

Definition now_utc : Sm Z := λ st,
  let c := sp_conn st in
  (clock (conn_step c) 0,
   mkStore (mkConn (conn_db c) (S (conn_step c)) (conn_txn c)) (sp_samples st) (sp_events st)).

(** A call to a repository of the modelled tables. *)
Definition repo {A} (m : RepoM A) : Sm (result RepoError A) := λ st,
  let '(r, c) := m (sp_conn st) in (r, mkStore c (sp_samples st) (sp_events st)).

(** One statement on [mempool_counter_samples]. *)
Definition on_samples {A} (f : gmap Z CounterRow → A * gmap Z CounterRow) :
    Sm (result RepoError A) := λ st,
  match query (select (λ _, ())) (sp_conn st) with
  | (Ok _, c) => let '(a, m) := f (sp_samples st) in (Ok a, mkStore c m (sp_events st))
  | (Err e, c) => (Err e, mkStore c (sp_samples st) (sp_events st))
  end.

(** ** The repository *)

(** [ON CONFLICT (sampled_at) DO NOTHING] *)
Definition insert (sample : CounterRow) : Sm (result RepoError nat) :=
  on_samples (λ m, match m !! cr_sampled_at sample with
                   | Some _ => (0%nat, m)
                   | None => (1%nat, <[cr_sampled_at sample := sample]> m)
                   end).

Definition sampled_ats (m : gmap Z CounterRow) : list Z := fst <$> map_to_list m.

Definition latest_sampled_at : Sm (result RepoError (option Z)) :=
  on_samples (λ m, (TxRepo.max_Z (sampled_ats m), m)).

Definition rows_between (from to : Z) (m : gmap Z CounterRow) : list CounterRow :=
  filter (λ row, from ≤ cr_sampled_at row ≤ to) (snd <$> map_to_list m).

Definition range_native (from to : Z) : Sm (result RepoError (list CounterRow)) :=
  on_samples (λ m, (sort_by cr_sampled_at (rows_between from to m), m)).

(** [floor(extract(epoch FROM sampled_at) / res)] *)
Definition bucket (resolution_secs : Z) (row : CounterRow) : Z :=
  cr_sampled_at row / (resolution_secs * SECOND).

Definition incomplete (row : CounterRow) : bool :=
  bool_decide (cr_added_txs row = None ∨ cr_confirmed_txs row = None ∨ cr_evicted_txs row = None).

(** [CASE WHEN bool_or(... IS NULL) THEN NULL ELSE sum(column) END] *)
Definition bucket_sum (column : CounterRow → option Z) (group : list CounterRow) : option Z :=
  if existsb incomplete group then None else Some (sum_Z (omap column group)).

Definition bucket_row (resolution_secs : Z) (group : list CounterRow) : CounterRow :=
  mkCounterRow (default 0 (TxRepo.max_Z (cr_sampled_at <$> group))) resolution_secs
    (bucket_sum cr_added_txs group) (bucket_sum cr_confirmed_txs group)
    (bucket_sum cr_evicted_txs group).

Definition buckets (resolution_secs : Z) (rows : list CounterRow) : list Z :=
  sort_by (λ b, b) (elements (list_to_set (bucket resolution_secs <$> rows) : gset Z)).

(** [GROUP BY bucket ORDER BY bucket ASC] *)
Definition bucketed (resolution_secs : Z) (rows : list CounterRow) : list CounterRow :=
  (λ b, bucket_row resolution_secs (filter (λ row, bucket resolution_secs row = b) rows)) <$>
    buckets resolution_secs rows.

Definition range_bucketed (from to resolution_secs : Z) : Sm (result RepoError (list CounterRow)) :=
  on_samples (λ m, (bucketed resolution_secs (rows_between from to m), m)).

Definition range (from to resolution_secs : Z) : Sm (result RepoError (list CounterRow)) :=
  if resolution_secs =? NATIVE_RESOLUTION_SECS then range_native from to
  else range_bucketed from to resolution_secs.

(** [system_event_repository.exists_of_kind_in(ServerStarted, from, to)] *)
Definition started_in (from to : Z) : Sm (result RepoError bool) := λ st,
  let '(r, lg) := exists_of_kind_in ServerStarted from to (mkLog (sp_conn st) (sp_events st) 0) in
  (r, mkStore (lg_conn lg) (sp_samples st) (lg_rows lg)).

(** ** The service *)

Definition sample_window (window_start window_end : Z) : Sm (result RepoError unit) :=
  let period_secs := whole_seconds (window_end - window_start) in
  r ← started_in window_start window_end;
  match r with
  | Err e => mret (Err e)
  | Ok restarted =>
      counts ← (if restarted : bool then mret (Ok None)
                else r ← repo (MempoolRepo.count_deltas_in window_start window_end);
                     mret (match r with Ok counts => Ok (Some counts) | Err e => Err e end));
      match counts with
      | Err e => mret (Err e)
      | Ok counts =>
          let row :=
            match counts with
            | None => mkCounterRow window_end period_secs None None None
            | Some (added, confirmed, evicted) =>
                mkCounterRow window_end period_secs (Some added) (Some confirmed) (Some evicted)
            end in
          r ← insert row;
          match r with Err e => mret (Err e) | Ok _ => mret (Ok ()) end
      end
  end.

(** [interval] in seconds. *)
Definition sample (interval : Z) : Sm unit :=
  now ← now_utc;
  let window_end := now - SAFETY_MARGIN in
  r ← latest_sampled_at;
  match r with
  | Err _ => mret ()
  | Ok None => _ ← insert (mkCounterRow window_end interval None None None); mret ()
  | Ok (Some window_start) =>
      if window_end <=? window_start then mret ()
      else _ ← sample_window window_start window_end; mret ()
  end.

Definition fetch_range (from to : option Z) : Sm (result ApiError (Z * list CounterRow)) :=
  to ← (match to with Some to => mret to | None => now_utc end);
  let from := default (to - DEFAULT_RANGE) from in
  if to <=? from then mret (Err (BadRequest "`from` must be earlier than `to`"))
  else
    let resolution_secs := pick_resolution (to - from) in
    r ← range from to resolution_secs;
    mret (match r with Ok rows => Ok (resolution_secs, rows) | Err e => Err (Internal e) end).

(** [CounterSeries]: the resolution and, per point, its time and three counts. *)
Definition series (from to : option Z) :
    Sm (result ApiError (Z * list (Z * option Z * option Z * option Z))) :=
  r ← fetch_range from to;
  mret (match r with
        | Err e => Err e
        | Ok (resolution_secs, rows) =>
            Ok (resolution_secs,
                (λ row, (cr_sampled_at row, cr_added_txs row, cr_confirmed_txs row,
                         cr_evicted_txs row)) <$> rows)
        end).
End sampler.

(** ** What one sample writes *)

Definition counts_of (row : CounterRow) : option (Z * Z * Z) :=
  match cr_added_txs row, cr_confirmed_txs row, cr_evicted_txs row with
  | Some added, Some confirmed, Some evicted => Some (added, confirmed, evicted)
  | _, _, _ => None
  end.

(** The delta rows of [(from, to]], by reason. *)
Definition window_counts (from to : Z) (db : Db) : Z * Z * Z :=
  (MempoolRepo.count_where (MempoolRepo.in_window from to AddMempool) db,
   MempoolRepo.count_where (MempoolRepo.in_window from to RemoveConfirmed) db,
   MempoolRepo.count_where (MempoolRepo.in_window from to RemoveEvicted) db).

Definition sp_db (st : Store) : Db := conn_db (sp_conn st).

Lemma elem_of_sampled_ats m k : k ∈ sampled_ats m ↔ k ∈ dom m.
Proof.
  unfold sampled_ats. rw list_elem_of_fmap elem_of_dom. split.
  - intros ([k' row] & -> & Hin%elem_of_map_to_list). by exists row.
  - intros [row Hr]. exists (k, row). split; [done|]. by apply elem_of_map_to_list.
Qed.

Section one_sample.
Context `{Env}.

(** What every step of the sampler leaves alone. *)
Definition only_samples (st st' : Store) : Prop :=
  sp_db st' = sp_db st ∧ sp_events st' = sp_events st.

Lemma on_samples_spec {A} (f : gmap Z CounterRow → A * gmap Z CounterRow) st :
  let '(r, st') := on_samples f st in
  only_samples st st' ∧
  match r with
  | Ok a => f (sp_samples st) = (a, sp_samples st')
  | Err _ => sp_samples st' = sp_samples st
  end.
Proof.
  unfold on_samples, only_samples, sp_db.
  pose proof (query_select_keeps (λ _, ()) (sp_conn st)) as [Hd _].
  destruct (query _ _) as [[a|e] c]; simpl in *; [|done].
  destruct (f (sp_samples st)) as [a' m]. done.
Qed.

Lemma insert_spec row st :
  let '(r, st') := insert row st in
  only_samples st st' ∧
  (sp_samples st' = sp_samples st ∨ sp_samples st' = <[cr_sampled_at row := row]> (sp_samples st)).
Proof.
  unfold insert. pose proof (on_samples_spec (λ m, match m !! cr_sampled_at row with
    | Some _ => (0%nat, m) | None => (1%nat, <[cr_sampled_at row := row]> m) end) st) as Hs.
  destruct (on_samples _ st) as [[n|e] st']; destruct Hs as [Ho Hm]; (split; [done|]); [|by left].
  destruct (sp_samples st !! cr_sampled_at row); simplify_eq; by auto.
Qed.

Lemma latest_spec st :
  let '(r, st') := latest_sampled_at st in
  only_samples st st' ∧ sp_samples st' = sp_samples st ∧
  match r with Ok o => o = TxRepo.max_Z (sampled_ats (sp_samples st)) | Err _ => True end.
Proof.
  unfold latest_sampled_at.
  pose proof (on_samples_spec (λ m, (TxRepo.max_Z (sampled_ats m), m)) st) as Hs.
  destruct (on_samples _ st) as [[n|e] st']; destruct Hs as [Ho Hm]; [|done].
  by simplify_eq.
Qed.

(** The row of one window, if it is written. *)
Lemma sample_window_spec p e st :
  let st' := (sample_window p e st).2 in
  only_samples st st' ∧
  (sp_samples st' = sp_samples st ∨
   ∃ row, sp_samples st' = <[e := row]> (sp_samples st) ∧ cr_sampled_at row = e ∧
     cr_period_secs row = whole_seconds (e - p) ∧
     counts_of row = if exists_in ServerStarted p e (sp_events st) then None
                     else Some (window_counts p e (sp_db st))).
Proof.
  unfold sample_window, started_in, exists_of_kind_in, mbind, Sm_bind. cbv zeta.
  pose proof (read_log_spec (exists_in ServerStarted p e) (mkLog (sp_conn st) (sp_events st) 0))
    as Hs. destruct (read_log _ _) as [[b|err] [c evs q]]; destruct Hs as (Hd & He & _ & Hb);
    simpl in *; subst evs; unfold lg_db in Hd; simpl in Hd; [|by split; [|left]].
  set (st1 := mkStore c _ _). assert (only_samples st st1) as [D1 S1] by done.
  subst b. destruct (exists_in _ _ _ _) eqn:Er; simpl.
  - pose proof (insert_spec (mkCounterRow e (whole_seconds (e - p)) None None None) st1) as Hi.
    destruct (insert _ st1) as [[n|err] st2]; destruct Hi as [[D2 S2] Hm]; simpl in *;
      (split; [split; congruence|]); (destruct Hm as [Hm|Hm]; [by left|right]);
      by eexists.
  - unfold repo. simpl. unfold MempoolRepo.count_deltas_in.
    set (counts := λ db, _) in |- *.
    pose proof (query_select_keeps counts c) as [Hd2 Hr].
    destruct (query (select counts) c) as [[r|err] c2]; simpl in Hd2, Hr |- *.
    2:{ split; [|by left]. split; [|done]. unfold sp_db. simpl. congruence. }
    subst r. unfold counts. rw Hd.
    set (row := mkCounterRow _ _ (Some _) _ _). set (st2 := mkStore c2 _ _).
    pose proof (insert_spec row st2) as Hi.
    assert (only_samples st st2) as [D2 S2] by (split; [unfold sp_db; simpl; congruence|done]).
    destruct (insert row st2) as [[n|err] st3]; destruct Hi as [[D3 S3] Hm]; simpl in *;
      (split; [split; congruence|]); (destruct Hm as [Hm|Hm]; [by left|right]);
      by exists row.
Qed.

(** One run of the sampler touches nothing but its own table and writes at most one row,
    ending the safety margin before now and later than every earlier row. *)
Lemma sample_spec interval st :
  let st' := (sample interval st).2 in
  let e := clock (conn_step (sp_conn st)) 0 - SAFETY_MARGIN in
  only_samples st st' ∧
  (sp_samples st' = sp_samples st ∨
   (∀ k, k ∈ dom (sp_samples st) → k < e) ∧
   ∃ row, sp_samples st' = <[e := row]> (sp_samples st) ∧ cr_sampled_at row = e ∧
     counts_of row =
       match TxRepo.max_Z (sampled_ats (sp_samples st)) with
       | None => None
       | Some p =>
           if exists_in ServerStarted p e (sp_events st) then None
           else Some (window_counts p e (sp_db st))
       end).
Proof.
  unfold sample, now_utc, mbind, Sm_bind. cbv zeta. set (e := _ - SAFETY_MARGIN).
  set (st0 := mkStore _ _ _). pose proof (latest_spec st0) as Hl.
  destruct (latest_sampled_at st0) as [[o|err] st1]; destruct Hl as ([D1 S1] & M1 & Ho);
    [|by split; [|left]].
  pose proof (TxRepo.max_Z_spec (sampled_ats (sp_samples st))) as Hmax.
  change (sp_samples st0) with (sp_samples st) in *. subst o.
  destruct (TxRepo.max_Z (sampled_ats (sp_samples st))) as [p|] eqn:Em.
  - destruct (Z.leb_spec e p) as [Hle|Hlt]; [by split; [|left]|].
    pose proof (sample_window_spec p e st1) as [[D2 S2] Hw].
    destruct (sample_window p e st1) as [r st2]. simpl in *.
    split; [split; [by rw D2 D1|by rw S2 S1]|].
    destruct Hw as [Hw|(row & Hrow & He & _ & Hc)]; [left; congruence|right].
    split. { intros k Hk%elem_of_sampled_ats. destruct Hmax as [_ Hm]. specialize (Hm k Hk). lia. }
    exists row. rw Hrow M1. split; [done|]. split; [done|]. rw Hc S1 D1. done.
  - pose proof (insert_spec (mkCounterRow e interval None None None) st1) as Hi.
    destruct (insert _ st1) as [r st2]. simpl in *. destruct Hi as [[D2 S2] Hm].
    split; [split; [by rw D2 D1|by rw S2 S1]|].
    destruct Hm as [Hm|Hm]; [left; congruence|right]. split.
    { intros k Hk%elem_of_sampled_ats. rw Hmax in Hk. by apply not_elem_of_nil in Hk. }
    eexists. rw Hm M1. done.
Qed.
End one_sample.

(** ** The samples beside the delta log *)

Section history.
Context `{Env}.

(** The sampler runs, restarts are recorded, and flushes append delta rows.  A row is
    flushed within the safety margin of the time it carries, on a clock that has not
    been set back behind the last sample. *)
Inductive step : Store → Store → Prop :=
| step_sample interval st : step st (sample interval st).2
| step_event row st : step st (mkStore (sp_conn st) (sp_samples st) (sp_events st ++ [row]))
| step_flush now rows c st :
    db_deltas (conn_db c) = db_deltas (sp_db st) ++ rows →
    (∀ k, k ∈ dom (sp_samples st) → k ≤ now - SAFETY_MARGIN) →
    Forall (λ d, now - SAFETY_MARGIN < md_created_at d) rows →
    step st (mkStore c (sp_samples st) (sp_events st)).

(** [p] is the sample just before [e]. *)
Definition follows (m : gmap Z CounterRow) (p e : Z) : Prop :=
  p ∈ dom m ∧ p < e ∧ ∀ k, k ∈ dom m → k < e → k ≤ p.

Definition recorded (st : Store) : Prop :=
  ∀ e row x, sp_samples st !! e = Some row → counts_of row = Some x →
    ∃ p, follows (sp_samples st) p e ∧ x = window_counts p e (sp_db st).

Lemma window_counts_flush p e db db' rows :
  db_deltas db' = db_deltas db ++ rows → Forall (λ d, e < md_created_at d) rows →
  window_counts p e db' = window_counts p e db.
Proof.
  intros Hd Hr. unfold window_counts, MempoolRepo.count_where. rw Hd !filter_app. clear Hd.
  assert (∀ reason, filter (λ d, MempoolRepo.in_window p e reason d = true) rows = []) as Hnil.
  { intros reason. induction Hr as [|d rows Hd' _ IH]; [done|].
    rw filter_cons decide_False; [apply IH|]. unfold MempoolRepo.in_window.
    intros [_ Hle%Z.leb_le]%andb_true_iff. lia. }
  by rw !Hnil !app_nil_r.
Qed.

Lemma recorded_step st st' : step st st' → recorded st → recorded st'.
Proof.
  intros Hs Hrec. destruct Hs as [interval st|t st|now rows c st Hd Hk Hr].
  - pose proof (sample_spec interval st) as [[D S] Hw].
    set (st' := (sample interval st).2) in *. unfold recorded. rw D.
    destruct Hw as [->|(Hlt & row & -> & He & Hc)]; [exact Hrec|].
    set (e := _ - SAFETY_MARGIN) in *. intros e' row' x Hl Hx.
    assert (∀ p e0, e0 ∈ dom (sp_samples st) → follows (sp_samples st) p e0 →
      follows (<[e := row]> (sp_samples st)) p e0) as Hfol.
    { intros p e0 Hin (F1 & F2 & F3). split; [set_solver|]. split; [done|].
      intros k Hkin Hlt'. apply F3; [|done]. specialize (Hlt e0 Hin). set_unfold. naive_solver lia. }
    apply lookup_insert_Some in Hl as [[<- <-]|[Hne Hl]].
    + pose proof (TxRepo.max_Z_spec (sampled_ats (sp_samples st))) as Hmax.
      destruct (TxRepo.max_Z _) as [p|]; [|congruence].
      destruct (exists_in _ _ _ _); [congruence|]. rw Hx in Hc. injection Hc as ->.
      destruct Hmax as [Hin%elem_of_sampled_ats Hm]. exists p. split; [|done].
      split; [set_solver|]. split; [by apply Hlt|].
      intros k Hkin Hlt'. apply Hm, elem_of_sampled_ats. set_unfold. naive_solver lia.
    + destruct (Hrec e' row' x Hl Hx) as (p & Hf & ->). exists p. split; [|done].
      apply Hfol; [by apply elem_of_dom_2 in Hl|done].
  - exact Hrec.
  - intros e row x Hl Hx. destruct (Hrec e row x Hl Hx) as (p & Hf & ->).
    exists p. split; [done|]. symmetry. eapply window_counts_flush; [exact Hd|].
    eapply Forall_impl; [exact Hr|]. intros d Hdd.
    specialize (Hk e (elem_of_dom_2 _ _ _ Hl)). simpl in *. lia.
Qed.

Definition add3 (x y : Z * Z * Z) : Z * Z * Z :=
  (x.1.1 + y.1.1, x.1.2 + y.1.2, x.2 + y.2).

(** Consecutive counted samples from [p] to [q], and their total. *)
Inductive covers (m : gmap Z CounterRow) (p : Z) : Z → Z * Z * Z → Prop :=
| covers_none : covers m p p (0, 0, 0)
| covers_next q e total row x :
    covers m p q total → follows m q e → m !! e = Some row → counts_of row = Some x →
    covers m p e (add3 total x).

Lemma window_counts_nil p db : window_counts p p db = (0, 0, 0).
Proof.
  unfold window_counts, MempoolRepo.count_where.
  assert (∀ reason l, filter (λ d, MempoolRepo.in_window p p reason d = true) l = []) as Hnil.
  { intros reason l. induction l as [|d l IH]; [done|]. rw filter_cons decide_False; [done|].
    unfold MempoolRepo.in_window.
    intros [[_ Hlt%Z.ltb_lt]%andb_true_iff Hle%Z.leb_le]%andb_true_iff. lia. }
  by rw !Hnil.
Qed.

Lemma window_counts_split p q e db :
  p ≤ q ≤ e → window_counts p e db = add3 (window_counts p q db) (window_counts q e db).
Proof. intros Hm. unfold window_counts, add3. simpl. f_equal; [f_equal|]; by apply MempoolRepo.window_split. Qed.

(** C21.  The counter samples account for the delta log.  Starting without samples and
    whatever the sampler, the flushes and the restarts do, as long as rows are flushed
    within the safety margin: the counts of consecutive samples add up to exactly the
    delta rows, by reason, the log holds between the first cursor and the last.  No row
    is missed or counted twice. *)
Theorem samples_account_for_log st0 st p q total :
  sp_samples st0 = ∅ → rtc step st0 st →
  covers (sp_samples st) p q total → total = window_counts p q (sp_db st).
Proof.
  intros Hempty Hsteps Hcov.
  assert (recorded st) as Hrec.
  { clear Hcov. assert (recorded st0) as Hrec0 by (intros e row x; by rw Hempty lookup_empty).
    clear Hempty. induction Hsteps as [st|st st1 st2 Hs _ IH]; [done|].
    apply IH. by eapply recorded_step. }
  assert (total = window_counts p q (sp_db st) ∧ p ≤ q) as [? _]; [|done].
  induction Hcov as [|q e total row x _ [-> Hle] Hf Hrow Hx].
  - by rw window_counts_nil.
  - destruct (Hrec e row x Hrow Hx) as (p' & (F1 & F2 & F3) & ->).
    destruct Hf as (G1 & G2 & G3).
    assert (p' = q) as ->. { apply Z.le_antisymm; [by apply G3|by apply F3]. }
    split; [|lia]. rw (window_counts_split p q e); [done|lia].
Qed.
End history.

(** ** Resolutions *)

(** [pick_resolution] takes the finest rung of the ladder that divides the span
      into at most [MAX_POINTS] buckets, or the widest one if none does. *)
Theorem pick_resolution_finest span :
  let fits res := Z.quot (whole_seconds span) res ≤ MAX_POINTS in
  let res := pick_resolution span in
  res ∈ RESOLUTION_LADDER_SECS ∧
  (fits res ∨ res = 24 * 60 * 60) ∧
  ∀ rung, rung ∈ RESOLUTION_LADDER_SECS → rung < res → ¬ fits rung.
Proof.
  cbv zeta. unfold pick_resolution. cbv zeta. set (secs := whole_seconds span).
  destruct (list_find _ _) as [[i res]|] eqn:E.
  - apply list_find_Some in E as (Hi & Hfit & Hbefore).
    split; [by eapply list_elem_of_lookup_2|]. split; [by left|].
    intros rung (j & Hj)%list_elem_of_lookup_1 Hlt. apply (Hbefore j rung Hj).
    clear Hfit Hbefore. vm_compute in Hi, Hj.
    do 7 (destruct i as [|i]; [injection Hi as <-; do 7 (destruct j as [|j];
      [injection Hj as <-; lia|]); done|]). done.
  - apply list_find_None in E. rw Forall_forall in E. split; [by do 6 right; left|].
    split; [by right|]. intros rung Hr _. by apply E.
Qed.

(** ** Buckets *)

(** Summing by groups, over any list of group names that has each once. *)
Lemma sum_by_group {A} (f : A → Z) (g : A → Z) (l : list A) (names : list Z) :
  NoDup names → (∀ x, x ∈ l → f x ∈ names) →
  sum_Z ((λ b, sum_Z (g <$> filter (λ x, f x = b) l)) <$> names) = sum_Z (g <$> l).
Proof.
  intros Hnd. induction l as [|x l IH]; intros Hin.
  { clear. induction names as [|b names IH]; [done|]. simpl. by rw IH. }
  rw fmap_cons. simpl. rw -IH; [|intros y Hy; apply Hin; by right].
  assert (f x ∈ names) as Hx by (apply Hin; left). clear IH Hin.
  set (F := λ (l : list A) b, sum_Z (g <$> filter (λ x, f x = b) l)).
  change (sum_Z (F (x :: l) <$> names) = g x + sum_Z (F l <$> names)).
  assert (∀ b, F (x :: l) b = if decide (f x = b) then g x + F l b else F l b) as HF.
  { intros b. unfold F. rw filter_cons. by destruct (decide (f x = b)). }
  clearbody F. induction names as [|b names IH]; [by apply not_elem_of_nil in Hx|].
  apply NoDup_cons in Hnd as [Hb Hnd]. rw !fmap_cons.
  change (F (x :: l) b + sum_Z (F (x :: l) <$> names) = g x + (F l b + sum_Z (F l <$> names))).
  rw (HF b). destruct (decide (f x = b)) as [Heq|Hne].
  - assert ((F (x :: l) <$> names) = (F l <$> names)) as ->; [|lia].
    apply list_fmap_ext. intros i b' Hi. rw HF decide_False; [done|]. intros Heq'. apply Hb.
    rw -Heq Heq'. by eapply list_elem_of_lookup_2.
  - apply elem_of_cons in Hx as [?|Hx]; [done|]. rw (IH Hnd Hx). lia.
Qed.

Lemma bucket_complete column rows :
  Forall (λ row, incomplete row = false) rows →
  bucket_sum column rows = Some (sum_Z (omap column rows)).
Proof.
  intros Hr. unfold bucket_sum.
  assert (existsb incomplete rows = false) as ->; [|done].
  induction Hr as [|row rows Hrow _ IH]; [done|]. simpl. by rw Hrow IH.
Qed.

Lemma sum_omap_complete column rows :
  (∀ row, incomplete row = false → is_Some (column row)) →
  Forall (λ row, incomplete row = false) rows →
  sum_Z (omap column rows) = sum_Z ((λ row, default 0 (column row)) <$> rows).
Proof.
  intros Hc. induction 1 as [|row rows Hrow _ IH]; [done|]. rw omap_cons.
  destruct (Hc row Hrow) as [x Hx]. simpl. rw Hx. simpl. by rw IH.
Qed.

Lemma elem_of_buckets res rows b : b ∈ buckets res rows ↔ b ∈ bucket res <$> rows.
Proof. unfold buckets. by rw elem_of_sort_by elem_of_elements elem_of_list_to_set. Qed.

Lemma NoDup_buckets res rows : NoDup (buckets res rows).
Proof. unfold buckets. rw (sort_by_perm (λ b, b)). apply NoDup_elements. Qed.

(** The totals of a column survive bucketing. *)
Lemma bucketed_column (column : CounterRow → option Z) res rows :
  (∀ row, incomplete row = false → is_Some (column row)) →
  (∀ group, column (bucket_row res group) = bucket_sum column group) →
  Forall (λ row, incomplete row = false) rows →
  sum_Z (omap column (bucketed res rows)) = sum_Z (omap column rows).
Proof.
  intros Hc Hcol Hr. rw (sum_omap_complete column rows Hc Hr).
  rw -(sum_by_group (bucket res) _ rows (buckets res rows) (NoDup_buckets res rows)).
  2:{ intros row Hin. apply elem_of_buckets, list_elem_of_fmap. eauto. }
  unfold bucketed. induction (buckets res rows) as [|b bs IH]; [done|].
  rw fmap_cons omap_cons Hcol.
  assert (Forall (λ row, incomplete row = false) (filter (λ row, bucket res row = b) rows)) as Hg.
  { apply Forall_forall. intros row [_ Hin]%list_elem_of_filter. rw Forall_forall in Hr. by apply Hr. }
  rw (bucket_complete column _ Hg). simpl. rw IH. by rw (sum_omap_complete column _ Hc Hg).
Qed.

(** A bucketed series holds at most two points more than the span has whole
      buckets, and when no sample of the range lacks its counts, each of its three totals
      is the total of the samples themselves. *)
Theorem bucketing_preserves_totals from to res m :
  0 < res → from ≤ to →
  let rows := rows_between from to m in
  let points := bucketed res rows in
  Z.of_nat (length points) ≤ (to - from) / (res * SECOND) + 2 ∧
  (Forall (λ row, incomplete row = false) rows →
   sum_Z (omap cr_added_txs points) = sum_Z (omap cr_added_txs rows) ∧
   sum_Z (omap cr_confirmed_txs points) = sum_Z (omap cr_confirmed_txs rows) ∧
   sum_Z (omap cr_evicted_txs points) = sum_Z (omap cr_evicted_txs rows)).
Proof.
  intros Hres Hle rows points. split.
  - set (d := res * SECOND). assert (0 < d) as Hd by (subst d; unfold SECOND; lia).
    assert (Z.of_nat (length points) ≤ to / d - from / d + 1) as Hlen.
    { subst points. unfold bucketed. rw length_fmap.
      assert (length (buckets res rows) ≤ length (seqZ (from / d) (to / d - from / d + 1)))%nat as Hl.
      { apply submseteq_length, NoDup_submseteq; [apply NoDup_buckets|].
        intros b (row & -> & Hin)%elem_of_buckets%list_elem_of_fmap.
        apply list_elem_of_filter in Hin as [Hb _]. apply elem_of_seqZ. unfold bucket. fold d.
        pose proof (Z.div_le_mono from (cr_sampled_at row) d Hd).
        pose proof (Z.div_le_mono (cr_sampled_at row) to d Hd). lia. }
      pose proof (Z.div_le_mono from to d Hd Hle). rw length_seqZ in Hl. lia. }
    assert (to / d ≤ from / d + (to - from) / d + 1); [|lia].
    pose proof (Z.div_mod to d). pose proof (Z.div_mod from d). pose proof (Z.div_mod (to - from) d).
    pose proof (Z.mod_pos_bound to d Hd). pose proof (Z.mod_pos_bound from d Hd).
    pose proof (Z.mod_pos_bound (to - from) d Hd). nia.
  - intros Hr.
    assert (∀ row, incomplete row = false → is_Some (cr_added_txs row) ∧
      is_Some (cr_confirmed_txs row) ∧ is_Some (cr_evicted_txs row)) as Hsome.
    { intros row Hi. unfold incomplete in Hi. apply bool_decide_eq_false in Hi.
      destruct (cr_added_txs row), (cr_confirmed_txs row), (cr_evicted_txs row); naive_solver. }
    split_and!; apply bucketed_column; try done; intros row Hi; by apply Hsome.
Qed.

(** ** Witnesses *)

Definition demo_samples : gmap Z CounterRow :=
  list_to_map ((λ t, (t * SECOND, mkCounterRow (t * SECOND) 60 (Some 1) (Some 2) (Some 0))) <$>
    [60; 120; 180; 240; 300; 360]).

Lemma bucketing_preserves_totals_witness :
  length (bucketed 300 (rows_between 0 (360 * SECOND) demo_samples)) = 2%nat ∧
  Z.of_nat (length (bucketed 300 (rows_between 0 (360 * SECOND) demo_samples)))
  ≤ (360 * SECOND - 0) / (300 * SECOND) + 2.
Proof.
  split; [vm_compute; reflexivity|].
  apply (bucketing_preserves_totals 0 (360 * SECOND) 300 demo_samples); [lia|unfold SECOND; lia].
Defined.

(** A first sample, two transactions flushed, a second sample. *)
Definition demo_clock : Env :=
  {| clock := λ s _, 2000 * SECOND + Z.of_nat s * SECOND; pool_fault := λ _, None; stmt_fault := λ _, None |}.
Definition demo_first : Store := (@sample demo_clock 60 (mkStore (mkConn empty_db 0 None) ∅ [])).2.
Definition demo_rows : list MempoolDelta :=
  [mkMempoolDelta "aa" AddMempool (1642 * SECOND); mkMempoolDelta "bb" AddMempool (1645 * SECOND)].
Definition demo_flushed : Store :=
  mkStore (mkConn (set_deltas demo_rows empty_db) 10 None) (sp_samples demo_first) [].
Definition demo_second : Store := (@sample demo_clock 60 demo_flushed).2.

Lemma samples_account_for_log_witness :
  covers (sp_samples demo_second) (1640 * SECOND) (1650 * SECOND) (2, 0, 0) ∧
  (2, 0, 0) = window_counts (1640 * SECOND) (1650 * SECOND) (sp_db demo_second).
Proof.
  assert (covers (sp_samples demo_second) (1640 * SECOND) (1650 * SECOND) (add3 (0, 0, 0) (2, 0, 0)))
    as Hc.
  { eapply covers_next; [apply covers_none| |vm_compute; reflexivity|vm_compute; reflexivity].
    unfold follows. assert (dom (sp_samples demo_second) = {[1640 * SECOND; 1650 * SECOND]}) as ->
      by (vm_compute; reflexivity).
    split; [set_solver|]. split; [vm_compute; reflexivity|]. intros k Hk. set_unfold in Hk. lia. }
  split; [exact Hc|].
  apply (@samples_account_for_log demo_clock (mkStore (mkConn empty_db 0 None) ∅ []) demo_second
    (1640 * SECOND) (1650 * SECOND) (2, 0, 0)); [reflexivity| |exact Hc].
  eapply rtc_l; [apply (@step_sample demo_clock 60)|].
  eapply rtc_l; [|apply rtc_once, (@step_sample demo_clock 60)].
  apply (@step_flush demo_clock (2001 * SECOND) demo_rows
    (mkConn (set_deltas demo_rows empty_db) 10 None) demo_first).
  - vm_compute. reflexivity.
  - intros k Hk. assert (dom (sp_samples demo_first) = {[1640 * SECOND]}) as Hd
      by (vm_compute; reflexivity). fold demo_first in Hk. rw Hd in Hk. apply elem_of_singleton in Hk as ->.
    vm_compute. discriminate.
  - repeat constructor; vm_compute; reflexivity.
Defined.

End Sampling.
