(* ===== verification/Gauges.v ===== *)
(** * Gauge samples and the home page

    [api/src/services/gauge_sample.rs] with its repository
    [api/src/db/repositories/gauge_sample.rs], and [api/src/services/home.rs]: periodic rows
    with the size of the mempool and of its clusters, the series made of them, and the
    numbers shown live.  The samples live beside the tables of [Db], as in [Sampling]. *)

From S2P Require Import Prelude.
From S2P Require Import Models.
From S2P Require Import Ledger.
From S2P Require Import ClusterSnapshot.
From S2P Require Import Database.
From S2P Require Import MempoolRepo.
From S2P Require Import TxRepo.
From S2P Require Import Sampling.

Open Scope Z_scope.

Module Gauges.
Import Database.

(** [MempoolGaugeSampleRow] and [NewMempoolGaugeSampleRow] *)
Record GaugeRow := mkGaugeRow {
  gr_sampled_at : Z;
  gr_cluster_count : Z;
  gr_clustered_tx_count : Z;
  gr_mempool_tx_count : Z;
  gr_total_weight : Z;
  gr_total_fee : Z;
}.

Inductive GaugeMetric :=
| ClusterCount | ClusteredTxCount | MempoolTxCount | TotalVsize | TotalFee.

(** [GaugeSeries], its points as pairs of time and value. *)
Record GaugeSeries := mkGaugeSeries {
  gs_metric : GaugeMetric;
  gs_resolution_secs : Z;
  gs_points : list (Z * Z);
}.

(** [MempoolStatsEvent] *)
Record MempoolStatsEvent := mkMempoolStatsEvent {
  ms_mempool_size : Z;
  ms_cluster_count : Z;
  ms_tx_per_min : Z;
}.

Record GaugeStore := mkGaugeStore {
  gg_conn : Conn;
  gg_samples : gmap Z GaugeRow;
}.

Definition Gm (A : Type) : Type := GaugeStore → A * GaugeStore.
#[global] Instance Gm_ret : MRet Gm := λ A a st, (a, st).
#[global] Instance Gm_bind : MBind Gm := λ A B f m st, let '(a, st) := m st in f a st.

(** ** The bucketed query *)

(** [floor(extract(epoch FROM sampled_at) / res)] *)
Definition gauge_bucket (resolution_secs : Z) (row : GaugeRow) : Z :=
  gr_sampled_at row / (resolution_secs * Sampling.SECOND).

(** [ORDER BY bucket, sampled_at DESC] *)
Definition bucket_order (resolution_secs : Z) (x y : GaugeRow) : Prop :=
  gauge_bucket resolution_secs x < gauge_bucket resolution_secs y ∨
  gauge_bucket resolution_secs x = gauge_bucket resolution_secs y ∧
  gr_sampled_at y ≤ gr_sampled_at x.
#[global] Instance bucket_order_dec resolution_secs : RelDecision (bucket_order resolution_secs).
Proof. intros x y. unfold bucket_order. apply _. Defined.
#[global] Instance bucket_order_total resolution_secs : Total (bucket_order resolution_secs).
Proof. intros x y. unfold bucket_order. lia. Qed.
#[global] Instance bucket_order_trans resolution_secs : Transitive (bucket_order resolution_secs).
Proof. intros x y z. unfold bucket_order. lia. Qed.

(** [SELECT DISTINCT ON (bucket)]: the first row of each bucket, of rows in that order. *)
Fixpoint distinct_on (resolution_secs : Z) (last : option Z) (rows : list GaugeRow) :
    list GaugeRow :=
  match rows with
  | [] => []
  | row :: rows =>
      let b := gauge_bucket resolution_secs row in
      if decide (last = Some b) then distinct_on resolution_secs last rows
      else row :: distinct_on resolution_secs (Some b) rows
  end.

Definition gauge_buckets (resolution_secs : Z) (rows : list GaugeRow) : list GaugeRow :=
  sort_by gr_sampled_at
    (distinct_on resolution_secs None (merge_sort (bucket_order resolution_secs) rows)).

Definition gauges_between (from to : Z) (m : gmap Z GaugeRow) : list GaugeRow :=
  filter (λ row, from ≤ gr_sampled_at row ≤ to) (snd <$> map_to_list m).

Section gauges.
Context `{Env} `{EnumOrder} `{BitcoinUnits}.

Definition gauge_now : Gm Z := λ st,
  let c := gg_conn st in
  (clock (conn_step c) 0,
   mkGaugeStore (mkConn (conn_db c) (S (conn_step c)) (conn_txn c)) (gg_samples st)).

(** One statement on [mempool_gauge_samples]. *)
Definition on_gauges {A} (f : gmap Z GaugeRow → A * gmap Z GaugeRow) : Gm (result RepoError A) :=
  λ st,
  match query (select (λ _, ())) (gg_conn st) with
  | (Ok _, c) => let '(a, m) := f (gg_samples st) in (Ok a, mkGaugeStore c m)
  | (Err e, c) => (Err e, mkGaugeStore c (gg_samples st))
  end.

(** ** The repository *)

(** [ON CONFLICT (sampled_at) DO NOTHING] *)
Definition gauge_insert (sample : GaugeRow) : Gm (result RepoError nat) :=
  on_gauges (λ m, match m !! gr_sampled_at sample with
                  | Some _ => (0%nat, m)
                  | None => (1%nat, <[gr_sampled_at sample := sample]> m)
                  end).

Definition gauge_range_native (from to : Z) : Gm (result RepoError (list GaugeRow)) :=
  on_gauges (λ m, (sort_by gr_sampled_at (gauges_between from to m), m)).

Definition gauge_range_bucketed (from to resolution_secs : Z) :
    Gm (result RepoError (list GaugeRow)) :=
  on_gauges (λ m, (gauge_buckets resolution_secs (gauges_between from to m), m)).

Definition gauge_range (from to resolution_secs : Z) : Gm (result RepoError (list GaugeRow)) :=
  if resolution_secs =? Sampling.NATIVE_RESOLUTION_SECS then gauge_range_native from to
  else gauge_range_bucketed from to resolution_secs.

(** ** The service *)

Definition build_row (snapshot : gmap Z Snapshot.ClusterState) (mempool_tx_count : nat)
    (sampled_at : Z) : GaugeRow :=
  let stats := Snapshot.stats snapshot in
  mkGaugeRow sampled_at (to_i32 (Z.of_nat (Snapshot.st_cluster_count stats)))
    (to_i32 (Z.of_nat (Snapshot.st_tx_count stats))) (to_i32 (Z.of_nat mempool_tx_count))
    (Snapshot.st_total_weight stats) (Snapshot.st_total_fee stats).

(** Returns the stale member count, which the source reports as a metric. *)
Definition gauge_sample (ledger : Ledger.Inner) (snapshot : gmap Z Snapshot.ClusterState) :
    Gm nat :=
  let stale_member_count := Snapshot.missing_member_count (Ledger.live ledger) snapshot in
  let live_len := size (Ledger.live ledger) in
  now ← gauge_now;
  _ ← gauge_insert (build_row snapshot live_len now);
  mret stale_member_count.

Definition metric_value (metric : GaugeMetric) (row : GaugeRow) : Z :=
  match metric with
  | ClusterCount => gr_cluster_count row
  | ClusteredTxCount => gr_clustered_tx_count row
  | MempoolTxCount => gr_mempool_tx_count row
  | TotalVsize => vsize_from_weight (gr_total_weight row)
  | TotalFee => gr_total_fee row
  end.

Definition gauge_fetch_range (from to : option Z) : Gm (result ApiError (Z * list GaugeRow)) :=
  to ← (match to with Some to => mret to | None => gauge_now end);
  let from := default (to - Sampling.DEFAULT_RANGE) from in
  if to <=? from then mret (Err (BadRequest "`from` must be earlier than `to`"))
  else
    let resolution_secs := Sampling.pick_resolution (to - from) in
    r ← gauge_range from to resolution_secs;
    mret (match r with Ok rows => Ok (resolution_secs, rows) | Err e => Err (Internal e) end).

Definition metric_series (metric : GaugeMetric) (from to : option Z) :
    Gm (result ApiError GaugeSeries) :=
  r ← gauge_fetch_range from to;
  mret (match r with
        | Err e => Err e
        | Ok (resolution_secs, rows) =>
            Ok (mkGaugeSeries metric resolution_secs
                  ((λ row, (gr_sampled_at row, metric_value metric row)) <$> rows))
        end).

(** ** The home page *)

Definition RATE_WINDOW : Z := 60 * Sampling.SECOND.

Definition current_stats (ledger : Ledger.Inner) (snapshot : gmap Z Snapshot.ClusterState) :
    Conn → MempoolStatsEvent * Conn := λ c,
  let mempool_size := to_i64 (Z.of_nat (size (Ledger.live ledger))) in
  let cluster_count := to_i64 (Z.of_nat (Snapshot.len snapshot)) in
  let cutoff := clock (conn_step c) 0 - RATE_WINDOW in
  let c := mkConn (conn_db c) (S (conn_step c)) (conn_txn c) in
  let '(r, c) := MempoolRepo.count_adds_since cutoff c in
  let tx_per_min := match r with Ok count => count | Err _ => 0 end in
  (mkMempoolStatsEvent mempool_size cluster_count tx_per_min, c).

Definition get_current_chain_tip : Conn → option NewBlockInfoEvent * Conn := λ c,
  match TxRepo.latest c with
  | (Ok (Some (height, mined_at)), c) => (Some (mkNewBlockInfoEvent height mined_at), c)
  | (Ok None, c) => (None, c)
  | (Err _, c) => (None, c)
  end.
End gauges.

(** ** The last sample of each bucket *)

Lemma distinct_on_spec res last rows row :
  StronglySorted (bucket_order res) rows → NoDup rows →
  (∀ r1 r2, r1 ∈ rows → r2 ∈ rows → gr_sampled_at r1 = gr_sampled_at r2 → r1 = r2) →
  (∀ b r, last = Some b → r ∈ rows → b ≤ gauge_bucket res r) →
  row ∈ distinct_on res last rows ↔
  row ∈ rows ∧ last ≠ Some (gauge_bucket res row) ∧
  ∀ r, r ∈ rows → gauge_bucket res r = gauge_bucket res row →
       gr_sampled_at r ≤ gr_sampled_at row.
Proof.
  intros Hs. revert last. induction Hs as [|x l Hs IH Hx]; intros lst Hnd Huniq Hlast.
  { simpl. rw !elem_of_nil. naive_solver. }
  apply NoDup_cons in Hnd as [Hxl Hnd]. rw Forall_forall in Hx. cbn [distinct_on].
  assert (∀ r1 r2, r1 ∈ l → r2 ∈ l → gr_sampled_at r1 = gr_sampled_at r2 → r1 = r2) as Hu'
    by (intros; apply Huniq; set_solver).
  case_decide as Hl.
  - rw IH; [|done..|by intros b r Hb Hr; apply (Hlast b r Hb); right]. subst lst.
    rw elem_of_cons. split.
    + intros (Hr & Hne & Hmax). split_and!; [by right|done|].
      intros r [->|Hrl]%elem_of_cons Hb; [congruence|by apply Hmax].
    + intros ([->|Hr] & Hne & Hmax); [done|]. split_and!; [done..|].
      intros r Hrl. apply Hmax. by right.
  - rw elem_of_cons IH; [|done..|].
    2:{ intros b r [= <-] Hr. destruct (Hx r Hr); lia. }
    rw elem_of_cons. split.
    + intros [->|(Hr & Hne & Hmax)].
      * split_and!; [by left|done|]. intros r [->|Hr]%elem_of_cons Hb; [lia|].
        destruct (Hx r Hr); lia.
      * split_and!; [by right| |].
        -- intros Hlr. apply Hl. pose proof (Hlast _ x Hlr ltac:(left)).
           rw Hlr. f_equal. destruct (Hx row Hr); lia.
        -- intros r [->|Hrl]%elem_of_cons Hb; [congruence|by apply Hmax].
    + intros ([->|Hr] & Hne & Hmax); [by left|right]. split_and!; [done| |].
      * intros [= Hb]. specialize (Hmax x ltac:(left) Hb).
        apply Hxl. replace x with row; [done|]. apply Huniq; [by right|left|].
        destruct (Hx row Hr); lia.
      * intros r Hrl. apply Hmax. by right.
Qed.

(** Samples stored under their own time have distinct times. *)
Definition samples_keyed (m : gmap Z GaugeRow) : Prop :=
  ∀ k row, m !! k = Some row → gr_sampled_at row = k.

Lemma elem_of_gauges_between from to m row :
  samples_keyed m →
  row ∈ gauges_between from to m ↔
  m !! gr_sampled_at row = Some row ∧ from ≤ gr_sampled_at row ≤ to.
Proof.
  intros Hk. unfold gauges_between. rw list_elem_of_filter list_elem_of_fmap. split.
  - intros [Hb ([k r] & -> & Hm%elem_of_map_to_list)]. simpl in *. pose proof (Hk _ _ Hm) as <-. done.
  - intros [Hm Hb]. split; [done|]. exists (gr_sampled_at row, row). split; [done|].
    by apply elem_of_map_to_list.
Qed.

Lemma gauges_between_NoDup from to m : samples_keyed m → NoDup (gauges_between from to m).
Proof.
  intros Hk. apply NoDup_filter. apply (NoDup_fmap_1 gr_sampled_at).
  rw -list_fmap_compose. erewrite list_fmap_ext; [apply NoDup_fst_map_to_list|].
  intros i [k r] Hi. simpl. apply (Hk k). by apply elem_of_map_to_list, (list_elem_of_lookup_2 _ i).
Qed.

Lemma elem_of_gauge_buckets res from to m row :
  samples_keyed m →
  row ∈ gauge_buckets res (gauges_between from to m) ↔
  row ∈ gauges_between from to m ∧
  ∀ r, r ∈ gauges_between from to m → gauge_bucket res r = gauge_bucket res row →
       gr_sampled_at r ≤ gr_sampled_at row.
Proof.
  intros Hk. set (rows := gauges_between from to m). unfold gauge_buckets.
  pose proof (merge_sort_Permutation (bucket_order res) rows) as Hp. rw elem_of_sort_by.
  rw distinct_on_spec.
  - setoid_rewrite Hp. naive_solver.
  - apply StronglySorted_merge_sort; apply _.
  - rw Hp. by apply gauges_between_NoDup.
  - intros r1 r2. rw Hp. intros [H1 _]%elem_of_gauges_between [H2 _]%elem_of_gauges_between Heq;
      [congruence|done..].
  - done.
Qed.

Section series.
Context `{Env} `{BitcoinUnits}.

Lemma on_gauges_spec {A} (f : gmap Z GaugeRow → A * gmap Z GaugeRow) st :
  let '(r, st') := on_gauges f st in
  conn_db (gg_conn st') = conn_db (gg_conn st) ∧
  match r with
  | Ok a => f (gg_samples st) = (a, gg_samples st')
  | Err _ => gg_samples st' = gg_samples st
  end.
Proof.
  unfold on_gauges. pose proof (query_select_keeps (λ _, ()) (gg_conn st)) as [Hd _].
  destruct (query _ _) as [[u|e] c]; simpl in *; [|done]. by destruct (f _).
Qed.

(** C40.  The points of a coarse series are real samples: of each bucket of the requested
    range exactly the last one observed, in order of time, and every sample of the range has
    a point of its bucket at or after it.  Reading changes nothing. *)
Theorem gauge_series_keeps_last_sample from to res st :
  samples_keyed (gg_samples st) → res ≠ Sampling.NATIVE_RESOLUTION_SECS →
  let rows := gauges_between from to (gg_samples st) in
  let '(r, st') := gauge_range from to res st in
  gg_samples st' = gg_samples st ∧
  match r with
  | Err _ => True
  | Ok points =>
      StronglySorted (key_le gr_sampled_at) points ∧
      (∀ p, p ∈ points ↔ p ∈ rows ∧
         ∀ r, r ∈ rows → gauge_bucket res r = gauge_bucket res p →
              gr_sampled_at r ≤ gr_sampled_at p) ∧
      (∀ p q, p ∈ points → q ∈ points → gauge_bucket res p = gauge_bucket res q → p = q) ∧
      (∀ r, r ∈ rows → ∃ p, p ∈ points ∧ gauge_bucket res p = gauge_bucket res r ∧
                             gr_sampled_at r ≤ gr_sampled_at p)
  end.
Proof.
  intros Hk Hres. cbv zeta. unfold gauge_range. rw (proj2 (Z.eqb_neq _ _) Hres).
  unfold gauge_range_bucketed. set (f := λ m, _). pose proof (on_gauges_spec f st) as Hs.
  destruct (on_gauges f st) as [[points|e] st']; destruct Hs as [_ Hf]; [|done].
  unfold f in Hf. injection Hf as <- <-. split; [done|]. split; [apply sort_by_sorted|].
  split; [intros p; by apply elem_of_gauge_buckets|]. split.
  - intros p q [Hp Hpm]%elem_of_gauge_buckets [Hq Hqm]%elem_of_gauge_buckets Hb; [|done..].
    specialize (Hpm q Hq (eq_sym Hb)). specialize (Hqm p Hp Hb).
    apply elem_of_gauges_between in Hp as [Hp _]; [|done].
    apply elem_of_gauges_between in Hq as [Hq _]; [|done].
    assert (gr_sampled_at p = gr_sampled_at q) as Heq by lia. congruence.
  - intros r Hr. set (rows := gauges_between _ _ _) in *.
    set (mine := filter (λ x, gauge_bucket res x = gauge_bucket res r) rows).
    assert (∀ x, x ∈ mine ↔ gauge_bucket res x = gauge_bucket res r ∧ x ∈ rows) as Hmine
      by (intros x; unfold mine; by rw list_elem_of_filter).
    pose proof (TxRepo.max_Z_spec (gr_sampled_at <$> mine)) as Hmax.
    destruct (TxRepo.max_Z _) as [t|].
    + destruct Hmax as [(p & -> & Hp%Hmine)%list_elem_of_fmap Hmax]. exists p.
      destruct Hp as [Hb Hp]. split_and!; [|done|].
      * apply elem_of_gauge_buckets; [done|]. split; [done|]. intros x Hx Hxb.
        apply Hmax, list_elem_of_fmap_2, Hmine. split; [congruence|done].
      * apply Hmax, list_elem_of_fmap_2, Hmine. done.
    + exfalso. apply (not_elem_of_nil (gr_sampled_at r)). rw -Hmax.
      apply list_elem_of_fmap_2, Hmine. done.
Qed.
End series.

(** ** Witness *)

(** A sample a minute for six minutes, read in buckets of five. *)
Definition demo_gauge (t : Z) : GaugeRow := mkGaugeRow (t * Sampling.SECOND) t (2 * t) (3 * t) 400 10.
Definition demo_gauges : GaugeStore :=
  mkGaugeStore (mkConn empty_db 0 None)
    (list_to_map ((λ t, (t * Sampling.SECOND, demo_gauge t)) <$> [60; 120; 180; 240; 300; 360])).

Lemma gauge_series_keeps_last_sample_witness :
  (@gauge_range Sampling.demo_clock 0 (400 * Sampling.SECOND) 300 demo_gauges).1
    = Ok [demo_gauge 240; demo_gauge 360] ∧
  ∀ p q, p ∈ [demo_gauge 240; demo_gauge 360] → q ∈ [demo_gauge 240; demo_gauge 360] →
    gauge_bucket 300 p = gauge_bucket 300 q → p = q.
Proof.
  assert (samples_keyed (gg_samples demo_gauges)) as Hk.
  { assert (map_Forall (λ k row, gr_sampled_at row = k) (gg_samples demo_gauges)) as Hall;
      [|exact Hall]. apply (bool_decide_unpack _). vm_compute. exact I. }
  pose proof (@gauge_series_keeps_last_sample Sampling.demo_clock 0 (400 * Sampling.SECOND) 300
    demo_gauges Hk ltac:(done)) as Ht.
  destruct (@gauge_range Sampling.demo_clock 0 (400 * Sampling.SECOND) 300 demo_gauges)
    as [r st'] eqn:Hr.
  assert (r = Ok [demo_gauge 240; demo_gauge 360]) as ->.
  { change r with (r, st').1. rw -Hr. vm_compute. reflexivity. }
  split; [reflexivity|]. apply Ht.
Defined.

End Gauges.
