(* ===== verification/Schema.v ===== *)
(** * The tables

    [api/src/db/schema.rs] and the structs of [api/src/db/models.rs] that are written to it.  A
    table has typed columns; an [Insertable] struct assigns some of them by name, the others get
    the column's DEFAULT of [api/migrations].  Elsewhere in this library a row is the struct
    itself; here it is checked against its table. *)

From S2P Require Import Prelude.
From S2P Require Import Models.
From S2P Require Import Database.
From S2P Require Import SystemEvents.
From S2P Require Import ClusterRepo.
From S2P Require Import Sampling.
From S2P Require Import ClusterSnapshot.
From S2P Require Import Gauges.
From S2P Require Import Gate.
From S2P Require Import Blocks.
From S2P Require Import Bootstrap.

Open Scope Z_scope.
Set Warnings "-register-all".

Module Schema.
Import Database.

(** ** Types and values *)

Inductive SqlType :=
| Text
| Int2
| Int4
| Int8
| Float8
| Bool
| Timestamptz
| Jsonb
| TextArray
| EnumOf (values : list string)
| Nullable (t : SqlType).

Inductive SqlValue :=
| VNull
| VText (s : string)
| VInt (z : Z)
| VFloat (z : Z)
| VBool (b : bool)
| VTime (t : Z)
| VJson (v : SystemEvents.Value)
| VTexts (l : list string)
| VEnum (s : string).

Definition signed (bits z : Z) : bool := bool_decide (- 2 ^ (bits - 1) ≤ z < 2 ^ (bits - 1)).

Fixpoint has_type (t : SqlType) (v : SqlValue) : bool :=
  match t, v with
  | Nullable _, VNull => true
  | Nullable t, v => has_type t v
  | Text, VText _ | Float8, VFloat _ | Bool, VBool _ | Timestamptz, VTime _ | Jsonb, VJson _
  | TextArray, VTexts _ => true
  | Int2, VInt z => signed 16 z
  | Int4, VInt z => signed 32 z
  | Int8, VInt z => signed 64 z
  | EnumOf values, VEnum s => bool_decide (s ∈ values)
  | _, _ => false
  end.

(** ** [schema.rs] *)

Record Table := mkTable {
  t_name : string;
  t_key : list string;
  t_columns : list (string * SqlType);
}.

Definition cluster_status : SqlType := EnumOf ["active"; "confirmed"; "evicted"; "merged"].
Definition delta_reason : SqlType := EnumOf ["add_mempool"; "remove_confirmed"; "remove_evicted"].
Definition system_event_kind : SqlType :=
  EnumOf ["server_started"; "server_stopped"; "bootstrap_started"; "bootstrap_completed";
          "node_connected"; "node_disconnected"; "node_version_changed"].

Definition blocks : Table := mkTable "blocks" ["hash"]
  [("hash", Text); ("height", Int8); ("mined_at", Timestamptz); ("tx_count", Int8);
   ("total_bytes", Int8); ("total_fee", Int8); ("difficulty", Float8);
   ("created_at", Nullable Timestamptz)].

Definition cluster_chunks : Table := mkTable "cluster_chunks" ["cluster_id"; "version"; "position"]
  [("cluster_id", Int8); ("version", Int4); ("position", Int2); ("fee", Int8); ("weight", Int8);
   ("txids", TextArray); ("live", Bool); ("created_at", Timestamptz)].

Definition clusters : Table := mkTable "clusters" ["id"]
  [("id", Int8); ("total_fee", Int8); ("first_seen_at", Timestamptz);
   ("confirmed_at", Nullable Timestamptz); ("total_weight", Int8); ("status", cluster_status);
   ("version", Int4); ("closed_at", Nullable Timestamptz)].

Definition mempool_counter_samples : Table := mkTable "mempool_counter_samples" ["sampled_at"]
  [("sampled_at", Timestamptz); ("period_secs", Int8); ("added_txs", Nullable Int8);
   ("confirmed_txs", Nullable Int8); ("evicted_txs", Nullable Int8)].

Definition mempool_deltas : Table := mkTable "mempool_deltas" ["id"]
  [("id", Int8); ("txid", Text); ("reason", delta_reason); ("created_at", Timestamptz)].

Definition mempool_gauge_samples : Table := mkTable "mempool_gauge_samples" ["sampled_at"]
  [("sampled_at", Timestamptz); ("cluster_count", Int4); ("clustered_tx_count", Int4);
   ("mempool_tx_count", Int4); ("total_weight", Int8); ("total_fee", Int8)].

Definition system_events : Table := mkTable "system_events" ["id"]
  [("id", Int8); ("kind", system_event_kind); ("details", Jsonb); ("created_at", Timestamptz)].

Definition transactions : Table := mkTable "transactions" ["txid"]
  [("txid", Text); ("fee", Nullable Int8); ("weight", Int8); ("first_seen_at", Timestamptz);
   ("confirmed_at", Nullable Timestamptz); ("cluster_id", Nullable Int8);
   ("confirmed_at_block", Nullable Text); ("input_txids", Nullable TextArray)].

(** The DEFAULTs the migrations leave on columns, at the transaction's [now()] and with the
    next value of the table's sequence. *)
Definition column_default (t : Table) (now next : Z) (column : string) : SqlValue :=
  match t_name t, column with
  | "clusters", "id" | "mempool_deltas", "id" | "system_events", "id" => VInt next
  | "clusters", "status" => VEnum "active"
  | "clusters", "version" => VInt 1
  | "cluster_chunks", "created_at" | "mempool_deltas", "created_at"
  | "system_events", "created_at" => VTime now
  | "system_events", "details" => VJson []
  | _, _ => VNull
  end.

(** ** Writing rows *)

Definition Assigned : Type := list (string * SqlValue).
Definition assigned (column : string) (values : Assigned) : option SqlValue :=
  snd <$> head (filter (λ kv, kv.1 = column) values).

(** What an INSERT leaves in a column. *)
Definition stored (t : Table) (now next : Z) (values : Assigned) (column : string) : SqlValue :=
  default (column_default t now next column) (assigned column values).

(** The row, in the order of the table, unless a column has the wrong type, width or no value,
    or a column is assigned that the table does not have. *)
Definition insert_row (t : Table) (now next : Z) (values : Assigned) : option (list SqlValue) :=
  if forallb (λ kv, bool_decide (kv.1 ∈ (t_columns t).*1)) values &&
     forallb (λ column, has_type column.2 (stored t now next values column.1)) (t_columns t)
  then Some (stored t now next values <$> (t_columns t).*1) else None.

(** ** Structs *)

(** [ToSql]: the value of a field.  Floating-point numbers and times are kept as they are; what
    the server does to their precision plays no part in which rows it accepts. *)
Definition text : string → SqlValue := VText.
Definition int : Z → SqlValue := VInt.
Definition float : Z → SqlValue := VFloat.
Definition boolean : bool → SqlValue := VBool.
Definition time : Z → SqlValue := VTime.
Definition json : SystemEvents.Value → SqlValue := VJson.
Definition texts : list string → SqlValue := VTexts.
Definition nullable {A} (to_sql : A → SqlValue) (o : option A) : SqlValue :=
  match o with Some x => to_sql x | None => VNull end.

(** [DbEnum] in snake case. *)
Definition reason_str (r : DeltaReason) : string :=
  match r with
  | AddMempool => "add_mempool"
  | RemoveConfirmed => "remove_confirmed"
  | RemoveEvicted => "remove_evicted"
  end.
Definition kind_str (k : SystemEvents.SystemEventKind) : string :=
  match k with
  | SystemEvents.ServerStarted => "server_started"
  | SystemEvents.ServerStopped => "server_stopped"
  | SystemEvents.BootstrapStarted => "bootstrap_started"
  | SystemEvents.BootstrapCompleted => "bootstrap_completed"
  | SystemEvents.NodeConnected => "node_connected"
  | SystemEvents.NodeDisconnected => "node_disconnected"
  | SystemEvents.NodeVersionChanged => "node_version_changed"
  end.

Definition reason (r : DeltaReason) : SqlValue := VEnum (reason_str r).
Definition kind (k : SystemEvents.SystemEventKind) : SqlValue := VEnum (kind_str k).

(** An [Insertable] struct: its fields, each with the column it is written to. *)
Definition Struct (T : Type) : Type := list (string * (T → SqlValue)).

Definition save {T} (d : Struct T) (x : T) : Assigned := (λ field, (field.1, field.2 x)) <$> d.

(** ** The structs of [models.rs] *)

(** [NewBlock] *)
Definition block_struct : Struct Block :=
  [("hash", λ b, text (blk_hash b)); ("height", λ b, int (blk_height b));
   ("mined_at", λ b, time (blk_mined_at b)); ("tx_count", λ b, int (blk_tx_count b));
   ("total_bytes", λ b, int (blk_total_bytes b)); ("total_fee", λ b, int (blk_total_fee b));
   ("difficulty", λ b, float (blk_difficulty b)); ("created_at", λ b, time (blk_created_at b))].

(** [NewTransaction] *)
Definition transaction_struct : Struct Transaction :=
  [("txid", λ t, text (tx_txid t)); ("fee", λ t, nullable int (tx_fee t));
   ("weight", λ t, int (tx_weight t)); ("first_seen_at", λ t, time (tx_first_seen_at t));
   ("confirmed_at", λ t, nullable time (tx_confirmed_at t));
   ("cluster_id", λ t, nullable int (tx_cluster_id t));
   ("confirmed_at_block", λ t, nullable text (tx_confirmed_at_block t));
   ("input_txids", λ t, nullable texts (tx_input_txids t))].

(** [NewMempoolDelta] *)
Definition mempool_delta_struct : Struct MempoolDelta :=
  [("txid", λ d, text (md_txid d)); ("reason", λ d, reason (md_reason d));
   ("created_at", λ d, time (md_created_at d))].

(** [NewMempoolCounterSampleRow] *)
Definition counter_struct : Struct Sampling.CounterRow :=
  [("sampled_at", λ r, time (Sampling.cr_sampled_at r));
   ("period_secs", λ r, int (Sampling.cr_period_secs r));
   ("added_txs", λ r, nullable int (Sampling.cr_added_txs r));
   ("confirmed_txs", λ r, nullable int (Sampling.cr_confirmed_txs r));
   ("evicted_txs", λ r, nullable int (Sampling.cr_evicted_txs r))].

(** [NewClusterRow], as [insert_in] builds it. *)
Record NewClusterRow := mkNewClusterRow {
  ncr_id : Z;
  ncr_total_weight : Z;
  ncr_total_fee : Z;
  ncr_first_seen_at : Z;
}.

Definition new_cluster_struct : Struct NewClusterRow :=
  [("id", λ r, int (ncr_id r)); ("total_weight", λ r, int (ncr_total_weight r));
   ("total_fee", λ r, int (ncr_total_fee r)); ("first_seen_at", λ r, time (ncr_first_seen_at r))].

Definition new_chunk_struct : Struct ClusterRepo.NewClusterChunk :=
  [("cluster_id", λ r, int (ClusterRepo.ncc_cluster_id r));
   ("version", λ r, int (ClusterRepo.ncc_version r));
   ("position", λ r, int (ClusterRepo.ncc_position r)); ("fee", λ r, int (ClusterRepo.ncc_fee r));
   ("weight", λ r, int (ClusterRepo.ncc_weight r)); ("txids", λ r, texts (ClusterRepo.ncc_txids r));
   ("live", λ r, boolean (ClusterRepo.ncc_live r))].

Definition gauge_struct : Struct Gauges.GaugeRow :=
  [("sampled_at", λ r, time (Gauges.gr_sampled_at r));
   ("cluster_count", λ r, int (Gauges.gr_cluster_count r));
   ("clustered_tx_count", λ r, int (Gauges.gr_clustered_tx_count r));
   ("mempool_tx_count", λ r, int (Gauges.gr_mempool_tx_count r));
   ("total_weight", λ r, int (Gauges.gr_total_weight r));
   ("total_fee", λ r, int (Gauges.gr_total_fee r))].

Definition new_event_struct : Struct SystemEvents.NewSystemEvent :=
  [("kind", λ e, kind (SystemEvents.ne_kind e)); ("details", λ e, json (SystemEvents.ne_details e))].

(** ** The rows the code makes *)

Lemma insert_accepts t now next values :
  forallb (λ kv, bool_decide (kv.1 ∈ (t_columns t).*1)) values = true →
  forallb (λ column, has_type column.2 (stored t now next values column.1)) (t_columns t) = true →
  is_Some (insert_row t now next values).
Proof. unfold insert_row. intros -> ->. by eexists. Qed.

Lemma signed_64 z : is_i64 z → signed 64 z = true.
Proof. intros Hz. by apply bool_decide_eq_true. Qed.
Lemma signed_64_cast z : signed 64 (to_i64 z) = true.
Proof. apply signed_64, to_i64_range. Qed.
Lemma signed_64_sum l : signed 64 (sum_i64 l) = true.
Proof. rw sum_i64_wraps. apply signed_64_cast. Qed.
Lemma signed_32 z : - 2 ^ 31 ≤ z < 2 ^ 31 → signed 32 z = true.
Proof. intros Hz. by apply bool_decide_eq_true. Qed.
Lemma signed_32_cast z : signed 32 (to_i32 z) = true.
Proof.
  apply signed_32. unfold to_i32. pose proof (Z.mod_pos_bound (z + 2 ^ 31) (2 ^ 32) eq_refl). lia.
Qed.
Lemma signed_16_cast z : signed 16 (to_i16 z) = true.
Proof.
  apply bool_decide_eq_true. unfold to_i16.
  pose proof (Z.mod_pos_bound (z + 2 ^ 15) (2 ^ 16) eq_refl). lia.
Qed.
Create HintDb widths.
#[local] Hint Resolve signed_64 signed_64_cast signed_64_sum signed_32 signed_32_cast signed_16_cast
  : widths.

(** Every assigned column is one of the table's, and every column gets a value that fits. *)
Ltac accepts :=
  apply insert_accepts;
  [ by vm_compute
  | unfold save; cbn -[signed to_i64 to_i32 to_i16 sum_i64 Gauges.build_row];
    repeat (apply andb_true_intro; split);
    lazy -[signed to_i64 to_i32 to_i16 sum_i64 mes_weight bt_fee_sats bt_weight gb_height gb_size];
    eauto with widths ].

(** C19.  Every row the code builds fits its table: whatever the node reported within the
    widths of its types, no chunk, new cluster, transaction, block, gauge or counter sample,
    delta or event is refused for its type, width, a missing value or an unknown column.  The casts to
    i16, i32 and i64 are what makes positions, counts and sums fit. *)
Theorem rows_fit_their_columns `{EnumOrder} now next :
  is_i64 next →
  (∀ id version chunks live r, is_i64 id → - 2 ^ 31 ≤ version < 2 ^ 31 →
     r ∈ ClusterRepo.chunk_rows id version chunks live →
     is_Some (insert_row cluster_chunks now next (save new_chunk_struct r))) ∧
  (∀ id new, let sums := ClusterRepo.totals (nc_chunks new) in is_i64 id →
     is_Some (insert_row clusters now next (save new_cluster_struct
       (mkNewClusterRow id (ClusterRepo.sums_weight sums) (ClusterRepo.sums_fee sums)
          (nc_first_seen_at new))))) ∧
  (∀ seen txid, is_Some (insert_row transactions now next (save transaction_struct (hollow seen txid)))) ∧
  (∀ seen e, 0 ≤ mes_weight e < 2 ^ 32 →
     is_Some (insert_row transactions now next (save transaction_struct (Bootstrap.entry_row seen e)))) ∧
  (∀ block seen tx, is_i64 (bt_fee_sats tx) → is_i64 (bt_weight tx) →
     is_Some (insert_row transactions now next (save transaction_struct (Blocks.mined_row block seen tx)))) ∧
  (∀ created block, is_i64 (gb_height block) → is_i64 (gb_size block) →
     is_Some (insert_row blocks now next (save block_struct (Blocks.new_block created block)))) ∧
  (∀ snapshot live_len sampled,
     is_Some (insert_row mempool_gauge_samples now next
                (save gauge_struct (Gauges.build_row snapshot live_len sampled)))) ∧
  (∀ sampled period, is_i64 period →
     is_Some (insert_row mempool_counter_samples now next
                (save counter_struct (Sampling.mkCounterRow sampled period None None None))) ∧
     ∀ added confirmed evicted, is_i64 added → is_i64 confirmed → is_i64 evicted →
       is_Some (insert_row mempool_counter_samples now next (save counter_struct
         (Sampling.mkCounterRow sampled period (Some added) (Some confirmed) (Some evicted))))) ∧
  (∀ d, is_Some (insert_row mempool_deltas now next (save mempool_delta_struct d))) ∧
  (∀ e, is_Some (insert_row system_events now next (save new_event_struct e))).
Proof.
  intros Hnext. split_and!.
  - intros id version chunks live r Hid Hv (i & chunk & -> & _)%elem_of_lookup_imap_1. accepts.
  - intros id new sums Hid. accepts.
  - intros seen txid. accepts.
  - intros seen e Hw. assert (is_i64 (mes_weight e)) by (unfold is_i64; Zpow_lia). accepts.
  - intros block seen tx Hf Hw. accepts.
  - intros created block Hh Hs. accepts.
  - intros snapshot live_len sampled. unfold Gauges.build_row. rw Snapshot.stats_are_totals. accepts.
  - intros sampled period Hp. split; [accepts|]. intros added confirmed evicted Ha Hc He. accepts.
  - intros [txid reason created]. destruct reason; accepts.
  - intros [kind details]. destruct kind; accepts.
Qed.

Lemma rows_fit_their_columns_witness :
  is_i64 1 ∧
  is_Some (insert_row clusters 7 1 (save new_cluster_struct
    (mkNewClusterRow 5 400 (to_i64 (2 ^ 63)) 6))).
Proof.
  split; [by vm_compute|].
  apply (proj1 (proj2 (@rows_fit_their_columns stored_order 7 1 ltac:(by vm_compute))) 5
           (mkNewCluster [mkClusterChunk ["a"] (2 ^ 63) 400] 6)).
  by vm_compute.
Defined.
End Schema.
