(* ===== verification/Streams.v ===== *)
(** * The event streams of a subscription

    [build] of [api/src/controllers/websocket/streams.rs] with [ServerEvent] of
    [shared/src/ws.rs]: the stream each subject is fed from.  [MempoolFeed] and [ClusterFeed]
    follow a client of the two delta streams; here is the client of the chain tip, over
    [HomeService] and what [BlockService::apply_block] stores and announces. *)

From S2P Require Import Prelude.
From S2P Require Import Models.
From S2P Require Import Database.
From S2P Require Import Ledger.
From S2P Require Import ClusterSnapshot.
From S2P Require Import TxRepo.
From S2P Require Import Gauges.
From S2P Require Import MempoolFeed.
From S2P Require Import ClusterFeed.
From S2P Require Import Websocket.

Open Scope Z_scope.

Module Streams.
Import Database.

Inductive ServerEvent :=
| EvMempoolDelta (e : MempoolDeltaEvent)
| EvMempoolStats (e : Gauges.MempoolStatsEvent)
| EvChainTip (e : NewBlockInfoEvent)
| EvClusterDelta (e : ClusterDeltaEvent)
| EvError (message : string).

(** The [subject] tag an event is sent under. *)
Definition tag (e : ServerEvent) : string :=
  match e with
  | EvMempoolDelta _ => "mempool.delta"
  | EvMempoolStats _ => "mempool.stats"
  | EvChainTip _ => "chain.tip"
  | EvClusterDelta _ => "cluster.delta"
  | EvError _ => "error"
  end.

(** In milliseconds. *)
Definition MEMPOOL_STATS_INTERVAL : Z := 5000.

(** What the services give [build]: the snapshots read when it runs, the events that arrive
    on each bus after it subscribed, and the state at each tick of the interval. *)
Record Sources := mkSources {
  so_conn : Conn;
  so_ledger : Ledger.Inner;
  so_clusters : gmap Z Snapshot.ClusterState;
  so_cluster_deltas : list ClusterDeltaEvent;
  so_mempool_deltas : list MempoolDeltaEvent;
  so_new_blocks : list NewBlockInfoEvent;
  so_ticks : list (Ledger.Inner * gmap Z Snapshot.ClusterState);
}.

Section streams.
Context `{EnumOrder, BitcoinUnits, Env}.

(** [IntervalStream::new(..).then(current_stats)] *)
Fixpoint stats_stream (ticks : list (Ledger.Inner * gmap Z Snapshot.ClusterState)) (c : Conn) :
    list Gauges.MempoolStatsEvent :=
  match ticks with
  | [] => []
  | (ledger, clusters) :: ticks =>
      let '(stats, c) := Gauges.current_stats ledger clusters c in stats :: stats_stream ticks c
  end.

(** [stream::iter(initial).chain(new_blocks)] *)
Definition chain_tip_stream (initial : option NewBlockInfoEvent) (new_blocks : list NewBlockInfoEvent) :
    list NewBlockInfoEvent :=
  option_list initial ++ new_blocks.

Definition build (subject : Websocket.WsSubject) (s : Sources) : list ServerEvent :=
  match subject with
  | Websocket.WsClusterDelta =>
      EvClusterDelta <$> ClusterFeed.cluster_stream (so_clusters s) (so_cluster_deltas s)
  | Websocket.WsMempoolDelta =>
      EvMempoolDelta <$>
        MempoolFeed.get_snapshot_then_delta_stream (Ledger.live (so_ledger s)) (so_mempool_deltas s)
  | Websocket.WsMempoolStats => EvMempoolStats <$> stats_stream (so_ticks s) (so_conn s)
  | Websocket.WsChainTip =>
      EvChainTip <$> chain_tip_stream (Gauges.get_current_chain_tip (so_conn s)).1 (so_new_blocks s)
  end.

(** Every event is sent under the subject the client subscribed to. *)
Lemma build_tagged subject s : Forall (λ e, tag e = Websocket.ws_as_str subject) (build subject s).
Proof.
  apply Forall_forall. intros e. unfold build. destruct subject;
    by intros (x & -> & _)%list_elem_of_fmap.
Qed.
End streams.

(** ** The chain tip *)

Definition info (b : Block) : NewBlockInfoEvent := mkNewBlockInfoEvent (blk_height b) (blk_mined_at b).

(** The stored blocks, the block stored but not announced yet, and the bus. *)
Record TipFeed := mkTipFeed {
  tf_db : Db;
  tf_pending : option NewBlockInfoEvent;
  tf_bus : list NewBlockInfoEvent;
}.

(** [apply_block] stores, then announces; blocks are applied one at a time and each above
    the ones before.  Anything else leaves the blocks alone. *)
Inductive tip_step : TipFeed → TipFeed → Prop :=
| tip_store b db bus :
    db_blocks db !! blk_hash b = None →
    (∀ h b', db_blocks db !! h = Some b' → blk_height b' < blk_height b) →
    tip_step (mkTipFeed db None bus)
             (mkTipFeed (set_blocks (<[blk_hash b := b]> (db_blocks db)) db) (Some (info b)) bus)
| tip_announce e db bus :
    tip_step (mkTipFeed db (Some e) bus) (mkTipFeed db None (bus ++ [e]))
| tip_other db db' pending bus :
    db_blocks db' = db_blocks db →
    tip_step (mkTipFeed db pending bus) (mkTipFeed db' pending bus).

(** The highest stored block. *)
Definition is_tip (db : Db) (tip : option NewBlockInfoEvent) : Prop :=
  match tip with
  | Some e => ∃ h b, db_blocks db !! h = Some b ∧ e = info b ∧
                ∀ h' b', db_blocks db !! h' = Some b' → h' = h ∨ blk_height b' < blk_height b
  | None => db_blocks db = ∅
  end.

Lemma is_tip_blocks db db' tip : db_blocks db' = db_blocks db → is_tip db tip → is_tip db' tip.
Proof. intros Hb. unfold is_tip. by rw Hb. Qed.

(** What the home service reads, when the read succeeds, is the highest block. *)
Lemma chain_tip_read `{EnumOrder, Env} c tip e :
  is_tip (conn_db c) tip → (Gauges.get_current_chain_tip c).1 = Some e → tip = Some e.
Proof.
  intros Ht. unfold Gauges.get_current_chain_tip, TxRepo.latest.
  match goal with |- context [query (select ?f)] => pose proof (query_select_keeps f c) as [_ Hq] end.
  destruct (query _ c) as [[[[height mined]|]|err] c']; simpl in *; [|done..]. intros [= <-].
  symmetry in Hq. apply fmap_Some in Hq as (b & Hh & [= -> ->]).
  set (l := snd <$> map_to_list (db_blocks (conn_db c))) in *.
  pose proof (sort_by_sorted (λ b, - blk_height b) (shuffle l)) as Hsort.
  pose proof (elem_of_sort_by (λ b, - blk_height b) b (shuffle l)) as Hin.
  destruct (sort_by _ _) as [|b0 rest] eqn:E; [done|]. injection Hh as ->.
  assert (b ∈ l) as Hb by (rw -elem_of_shuffle -Hin; by left).
  apply list_elem_of_fmap in Hb as ([h b1] & Heq & Hb%elem_of_map_to_list). simpl in Heq. subst b1.
  destruct tip as [t|]; [|simpl in Ht; rw Ht lookup_empty in Hb; done].
  destruct Ht as (h' & b' & Hb' & -> & Hmax). destruct (Hmax h b Hb) as [->|Hlt].
  { rw Hb in Hb'. by injection Hb' as ->. }
  assert (b' ∈ b :: rest) as Hin'.
  { rw -E elem_of_sort_by elem_of_shuffle. apply list_elem_of_fmap. exists (h', b').
    split; [done|]. by apply elem_of_map_to_list. }
  apply elem_of_cons in Hin' as [->|Hin']; [lia|].
  apply StronglySorted_cons in Hsort as [Hall _].
  rw Forall_forall in Hall. specialize (Hall b' Hin'). unfold key_le in Hall. lia.
Qed.

(** The blocks stored so far, in order: those announced and the one that is not yet. *)
Definition stored_tips (f : TipFeed) : list NewBlockInfoEvent := tf_bus f ++ option_list (tf_pending f).

Definition newest (base : option NewBlockInfoEvent) (l : list NewBlockInfoEvent) : option NewBlockInfoEvent :=
  match last l with Some e => Some e | None => base end.

Record tip_inv (base : option NewBlockInfoEvent) (f : TipFeed) : Prop := {
  ti_tip : is_tip (tf_db f) (newest base (stored_tips f));
  ti_sorted : StronglySorted Z.lt (nbi_height <$> stored_tips f);
}.

Lemma newest_snoc base l e : newest base (l ++ [e]) = Some e.
Proof. unfold newest. by rw last_snoc. Qed.

Lemma sorted_snoc l x :
  StronglySorted Z.lt l → (∀ y, last l = Some y → y < x) → StronglySorted Z.lt (l ++ [x]).
Proof.
  induction l as [|a l IH]; intros Hs Hl; [by repeat constructor|].
  apply StronglySorted_cons in Hs as [Ha Hs]. simpl. apply StronglySorted_cons. split.
  - apply Forall_app_2; [done|]. apply Forall_singleton.
    destruct l as [|b l]; [by apply Hl|]. destruct (last (b :: l)) as [y|] eqn:E; [|by apply last_None in E].
    rw Forall_forall in Ha. apply (Z.lt_trans _ y); [|by apply Hl].
    apply Ha. by apply last_Some_elem_of.
  - apply IH; [done|]. intros y Hy. apply Hl. by destruct l.
Qed.

Lemma tip_step_inv base f f' :
  tip_step f f' → tip_inv base f → tip_inv base f' ∧ stored_tips f `prefix_of` stored_tips f'.
Proof.
  intros Hst [Ht Hs]. destruct Hst as [b db bus Hnew Habove|e db bus|db db' pending bus Hb].
  - unfold stored_tips in *. simpl in *. rw app_nil_r in Ht Hs |- *.
    split; [|by eexists]. split; simpl.
    + unfold stored_tips. simpl. rw newest_snoc. exists (blk_hash b), b. simpl.
      rw lookup_insert_eq. split; [done|]. split; [done|]. intros h' b'.
      destruct (decide (h' = blk_hash b)) as [->|Hne]; [by left|]. rw lookup_insert_ne //.
      intros Hb'. right. by eapply Habove.
    + unfold stored_tips. simpl. rw fmap_app. simpl. apply sorted_snoc; [done|].
      intros y Hy. rw fmap_last in Hy. apply fmap_Some in Hy as (e & He & ->).
      unfold newest in Ht. rw He in Ht. destruct Ht as (h & b' & Hb' & -> & _). by eapply Habove.
  - unfold stored_tips in *. simpl in *. split; [|by rw app_nil_r]. split; simpl;
      unfold stored_tips; simpl; by rw app_nil_r.
  - unfold stored_tips in *. simpl in *. split; [|done].
    split; unfold stored_tips; simpl; [by eapply is_tip_blocks|done].
Qed.

Lemma tip_steps_inv base f f' :
  rtc tip_step f f' → tip_inv base f →
  tip_inv base f' ∧ stored_tips f `prefix_of` stored_tips f' ∧ tf_bus f `prefix_of` tf_bus f'.
Proof.
  induction 1 as [f|f1 f2 f3 Hst _ IH]; intros Hi; [done|].
  destruct (tip_step_inv base _ _ Hst Hi) as [Hi2 Hp]. destruct (IH Hi2) as (Hi3 & Hp' & Hb).
  split; [done|]. split; [by etrans|]. etrans; [|exact Hb].
  destruct Hst; simpl; [done|by eexists|done].
Qed.

(** C13.  A client of the chain tip ends at the tip: whenever it subscribes ([f0]) and
    however many blocks are stored and announced before its first frame is read ([f1]), once
    no block is left to announce ([f2]) the last event it was sent is the highest stored
    block, provided it was sent any; and the announced blocks come in ascending order. *)
Theorem chain_tip_client_arrives `{EnumOrder, Env} base f0 f1 f2 c :
  is_tip (tf_db f0) base → tf_pending f0 = None → tf_bus f0 = [] →
  rtc tip_step f0 f1 → rtc tip_step f1 f2 → tf_pending f2 = None → conn_db c = tf_db f1 →
  ∀ subscribed, (subscribed ≤ length (tf_bus f1))%nat →
  let stream := chain_tip_stream (Gauges.get_current_chain_tip c).1 (drop subscribed (tf_bus f2)) in
  (stream ≠ [] → is_tip (tf_db f2) (last stream)) ∧
  StronglySorted Z.lt (nbi_height <$> drop subscribed (tf_bus f2)).
Proof.
  intros Hbase Hp0 Hb0 R1 R2 Hp2 Hc subscribed Hsub stream.
  assert (tip_inv base f0) as I0.
  { split; unfold stored_tips; rw Hp0 Hb0; [done|constructor]. }
  destruct (tip_steps_inv base _ _ R1 I0) as (I1 & _ & _).
  destruct (tip_steps_inv base _ _ R2 I1) as (I2 & [s2 S2] & [b2 B2]).
  destruct I2 as [T2 Q2]. unfold stored_tips at 1 in S2. unfold stored_tips in T2, Q2.
  rw Hp2 app_nil_r in S2 T2 Q2. split.
  - intros Hne. unfold stream, chain_tip_stream in *.
    destruct (drop subscribed (tf_bus f2)) as [|e later] eqn:E.
    + rw app_nil_r in Hne |- *. destruct (Gauges.get_current_chain_tip c).1 as [e|] eqn:Ec; [|done].
      change (is_tip (tf_db f2) (Some e)). assert (length (tf_bus f2) ≤ subscribed)%nat as Hlen.
      { pose proof (length_drop (tf_bus f2) subscribed) as Hl. rw E in Hl. simpl in Hl. lia. }
      assert (b2 = []) as ->.
      { destruct b2; [done|]. rw B2 length_app in Hlen. simpl in Hlen. lia. }
      rw app_nil_r in B2. unfold stored_tips in S2. rw B2 -app_assoc in S2.
      assert ([] = option_list (tf_pending f1) ++ s2) as Hnil.
      { apply (app_inv_head (tf_bus f1)). by rw app_nil_r. }
      symmetry in Hnil.
      apply app_eq_nil in Hnil as [Hp1 _].
      assert (is_tip (conn_db c) (newest base (tf_bus f1))) as Htip.
      { rw Hc. destruct I1 as [T1 _]. unfold stored_tips in T1. by rw Hp1 app_nil_r in T1. }
      rw -(chain_tip_read c _ e Htip Ec). by rw B2 in T2.
    + destruct (last (e :: later)) as [x|] eqn:El; [|by apply last_None in El].
      assert (last (tf_bus f2) = Some x) as Hl.
      { rw -(take_drop subscribed (tf_bus f2)) E. by rw last_app El. }
      rw last_app El. unfold newest in T2. by rw Hl in T2.
  - rw -(take_drop subscribed (tf_bus f2)) fmap_app in Q2. by apply StronglySorted_app_1_r in Q2.
Qed.

(** ** A run: two blocks land between the subscription and the first frame *)

Definition blk (hash : string) (height : Z) : Block := mkBlock hash height (600 * height) 0 0 0 0 0.
Definition tip0 : TipFeed := mkTipFeed empty_db None [].
Definition with_block (b : Block) (db : Db) : Db := set_blocks (<[blk_hash b := b]> (db_blocks db)) db.
Definition two_stored : TipFeed :=
  mkTipFeed (with_block (blk "b" 5) (with_block (blk "a" 4) empty_db)) (Some (info (blk "b" 5)))
    [info (blk "a" 4)].
Definition two_announced : TipFeed :=
  mkTipFeed (tf_db two_stored) None [info (blk "a" 4); info (blk "b" 5)].

Lemma two_blocks_land : rtc tip_step tip0 two_stored.
Proof.
  eapply rtc_l; [apply (tip_store (blk "a" 4)); [done|]|].
  { intros h b' Hb. simpl in Hb. by rw lookup_empty in Hb. }
  eapply rtc_l; [apply tip_announce|].
  eapply rtc_l; [apply (tip_store (blk "b" 5)); [done|]|apply rtc_refl].
  intros h b' Hb. simpl in Hb. apply lookup_insert_Some in Hb as [[_ <-]|[_ Hb]]; [done|].
  by rw lookup_empty in Hb.
Qed.

Lemma chain_tip_client_arrives_witness :
  is_tip (tf_db two_announced)
    (last (chain_tip_stream
             (@Gauges.get_current_chain_tip calm_env stored_order (mkConn (tf_db two_stored) 0 None)).1
             (drop 0 (tf_bus two_announced)))).
Proof.
  apply (@chain_tip_client_arrives stored_order calm_env None tip0 two_stored two_announced
    (mkConn (tf_db two_stored) 0 None) eq_refl eq_refl eq_refl two_blocks_land
    (rtc_once _ _ (tip_announce _ _ _)) eq_refl eq_refl 0%nat (Nat.le_0_l _)). vm_compute. discriminate.
Defined.

End Streams.
