(* ===== verification/Http.v ===== *)
(** * The HTTP routes

    [api/src/infra/router.rs], [require_ready] of [api/src/infra/readiness.rs] and the
    controllers under [api/src/controllers/]: which handler answers which request, behind
    which gate, over the services of the other files.  Extracting parameters and rendering
    JSON is [axum]'s; a request carries its parameters, a response its status and the value
    it renders.  The websocket route hands the connection to [Websocket]. *)

From S2P Require Import Prelude.
From S2P Require Import Models.
From S2P Require Import Ledger.
From S2P Require Import Database.
From S2P Require Import SystemEvents.
From S2P Require Import NodeHealth.
From S2P Require Import Watchers.
From S2P Require Import TxRepo.
From S2P Require Import TxLookup.
From S2P Require Import Sampling.
From S2P Require Import Gauges.

Open Scope Z_scope.

Module Http.
Import Database SystemEvents NodeHealth.

(** [AppState], with the tables the handlers read beside those of [Db]. *)
Record AppState := mkAppState {
  ap_readiness : Readiness;
  ap_conn : Conn;
  ap_ledger : Ledger.Inner;
  ap_diagram : Watchers.FeerateDiagramWatcher;
  ap_counters : gmap Z Sampling.CounterRow;
  ap_gauges : gmap Z Gauges.GaugeRow;
  ap_events : list SystemEventRow;
  ap_seq : Z;
}.

Definition with_conn (c : Conn) (s : AppState) : AppState :=
  mkAppState (ap_readiness s) c (ap_ledger s) (ap_diagram s) (ap_counters s) (ap_gauges s)
    (ap_events s) (ap_seq s).

(** A request, by the route it matches. *)
Inductive Request :=
| GetHealth
| GetSystemEvents (from to : option Z)
| GetFeerateDiagram
| GetMempoolTxids
| GetMempoolGauge (metric : Gauges.GaugeMetric) (from to : option Z)
| GetMempoolCounters (from to : option Z)
| GetTransactions (txids : string)
| GetWs
| GetUnknown (path : string).

Inductive Body :=
| HealthBody (report : bool * Phase * NodeReport)
| EventsBody (events : list SystemEventRow)
| DiagramBody (diagram : Watchers.MempoolFeerateDiagram)
| TxidsBody (txids : gset string)
| GaugeBody (series : Gauges.GaugeSeries)
| CountersBody (series : Z * list (Z * option Z * option Z * option Z))
| LookupBody (lookup : TxLookup.TransactionLookup)
| ErrorBody (message : string)
| NoBody.

Record Response := mkResponse {
  rs_status : Z;
  rs_body : Body;
}.

(** [Result<Json<T>, ApiError>] as a response. *)
Definition respond {A} (render : A → Body) (r : result ApiError A) : Response :=
  match r with
  | Ok a => mkResponse 200 (render a)
  | Err e => let '(status, message) := into_response e in mkResponse status (ErrorBody message)
  end.

Section router.
Context `{Env} `{EnumOrder} `{BitcoinUnits}.

(** ** The handlers *)

Definition health (s : AppState) : Response * AppState :=
  (mkResponse 200 (HealthBody (report (ap_readiness s))), s).

Definition system_events (from to : option Z) (s : AppState) : Response * AppState :=
  let '(r, lg) := list_events from to (mkLog (ap_conn s) (ap_events s) (ap_seq s)) in
  (respond EventsBody r,
   mkAppState (ap_readiness s) (lg_conn lg) (ap_ledger s) (ap_diagram s) (ap_counters s)
     (ap_gauges s) (lg_rows lg) (lg_seq lg)).

Definition feerate_diagram (s : AppState) : Response * AppState :=
  (mkResponse 200 (DiagramBody (Watchers.current_diagram (ap_diagram s))), s).

(** [clone_live_snapshot] *)
Definition mempool_txids (s : AppState) : Response * AppState :=
  (mkResponse 200 (TxidsBody (Ledger.live (ap_ledger s))), s).

Definition mempool_gauge_metric (metric : Gauges.GaugeMetric) (from to : option Z)
    (s : AppState) : Response * AppState :=
  let '(r, st) := Gauges.metric_series metric from to
                    (Gauges.mkGaugeStore (ap_conn s) (ap_gauges s)) in
  (respond GaugeBody r,
   mkAppState (ap_readiness s) (Gauges.gg_conn st) (ap_ledger s) (ap_diagram s)
     (ap_counters s) (Gauges.gg_samples st) (ap_events s) (ap_seq s)).

Definition mempool_counters (from to : option Z) (s : AppState) : Response * AppState :=
  let '(r, st) := Sampling.series from to
                    (Sampling.mkStore (ap_conn s) (ap_counters s) (ap_events s)) in
  (respond CountersBody r,
   mkAppState (ap_readiness s) (Sampling.sp_conn st) (ap_ledger s) (ap_diagram s)
     (Sampling.sp_samples st) (ap_gauges s) (Sampling.sp_events st) (ap_seq s)).

Definition transactions_route (txids : string) (s : AppState) : Response * AppState :=
  let '(r, c) := TxLookup.transactions txids (ap_conn s) in
  (respond LookupBody r, with_conn c s).

(** ** The router *)

(** The routes [build] puts behind [require_ready]. *)
Definition data_route (req : Request) : bool :=
  match req with
  | GetFeerateDiagram | GetMempoolTxids | GetMempoolGauge _ _ _ | GetMempoolCounters _ _
  | GetTransactions _ | GetWs => true
  | GetHealth | GetSystemEvents _ _ | GetUnknown _ => false
  end.

Definition route (req : Request) (s : AppState) : Response * AppState :=
  match req with
  | GetHealth => health s
  | GetSystemEvents from to => system_events from to s
  | GetFeerateDiagram => feerate_diagram s
  | GetMempoolTxids => mempool_txids s
  | GetMempoolGauge metric from to => mempool_gauge_metric metric from to s
  | GetMempoolCounters from to => mempool_counters from to s
  | GetTransactions txids => transactions_route txids s
  | GetWs => (mkResponse 101 NoBody, s)
  | GetUnknown _ => (mkResponse 404 NoBody, s)
  end.

(** [require_ready]: the request, or the health report with 503. *)
Definition require_ready (next : AppState → Response * AppState) (s : AppState) :
    Response * AppState :=
  if is_ready (ap_readiness s) then next s
  else (mkResponse 503 (HealthBody (report (ap_readiness s))), s).

Definition serve (req : Request) (s : AppState) : Response * AppState :=
  if data_route req then require_ready (route req) s else route req s.
End router.

(** ** Reading changes nothing *)

(** Two states with the same data: only the connection's step may differ. *)
Definition same_data (s s' : AppState) : Prop :=
  ∃ c, conn_db c = conn_db (ap_conn s) ∧ s' = with_conn c s.

Lemma same_data_refl s : same_data s s.
Proof. exists (ap_conn s). split; [done|]. by destruct s. Qed.

Section facts.
Context `{Env} `{EnumOrder} `{BitcoinUnits}.

Lemma gauge_range_reads from to res st :
  let st' := (Gauges.gauge_range from to res st).2 in
  conn_db (Gauges.gg_conn st') = conn_db (Gauges.gg_conn st) ∧
  Gauges.gg_samples st' = Gauges.gg_samples st.
Proof.
  cbv zeta. unfold Gauges.gauge_range, Gauges.gauge_range_native, Gauges.gauge_range_bucketed.
  destruct (_ =? _); match goal with |- context [Gauges.on_gauges ?g st] =>
    pose proof (Gauges.on_gauges_spec g st) as Hs; destruct (Gauges.on_gauges g st) as [[r|e] st1]
  end; destruct Hs as [Hd Hs]; simpl; (split; [done|]); by simplify_eq.
Qed.

Lemma counter_range_reads from to res st :
  let st' := (Sampling.range from to res st).2 in
  Sampling.only_samples st st' ∧ Sampling.sp_samples st' = Sampling.sp_samples st.
Proof.
  cbv zeta. unfold Sampling.range, Sampling.range_native, Sampling.range_bucketed.
  destruct (_ =? _); match goal with |- context [Sampling.on_samples ?g st] =>
    pose proof (Sampling.on_samples_spec g st) as Hs; destruct (Sampling.on_samples g st) as [[r|e] st1]
  end; destruct Hs as [Hd Hs]; simpl; (split; [done|]); by simplify_eq.
Qed.

Lemma gauge_series_reads metric from to st :
  let st' := (Gauges.metric_series metric from to st).2 in
  conn_db (Gauges.gg_conn st') = conn_db (Gauges.gg_conn st) ∧
  Gauges.gg_samples st' = Gauges.gg_samples st.
Proof.
  unfold Gauges.metric_series, Gauges.gauge_fetch_range, mbind, Gauges.Gm_bind. cbv zeta.
  destruct to as [to|]; simpl; (destruct (_ <=? _); [done|]);
    match goal with |- context [Gauges.gauge_range ?f ?t ?r ?st0] =>
      pose proof (gauge_range_reads f t r st0) as Hs;
      destruct (Gauges.gauge_range f t r st0) as [[rows|e] st1]
    end; exact Hs.
Qed.

Lemma counter_series_reads from to st :
  let st' := (Sampling.series from to st).2 in
  conn_db (Sampling.sp_conn st') = conn_db (Sampling.sp_conn st) ∧
  Sampling.sp_samples st' = Sampling.sp_samples st ∧
  Sampling.sp_events st' = Sampling.sp_events st.
Proof.
  unfold Sampling.series, Sampling.fetch_range, mbind, Sampling.Sm_bind. cbv zeta.
  destruct to as [to|]; simpl; (destruct (_ <=? _); [done|]);
    match goal with |- context [Sampling.range ?f ?t ?r ?st0] =>
      pose proof (counter_range_reads f t r st0) as [[Hd He] Hs];
      destruct (Sampling.range f t r st0) as [[rows|e] st1]
    end; exact (conj Hd (conj Hs He)).
Qed.

Lemma transactions_reads txids c : conn_db (TxLookup.transactions txids c).2 = conn_db c.
Proof.
  unfold TxLookup.transactions. destruct (TxLookup.parse_txids txids); [|done].
  unfold TxLookup.lookup_txids, TxRepo.find_by_txids.
  match goal with |- context [query (select ?f) c] =>
    pose proof (query_select_keeps f c) as [Hd _]; destruct (query (select f) c) as [[rows|e] c']
  end; [|done]. by destruct (TxLookup.partition_txids _ _).
Qed.

Lemma route_reads req s : same_data s (route req s).2.
Proof.
  destruct req; simpl; try apply same_data_refl.
  - unfold system_events, list_events, repo_list. set (lg := mkLog _ _ _).
    match goal with |- context [read_log ?f lg] =>
      pose proof (read_log_spec f lg) as Hs; destruct (read_log f lg) as [r lg']
    end. destruct Hs as (Hd & Hr & Hq & _). exists (lg_conn lg'). split; [exact Hd|].
    simpl. by rw Hr Hq.
  - unfold mempool_gauge_metric. set (st := Gauges.mkGaugeStore _ _).
    pose proof (gauge_series_reads metric from to st) as [Hd Hs].
    destruct (Gauges.metric_series _ _ _ st) as [r st']. exists (Gauges.gg_conn st').
    split; [exact Hd|]. simpl in *. by rw Hs.
  - unfold mempool_counters. set (st := Sampling.mkStore _ _ _).
    pose proof (counter_series_reads from to st) as (Hd & Hs & He).
    destruct (Sampling.series _ _ st) as [r st']. exists (Sampling.sp_conn st').
    split; [exact Hd|]. simpl in *. by rw Hs He.
  - unfold transactions_route. pose proof (transactions_reads txids (ap_conn s)) as Hd.
    destruct (TxLookup.transactions _ _) as [r c]. by exists c.
Qed.

(** ** What a request is answered *)

(** Every checkout from the pool fails. *)
Definition outage : Prop := ∀ k, is_Some (pool_fault k).

(** The requests that are refused, with the text of the refusal. *)
Definition refused (req : Request) (message : string) : Prop :=
  match req with
  | GetMempoolGauge _ from to | GetMempoolCounters from to =>
      message = "`from` must be earlier than `to`" ∧
      from ≠ None ∧ ∀ f t, from = Some f → to = Some t → t ≤ f
  | GetTransactions txids => TxLookup.parse_txids txids = Err (BadRequest message)
  | _ => False
  end.

(** The requests whose handler asks the database. *)
Definition asks_database (req : Request) : Prop :=
  match req with
  | GetSystemEvents _ _ | GetMempoolGauge _ _ _ | GetMempoolCounters _ _ | GetTransactions _ => True
  | _ => False
  end.

(** An outcome of a service that goes with the faults. *)
Definition judged {A} (bad : string → Prop) (r : result ApiError A) : Prop :=
  match r with
  | Ok _ => ¬ outage
  | Err (BadRequest message) => bad message
  | Err (Internal _) => ¬ faultless
  end.

Lemma read_judged {A} (f : Z → Db → A) c :
  match (query (statement (λ now db, Ok (f now db, db))) c).1 with
  | Ok _ => ¬ outage
  | Err _ => ¬ faultless
  end.
Proof.
  unfold query, statement. destruct (pool_fault _) as [msg|] eqn:Ep; simpl.
  { intros Hf. destruct (Hf (conn_step c)). congruence. }
  destruct (stmt_fault _) as [msg|] eqn:Es; simpl.
  - intros Hf. destruct (Hf (S (conn_step c))). congruence.
  - intros Ho. destruct (Ho (conn_step c)) as [msg Hm]. congruence.
Qed.

Lemma list_events_judged from to lg : judged (λ _, False) (list_events from to lg).1.
Proof.
  unfold list_events, repo_list, read_log, on_log.
  match goal with |- context [query (statement ?g) ?c] =>
    pose proof (read_judged (λ now _, now) c) as Hq;
    destruct (query (statement g) c) as [[now|e] c1]
  end; exact Hq.
Qed.

(** The range of a series: refused only when it is empty. *)
Lemma range_refused req from to (now : Z) :
  req = GetMempoolCounters from to ∨ (∃ metric, req = GetMempoolGauge metric from to) →
  (default now to <=? default (default now to - Sampling.DEFAULT_RANGE) from) = true →
  refused req "`from` must be earlier than `to`".
Proof.
  intros Hreq Hle%Z.leb_le.
  assert (from ≠ None ∧ ∀ f t, from = Some f → to = Some t → t ≤ f) as Hr.
  { split; [intros ->; unfold Sampling.DEFAULT_RANGE, Sampling.SECOND in Hle; simpl in Hle; lia|].
    intros f t -> ->. exact Hle. }
  by destruct Hreq as [->|[metric ->]].
Qed.

Lemma gauge_series_judged metric from to st :
  judged (refused (GetMempoolGauge metric from to)) (Gauges.metric_series metric from to st).1.
Proof.
  unfold Gauges.metric_series, Gauges.gauge_fetch_range, mbind, Gauges.Gm_bind. cbv zeta.
  set (now := clock (conn_step (Gauges.gg_conn st)) 0).
  assert (∃ st', (match to with Some to => mret to | None => Gauges.gauge_now end) st
    = (default now to, st')) as [st' ->] by (destruct to; by eexists).
  destruct (_ <=? _) eqn:Hle; [eapply range_refused; [by right; eexists|exact Hle]|].
  unfold Gauges.gauge_range, Gauges.gauge_range_native, Gauges.gauge_range_bucketed, Gauges.on_gauges.
  pose proof (read_judged (λ _ _, ()) (Gauges.gg_conn st')) as Hq. unfold select.
  destruct (_ =? _); destruct (query _ _) as [[[]|e] c1]; exact Hq.
Qed.

Lemma counter_series_judged from to st :
  judged (refused (GetMempoolCounters from to)) (Sampling.series from to st).1.
Proof.
  unfold Sampling.series, Sampling.fetch_range, mbind, Sampling.Sm_bind. cbv zeta.
  set (now := clock (conn_step (Sampling.sp_conn st)) 0).
  assert (∃ st', (match to with Some to => mret to | None => Sampling.now_utc end) st
    = (default now to, st')) as [st' ->] by (destruct to; by eexists).
  destruct (_ <=? _) eqn:Hle; [eapply range_refused; [by left|exact Hle]|].
  unfold Sampling.range, Sampling.range_native, Sampling.range_bucketed, Sampling.on_samples.
  pose proof (read_judged (λ _ _, ()) (Sampling.sp_conn st')) as Hq. unfold select.
  destruct (_ =? _); destruct (query _ _) as [[[]|e] c1]; exact Hq.
Qed.

Lemma transactions_judged raw c : judged (refused (GetTransactions raw)) (TxLookup.transactions raw c).1.
Proof.
  unfold TxLookup.transactions. destruct (TxLookup.parse_txids raw) as [txids|[msg|e]] eqn:Ep; simpl.
  - unfold TxLookup.lookup_txids, TxRepo.find_by_txids, select.
    match goal with |- context [query (statement ?g) c] =>
      match g with λ _ db, Ok (@?f db, db) => pose proof (read_judged (λ _, f) c) as Hq end;
      destruct (query (statement g) c) as [[rows|e] c1]
    end; [|exact Hq]. by destruct (TxLookup.partition_txids _ _).
  - done.
  - revert Ep. unfold TxLookup.parse_txids. repeat case_match; congruence.
Qed.

(** What the answer to [req] looks like, past the gate. *)
Record answer_ok (req : Request) (resp : Response) : Prop := {
  an_bad : rs_status resp = 400 → ∃ message, rs_body resp = ErrorBody message ∧ refused req message;
  an_internal : rs_status resp = 500 → rs_body resp = ErrorBody "internal error" ∧ ¬ faultless;
  an_outage : outage → asks_database req → rs_status resp ∈ [400; 500];
  an_status : rs_status resp ∈ [101; 200; 400; 404; 500];
}.

Lemma respond_ok {A} req (render : A → Body) r :
  judged (refused req) r → answer_ok req (respond render r).
Proof.
  destruct r as [a|[message|e]]; simpl; intros Hj.
  - split; simpl; [done|done|done|set_solver].
  - split; simpl; [by exists message|done|set_solver|set_solver].
  - split; simpl; [done|done|set_solver|set_solver].
Qed.

Lemma route_ok req s : answer_ok req (route req s).1.
Proof.
  destruct req; simpl; try (by split; [done|done|intros _ []|set_solver]).
  - unfold system_events. set (lg := mkLog _ _ _). pose proof (list_events_judged from to lg) as Hj.
    destruct (list_events from to lg) as [r lg']. apply respond_ok. by destruct r as [|[]].
  - unfold mempool_gauge_metric. set (st := Gauges.mkGaugeStore _ _).
    pose proof (gauge_series_judged metric from to st) as Hj.
    destruct (Gauges.metric_series metric from to st) as [r st']. by apply respond_ok.
  - unfold mempool_counters. set (st := Sampling.mkStore _ _ _).
    pose proof (counter_series_judged from to st) as Hj.
    destruct (Sampling.series from to st) as [r st']. by apply respond_ok.
  - unfold transactions_route. pose proof (transactions_judged txids (ap_conn s)) as Hj.
    destruct (TxLookup.transactions txids (ap_conn s)) as [r c]. by apply respond_ok.
Qed.

End facts.

(** ** Witness *)

(** Waiting for the node, while no connection can be had. *)
Definition no_connections : Env :=
  {| clock := λ _ _, 0; pool_fault := λ _, Some "pool timed out"%string; stmt_fault := λ _, None |}.
Definition waiting_state : AppState :=
  mkAppState Readiness_default (mkConn empty_db 0 None) Ledger.default
    Watchers.FeerateDiagramWatcher_new ∅ ∅ [] 0.

Local Abbreviation demo_serve := (@serve no_connections stored_order ceil_units).


End Http.
